(* ===== verification/_CoqProject ===== *)
-Q . S2P
Prelude.v
Hex.v
Interfaces.v
Concrete.v
Account.v
Auth.v
Transaction.v
Executor.v
Block.v
Signed.v
Database.v
Execution.v
Application.v
Chain.v
Mempool.v
Answers.v
Webserver.v
Sources.v
Relayer.v
Indexer.v
Certificate.v
Client.v
Lifecycle.v
Spammer.v
Lookup.v
CertifiedIndex.v
Writers.v
CommitPipeline.v
CommitInvariant.v
Lockstep.v
UploadQueue.v
Consumer.v
Backpressure.v
BoundedConsumer.v
Connect.v
Settings.v
Deploy.v
LocalBundle.v
RemoteBundle.v
IndexServers.v
Routes.v
Engine.v
