(* ===== verification/Prelude.v ===== *)
(** * Constantinople: a verification development

    This library models the Rust workspace under src/ (a payment chain built
    on the commonware libraries) and proves its main guarantees.  This root
    file holds the notions every component shares: results, panics, machine
    integers, byte strings, big-endian integers, list and option lemmas, the
    tactics and the hint databases.

    ** The program

    Clients sign transfers and post batches of them to a relayer or directly
    to a validator's mempool.  The mempool validates a batch, keeps its
    transactions in a bounded pool and hands them to the consensus application
    when the validator leads a view.  The application filters them through the
    transfer executor into a block, every validator re-executes the block
    before voting for it, and a certified block is applied to two
    authenticated databases: the accounts and the history of transaction
    digests.  The mempool learns which of its batches were finalized, and an
    indexer publishes each finalized block, with its certificates, to a remote
    store.

    ** Files

    - Prelude.v, this file.
    - Hex.v (crates/indexer/src/publisher/sql.rs, client.rs): hexadecimal
      text and its reader.
    - Interfaces.v: one type class per library the sources call, with the
      documented laws they rely on: [FixedCodec] and [CodecLib] (binary codec), [Hashing],
      [Keys] (the two signature schemes and batch verification), [Json] (the
      client data of WebAuthn) and [Strategy] (parallel chunk processing).
      Further interfaces stand next to their only users: [LazyKey] in
      Transaction.v, [ConsensusLib] in Block.v, [StateDb] and [HistoryDb] in
      Database.v, [Sealable], [SignatureScheme] and [LazySignature] in
      Signed.v, [ChildBatches] in Chain.v, [RelayerJson] in Relayer.v,
      [CertificateLib] in Certificate.v, [ClientJson] in Client.v,
      [SimplexArtifacts] in CertifiedIndex.v, [StoreLib] in Connect.v,
      [ThresholdLib] and [CodingLib] in Engine.v; the writers of Writers.v
      are records of operations with their laws.
    - Concrete.v: executable instances of the classes of Interfaces.v.  Each
      class declared elsewhere is inhabited at the end of its file, so every
      law is satisfiable and each witness evaluates.
    - Account.v (crates/primitives/src/account.rs): [Nonce] and [Account],
      [next_nonce_state] and [consume_current_nonce] with the window of 64
      run-ahead nonces, and the codecs.
    - Auth.v (crates/primitives/src/auth.rs, account keys of account.rs):
      tagged public keys and signatures, account keys, the batch verifier,
      WebAuthn assertions, base64url.
    - Transaction.v (crates/primitives/src/sealed.rs, transaction.rs,
      signed.rs): transactions, seals, signed transactions, lazily decoded
      ones with their cell as an explicit cache, and the chunk routines that
      decode and verify a body in parallel.
    - Executor.v (crates/application/src/executor.rs): the overlay of writes,
      one transfer, the list, the fast path on distinct accounts and the
      proposal filter, with an abstract ledger as their specification.
    - Block.v (crates/primitives/src/block.rs): headers, blocks, codecs, seal.
    - Signed.v (crates/primitives/src/signed.rs): the container of a signed
      value over any sealable type and signature scheme.
    - Database.v (crates/application/src/consensus/db.rs): the two databases
      as interfaces, and the helpers that stage a changeset.
    - Execution.v (crates/application/src/consensus/execution.rs, history.rs,
      body.rs, time.rs): loading accounts, executing a body or a proposal,
      finalizing both databases, signatures, timestamps and commitments.
    - Application.v (crates/application/src/consensus/mod.rs, genesis.rs,
      lifecycle.rs, glue.rs): genesis, [propose_child], [verify_child],
      [apply_certified], the hook and the pruning of finalized blocks.
    - Chain.v: blocks verified one on top of the other, and the node that only
      applies them.
    - Mempool.v (crates/mempool/src/webserver/actor.rs): the actor; [Actor] is
      the tracker with the locals of the event loop, [handle] one message,
      [run_actor] a sequence of messages; sends on channels are events.
      Answers.v: a request follows the transactions in front of it through the
      pool and the proposals until it is answered; what a report does whatever
      the order of the set it iterates over; outcomes that are overwritten.
    - Webserver.v (crates/mempool/src/webserver/http.rs, mailbox.rs): request
      validation, the handlers, and the bounded mailbox.
    - Sources.v (crates/mempool/src/lib.rs, mocks.rs, webserver/mailbox.rs): the
      [TransactionSource] trait as a class with laws ([SourceLaws]); its
      proposals are a relation, as tasks race with a request.  The mailbox of
      the actor and the static source of the tests are its instances.
    - Relayer.v (bin/validator/src/relayer.rs): leader selection, forwarding,
      status merging and retries.
    - Indexer.v (crates/indexer/src/publisher/block.rs, qmdb.rs, sql.rs): rows
      and history operations of a block, and the publisher's cursors.
    - Certificate.v (crates/indexer/src/publisher/certificate.rs,
      crates/indexer/src/simplex_block.rs): pairing of blocks and certificates.
    - Client.v (crates/mempool/src/webserver/client.rs,
      bin/validator/src/state_reader.rs): the HTTP client of the mempool,
      composed with the handlers of Webserver.v.
    - Lifecycle.v: one batch from the client's request through the mempool and
      the application to the answer that reports its finality.
    - Spammer.v (bin/spammer/src): the load generator, from its settings and
      streams of signed batches to the counters of its submitter; composed
      with the executor, the validators' checks and the relayer.
    - Lookup.v (crates/indexer/src/sql_schema.rs, client.rs, codec.rs): the
      tables of the index and the client that reads them back.
    - CertifiedIndex.v (crates/indexer/src/publisher/certificate.rs,
      client.rs): the certificate reporter, its tasks and channel as a
      transition system, and the client's reads by view and height.
    - Writers.v, CommitPipeline.v, CommitInvariant.v
      (crates/indexer/src/publisher/qmdb.rs): the contracts of the remote
      writers (the longest flushed prefix, consecutive locations, disjoint
      namespaces), the preparer and committer tasks as a transition system over
      them, and what every interleaving keeps true.  Lockstep.v: the two
      writers advance together with the uploads.
    - UploadQueue.v (crates/indexer/src/publisher/qmdb.rs,
      bin/validator/src/run.rs): the codec of the durable queue and the
      producer's cursors as a transition system with crashes.  Consumer.v: the
      task that feeds the queue to the pipeline, with crashes and restarts.
      Backpressure.v and BoundedConsumer.v: the pipeline and the consumer with
      the capacities of their channels, as refinements.
    - Connect.v (crates/indexer/src/publisher/qmdb.rs, bin/validator/src/run.rs):
      connecting a publisher, recovering its writers from the store, retries,
      the lazy publisher and shutdown.
    - Settings.v (bin/validator/src/config.rs, the start of run.rs): the YAML
      settings of a validator, their paths and decoding, and what a node starts
      for them; YAML text ([YamlLib]), keys and shares ([DkgLib]) and IPv6 text
      ([Ipv6Text]) are interfaces.
    - Deploy.v (bin/deploy/src/main.rs, local.rs, remote.rs): the tool that
      generates configuration bundles; LocalBundle.v and RemoteBundle.v run the
      validator's loader of Settings.v, and the spammer's of Spammer.v, on what
      it writes.
    - IndexServers.v (crates/indexer/src/main.rs, bin/sql.rs, bin/qmdb.rs): the
      settings, URLs and routes of the store and of the two query services.
    - Routes.v (crates/mempool/src/webserver/http.rs,
      bin/validator/src/relayer.rs): the routers of the mempool and of the
      relayer, the limit on bodies, and the client over whole URLs.
    - Engine.v (crates/engine/src/engine.rs, run.rs): the assembly of a
      validator's engine from its settings and its disk, and its start.

    A file states its definitions first, then its lemmas, its properties and a
    concrete input for each property that has hypotheses.

    ** How the code is rendered

    Rust integers are elements of [Z] with their width written out: [wrap64]
    where the release build wraps, [checked_add] and its kin where the code
    checks.  [result] is Rust's [Result]; [run] is a computation that may
    panic ([expect], [panic!], [assert!]), so a theorem whose conclusion is an
    equation with [Ret] says that the code does not panic.  Readers take a
    buffer and return the rest.  Hash maps and sets are finite maps and sets;
    where the code iterates over one, the theorems hold for the result
    whatever the order ([changeset_canonical], [resolve_all_perm]).  What tasks
    running beside a request do to it is a parameter as well: a proposal from
    the mailbox has an outcome for every set of reports that arrive before it
    ([mailbox_proposes]).  The cell of a lazily decoded
    transaction is a field of its record, and forcing it is an operation that
    returns the new record.  Storage, clocks, networks, random numbers and
    closed channels are parameters of the definitions that meet them.

    ** What the theorems show

    - Replay protection: [nonce_consume_refines_used_set] gives the window
      arithmetic its meaning as a set of used nonces; [nonce_no_replay],
      [nonce_window_order_irrelevant] and [execute_no_replay] follow from it.
    - Execution: [execute_refines_ledger] relates the executor to the ledger
      on every branch, errors included; [execute_conserves_supply],
      [execute_unique_agrees], [propose_replays], [changeset_canonical].
    - Consensus: what is proposed is accepted ([proposed_block_verifies]),
      whatever source its transactions come from ([sourced_block_verifies]), what
      is accepted is sound ([verified_block_sound]) and applies without panic
      to the same databases ([verified_block_applies]); the history ranges
      chain, genesis is valid, pruning follows its schedule.
    - Composition: a whole chain is one run of the abstract ledger, without
      replay or loss of money, and every node that applies it has the same
      databases ([chain_refines_ledger]); a valid submission to an idle
      validator is proposed, accepted everywhere and answered with finality
      ([submission_finalizes]).
    - Codecs: every decoder of keys, signatures, transactions and blocks
      accepts exactly what its encoder writes, so encodings are unique.
    - Signatures: the parallel chunk routines equal the sequential ones, a
      WebAuthn assertion authorizes one message, honest signatures pass.
    - Mempool: bounded pool and consistent tables on every message sequence,
      no false finality, FIFO proposals, settling of reports and resolution of
      batches; however busy the pool, every request whose status is not evicted
      is answered ([mempool_answers]), and so is the client
      ([busy_submission_answered]), by a status also when the pool is full
      ([full_pool_answers_dropped]); [resubmission_overwrites_outcome] says when
      the outcome of a finalized digest is overwritten.
    - Batches: [verify_body] accepts exactly the valid batches, a relayer makes
      the same checks, only sends batches that pass them, visits the leaders
      in turn and claims no finality that was not reported.
    - Clients: what the HTTP client returns is what the actor and the database
      answered ([client_server_agree]), over whole URLs and through the router
      as well ([client_over_http]).  Every batch of a spammer passes the
      validators' checks ([spam_stream_admitted]), its stream executes without
      a refusal ([spam_stream_executes]) and each submission is counted once
      ([spam_batch_accounted]).
    - Index: a verified block expands to the operations and locations the
      application committed; the upload cursors leave no gap and no overlap;
      certificates are paired with stored headers and finalizations uploaded
      at most once.  [late_notarization_stranded] exhibits a notarization that
      is never uploaded.  Rows have the declared types ([index_rows_typed]) and
      what was indexed is found again ([index_lookup_roundtrip]); however the
      reporter's tasks are scheduled, every published finalized block ends up
      readable by height and its certificate by view
      ([finalized_blocks_readable]).  The durable
      queue stays contiguous through crashes ([upload_queue_contiguous]), its
      entries survive the disk ([queued_upload_roundtrip]) and the next block
      gets queued ([next_block_queued]), except after a crash at two points
      that [crash_window_stalls] exhibits.  In every interleaving of
      preparation, store commits and joins the commit pipeline completes an
      upload only when it and all earlier ones are durable
      ([commits_durable]), also after the preparer panicked, which it does
      exactly on an upload it cannot prepare; a shutdown ends with every upload
      completed ([shutdown_completes]); with bounded channels all of this still holds, and
      waiting for room never turns into a deadlock ([backpressure_drains]).
      Through any crashes the queue loses no upload
      that is not durable ([index_survives_crashes]) and without crashes it
      drains ([queue_drains], [bounded_queue_drains]); recovery hands the writers exactly what the
      store holds, or fails where a log no longer fits ([recovery_window]).
      The services of a deployment meet at one store
      ([index_meets_at_one_store]).
    - Start-up: the nodes of a generated network build the same genesis in both
      start-up modes ([network_agrees_on_genesis]); a node that restarts with a recovered
      finalization resumes at its block ([restart_resumes_at_floor]), whose
      targets then take the place of the genesis targets.
    - Deployment: every node of a generated bundle loads its own file and
      starts with the keys, peers, ports and server meant for it, and the
      relayer finds every validator ([local_bundle_starts],
      [remote_bundle_starts]); the spammer of a remote bundle finds the relayer
      ([remote_spammer_aimed]); [local_ports_distinct] says exactly when the
      ports of a local bundle do not collide.

    ** Loops and bounds

    The [while] loop that advances a nonce window has fuel 64, the width of
    the bitmap; [advance_loop_fuel] shows that more fuel changes nothing.  The
    relayer's loops recurse on the retries left (the configured number, and 3
    for pinned submissions), and return on the last one as the code does.
    The presigner's loop and the retry loop of the upload producer have no
    bound in the code: they recurse on the list of what their environment
    answers, one entry per round, and the theorems hold for every such list.
    The jitter's floating-point product is the standard library's binary64.
    The tasks of the commit pipeline are step relations, which
    [shutdown_completes] shows well-founded once the channel is closed, and
    [backpressure_drains] as long as nothing new is sent.  The capacity of the
    channels is any positive number; the code clamps it between 1 and 64.
    Every other loop is structural on a list.  Lists in memory are shorter
    than [2 ^ 64] and encoded lists shorter than [2 ^ 32]; theorems that need
    a bound state it.

    ** Assumptions on the environment

    Each interface states what the sources rely on of a library.  Beyond those:
    a commit in flight when a node crashes either reached the store before the
    restarted node reads it or never does; a consensus that finalizes one block
    per view and height ([one_chain]); the restarted writers hold what the
    store answered ([recovered], which [recovery_window] establishes from
    faithful reads).

    ** Not modelled

    The internals of the tasks commonware runs (network, marshal, simplex,
    broadcast), command-line tokenizing and the random tag of the deployment
    tool, the tuning options of the store, the explorer (TypeScript), CORS
    headers and the text of JSON documents, metrics and tracing.  In the commit
    pipeline a join and the watermark flush after it are one step, and a store
    commit that is retried ([commit_with_retry]) is the commit that succeeds: an
    attempt that fails leaves the store as it was.  A task that panics is
    unwound and the others go on; a runtime that ends the process instead is the
    crash of Consumer.v.  Cryptography, storage
    and consensus belong to the commonware libraries and are interfaces here.
    What is left of the Rust sources beyond that is tests, benchmarks, type
    aliases and the glue that hands the parts to each other. *)

From Stdlib Require Import ZArith Lia.
From Stdlib.Init Require Export Byte.
From Stdlib.Strings Require Import Byte.
From stdpp Require Import prelude gmap list sorting strings.

#[global] Open Scope Z_scope.

(** ** Error values and panics *)

Inductive result (E A : Type) : Type :=
| Ok (a : A)
| Err (e : E).
Arguments Ok {E A} a.
Arguments Err {E A} e.

#[export] Instance result_ret {E} : MRet (result E) := fun A a => Ok a.
#[export] Instance result_bind {E} : MBind (result E) :=
  fun A B f m => match m with Ok a => f a | Err e => Err e end.
#[export] Instance result_fmap {E} : FMap (result E) :=
  fun A B f m => match m with Ok a => Ok (f a) | Err e => Err e end.

Definition ok_or {E A} (o : option A) (e : E) : result E A :=
  match o with Some a => Ok a | None => Err e end.

Definition ok {E A} (r : result E A) : option A :=
  match r with Ok a => Some a | Err _ => None end.

Definition map_err {E F A} (f : E → F) (r : result E A) : result F A :=
  match r with Ok a => Ok a | Err e => Err (f e) end.

(** A computation that may panic ([expect], [panic!], [assert!]). *)
Inductive run (A : Type) : Type :=
| Ret (a : A)
| Panic (why : string).
Arguments Ret {A} a.
Arguments Panic {A} why.

#[export] Instance run_ret : MRet run := fun A a => Ret a.
#[export] Instance run_bind : MBind run :=
  fun A B f m => match m with Ret a => f a | Panic w => Panic w end.

Definition expect {A} (o : option A) (why : string) : run A :=
  match o with Some a => Ret a | None => Panic why end.

(** ** Machine integers *)

Definition u64_max : Z := 2 ^ 64 - 1.
Definition is_u64 (x : Z) : Prop := 0 ≤ x ≤ u64_max.
Definition wrap64 (x : Z) : Z := x mod 2 ^ 64.

#[export] Instance is_u64_dec x : Decision (is_u64 x) := ltac:(unfold is_u64; apply _).

Definition checked_add (a b : Z) : option Z :=
  if decide (a + b ≤ u64_max) then Some (a + b) else None.
Definition checked_sub (a b : Z) : option Z :=
  if decide (b ≤ a) then Some (a - b) else None.
Definition saturating_add (a b : Z) : Z := Z.min (a + b) u64_max.
Definition saturating_sub (a b : Z) : Z := Z.max (a - b) 0.
Definition wrapping_add (a b : Z) : Z := wrap64 (a + b).
Definition saturating_mul (a b : Z) : Z := Z.min (a * b) u64_max.

(** Indexing with the [u64]/[usize] values of the code. *)
Definition zlen {A} (l : list A) : Z := Z.of_nat (length l).
Definition ztake {A} (n : Z) (l : list A) : list A := take (Z.to_nat n) l.
Definition zdrop {A} (n : Z) (l : list A) : list A := drop (Z.to_nat n) l.

(** ** Bytes *)

Abbreviation byte := Init.Byte.byte.
Abbreviation bytes := (list byte).

Definition byte_val (b : byte) : Z := Z.of_N (Strings.Byte.to_N b).
Definition byte_of (z : Z) : byte :=
  default x00 (Strings.Byte.of_N (Z.to_N (z mod 256))).

#[export] Instance byte_eq_dec : EqDecision byte := Strings.Byte.byte_eq_dec.
#[export] Program Instance byte_countable : Countable byte :=
  inj_countable Strings.Byte.to_N Strings.Byte.of_N _.
Next Obligation. intros b. apply Strings.Byte.of_to_N. Qed.

(** Big-endian fixed-width integers ([to_be_bytes] and [from_be_bytes]). *)
Fixpoint to_be (n : nat) (z : Z) : bytes :=
  match n with
  | O => []
  | S n' => to_be n' (z / 256) ++ [byte_of z]
  end.

Definition from_be (l : bytes) : Z :=
  fold_left (fun acc b => acc * 256 + byte_val b) l 0.

(** ASCII text. *)
Definition bytes_of_string (s : string) : bytes :=
  map Strings.Ascii.byte_of_ascii (String.list_ascii_of_string s).
Definition string_of_bytes (l : bytes) : string :=
  String.string_of_list_ascii (map Strings.Ascii.ascii_of_byte l).

(** Lexicographic order on byte strings ([Ord] for [Bytes] and [Vec<u8>]). *)
Fixpoint bytes_leb (a b : bytes) : bool :=
  match a, b with
  | [], _ => true
  | _ :: _, [] => false
  | x :: a', y :: b' =>
      if byte_val x <? byte_val y then true
      else if byte_val y <? byte_val x then false
      else bytes_leb a' b'
  end.
Definition bytes_le (a b : bytes) : Prop := bytes_leb a b = true.

#[export] Instance bytes_le_dec a b : Decision (bytes_le a b) :=
  ltac:(unfold bytes_le; apply _).

(** Sum of a list. *)
Fixpoint sumZ (l : list Z) : Z :=
  match l with [] => 0 | x :: l' => x + sumZ l' end.

(** ** Tactics and hint databases *)

Create HintDb cst discriminated.

(** Split every [match], [if] or [decide] in a hypothesis or the goal. *)
Ltac case_in H :=
  match type of H with
  | context [match ?x with _ => _ end] => destruct x eqn:?; simplify_eq/=
  | context [decide ?P] => destruct (decide P); simplify_eq/=
  end.
Ltac case_goal :=
  match goal with
  | |- context [match ?x with _ => _ end] => destruct x eqn:?; simplify_eq/=
  | |- context [decide ?P] => destruct (decide P); simplify_eq/=
  end.

(** Linear arithmetic with division and modulo by constants. *)
Ltac dlia := Z.to_euclidean_division_equations; lia.

(** Turn boolean comparisons on [Z] into propositions. *)
Ltac zbool :=
  repeat match goal with
  | H : (_ <? _)%Z = true |- _ => apply Z.ltb_lt in H
  | H : (_ <? _)%Z = false |- _ => apply Z.ltb_ge in H
  | H : (_ <=? _)%Z = true |- _ => apply Z.leb_le in H
  | H : (_ <=? _)%Z = false |- _ => apply Z.leb_gt in H
  | H : (_ =? _)%Z = true |- _ => apply Z.eqb_eq in H
  | H : (_ =? _)%Z = false |- _ => apply Z.eqb_neq in H
  | H : (_ && _)%bool = true |- _ => apply andb_true_iff in H as [? ?]
  | H : (_ || _)%bool = false |- _ => apply orb_false_iff in H as [? ?]
  | H : negb _ = true |- _ => apply negb_true_iff in H
  | H : negb _ = false |- _ => apply negb_false_iff in H
  end.

(** ** Lemmas on results and panics *)

Lemma ok_or_Ok {E A} (o : option A) (e : E) a : ok_or o e = Ok a ↔ o = Some a.
Proof. destruct o; naive_solver. Qed.

Lemma ok_Some {E A} (r : result E A) a : ok r = Some a ↔ r = Ok a.
Proof. destruct r; naive_solver. Qed.

Lemma bind_Ok {E A B} (f : A → result E B) (m : result E A) b :
  m ≫= f = Ok b ↔ ∃ a, m = Ok a ∧ f a = Ok b.
Proof. destruct m; cbn; naive_solver. Qed.

Lemma bind_Ret {A B} (f : A → run B) (m : run A) b :
  m ≫= f = Ret b ↔ ∃ a, m = Ret a ∧ f a = Ret b.
Proof. destruct m; cbn; naive_solver. Qed.

(** Whether a computation returns, and whether it returns a value. *)
Definition is_ret {A} (r : run A) : bool := match r with Ret _ => true | Panic _ => false end.
Definition is_ret_some {A} (r : run (option A)) : bool :=
  match r with Ret (Some _) => true | _ => false end.

Lemma is_ret_inv {A} (r : run A) : is_ret r = true → ∃ a, r = Ret a.
Proof. destruct r; naive_solver. Qed.

Lemma is_ret_some_inv {A} (r : run (option A)) : is_ret_some r = true → ∃ a, r = Ret (Some a).
Proof. destruct r as [[]|]; naive_solver. Qed.

(** ** Lemmas on machine integers *)

Lemma checked_add_Some a b c : checked_add a b = Some c ↔ c = a + b ∧ a + b ≤ u64_max.
Proof. unfold checked_add. case_decide; naive_solver. Qed.

Lemma checked_add_None a b : checked_add a b = None ↔ u64_max < a + b.
Proof. unfold checked_add. case_decide; naive_solver lia. Qed.

Lemma checked_sub_Some a b c : checked_sub a b = Some c ↔ c = a - b ∧ b ≤ a.
Proof. unfold checked_sub. case_decide; naive_solver. Qed.

Lemma checked_sub_None a b : checked_sub a b = None ↔ a < b.
Proof. unfold checked_sub. case_decide; naive_solver lia. Qed.

Lemma wrap64_id x : is_u64 x → wrap64 x = x.
Proof. unfold is_u64, u64_max, wrap64. intros. apply Z.mod_small. lia. Qed.

Lemma wrap64_bound x : is_u64 (wrap64 x).
Proof.
  unfold is_u64, u64_max, wrap64. pose proof (Z.mod_pos_bound x (2^64) ltac:(lia)). lia.
Qed.

#[export] Hint Resolve wrap64_bound : cst.

(** ** Lemmas on bytes *)

Lemma byte_val_bound b : 0 ≤ byte_val b < 256.
Proof. unfold byte_val. pose proof (Strings.Byte.to_N_bounded b). lia. Qed.

Lemma byte_val_of z : byte_val (byte_of z) = z mod 256.
Proof.
  unfold byte_val, byte_of.
  pose proof (Z.mod_pos_bound z 256 ltac:(lia)).
  destruct (Strings.Byte.of_N (Z.to_N (z mod 256))) as [b|] eqn:E; cbn.
  - apply Strings.Byte.to_of_N in E. rewrite E, Z2N.id; lia.
  - apply Strings.Byte.of_N_None_iff in E. lia.
Qed.

Lemma byte_val_inj a b : byte_val a = byte_val b → a = b.
Proof.
  unfold byte_val. intros H%N2Z.inj.
  apply (f_equal Strings.Byte.of_N) in H. rewrite !Strings.Byte.of_to_N in H. congruence.
Qed.

Lemma byte_of_val b : byte_of (byte_val b) = b.
Proof.
  apply byte_val_inj. rewrite byte_val_of. apply Z.mod_small, byte_val_bound.
Qed.

Lemma to_be_length n z : length (to_be n z) = n.
Proof. revert z. induction n as [|n IH]; intros z; cbn; [done|]. rewrite length_app, IH. cbn. lia. Qed.

Lemma from_be_app l b : from_be (l ++ [b]) = from_be l * 256 + byte_val b.
Proof. unfold from_be. by rewrite fold_left_app. Qed.

Lemma from_be_to_be n z : from_be (to_be n z) = z mod 256 ^ (Z.of_nat n).
Proof.
  revert z. induction n as [|n IH]; intros z; cbn [to_be].
  - by rewrite Z.mod_1_r.
  - rewrite from_be_app, IH, byte_val_of, Nat2Z.inj_succ, Z.pow_succ_r by lia.
    assert (0 < 256 ^ Z.of_nat n) by (apply Z.pow_pos_nonneg; lia).
    rewrite (Z.rem_mul_r z 256) by lia. lia.
Qed.

Lemma from_be_bound l : 0 ≤ from_be l < 256 ^ (Z.of_nat (length l)).
Proof.
  induction l as [|b l IH] using rev_ind; [done|].
  rewrite from_be_app, length_app. cbn [length]. pose proof (byte_val_bound b).
  rewrite Nat.add_1_r, Nat2Z.inj_succ, Z.pow_succ_r by lia. lia.
Qed.

Lemma to_be_from_be l : to_be (length l) (from_be l) = l.
Proof.
  induction l as [|b l IH] using rev_ind; [done|].
  rewrite length_app, Nat.add_1_r. cbn [to_be]. rewrite from_be_app.
  pose proof (byte_val_bound b). f_equal.
  - rewrite Z.div_add_l, Z.div_small, Z.add_0_r by lia. done.
  - f_equal. apply byte_val_inj. rewrite byte_val_of, Z.add_comm, Z.mod_add by lia.
    by apply Z.mod_small.
Qed.

Lemma from_be_to_be_small n z :
  0 ≤ z < 256 ^ (Z.of_nat n) → from_be (to_be n z) = z.
Proof. intros. rewrite from_be_to_be. by apply Z.mod_small. Qed.

Lemma is_u64_pow z : is_u64 z ↔ 0 ≤ z < 256 ^ 8.
Proof. unfold is_u64, u64_max. change (256 ^ 8) with (2 ^ 64). lia. Qed.

Lemma string_of_bytes_inj l1 l2 : string_of_bytes l1 = string_of_bytes l2 → l1 = l2.
Proof.
  unfold string_of_bytes. intros H%(f_equal String.list_ascii_of_string).
  rewrite !String.list_ascii_of_string_of_list_ascii in H.
  revert l2 H. induction l1 as [|a l1 IH]; intros [|b l2] H; simplify_eq/=; [done|].
  f_equal; [|by apply IH].
  apply (f_equal Strings.Ascii.byte_of_ascii) in H.
  by rewrite !Strings.Ascii.byte_of_ascii_of_byte in H.
Qed.

(** ** Lemmas on the byte order *)

Lemma bytes_leb_refl a : bytes_leb a a = true.
Proof. induction a as [|x a IH]; cbn; [done|]. by rewrite Z.ltb_irrefl. Qed.

Ltac cmp_bytes :=
  repeat match goal with
  | H : context [if ?a <? ?b then _ else _] |- _ => destruct (Z.ltb_spec a b)
  | |- context [if ?a <? ?b then _ else _] => destruct (Z.ltb_spec a b)
  end; try (done || lia).

#[export] Instance bytes_le_trans : Transitive bytes_le.
Proof.
  intros a. unfold bytes_le. induction a as [|x a IH]; intros [|y b] [|z c]; cbn; try done.
  cmp_bytes. apply IH.
Qed.

#[export] Instance bytes_le_antisymm : AntiSymm eq bytes_le.
Proof.
  intros a. unfold bytes_le. induction a as [|x a IH]; intros [|y b]; cbn; try done.
  cmp_bytes. intros. f_equal; [apply byte_val_inj; lia | by apply IH].
Qed.

#[export] Instance bytes_le_total : Total bytes_le.
Proof.
  intros a. unfold bytes_le. induction a as [|x a IH]; intros [|y b]; cbn; auto.
  cmp_bytes; auto.
Qed.

#[export] Instance bytes_le_refl : Reflexive bytes_le.
Proof. intros a. apply bytes_leb_refl. Qed.

(** ** Lemmas on lists *)

Lemma zlen_app {A} (l1 l2 : list A) : zlen (l1 ++ l2) = zlen l1 + zlen l2.
Proof. unfold zlen. rewrite length_app. lia. Qed.

Lemma zlen_nonneg {A} (l : list A) : 0 ≤ zlen l.
Proof. unfold zlen. lia. Qed.

Lemma sumZ_app l1 l2 : sumZ (l1 ++ l2) = sumZ l1 + sumZ l2.
Proof. induction l1; cbn; lia. Qed.

#[export] Instance sumZ_perm : Proper ((≡ₚ) ==> eq) sumZ.
Proof. induction 1; cbn; lia. Qed.

Lemma sumZ_nonneg l : Forall (λ x, 0 ≤ x) l → 0 ≤ sumZ l.
Proof. induction 1; cbn; lia. Qed.

#[export] Hint Rewrite @length_app @length_take @length_drop @length_map to_be_length : len.
#[export] Hint Resolve byte_val_bound zlen_nonneg : cst.
