(* ===== verification/Hex.v ===== *)
(** * Hexadecimal text (crates/indexer/src/publisher/sql.rs, client.rs)

    The indexer writes transaction bodies as lowercase hexadecimal and its
    client reads them back; keys are displayed the same way.  The lemmas show
    that the reader inverts the writer and accepts nothing but hexadecimal
    text, in either case. *)

From stdpp Require Import prelude list strings.
From S2P Require Import Prelude.

(** ** Definitions *)

(** [hex_lower], and the [{byte:02x}] loops of the [Display] implementations. *)
Definition HEX : bytes := bytes_of_string "0123456789abcdef".
Definition hex_lower (b : bytes) : string :=
  string_of_bytes (concat (map (λ x,
    [nth (Z.to_nat (Z.shiftr (byte_val x) 4)) HEX x00; nth (Z.to_nat (Z.land (byte_val x) 15)) HEX x00]) b)).

(** [decode_hex_nibble] and [decode_hex]; the error is the payload of
    [ReadError::Hex]. *)
Definition decode_hex_nibble (b : byte) : result string Z :=
  let v := byte_val b in
  if (48 <=? v) && (v <=? 57) then Ok (v - 48)
  else if (97 <=? v) && (v <=? 102) then Ok (v - 97 + 10)
  else if (65 <=? v) && (v <=? 70) then Ok (v - 65 + 10)
  else Err ("invalid hex character 0x" +:+ hex_lower [b]).

Fixpoint decode_hex_pairs (l : bytes) : result string bytes :=
  match l with
  | h :: l :: rest =>
      high ← decode_hex_nibble h;
      low ← decode_hex_nibble l;
      out ← decode_hex_pairs rest;
      Ok (byte_of (Z.lor (Z.shiftl high 4) low) :: out)
  | _ => Ok []
  end.

Definition decode_hex (value : string) : result string bytes :=
  let l := bytes_of_string value in
  if negb (zlen l mod 2 =? 0) then Err "odd number of hex characters"%string
  else decode_hex_pairs l.

(** ** Lemmas *)

Lemma bytes_of_string_of (l : bytes) : bytes_of_string (string_of_bytes l) = l.
Proof.
  unfold bytes_of_string, string_of_bytes. rewrite String.list_ascii_of_string_of_list_ascii, map_map.
  rewrite <- (map_id l) at 2. apply map_ext. intros. apply Strings.Ascii.byte_of_ascii_of_byte.
Qed.

Lemma string_of_bytes_of (s : string) : string_of_bytes (bytes_of_string s) = s.
Proof.
  unfold bytes_of_string, string_of_bytes. rewrite map_map.
  rewrite <- (String.string_of_list_ascii_of_string s) at 2. f_equal.
  rewrite <- (map_id (String.list_ascii_of_string s)) at 2. apply map_ext.
  intros. apply Strings.Ascii.ascii_of_byte_of_ascii.
Qed.

(** The digit of a value below sixteen. *)
Definition hex_digit (x : Z) : byte := nth (Z.to_nat x) HEX x00.

Lemma decode_hex_digit x : 0 ≤ x < 16 → decode_hex_nibble (hex_digit x) = Ok x.
Proof.
  intros Hx.
  assert (x ∈ seqZ 0 16) as Hin by (apply elem_of_seqZ; lia).
  clear Hx. revert x Hin. apply Forall_forall.
  repeat (constructor; [vm_compute; reflexivity|]). constructor.
Qed.

Lemma byte_nibbles b :
  0 ≤ Z.shiftr (byte_val b) 4 < 16 ∧ 0 ≤ Z.land (byte_val b) 15 < 16 ∧
  byte_of (Z.lor (Z.shiftl (Z.shiftr (byte_val b) 4) 4) (Z.land (byte_val b) 15)) = b.
Proof. destruct b; vm_compute; repeat split; try discriminate; reflexivity. Qed.

Lemma hex_lower_bytes b :
  bytes_of_string (hex_lower b)
  = concat (map (λ x, [hex_digit (Z.shiftr (byte_val x) 4); hex_digit (Z.land (byte_val x) 15)]) b).
Proof. unfold hex_lower. by rewrite bytes_of_string_of. Qed.

Lemma hex_lower_length b : zlen (bytes_of_string (hex_lower b)) = 2 * zlen b.
Proof.
  rewrite hex_lower_bytes. unfold zlen. induction b as [|x b IH]; cbn in *; lia.
Qed.

Lemma decode_hex_pairs_lower b : decode_hex_pairs (bytes_of_string (hex_lower b)) = Ok b.
Proof.
  rewrite hex_lower_bytes. induction b as [|x b IH]; [done|]. cbn [map concat app decode_hex_pairs].
  destruct (byte_nibbles x) as (Hh & Hl & Hx).
  rewrite !decode_hex_digit by done. cbn [mbind result_bind]. rewrite IH. cbn. by rewrite Hx.
Qed.

Lemma decode_hex_lower b : decode_hex (hex_lower b) = Ok b.
Proof.
  unfold decode_hex. rewrite hex_lower_length, Z.mul_comm, Z_mod_mult. cbn.
  apply decode_hex_pairs_lower.
Qed.

Lemma hex_lower_inj a b : hex_lower a = hex_lower b → a = b.
Proof. intros E. pose proof (decode_hex_lower a) as H. rewrite E, decode_hex_lower in H. by simplify_eq. Qed.

(** A decoded text has two characters per byte. *)
Lemma decode_hex_length s b : decode_hex s = Ok b → zlen (bytes_of_string s) = 2 * zlen b.
Proof.
  unfold decode_hex. generalize (bytes_of_string s) as l. intros l. case_match eqn:E; [done|].
  zbool. clear s.
  assert (∀ n l b, (length l ≤ n)%nat → zlen l mod 2 = 0 → decode_hex_pairs l = Ok b →
    zlen l = 2 * zlen b) as Hg; [|intros Hd; by eapply Hg].
  clear. induction n as [|n IH]; intros [|h [|x l]] b Hn Hm Hd; try (cbn in *; simplify_eq; done || lia).
  cbn in Hd. apply bind_Ok in Hd as (hi & _ & Hd). apply bind_Ok in Hd as (lo & _ & Hd).
  apply bind_Ok in Hd as (out & Hout & ?). simplify_eq.
  apply IH in Hout; [|cbn in Hn; lia|]; unfold zlen in *; cbn [length] in *;
    Z.to_euclidean_division_equations; lia.
Qed.

(** Concatenation of text is concatenation of bytes. *)
Lemma bytes_of_string_app (a b : string) :
  bytes_of_string (a +:+ b) = bytes_of_string a ++ bytes_of_string b.
Proof.
  unfold bytes_of_string. induction a as [|c a IH]; [done|]. simpl. f_equal. exact IH.
Qed.

Lemma bytes_of_string_inj (a b : string) : bytes_of_string a = bytes_of_string b → a = b.
Proof. intros E. by rewrite <- (string_of_bytes_of a), <- (string_of_bytes_of b), E. Qed.

Lemma string_app_cancel (a b c d : string) : a +:+ b +:+ c = a +:+ d +:+ c → b = d.
Proof.
  intros E%(f_equal bytes_of_string). rewrite !bytes_of_string_app in E.
  apply app_inv_head, app_inv_tail in E. by apply bytes_of_string_inj.
Qed.
