(* ===== verification/Interfaces.v ===== *)
(** * Interfaces to the libraries the sources call

    The workspace builds on crates that are not part of the repository
    (commonware-codec, commonware-cryptography, commonware-parallel).  Each
    class below holds the operations the sources use of one of them and the
    documented laws they rely on; the components are modelled and proved
    against these classes, and [Concrete.v] inhabits every one of them. *)

From stdpp Require Import prelude gmap list strings.
From S2P Require Import Prelude.

(** ** commonware-codec *)

(** [commonware_codec::Error]: the variants the sources build themselves, and
    one constructor for those only the library returns. *)
Inductive CodecError : Type :=
| EndOfBuffer
| Invalid (context reason : string)
| CodecOther (code : nat).

#[export] Instance CodecError_eq_dec : EqDecision CodecError.
Proof. solve_decision. Defined.

(** [Read::read_cfg]: consumes a prefix of the buffer. *)
Definition reader (A : Type) : Type := bytes → result CodecError (A * bytes).

(** Fixed-size library types (integers, keys, signatures, digests). *)
Class FixedCodec (A : Type) := {
  fsize : nat;
  fvalid : A → Prop;
  fwrite : A → bytes;
  fread : reader A;
  fwrite_length a : length (fwrite a) = fsize;
  fread_fwrite a rest : fvalid a → fread (fwrite a ++ rest) = Ok (a, rest);
  fread_short buf : (length buf < fsize)%nat → fread buf = Err EndOfBuffer;
  fread_canonical buf a rest :
    fread buf = Ok (a, rest) → fvalid a ∧ buf = fwrite a ++ rest
}.
#[global] Hint Mode FixedCodec ! : typeclass_instances.
Arguments fsize A {_} : assert.

(** The item loop of a vector reader, used to state the law of vectors. *)
Fixpoint read_items {A} (r : reader A) (k : nat) (b : bytes) : result CodecError (list A * bytes) :=
  match k with
  | O => Ok ([], b)
  | S k' => '(x, b1) ← r b; '(xs, b2) ← read_items r k' b1; Ok (x :: xs, b2)
  end.

(** Integers, varint lengths, vectors and whole-buffer decoding.
    Integers are fixed-width big-endian; a [usize] is a [u32] varint of one
    to five bytes with a single accepted encoding; a vector is its length
    followed by its items. *)
Class CodecLib := {
  write_uint : nat → Z → bytes;
  read_uint : nat → reader Z;
  write_uint_be w x : write_uint w x = to_be w x;
  read_uint_be w buf :
    read_uint w buf =
      if decide (length buf < w)%nat then Err EndOfBuffer
      else Ok (from_be (take w buf), drop w buf);
  write_len : Z → bytes;
  read_len : Z → Z → reader Z;
  write_len_size n : 0 ≤ n < 2 ^ 32 → (1 ≤ length (write_len n) ≤ 5)%nat;
  read_write_len lo hi n rest :
    lo ≤ n ≤ hi → 0 ≤ n < 2 ^ 32 → read_len lo hi (write_len n ++ rest) = Ok (n, rest);
  read_len_canonical lo hi buf n rest :
    read_len lo hi buf = Ok (n, rest) →
    lo ≤ n ≤ hi ∧ 0 ≤ n < 2 ^ 32 ∧ buf = write_len n ++ rest;
  write_vec {A} : (A → bytes) → list A → bytes;
  read_vec {A} : reader A → Z → Z → reader (list A);
  write_vec_spec {A} (w : A → bytes) l :
    write_vec w l = write_len (zlen l) ++ concat (map w l);
  read_vec_spec {A} (r : reader A) lo hi buf :
    read_vec r lo hi buf =
      '(n, buf') ← read_len lo hi buf;
      read_items r (Z.to_nat n) buf';
  decode {A} : reader A → bytes → result CodecError A;
  extra_data : nat;
  decode_spec {A} (r : reader A) buf :
    decode r buf =
      '(a, rest) ← r buf;
      match rest with [] => Ok a | _ :: _ => Err (CodecOther extra_data) end
}.

(** ** commonware-cryptography *)

(** A hasher [H] with its digest [H::Digest], and SHA-256. *)
Class Hashing := {
  digest : Type;
  digest_eq_dec :: EqDecision digest;
  digest_countable :: Countable digest;
  digest_codec :: FixedCodec digest;
  digest_valid (d : digest) : fvalid d;
  digest_size : fsize digest = 32%nat;
  hash : bytes → digest;
  EMPTY : digest;
  digest_to_string : digest → string;
  digest_to_string_inj :: Inj (=) (=) digest_to_string;
  sha256 : bytes → bytes;
  sha256_length b : length (sha256 b) = 32%nat
}.

(** Ed25519 and secp256r1 keys and signatures.  An [ed25519::Batch] collects
    items and checks them together: it accepts exactly when every collected
    item verifies on its own, and only refuses to collect an item that does
    not verify.  [r1_verify] is the [p256] check of a raw payload, including
    the parsing of the key and the signature. *)
Class Keys := {
  ed_pk : Type;  ed_sig : Type;  r1_pk : Type;  r1_sig : Type;
  ed_pk_codec :: FixedCodec ed_pk;
  ed_sig_codec :: FixedCodec ed_sig;
  r1_pk_codec :: FixedCodec r1_pk;
  r1_sig_codec :: FixedCodec r1_sig;
  ed_pk_valid (k : ed_pk) : fvalid k;
  ed_sig_valid (s : ed_sig) : fvalid s;
  r1_pk_valid (k : r1_pk) : fvalid k;
  r1_sig_valid (s : r1_sig) : fvalid s;
  ed_pk_size : fsize ed_pk = 32%nat;
  ed_sig_size : fsize ed_sig = 64%nat;
  r1_pk_size : fsize r1_pk = 33%nat;
  r1_sig_size : fsize r1_sig = 64%nat;
  ed_verify : bytes → bytes → ed_pk → ed_sig → bool;
  ed_batch : Type;
  ed_batch_new : ed_batch;
  ed_batch_add : ed_batch → bytes → bytes → ed_pk → ed_sig → bool * ed_batch;
  ed_batch_verify : Z → ed_batch → bool;
  ed_batch_items : ed_batch → list (bytes * bytes * ed_pk * ed_sig);
  ed_batch_new_items : ed_batch_items ed_batch_new = [];
  ed_batch_add_items b ns m k s b' :
    ed_batch_add b ns m k s = (true, b') → ed_batch_items b' = ed_batch_items b ++ [(ns, m, k, s)];
  ed_batch_add_refused b ns m k s b' :
    ed_batch_add b ns m k s = (false, b') → ed_verify ns m k s = false;
  ed_batch_verify_spec rng b :
    ed_batch_verify rng b
    = forallb (λ '(ns, m, k, s), ed_verify ns m k s) (ed_batch_items b);
  ed_sk : Type;
  ed_from_seed : Z → ed_sk;
  ed_public_key : ed_sk → ed_pk;
  ed_sign : ed_sk → bytes → bytes → ed_sig;
  ed_sign_verify sk ns m : ed_verify ns m (ed_public_key sk) (ed_sign sk ns m) = true;
  r1_verify : r1_pk → bytes → r1_sig → bool
}.

(** ** serde_json *)

(** Parsing a JSON document and reading one of its string members. *)
Class Json := {
  json : Type;
  json_from_slice : bytes → option json;
  json_get_str : json → string → option string
}.

(** ** commonware-parallel *)

(** A [Strategy] splits the items into contiguous chunks (some possibly
    empty), folds each chunk from the initial value and combines the partial
    results in order. *)
Class Strategy := {
  parallelism_hint : Z;
  st_fold {A B} : list A → B → (B → A → B) → (B → B → B) → B;
  st_fold_spec {A B} (items : list A) (init : B) f reduce :
    ∃ c cs, c ++ concat cs = items ∧
      st_fold items init f reduce
      = fold_left (λ acc c', reduce acc (fold_left f c' init)) cs (fold_left f c init);
  map_collect_vec {A B} : list A → (A → B) → list B;
  map_collect_vec_spec {A B} (items : list A) (f : A → B) :
    map_collect_vec items f = map f items
}.

(** ** Lemmas the components share *)

Section codec_lemmas.
Context `{CodecLib}.

Definition encode_size_len (n : Z) : Z := zlen (write_len n).

Lemma write_uint_length w x : length (write_uint w x) = w.
Proof. rewrite write_uint_be. apply to_be_length. Qed.

Lemma read_write_uint w x rest :
  0 ≤ x < 256 ^ Z.of_nat w → read_uint w (write_uint w x ++ rest) = Ok (x, rest).
Proof.
  intros Hx. rewrite read_uint_be, write_uint_be, length_app, to_be_length.
  rewrite decide_False by lia.
  rewrite take_app_length', drop_app_length' by (symmetry; apply to_be_length).
  by rewrite from_be_to_be_small.
Qed.

Lemma read_write_u64 x rest :
  is_u64 x → read_uint 8 (write_uint 8 x ++ rest) = Ok (x, rest).
Proof. intros. apply read_write_uint. by apply is_u64_pow. Qed.

Lemma read_uint_canonical w buf x rest :
  read_uint w buf = Ok (x, rest) →
  0 ≤ x < 256 ^ Z.of_nat w ∧ buf = write_uint w x ++ rest.
Proof.
  rewrite read_uint_be. case_decide; intros; simplify_eq/=.
  assert (length (take w buf) = w) as Hl by (rewrite length_take; lia).
  pose proof (from_be_bound (take w buf)) as Hb. rewrite Hl in Hb. split; [done|].
  rewrite write_uint_be. pose proof (to_be_from_be (take w buf)) as Ht.
  rewrite Hl in Ht. by rewrite Ht, take_drop.
Qed.

Lemma read_items_ok {A} (r : reader A) (w : A → bytes) (R : A → A → Prop) l rest :
  (∀ a b, a ∈ l → ∃ a', r (w a ++ b) = Ok (a', b) ∧ R a a') →
  ∃ l', read_items r (length l) (concat (map w l) ++ rest) = Ok (l', rest) ∧ Forall2 R l l'.
Proof.
  induction l as [|a l IH]; intros Hr; cbn; [by exists []|].
  destruct (Hr a (concat (map w l) ++ rest)) as (a' & Ha & HR); [left|].
  destruct IH as (l' & Hl & HR'); [intros; apply Hr; by right|].
  exists (a' :: l'). rewrite <- app_assoc, Ha. cbn. rewrite Hl. cbn. by split; [|constructor].
Qed.

(** Writing then reading a vector whose items round trip up to [R]. *)
Lemma read_write_vec {A} (r : reader A) (w : A → bytes) (R : A → A → Prop) lo hi l rest :
  lo ≤ zlen l ≤ hi → zlen l < 2 ^ 32 →
  (∀ a b, a ∈ l → ∃ a', r (w a ++ b) = Ok (a', b) ∧ R a a') →
  ∃ l', read_vec r lo hi (write_vec w l ++ rest) = Ok (l', rest) ∧ Forall2 R l l'.
Proof.
  intros Hr Hs Hi. pose proof (zlen_nonneg l).
  rewrite read_vec_spec, write_vec_spec, <- app_assoc, read_write_len by lia. cbn.
  unfold zlen. rewrite Nat2Z.id. by apply read_items_ok.
Qed.

(** A vector reader whose items determine their bytes consumes exactly the
    encoding of what it returns. *)
Lemma read_items_canonical {A} (r : reader A) (w : A → bytes) (P : A → Prop) k b l rest :
  (∀ b a rest, r b = Ok (a, rest) → P a ∧ b = w a ++ rest) →
  read_items r k b = Ok (l, rest) →
  length l = k ∧ Forall P l ∧ b = concat (map w l) ++ rest.
Proof.
  intros Hr. revert b l. induction k as [|k IH]; intros b l; cbn; [naive_solver|].
  intros ([x b1] & Hx & Hk)%bind_Ok. apply bind_Ok in Hk as ([xs b2] & Hxs & ?).
  simplify_eq/=.
  apply Hr in Hx as [? ->]. apply IH in Hxs as (? & ? & ->).
  rewrite app_assoc. auto.
Qed.

Lemma read_vec_canonical {A} (r : reader A) (w : A → bytes) (P : A → Prop) lo hi b l rest :
  (∀ b a rest, r b = Ok (a, rest) → P a ∧ b = w a ++ rest) →
  read_vec r lo hi b = Ok (l, rest) →
  lo ≤ zlen l ≤ hi ∧ zlen l < 2 ^ 32 ∧ Forall P l ∧ b = write_vec w l ++ rest.
Proof.
  intros Hr. rewrite read_vec_spec.
  intros ([n b1] & (? & ? & ->)%read_len_canonical & Hi)%bind_Ok.
  apply (read_items_canonical _ w P) in Hi as (Hn & ? & ->); [|done].
  assert (zlen l = n) as <- by (unfold zlen; lia).
  rewrite write_vec_spec, <- app_assoc. repeat split; try done; lia.
Qed.

Lemma decode_exact {A} (r : reader A) buf a : r buf = Ok (a, []) → decode r buf = Ok a.
Proof. intros H1. by rewrite decode_spec, H1. Qed.

Lemma decode_Ok {A} (r : reader A) buf a : decode r buf = Ok a ↔ r buf = Ok (a, []).
Proof.
  rewrite decode_spec. split; [|intros ->; done].
  intros ([x rest] & -> & ?)%bind_Ok. destruct rest; by simplify_eq.
Qed.

End codec_lemmas.

(** A lawful strategy computes a conjunction over every item, however it
    splits them. *)
Lemma st_fold_andb `{Strategy} {A} (items : list A) (p : A → bool) :
  st_fold items true (λ v a, v && p a) andb = forallb p items.
Proof.
  destruct (st_fold_spec items true (λ v a, v && p a) andb) as (c & cs & <- & ->).
  assert (∀ c acc, fold_left (λ v a, v && p a) c acc = acc && forallb p c) as Hc.
  { clear. intros c. induction c as [|a c IH]; intros acc; cbn; [by rewrite andb_true_r|].
    rewrite IH. by rewrite andb_assoc. }
  rewrite Hc, forallb_app. cbn. generalize (forallb p c). clear c.
  induction cs as [|c cs IH]; intros v; cbn; [by rewrite andb_true_r|].
  rewrite IH, Hc, forallb_app. cbn. by rewrite andb_assoc.
Qed.
