(* ===== verification/Concrete.v ===== *)
(** * Concrete instances of the library interfaces

    Executable inhabitants of the classes of [Interfaces.v], used by the
    witnesses: four-byte vector lengths, keys and signatures as fixed-width
    byte strings, a polynomial digest, a one-field JSON reader, and two
    strategies, one sequential and one that splits its input in two. *)

From stdpp Require Import prelude gmap list strings.
From S2P Require Import Prelude Interfaces.

(** ** Fixed-width byte strings *)

Definition fb (n : nat) : Type := dsig (λ l : bytes, length l = n).

Definition fb_of (n : nat) (l : bytes) : fb n :=
  dexist (to_be n (from_be l)) (to_be_length n _).

#[export] Instance fb_eq_dec n : EqDecision (fb n) := ltac:(unfold fb; apply _).

#[export] Program Instance fb_countable n : Countable (fb n) :=
  inj_countable proj1_sig
    (λ l, match decide (length l = n) with left Hl => Some (dexist l Hl) | right _ => None end) _.
Next Obligation.
  intros n [l Hl]; cbn. case_decide as Hd.
  - f_equal. by apply dsig_eq.
  - exfalso. apply Hd. exact (bool_decide_unpack _ Hl).
Qed.

Definition fb_read (n : nat) : reader (fb n) := fun buf =>
  match decide (length (take n buf) = n) with
  | left Hl => Ok (dexist (take n buf) Hl, drop n buf)
  | right _ => Err EndOfBuffer
  end.

Lemma fb_length n (a : fb n) : length (`a) = n.
Proof. destruct a as [l Hl]; cbn. exact (bool_decide_unpack _ Hl). Qed.

#[export] Program Instance fb_codec n : FixedCodec (fb n) := {|
  fsize := n; fvalid _ := True; fwrite := proj1_sig; fread := fb_read n |}.
Next Obligation. intros n a. apply fb_length. Qed.
Next Obligation.
  intros n a rest _. unfold fb_read. pose proof (fb_length n a) as Hl.
  rewrite drop_app_length' by done. case_decide as Hd.
  - f_equal. f_equal. apply dsig_eq. cbn. by rewrite take_app_length'.
  - exfalso. apply Hd. by rewrite take_app_length'.
Qed.
Next Obligation.
  intros n buf Hs. unfold fb_read. case_decide as Hd; [|done].
  exfalso. rewrite length_take in Hd. lia.
Qed.
Next Obligation.
  intros n buf a rest. unfold fb_read. case_decide; intros; simplify_eq/=.
  by rewrite take_drop.
Qed.

(** ** commonware-codec *)

Definition conc_read_uint (w : nat) : reader Z := fun buf =>
  if decide (length buf < w)%nat then Err EndOfBuffer
  else Ok (from_be (take w buf), drop w buf).

Definition conc_read_len (lo hi : Z) : reader Z := fun buf =>
  '(n, rest) ← conc_read_uint 4 buf;
  if decide (lo ≤ n ≤ hi) then Ok (n, rest) else Err (CodecOther 2).

Definition conc_read_vec {A} (r : reader A) (lo hi : Z) : reader (list A) := fun buf =>
  '(n, b) ← conc_read_len lo hi buf; read_items r (Z.to_nat n) b.

Definition conc_decode {A} (r : reader A) (buf : bytes) : result CodecError A :=
  '(a, rest) ← r buf; match rest with [] => Ok a | _ :: _ => Err (CodecOther 1) end.

#[export] Program Instance conc_codec : CodecLib := {|
  write_uint := to_be; read_uint := conc_read_uint;
  write_len := to_be 4; read_len := conc_read_len;
  write_vec _ w l := to_be 4 (zlen l) ++ concat (map w l);
  read_vec := @conc_read_vec; decode := @conc_decode;
  extra_data := 1 |}.
Next Obligation. done. Qed.
Next Obligation. done. Qed.
Next Obligation. intros n _. rewrite to_be_length. lia. Qed.
Next Obligation.
  intros lo hi n rest Hr Hn. unfold conc_read_len, conc_read_uint.
  rewrite decide_False by (rewrite length_app, to_be_length; lia). cbn [mbind result_bind].
  rewrite take_app_length', drop_app_length' by (symmetry; apply to_be_length).
  rewrite from_be_to_be_small by (cbn; lia). by rewrite decide_True.
Qed.
Next Obligation.
  intros lo hi buf n rest. unfold conc_read_len, conc_read_uint.
  case_decide; [done|]. cbn [mbind result_bind]. case_decide; [|done].
  intros; simplify_eq. pose proof (from_be_bound (take 4 buf)) as Hb.
  pose proof (to_be_from_be (take 4 buf)) as Ht.
  rewrite length_take_le in Hb, Ht by lia. rewrite Ht, take_drop.
  change (256 ^ Z.of_nat 4) with (2 ^ 32) in Hb. done.
Qed.
Next Obligation. intros; reflexivity. Qed.
Next Obligation. intros; reflexivity. Qed.
Next Obligation. intros; reflexivity. Qed.

(** ** commonware-cryptography *)

#[export] Program Instance conc_hashing : Hashing := {|
  digest := fb 32; hash := fb_of 32; EMPTY := fb_of 32 [];
  digest_to_string d := string_of_bytes (`d);
  sha256 b := `(fb_of 32 b) |}.
Next Obligation. done. Qed.
Next Obligation. done. Qed.
Next Obligation. intros a b ?%string_of_bytes_inj. by apply dsig_eq. Qed.
Next Obligation. intros b. apply fb_length. Qed.

Definition conc_ed_sign (k : fb 32) (ns m : bytes) : fb 64 := fb_of 64 (`k ++ ns ++ m).

Definition conc_ed_verify '((ns, m, k, s) : bytes * bytes * fb 32 * fb 64) : bool :=
  bool_decide (s = conc_ed_sign k ns m).

#[export] Program Instance conc_keys : Keys := {|
  ed_pk := fb 32; ed_sig := fb 64; r1_pk := fb 33; r1_sig := fb 64;
  ed_verify ns m k s := conc_ed_verify (ns, m, k, s);
  ed_batch := list (bytes * bytes * fb 32 * fb 64);
  ed_batch_new := [];
  ed_batch_add b ns m k s := (true, b ++ [(ns, m, k, s)]);
  ed_batch_verify _ b := forallb conc_ed_verify b;
  ed_batch_items b := b;
  ed_sk := Z;
  ed_from_seed z := z;
  ed_public_key sk := fb_of 32 (to_be 32 sk);
  ed_sign sk ns m := conc_ed_sign (fb_of 32 (to_be 32 sk)) ns m;
  r1_verify k m s := bool_decide (s = fb_of 64 (`k ++ m)) |}.
Next Obligation. done. Qed.
Next Obligation. done. Qed.
Next Obligation. done. Qed.
Next Obligation. done. Qed.
Next Obligation. reflexivity. Qed.
Next Obligation. reflexivity. Qed.
Next Obligation. reflexivity. Qed.
Next Obligation. reflexivity. Qed.
Next Obligation. reflexivity. Qed.
Next Obligation. intros; cbv beta in *. by simplify_eq. Qed.
Next Obligation. intros; cbv beta in *. by simplify_eq. Qed.
Next Obligation. intros rng b. cbv beta. induction b as [|[[[? ?] ?] ?] b IH]; [done|]. cbn. by rewrite IH. Qed.
Next Obligation. intros. by apply bool_decide_eq_true. Qed.

(** A JSON document is its challenge. *)
#[export] Instance conc_json : Json := {|
  json := bytes;
  json_from_slice b := Some b;
  json_get_str j k :=
    if decide (k = "type"%string) then Some "webauthn.get"%string
    else if decide (k = "challenge"%string) then Some (string_of_bytes j) else None |}.

(** ** commonware-parallel *)

Program Definition sequential : Strategy := {|
  parallelism_hint := 1;
  st_fold _ _ items init f _ := fold_left f items init;
  map_collect_vec _ _ items f := map f items |}.
Next Obligation. intros A B items init f reduce. exists items, []. by rewrite app_nil_r. Qed.
Next Obligation. done. Qed.

Program Definition halves : Strategy := {|
  parallelism_hint := 2;
  st_fold _ _ items init f reduce :=
    let k := Nat.div2 (length items) in
    reduce (fold_left f (take k items) init) (fold_left f (drop k items) init);
  map_collect_vec _ _ items f := map f items |}.
Next Obligation.
  intros A B items init f reduce.
  exists (take (Nat.div2 (length items)) items), [drop (Nat.div2 (length items)) items].
  cbn. by rewrite app_nil_r, take_drop.
Qed.
Next Obligation. done. Qed.
