(* ===== verification/Account.v ===== *)
(** * Accounts and nonces (crates/primitives/src/account.rs)

    [Nonce] tracks the consumed transaction nonces of an account as the next
    unconsumed nonce and a 64-bit window of run-ahead nonces above it.  The
    theorems relate it to the abstract set of used nonces, [used], and show
    that no sequence of operations accepts a nonce twice.  [Account] and the
    fixed-size codecs of both complete the file; account keys, which are
    derived from public keys, are in Auth.v. *)

From stdpp Require Import prelude list.
From S2P Require Import Prelude Interfaces.

(** ** Definitions *)

Definition DEFAULT_ACCOUNT_BALANCE : Z := 100.
Definition NONCE_BITMAP_CAPACITY : Z := 64.

(** [struct Nonce]. *)
Record Nonce := mkNonce { base : Z; bitmap : Z }.

#[export] Instance Nonce_eq_dec : EqDecision Nonce.
Proof. solve_decision. Defined.

(** [Nonce::default]. *)
Definition nonce_default : Nonce := mkNonce 0 0.

(** The [while] loop of [consume_current_nonce]: advances while the bit of
    the next nonce is set.  64 rounds reach the loop's own exit test. *)
Fixpoint advance_loop (fuel : nat) (bitmap advance : Z) : Z :=
  match fuel with
  | O => advance
  | S fuel' =>
      if advance <=? NONCE_BITMAP_CAPACITY then
        if Z.land bitmap (Z.shiftl 1 (advance - 1)) =? 0 then advance
        else advance_loop fuel' bitmap (advance + 1)
      else advance
  end.

Definition consume_current_nonce (base bitmap : Z) : option Nonce :=
  let advance := advance_loop 64 bitmap 1 in
  nonce ← checked_add base advance;
  let bitmap' := if NONCE_BITMAP_CAPACITY <=? advance then 0 else Z.shiftr bitmap advance in
  Some (mkNonce nonce bitmap').

Definition next_nonce_state (base bitmap nonce : Z) : option Nonce :=
  next_used_nonce ← checked_add nonce 1;
  if nonce <? base then None
  else
    let delta := nonce - base in
    if delta =? 0 then consume_current_nonce base bitmap
    else if NONCE_BITMAP_CAPACITY <? delta then Some (mkNonce next_used_nonce 0)
    else
      let bit := Z.shiftl 1 (delta - 1) in
      if negb (Z.land bitmap bit =? 0) then None
      else Some (mkNonce base (Z.lor bitmap bit)).

(** [Nonce::consume]: the returned flag and the updated state. *)
Definition consume (self : Nonce) (nonce : Z) : bool * Nonce :=
  match next_nonce_state (base self) (bitmap self) nonce with
  | None => (false, self)
  | Some next => (true, next)
  end.

(** [struct Account] and [Account::default]. *)
Record Account := mkAccount { balance : Z; nonce : Nonce }.

#[export] Instance Account_eq_dec : EqDecision Account.
Proof. solve_decision. Defined.

Definition account_default : Account := mkAccount DEFAULT_ACCOUNT_BALANCE nonce_default.

Definition Nonce_SIZE : nat := 8 + 8.
Definition Account_SIZE : nat := 8 + Nonce_SIZE.

Section codec.
Context `{CodecLib}.

Definition write_nonce (n : Nonce) : bytes :=
  write_uint 8 (base n) ++ write_uint 8 (bitmap n).

Definition read_nonce : reader Nonce := fun buf =>
  '(b, buf) ← read_uint 8 buf;
  '(m, buf) ← read_uint 8 buf;
  Ok (mkNonce b m, buf).

Definition write_account (a : Account) : bytes :=
  write_uint 8 (balance a) ++ write_nonce (nonce a).

Definition read_account : reader Account := fun buf =>
  '(b, buf) ← read_uint 8 buf;
  '(n, buf) ← read_nonce buf;
  Ok (mkAccount b n, buf).
End codec.

(** ** Abstract view: the set of used nonces *)

Definition used (st : Nonce) (x : Z) : Prop :=
  x < base st ∨ (base st < x ≤ base st + NONCE_BITMAP_CAPACITY ∧
                 Z.testbit (bitmap st) (x - base st - 1) = true).

(** Both fields are [u64] and no recorded nonce is the largest one. *)
Record nonce_wf (st : Nonce) : Prop := {
  wf_base : is_u64 (base st);
  wf_bitmap : is_u64 (bitmap st);
  wf_used x : used st x → x < u64_max
}.

Definition account_wf (a : Account) : Prop := is_u64 (balance a) ∧ nonce_wf (nonce a).

(** Feed a sequence of transaction nonces and collect the accepted ones. *)
Fixpoint consume_all (st : Nonce) (ns : list Z) : list Z * Nonce :=
  match ns with
  | [] => ([], st)
  | n :: ns' =>
      let '(accepted, st1) := consume st n in
      let '(rest, st2) := consume_all st1 ns' in
      (if accepted : bool then n :: rest else rest, st2)
  end.

(** ** Bit-level lemmas *)

Lemma land_bit_zero m i : 0 ≤ i → (Z.land m (Z.shiftl 1 i) =? 0) = negb (Z.testbit m i).
Proof.
  intros Hi. rewrite Z.shiftl_1_l. destruct (Z.testbit m i) eqn:E; cbn.
  - apply Z.eqb_neq. intros H0. apply (f_equal (λ z, Z.testbit z i)) in H0.
    rewrite Z.land_spec, E, Z.pow2_bits_true, Z.bits_0 in H0; done.
  - apply Z.eqb_eq, Z.bits_inj'. intros j Hj. rewrite Z.land_spec, Z.bits_0.
    destruct (decide (i = j)) as [->|].
    + by rewrite E.
    + by rewrite Z.pow2_bits_false, andb_false_r.
Qed.

Lemma testbit_set m i j :
  0 ≤ i → 0 ≤ j → Z.testbit (Z.lor m (Z.shiftl 1 i)) j = Z.testbit m j || bool_decide (i = j).
Proof.
  intros Hi Hj. rewrite Z.lor_spec, Z.shiftl_1_l. f_equal. case_bool_decide.
  - subst. by apply Z.pow2_bits_true.
  - by apply Z.pow2_bits_false.
Qed.

Lemma u64_testbit_high m i : is_u64 m → 64 ≤ i → Z.testbit m i = false.
Proof.
  unfold is_u64, u64_max. intros Hm Hi.
  rewrite <- (Z.mod_small m (2 ^ 64)) by lia. apply Z.mod_pow2_bits_high. lia.
Qed.

Lemma lor_bit_u64 m i : is_u64 m → 0 ≤ i < 64 → is_u64 (Z.lor m (Z.shiftl 1 i)).
Proof.
  intros Hm Hi. unfold is_u64, u64_max in *. rewrite Z.shiftl_1_l.
  assert (0 ≤ Z.lor m (2 ^ i)) as Hn.
  { apply Z.lor_nonneg. split; [lia|]. apply Z.pow_nonneg; lia. }
  split; [done|].
  destruct (decide (Z.lor m (2 ^ i) = 0)); [lia|].
  assert (Z.log2 (Z.lor m (2 ^ i)) < 64); [|apply Z.log2_lt_pow2 in H; lia].
  rewrite Z.log2_lor, Z.log2_pow2 by lia.
  destruct (decide (m = 0)) as [->|]; [cbn; lia|].
  assert (Z.log2 m < 64) by (apply Z.log2_lt_pow2; lia). lia.
Qed.

Lemma shiftr_u64 m i : is_u64 m → 0 ≤ i → is_u64 (Z.shiftr m i).
Proof.
  unfold is_u64. intros Hm Hi. rewrite Z.shiftr_div_pow2 by lia.
  assert (0 < 2 ^ i) by (apply Z.pow_pos_nonneg; lia). split.
  - apply Z.div_pos; lia.
  - transitivity m; [|lia]. apply Z.div_le_upper_bound; nia.
Qed.

#[export] Hint Resolve lor_bit_u64 shiftr_u64 : cst.

(** ** The advance loop *)

(** The loop stops at the first clear bit, or past the window. *)
Lemma advance_loop_spec fuel m a :
  1 ≤ a ≤ 65 → 65 - a ≤ Z.of_nat fuel →
  let r := advance_loop fuel m a in
  a ≤ r ≤ 65 ∧ (∀ i, a ≤ i < r → Z.testbit m (i - 1) = true) ∧
  (r ≤ 64 → Z.testbit m (r - 1) = false).
Proof.
  revert a. induction fuel as [|fuel IH]; intros a Ha Hf; cbn -[Z.add].
  - repeat split; try lia.
  - unfold NONCE_BITMAP_CAPACITY. destruct (Z.leb_spec a 64); [|repeat split; lia].
    rewrite land_bit_zero by lia. destruct (Z.testbit m (a - 1)) eqn:E; cbn.
    + destruct (IH (a + 1)) as (? & Hbits & ?); [lia..|].
      split_and!; [lia..| |done].
      intros i Hi. destruct (decide (i = a)) as [->|]; [done|]. apply Hbits. lia.
    + repeat split; try done; lia.
Qed.

(** Every fuel above the window gives the same answer. *)
Lemma advance_loop_fuel fuel m :
  (64 ≤ fuel)%nat → advance_loop fuel m 1 = advance_loop 64 m 1.
Proof.
  intros Hf.
  destruct (advance_loop_spec fuel m 1) as (? & H1 & H2); [lia..|].
  destruct (advance_loop_spec 64 m 1) as (? & H3 & H4); [lia..|].
  set (r := advance_loop fuel m 1) in *. set (r' := advance_loop 64 m 1) in *.
  destruct (Z.lt_trichotomy r r') as [?|[?|?]]; [|done|]; exfalso.
  - specialize (H3 r ltac:(lia)). rewrite H2 in H3 by lia. done.
  - specialize (H1 r' ltac:(lia)). rewrite H4 in H1 by lia. done.
Qed.

(** ** Consuming one nonce *)

(** Consuming the current nonce cannot overflow, and absorbs the run of
    recorded nonces above it. *)
Lemma consume_current_spec st :
  nonce_wf st → base st < u64_max →
  ∃ st', consume_current_nonce (base st) (bitmap st) = Some st' ∧
    is_u64 (base st') ∧ is_u64 (bitmap st') ∧
    (∀ x, used st' x ↔ used st x ∨ x = base st).
Proof.
  intros [Hb Hm Hu] Hlt. unfold consume_current_nonce.
  destruct (advance_loop_spec 64 (bitmap st) 1) as (Ha & Hset & Hclear); [lia..|].
  generalize dependent (advance_loop 64 (bitmap st) 1). intros a Ha Hset Hclear.
  assert (base st + a ≤ u64_max) as Hfit.
  { destruct (decide (a = 1)) as [->|]; [lia|].
    enough (base st + (a - 1) < u64_max) by lia. apply Hu. right.
    unfold NONCE_BITMAP_CAPACITY. split; [lia|].
    rewrite <- (Hset (a - 1)) by lia. f_equal. lia. }
  assert (checked_add (base st) a = Some (base st + a)) as -> by by apply checked_add_Some.
  cbn. eexists; split; [done|]. cbn. unfold is_u64 in *.
  assert (0 ≤ base st + a) by lia.
  split; [done|]. split; [case_match; [by split | by apply shiftr_u64; [|lia]]|].
  intros x. unfold used, NONCE_BITMAP_CAPACITY. cbn.
  destruct (Z.lt_trichotomy x (base st)) as [?|[?|?]]; [naive_solver lia..|].
  destruct (Z.lt_trichotomy x (base st + a)) as [?|[->|?]].
  - specialize (Hset (x - base st) ltac:(lia)). naive_solver lia.
  - replace (base st + a - base st - 1) with (a - 1) by lia.
    split; [lia|]. intros [[?|[? Hx]]|?]; [lia| |lia].
    by rewrite Hclear in Hx by lia.
  - destruct (Z.leb_spec 64 a).
    + rewrite Z.bits_0. naive_solver lia.
    + rewrite Z.shiftr_spec by lia.
      replace (x - (base st + a) - 1 + a) with (x - base st - 1) by lia.
      destruct (decide (x - base st - 1 < 64)); [naive_solver lia|].
      rewrite u64_testbit_high by (done || lia). naive_solver lia.
Qed.

(** The three outcomes of [consume] in terms of the used set. *)
Lemma consume_spec st n :
  nonce_wf st → is_u64 n →
  match consume st n with
  | (true, st') =>
      n < u64_max ∧ ¬ used st n ∧ nonce_wf st' ∧
      ∀ x, used st' x ↔ used st x ∨ x = n ∨ (base st + NONCE_BITMAP_CAPACITY < n ∧ x < n)
  | (false, st') => st' = st ∧ (n = u64_max ∨ used st n)
  end.
Proof.
  intros Hwf Hn. pose proof Hwf as [Hb Hm Hu]. unfold consume, next_nonce_state, is_u64 in *.
  destruct (checked_add n 1) as [n1|] eqn:En; cbn.
  2: { apply checked_add_None in En. split; [done|]. left. lia. }
  apply checked_add_Some in En as [-> ?].
  destruct (Z.ltb_spec n (base st)).
  { split; [done|]. right. by left. }
  destruct (Z.eqb_spec (n - base st) 0).
  { assert (n = base st) as -> by lia.
    destruct (consume_current_spec st) as (st' & -> & ? & ? & Hst'); [done|lia|].
    assert (¬ used st (base st)) by (unfold used; naive_solver lia).
    split_and!; [lia|done| |].
    - split; [done..|]. intros x [?| ->]%Hst'; [by apply Hu|lia].
    - intros x. rewrite Hst'. unfold NONCE_BITMAP_CAPACITY. naive_solver lia. }
  destruct (Z.ltb_spec NONCE_BITMAP_CAPACITY (n - base st)).
  { assert (∀ x, used (mkNonce (n + 1) 0) x ↔ x ≤ n) as Hx.
    { intros x. unfold used; cbn. rewrite Z.bits_0. naive_solver lia. }
    unfold NONCE_BITMAP_CAPACITY in *.
    assert (∀ x, used st x → x ≤ base st + 64) as Hle.
    { unfold used, NONCE_BITMAP_CAPACITY. naive_solver lia. }
    split_and!; [lia|intros ?%Hle; lia| |].
    - split; cbn; [unfold is_u64; lia|unfold is_u64, u64_max; lia|]. intros x ?%Hx. lia.
    - intros x. rewrite Hx. pose proof (Hle x). naive_solver lia. }
  rewrite land_bit_zero, negb_involutive by lia.
  destruct (Z.testbit (bitmap st) (n - base st - 1)) eqn:E.
  { split; [done|]. right. right. split; [lia|done]. }
  assert (∀ x, used (mkNonce (base st) (Z.lor (bitmap st) (Z.shiftl 1 (n - base st - 1)))) x
               ↔ used st x ∨ x = n) as Hx.
  { intros x. unfold used; cbn. destruct (decide (base st < x)); [|naive_solver lia].
    rewrite testbit_set, orb_true_iff, bool_decide_eq_true by lia. naive_solver lia. }
  unfold NONCE_BITMAP_CAPACITY in *.
  split_and!; [lia|intros [?|[_ ?]]; [lia|congruence]| |].
  - split; cbn; [done|apply lor_bit_u64; [done|lia]|].
    intros x [?| ->]%Hx; [by apply Hu|lia].
  - intros x. rewrite Hx. naive_solver lia.
Qed.

(** ** Sequences of nonces *)

Lemma consume_wf st n : nonce_wf st → is_u64 n → nonce_wf (consume st n).2.
Proof.
  intros Hwf Hn. pose proof (consume_spec st n Hwf Hn) as Hc.
  destruct (consume st n) as [[] st']; [by destruct Hc as (_ & _ & ? & _)|].
  by destruct Hc as [-> _].
Qed.

(** Used nonces stay used. *)
Lemma consume_mono st n x : nonce_wf st → is_u64 n → used st x → used (consume st n).2 x.
Proof.
  intros Hwf Hn Hx. pose proof (consume_spec st n Hwf Hn) as Hc.
  destruct (consume st n) as [[] st']; cbn.
  - destruct Hc as (_ & _ & _ & Hu). apply Hu. by left.
  - by destruct Hc as [-> _].
Qed.

#[export] Hint Resolve consume_wf consume_mono : cst.

(** What a whole sequence accepts is fresh, duplicate-free and used at the end. *)
Lemma consume_all_spec st ns :
  nonce_wf st → Forall is_u64 ns →
  let '(accepted, st') := consume_all st ns in
  nonce_wf st' ∧ NoDup accepted ∧
  (∀ x, x ∈ accepted → ¬ used st x) ∧
  (∀ x, used st x ∨ x ∈ accepted → used st' x).
Proof.
  intros Hwf Hns. revert st Hwf.
  induction Hns as [|n ns Hn _ IH]; intros st Hwf; cbn.
  { split_and!; [done|constructor|set_solver|naive_solver set_solver]. }
  pose proof (consume_spec st n Hwf Hn) as Hc.
  destruct (consume st n) as [[] st1].
  - destruct Hc as (_ & Hf & Hwf1 & Hu). specialize (IH st1 Hwf1).
    destruct (consume_all st1 ns) as [acc st2]. destruct IH as (? & ? & Hfr & Hin).
    assert (used st1 n) by (apply Hu; auto).
    split_and!; [done| | |].
    + constructor; [|done]. intros Hacc. by apply (Hfr n).
    + intros x [->|Hx]%elem_of_cons; [done|]. intros ?. apply (Hfr x Hx), Hu. by left.
    + intros x Hx. apply Hin. rewrite elem_of_cons in Hx. rewrite Hu. naive_solver.
  - destruct Hc as [-> _]. specialize (IH st Hwf). by destruct (consume_all st ns).
Qed.

(** The used set determines the state. *)
Lemma base_not_used st : ¬ used st (base st).
Proof. unfold used. lia. Qed.

Lemma used_ext st st' :
  nonce_wf st → nonce_wf st' → (∀ x, used st x ↔ used st' x) → st = st'.
Proof.
  intros [Hb Hm _] [Hb' Hm' _] Hu.
  assert (base st = base st') as Hbase.
  { pose proof (base_not_used st) as H1. pose proof (base_not_used st') as H2.
    rewrite Hu in H1. rewrite <- Hu in H2. unfold used in *. lia. }
  destruct st as [b m], st' as [b' m']; cbn in *. subst b'. f_equal.
  apply Z.bits_inj'. intros i Hi. destruct (decide (i < 64)).
  2: { by rewrite !u64_testbit_high by (done || lia). }
  specialize (Hu (b + i + 1)). unfold used, NONCE_BITMAP_CAPACITY in Hu; cbn in Hu.
  replace (b + i + 1 - b - 1) with i in Hu by lia.
  apply eq_bool_prop_intro. rewrite !Is_true_true. naive_solver lia.
Qed.

(** Fresh nonces inside the window are all accepted, in any order. *)
Lemma consume_all_window st ns :
  nonce_wf st → NoDup ns →
  (∀ x, x ∈ ns → ¬ used st x ∧ 0 ≤ x < u64_max ∧ x ≤ base st + NONCE_BITMAP_CAPACITY) →
  ∃ st', consume_all st ns = (ns, st') ∧ nonce_wf st' ∧
    ∀ x, used st' x ↔ used st x ∨ x ∈ ns.
Proof.
  intros Hwf Hnd. revert st Hwf. induction Hnd as [|n ns Hni Hnd IH]; intros st Hwf Hns; cbn.
  { exists st. split_and!; [done..|]. set_solver. }
  destruct (Hns n) as (Hf & Hr & Hw); [left|].
  pose proof (consume_spec st n Hwf) as Hc. destruct (consume st n) as [[] st1].
  2: { destruct Hc as [_ [?|?]]; [unfold is_u64; lia|lia|done]. }
  destruct Hc as (_ & _ & Hwf1 & Hu); [unfold is_u64; lia|].
  destruct (IH st1 Hwf1) as (st2 & -> & Hwf2 & Hu2).
  { intros x Hx. destruct (Hns x) as (? & ? & ?); [by right|].
    assert (base st ≤ base st1).
    { pose proof (base_not_used st1) as Hb1. rewrite Hu in Hb1. unfold used in Hb1. lia. }
    split_and!; [|lia..]. rewrite Hu. intros [?|[->|[? ?]]]; [done|done|lia]. }
  exists st2. split_and!; [done..|]. intros x. rewrite Hu2, Hu, elem_of_cons.
  split; [|naive_solver]. intros [[?|[?|[? ?]]]|?]; [naive_solver..|lia|naive_solver].
Qed.

Lemma nonce_default_wf : nonce_wf nonce_default.
Proof.
  split; cbn; [done..|]. intros x. unfold used; cbn. rewrite Z.bits_0.
  unfold u64_max. naive_solver lia.
Qed.

Lemma account_default_wf : account_wf account_default.
Proof. split; [done|apply nonce_default_wf]. Qed.

(** An empty window above any base. *)
Lemma nonce_empty_used c x : used (mkNonce c 0) x ↔ x < c.
Proof. unfold used; cbn. rewrite Z.bits_0. naive_solver. Qed.

Lemma nonce_empty_wf c : is_u64 c → nonce_wf (mkNonce c 0).
Proof. intros Hc. split; cbn; [done|done|]. intros x ?%nonce_empty_used. unfold is_u64 in Hc. lia. Qed.

#[export] Hint Resolve nonce_default_wf account_default_wf nonce_empty_wf : cst.

(** ** Account codec *)

Section codec_lemmas.
Context `{CodecLib}.

Lemma write_nonce_length n : length (write_nonce n) = Nonce_SIZE.
Proof. unfold write_nonce. rewrite length_app, !write_uint_length. done. Qed.

Lemma write_account_length a : length (write_account a) = Account_SIZE.
Proof. unfold write_account. rewrite length_app, write_uint_length, write_nonce_length. done. Qed.

Lemma read_write_nonce n rest :
  is_u64 (base n) → is_u64 (bitmap n) → read_nonce (write_nonce n ++ rest) = Ok (n, rest).
Proof.
  intros Hb Hm. unfold read_nonce, write_nonce. rewrite <- app_assoc, read_write_u64 by done.
  cbn. rewrite read_write_u64 by done. cbn. by destruct n.
Qed.

Lemma read_write_account a rest :
  account_wf a → read_account (write_account a ++ rest) = Ok (a, rest).
Proof.
  intros [Hb [? ? _]]. unfold read_account, write_account.
  rewrite <- app_assoc, read_write_u64 by done. cbn. rewrite read_write_nonce by done.
  cbn. by destruct a.
Qed.

End codec_lemmas.

(** ** Properties *)

(** C7. [Nonce::consume] refines the abstract used-nonce set: on a well-formed
    state it accepts exactly the nonces that are neither used nor the last
    [u64], keeps the state unchanged when it refuses, and when it accepts the
    used set grows by that nonce alone, plus every smaller nonce when the
    nonce lies beyond the 64-entry window.  The state stays well formed, so no
    addition in it overflows. *)
Theorem nonce_consume_refines_used_set st n :
  nonce_wf st → is_u64 n →
  ∃ accepted st', consume st n = (accepted, st') ∧ nonce_wf st' ∧
    (accepted = true ↔ n < u64_max ∧ ¬ used st n) ∧
    (accepted = false → st' = st) ∧
    (accepted = true → ∀ x, used st' x ↔
       used st x ∨ x = n ∨ (base st + NONCE_BITMAP_CAPACITY < n ∧ x < n)).
Proof.
  intros Hwf Hn. pose proof (consume_spec st n Hwf Hn) as Hc.
  destruct (consume st n) as [[] st']; eexists _, _; split; try done.
  - destruct Hc as (? & ? & ? & ?). naive_solver.
  - destruct Hc as [-> Hr]. split_and!; [done| |done|done].
    split; [done|]. intros [? ?]. naive_solver lia.
Qed.

Lemma nonce_consume_refines_used_set_witness :
  nonce_wf nonce_default ∧ is_u64 2 ∧
  ∃ accepted st', consume nonce_default 2 = (accepted, st') ∧ nonce_wf st' ∧
    (accepted = true ↔ 2 < u64_max ∧ ¬ used nonce_default 2) ∧
    (accepted = false → st' = nonce_default) ∧
    (accepted = true → ∀ x, used st' x ↔
       used nonce_default x ∨ x = 2 ∨
       (base nonce_default + NONCE_BITMAP_CAPACITY < 2 ∧ x < 2)).
Proof.
  split; [apply nonce_default_wf|]. split; [done|].
  apply (nonce_consume_refines_used_set nonce_default 2); [apply nonce_default_wf|done].
Defined.

(** No replay: whatever sequence of [u64] nonces an account is offered,
    each value is accepted at most once, and no value already used in the
    starting state is accepted. *)
Theorem nonce_no_replay st ns :
  nonce_wf st → Forall is_u64 ns →
  NoDup (consume_all st ns).1 ∧ (∀ x, x ∈ (consume_all st ns).1 → ¬ used st x).
Proof.
  intros Hwf Hns. pose proof (consume_all_spec st ns Hwf Hns) as Hc.
  destruct (consume_all st ns) as [acc st']. naive_solver.
Qed.

Lemma nonce_no_replay_witness :
  (consume_all nonce_default [2; 0; 2; 1; 0; 66; 66]).1 = [2; 0; 1; 66] ∧
  NoDup (consume_all nonce_default [2; 0; 2; 1; 0; 66; 66]).1.
Proof.
  split; [vm_compute; reflexivity|].
  apply (nonce_no_replay nonce_default [2; 0; 2; 1; 0; 66; 66]).
  - apply nonce_default_wf.
  - repeat constructor; done.
Defined.

(** Order independence inside the window: submitting the next [k <= 65]
    nonces of an account with an empty window in any order accepts all of
    them and leads to the same state, the base advanced by [k] and the bitmap
    empty. *)
Theorem nonce_window_order_irrelevant b k ns :
  0 ≤ b → 0 ≤ k ≤ NONCE_BITMAP_CAPACITY + 1 → b + k ≤ u64_max →
  ns ≡ₚ seqZ b k →
  consume_all (mkNonce b 0) ns = (ns, mkNonce (b + k) 0).
Proof.
  intros Hb Hk Hbk Hp.
  destruct (consume_all_window (mkNonce b 0) ns) as (st' & -> & Hst' & Hu).
  - apply nonce_empty_wf. unfold is_u64. lia.
  - rewrite Hp. apply NoDup_seqZ.
  - intros x Hx. rewrite Hp, elem_of_seqZ in Hx. rewrite nonce_empty_used. cbn. lia.
  - f_equal. apply used_ext; [done|apply nonce_empty_wf; unfold is_u64; lia|].
    intros x. rewrite Hu, !nonce_empty_used, Hp, elem_of_seqZ. lia.
Qed.

Lemma nonce_window_order_irrelevant_witness :
  consume_all (mkNonce 7 0) [9; 7; 10; 8] = ([9; 7; 10; 8], mkNonce 11 0).
Proof.
  apply (nonce_window_order_irrelevant 7 4 [9; 7; 10; 8]); [done|done|done|].
  vm_compute seqZ. apply NoDup_Permutation.
  - repeat constructor; set_solver.
  - repeat constructor; set_solver.
  - set_solver.
Defined.
