(* ===== verification/Auth.v ===== *)
(** * Transaction keys and signatures (crates/primitives/src/auth.rs)

    Scheme-tagged public keys and signatures with their codecs, the account
    keys derived from public keys (crates/primitives/src/account.rs), the
    mixed batch verifier and the WebAuthn assertion check with its unpadded
    base64url encoder. *)

From stdpp Require Import prelude list strings.
From S2P Require Import Prelude Interfaces Concrete.

(** ** Constants *)

Definition ED25519_SCHEME : byte := x00.
Definition SECP256R1_SCHEME : byte := x01.
Definition KEY_BYTES : nat := 33.
Definition SIGNATURE_BYTES : nat := 64.
Definition ED25519_SIGNATURE_BYTES : nat := 1 + SIGNATURE_BYTES.
Definition WEBAUTHN_AUTHENTICATOR_DATA_BYTES : Z := 256.
Definition WEBAUTHN_CLIENT_DATA_JSON_BYTES : Z := 512.
Definition WEBAUTHN_USER_VERIFIED_FLAG : Z := 4.

(** [TransactionPublicKey::SIZE] and [AccountKey::SIZE]. *)
Definition TransactionPublicKey_SIZE : nat := 1 + KEY_BYTES.
Definition AccountKey_SIZE : nat := 32.

(** [TransactionSignature::MIN_SIZE] and [MAX_SIZE]. *)
Definition MIN_SIZE : Z := 1 + Z.of_nat SIGNATURE_BYTES.
Definition MAX_SIZE : Z :=
  1 + Z.of_nat SIGNATURE_BYTES + 2 + WEBAUTHN_AUTHENTICATOR_DATA_BYTES
  + 2 + WEBAUTHN_CLIENT_DATA_JSON_BYTES.

Abbreviation AccountKey := bytes.

(** ** base64url without padding *)

Definition ALPHABET : bytes :=
  bytes_of_string "ABCDEFGHIJKLMNOPQRSTUVWXYZabcdefghijklmnopqrstuvwxyz0123456789-_".

Definition alphabet_at (i : Z) : byte := nth (Z.to_nat i) ALPHABET x00.

(** [<<] on [u8] drops the bits shifted out. *)
Definition shl8 (x k : Z) : Z := Z.shiftl x k mod 256.

(** [bytes.chunks(3)]. *)
Fixpoint chunks3 (l : bytes) : list bytes :=
  match l with
  | [] => []
  | [a] => [[a]]
  | [a; b] => [[a; b]]
  | a :: b :: c :: l' => [a; b; c] :: chunks3 l'
  end.

(** The loop body: two to four characters per chunk. *)
Definition base64_chunk (chunk : bytes) : bytes :=
  let first := byte_val (nth 0 chunk x00) in
  let second := byte_val (nth 1 chunk x00) in
  let third := byte_val (nth 2 chunk x00) in
  [alphabet_at (Z.shiftr first 2);
   alphabet_at (Z.lor (shl8 (Z.land first 3) 4) (Z.shiftr second 4))]
  ++ (if (1 <? length chunk)%nat
      then [alphabet_at (Z.lor (shl8 (Z.land second 15) 2) (Z.shiftr third 6))] else [])
  ++ (if (2 <? length chunk)%nat then [alphabet_at (Z.land third 63)] else []).

Definition base64_url_no_pad (l : bytes) : string :=
  string_of_bytes (concat (map base64_chunk (chunks3 l))).

(** ** Keys, signatures and their codecs *)

Section auth.
Context `{CodecLib} `{Hashing} `{Keys} `{Json}.

Inductive TransactionPublicKey : Type :=
| PkEd25519 (key : ed_pk) (encoded : bytes)
| PkSecp256r1 (key : r1_pk) (encoded : bytes).

(** [TransactionPublicKey::ed25519] and [::secp256r1]. *)
Definition tpk_ed25519 (key : ed_pk) : TransactionPublicKey :=
  PkEd25519 key ([ED25519_SCHEME] ++ fwrite key
                 ++ replicate (TransactionPublicKey_SIZE - (1 + fsize ed_pk)) x00).

Definition tpk_secp256r1 (key : r1_pk) : TransactionPublicKey :=
  PkSecp256r1 key ([SECP256R1_SCHEME] ++ fwrite key).

Definition tpk_as_ref (pk : TransactionPublicKey) : bytes :=
  match pk with PkEd25519 _ encoded => encoded | PkSecp256r1 _ encoded => encoded end.

Definition write_tpk (pk : TransactionPublicKey) : bytes := tpk_as_ref pk.

Definition read_tpk : reader TransactionPublicKey := fun buf =>
  if decide (length buf < TransactionPublicKey_SIZE)%nat then Err EndOfBuffer
  else
    let encoded := take TransactionPublicKey_SIZE buf in
    let buf := drop TransactionPublicKey_SIZE buf in
    let scheme := nth 0 encoded x00 in
    if decide (scheme = ED25519_SCHEME) then
      if existsb (λ b, negb (bool_decide (b = x00))) (drop (1 + fsize ed_pk) encoded)
      then Err (Invalid "TransactionPublicKey" "non-zero padding")
      else
        '(key, _) ← fread (take (fsize ed_pk) (drop 1 encoded));
        Ok (PkEd25519 key encoded, buf)
    else if decide (scheme = SECP256R1_SCHEME) then
      '(key, _) ← fread (drop 1 encoded);
      Ok (PkSecp256r1 key encoded, buf)
    else Err (Invalid "TransactionPublicKey" "unknown scheme").

(** [AccountKey::from_public_key_bytes], [from_public_key], [from_bytes]. *)
Definition from_public_key_bytes (b : bytes) : option AccountKey :=
  if decide (length b ≠ TransactionPublicKey_SIZE) then None
  else
    let scheme := nth 0 b x00 in
    if decide (scheme = ED25519_SCHEME) then Some (take AccountKey_SIZE (drop 1 b))
    else if decide (scheme = SECP256R1_SCHEME) then Some (sha256 b)
    else None.

Definition from_public_key (pk : TransactionPublicKey) : run AccountKey :=
  expect (from_public_key_bytes (tpk_as_ref pk))
    "decoded transaction public key bytes must derive an account key".

Definition account_key_from_bytes (b : bytes) : option AccountKey :=
  if decide (length b ≠ AccountKey_SIZE) then None else Some b.

Definition write_account_key (k : AccountKey) : bytes := k.

Definition read_account_key : reader AccountKey := fun buf =>
  if decide (length buf < AccountKey_SIZE)%nat then Err EndOfBuffer
  else Ok (take AccountKey_SIZE buf, drop AccountKey_SIZE buf).

Inductive TransactionSignature : Type :=
| SigEd25519 (signature : ed_sig) (encoded : bytes)
| SigSecp256r1 (signature : r1_sig) (authenticator_data client_data_json encoded : bytes).

Definition sig_ed25519 (signature : ed_sig) : TransactionSignature :=
  SigEd25519 signature ([ED25519_SCHEME] ++ fwrite signature).

(** The encoding both [secp256r1] and [read_cfg] assemble. *)
Definition webauthn_encoding (signature : r1_sig) (auth client : bytes) : bytes :=
  [SECP256R1_SCHEME] ++ fwrite signature
  ++ write_uint 2 (zlen auth) ++ auth ++ write_uint 2 (zlen client) ++ client.

Definition sig_secp256r1 (signature : r1_sig) (authenticator_data client_data_json : bytes)
    : result CodecError TransactionSignature :=
  if WEBAUTHN_AUTHENTICATOR_DATA_BYTES <? zlen authenticator_data
  then Err (Invalid "TransactionSignature" "authenticator data too large")
  else if WEBAUTHN_CLIENT_DATA_JSON_BYTES <? zlen client_data_json
  then Err (Invalid "TransactionSignature" "client data JSON too large")
  else Ok (SigSecp256r1 signature authenticator_data client_data_json
             (webauthn_encoding signature authenticator_data client_data_json)).

Definition sig_as_ref (s : TransactionSignature) : bytes :=
  match s with SigEd25519 _ encoded => encoded | SigSecp256r1 _ _ _ encoded => encoded end.

Definition write_sig (s : TransactionSignature) : bytes := sig_as_ref s.
Definition sig_encode_size (s : TransactionSignature) : Z := zlen (sig_as_ref s).

Definition read_sig : reader TransactionSignature := fun buf =>
  if decide (length buf < 1 + SIGNATURE_BYTES)%nat then Err EndOfBuffer
  else
    '(scheme, buf) ← read_uint 1 buf;
    if decide (scheme = byte_val ED25519_SCHEME) then
      '(signature, buf) ← fread buf;
      Ok (SigEd25519 signature ([ED25519_SCHEME] ++ fwrite signature), buf)
    else if decide (scheme = byte_val SECP256R1_SCHEME) then
      '(signature, buf) ← fread buf;
      '(authenticator_data_len, buf) ← read_uint 2 buf;
      if WEBAUTHN_AUTHENTICATOR_DATA_BYTES <? authenticator_data_len
      then Err (Invalid "TransactionSignature" "authenticator data too large")
      else if zlen buf <? authenticator_data_len + 2 then Err EndOfBuffer
      else
        let authenticator_data := ztake authenticator_data_len buf in
        let buf := zdrop authenticator_data_len buf in
        '(client_data_json_len, buf) ← read_uint 2 buf;
        if WEBAUTHN_CLIENT_DATA_JSON_BYTES <? client_data_json_len
        then Err (Invalid "TransactionSignature" "client data JSON too large")
        else if zlen buf <? client_data_json_len then Err EndOfBuffer
        else
          let client_data_json := ztake client_data_json_len buf in
          let buf := zdrop client_data_json_len buf in
          Ok (SigSecp256r1 signature authenticator_data client_data_json
                (webauthn_encoding signature authenticator_data client_data_json), buf)
    else Err (Invalid "TransactionSignature" "unknown scheme").

(** ** Verification *)

(** [verify_webauthn_assertion]. *)
Definition verify_webauthn_assertion (key : r1_pk) (challenge : bytes) (signature : r1_sig)
    (authenticator_data client_data_json : bytes) : bool :=
  if zlen authenticator_data <? 37 then false
  else if Z.land (byte_val (nth 32 authenticator_data x00)) WEBAUTHN_USER_VERIFIED_FLAG =? 0
  then false
  else match json_from_slice client_data_json with
  | None => false
  | Some client_data =>
      if decide (json_get_str client_data "type" ≠ Some "webauthn.get"%string) then false
      else if decide (json_get_str client_data "challenge"
                      ≠ Some (base64_url_no_pad challenge)) then false
      else r1_verify key (authenticator_data ++ sha256 client_data_json) signature
  end.

Record Secp256r1Item := mkR1Item {
  item_message : bytes;
  item_public_key : r1_pk;
  item_signature : r1_sig;
  item_authenticator_data : bytes;
  item_client_data_json : bytes
}.

(** [struct TransactionBatchVerifier]. *)
Record TransactionBatchVerifier := mkVerifier {
  v_ed25519 : ed_batch;
  v_secp256r1 : list Secp256r1Item
}.

Definition verifier_new : TransactionBatchVerifier := mkVerifier ed_batch_new [].

(** [TransactionBatchVerifier::add]. *)
Definition verifier_add (v : TransactionBatchVerifier) (namespace message : bytes)
    (public_key : TransactionPublicKey) (signature : TransactionSignature)
    : bool * TransactionBatchVerifier :=
  match public_key, signature with
  | PkEd25519 key _, SigEd25519 s _ =>
      let '(accepted, b) := ed_batch_add (v_ed25519 v) namespace message key s in
      (accepted, mkVerifier b (v_secp256r1 v))
  | PkSecp256r1 key _, SigSecp256r1 s auth client _ =>
      (true, mkVerifier (v_ed25519 v) (v_secp256r1 v ++ [mkR1Item message key s auth client]))
  | _, _ => (false, v)
  end.

Definition verify_item (i : Secp256r1Item) : bool :=
  verify_webauthn_assertion (item_public_key i) (item_message i) (item_signature i)
    (item_authenticator_data i) (item_client_data_json i).

(** [verify_secp256r1]. *)
Definition verify_secp256r1 (st : Strategy) (items : list Secp256r1Item) : bool :=
  match items with
  | [] => true
  | _ => st_fold items true (λ valid i, valid && verify_item i) andb
  end.

(** [TransactionBatchVerifier::verify]. *)
Definition verifier_verify (st : Strategy) (rng : Z) (v : TransactionBatchVerifier) : bool :=
  if negb (ed_batch_verify rng (v_ed25519 v)) then false
  else verify_secp256r1 st (v_secp256r1 v).

End auth.

(** ** base64url lemmas *)

Lemma ALPHABET_NoDup : NoDup ALPHABET.
Proof. apply (bool_decide_unpack _). vm_compute. exact I. Qed.

Lemma alphabet_at_inj i j :
  0 ≤ i < 64 → 0 ≤ j < 64 → alphabet_at i = alphabet_at j → i = j.
Proof.
  intros Hi Hj. unfold alphabet_at. rewrite !nth_lookup. intros Heq.
  assert (length ALPHABET = 64%nat) as Hl by reflexivity.
  destruct (lookup_lt_is_Some_2 ALPHABET (Z.to_nat i)) as [a Ha]; [lia|].
  destruct (lookup_lt_is_Some_2 ALPHABET (Z.to_nat j)) as [b Hb]; [lia|].
  rewrite Ha, Hb in Heq. cbn in Heq. subst b.
  pose proof (NoDup_lookup _ _ _ _ ALPHABET_NoDup Ha Hb). lia.
Qed.

(** Bit patterns of the encoder as arithmetic, checked on every operand. *)
Lemma all_below_256 (P : Z → bool) :
  forallb P (seqZ 0 256) = true → ∀ x, 0 ≤ x < 256 → P x = true.
Proof. rewrite forallb_forall. intros HP x Hx. apply HP, list_elem_of_In, elem_of_seqZ. lia. Qed.

Lemma sextet_bounds x :
  0 ≤ x < 256 →
  Z.shiftr x 2 = x / 4 ∧ shl8 (Z.land x 3) 4 = (x mod 4) * 16 ∧ Z.shiftr x 4 = x / 16 ∧
  shl8 (Z.land x 15) 2 = (x mod 16) * 4 ∧ Z.shiftr x 6 = x / 64 ∧ Z.land x 63 = x mod 64.
Proof.
  intros Hx.
  enough (bool_decide (Z.shiftr x 2 = x / 4 ∧ shl8 (Z.land x 3) 4 = (x mod 4) * 16 ∧
    Z.shiftr x 4 = x / 16 ∧ shl8 (Z.land x 15) 2 = (x mod 16) * 4 ∧
    Z.shiftr x 6 = x / 64 ∧ Z.land x 63 = x mod 64) = true) as ?%bool_decide_eq_true_1; [done|].
  revert x Hx. apply all_below_256. vm_compute. reflexivity.
Qed.

Lemma lor_disjoint_16 a b : 0 ≤ a < 16 → 0 ≤ b < 16 → Z.lor (a * 16) b = a * 16 + b.
Proof.
  intros Ha Hb.
  assert (0 ≤ a * 16 + b < 256) as Hx by lia.
  assert (Z.lor ((a * 16 + b) / 16 * 16) ((a * 16 + b) mod 16) = a * 16 + b) as Hk.
  { enough ((Z.lor ((a * 16 + b) / 16 * 16) ((a * 16 + b) mod 16) =? a * 16 + b) = true)
      by by apply Z.eqb_eq.
    revert Hx. generalize (a * 16 + b).
    apply (all_below_256 (λ x, Z.lor (x / 16 * 16) (x mod 16) =? x)). vm_compute. reflexivity. }
  rewrite Z.div_add_l, (Z.div_small b), Z.add_0_r in Hk by lia.
  rewrite Z.add_comm, Z.mod_add, Z.mod_small in Hk by lia. lia.
Qed.

Lemma lor_disjoint_4 a b : 0 ≤ a < 16 → 0 ≤ b < 4 → Z.lor (a * 4) b = a * 4 + b.
Proof.
  intros Ha Hb.
  assert (0 ≤ a * 4 + b < 256) as Hx by lia.
  assert (Z.lor ((a * 4 + b) / 4 * 4) ((a * 4 + b) mod 4) = a * 4 + b) as Hk.
  { enough ((Z.lor ((a * 4 + b) / 4 * 4) ((a * 4 + b) mod 4) =? a * 4 + b) = true)
      by by apply Z.eqb_eq.
    revert Hx. generalize (a * 4 + b).
    apply (all_below_256 (λ x, Z.lor (x / 4 * 4) (x mod 4) =? x)). vm_compute. reflexivity. }
  rewrite Z.div_add_l, (Z.div_small b), Z.add_0_r in Hk by lia.
  rewrite Z.add_comm, Z.mod_add, Z.mod_small in Hk by lia. lia.
Qed.

Lemma sextet_1 x y :
  0 ≤ x < 256 → 0 ≤ y < 256 →
  Z.lor (shl8 (Z.land x 3) 4) (Z.shiftr y 4) = (x mod 4) * 16 + y / 16.
Proof.
  intros Hx Hy. destruct (sextet_bounds x Hx) as (_ & -> & _).
  destruct (sextet_bounds y Hy) as (_ & _ & -> & _). apply lor_disjoint_16; dlia.
Qed.

Lemma sextet_2 x y :
  0 ≤ x < 256 → 0 ≤ y < 256 →
  Z.lor (shl8 (Z.land x 15) 2) (Z.shiftr y 6) = (x mod 16) * 4 + y / 64.
Proof.
  intros Hx Hy. destruct (sextet_bounds x Hx) as (_ & _ & _ & -> & _).
  destruct (sextet_bounds y Hy) as (_ & _ & _ & _ & -> & _). apply lor_disjoint_4; dlia.
Qed.

Lemma sextet_0 x : 0 ≤ x < 256 → Z.shiftr x 2 = x / 4.
Proof. intros Hx. by destruct (sextet_bounds x Hx) as (-> & _). Qed.

Lemma sextet_3 x : 0 ≤ x < 256 → Z.land x 63 = x mod 64.
Proof. intros Hx. by destruct (sextet_bounds x Hx) as (_ & _ & _ & _ & _ & ->). Qed.

(** Reduce equal characters to equal sextets. *)
Ltac sextets :=
  repeat match goal with
  | H : alphabet_at _ = alphabet_at _ |- _ =>
      rewrite ?sextet_0, ?sextet_1, ?sextet_2, ?sextet_3 in H
        by (apply byte_val_bound || (cbn; lia));
      apply alphabet_at_inj in H; [|dlia..]
  end.

Lemma base64_chunks_inj l1 l2 :
  concat (map base64_chunk (chunks3 l1)) = concat (map base64_chunk (chunks3 l2)) → l1 = l2.
Proof.
  remember (length l1) as n eqn:Hn. revert l1 l2 Hn.
  induction (lt_wf n) as [n _ IH]. intros l1 l2 ->.
  destruct l1 as [|a1 [|b1 [|c1 l1]]], l2 as [|a2 [|b2 [|c2 l2]]];
    cbn [chunks3 map concat base64_chunk nth length Nat.ltb Nat.leb app]; intros Heq;
    simplify_eq; try done;
    repeat match goal with b : byte |- _ => lazymatch goal with
      | _ : 0 ≤ byte_val b < 256 |- _ => fail
      | _ => pose proof (byte_val_bound b) end end;
    change (byte_val x00) with 0 in *; sextets.
  - f_equal. apply byte_val_inj. dlia.
  - f_equal; [|f_equal]; apply byte_val_inj; dlia.
  - f_equal; [|f_equal; [|f_equal]]; [apply byte_val_inj; dlia..|].
    eapply IH; [|done|done]. cbn. lia.
Qed.

Lemma base64_url_no_pad_inj l1 l2 : base64_url_no_pad l1 = base64_url_no_pad l2 → l1 = l2.
Proof. intros ?%string_of_bytes_inj. by apply base64_chunks_inj. Qed.

(** ** Codec lemmas *)

Section auth_lemmas.
Context `{CodecLib} `{Hashing} `{Keys} `{Json}.

(** Keys and signatures as their constructors build them. *)
Definition tpk_wf (pk : TransactionPublicKey) : Prop :=
  match pk with
  | PkEd25519 key _ => pk = tpk_ed25519 key
  | PkSecp256r1 key _ => pk = tpk_secp256r1 key
  end.

Definition sig_wf (s : TransactionSignature) : Prop :=
  match s with
  | SigEd25519 signature _ => s = sig_ed25519 signature
  | SigSecp256r1 signature auth client _ => sig_secp256r1 signature auth client = Ok s
  end.

Lemma tpk_ed25519_as_ref key : tpk_as_ref (tpk_ed25519 key) = ED25519_SCHEME :: fwrite key ++ [x00].
Proof. unfold tpk_ed25519; cbn [tpk_as_ref app]. by rewrite ed_pk_size. Qed.

Lemma tpk_as_ref_length pk : tpk_wf pk → length (tpk_as_ref pk) = TransactionPublicKey_SIZE.
Proof.
  destruct pk as [key e|key e]; cbn [tpk_wf]; intros ->.
  - rewrite tpk_ed25519_as_ref. cbn. rewrite length_app, fwrite_length, ed_pk_size. done.
  - cbn. rewrite fwrite_length, r1_pk_size. done.
Qed.

Lemma read_write_tpk pk rest : tpk_wf pk → read_tpk (write_tpk pk ++ rest) = Ok (pk, rest).
Proof.
  intros Hwf. pose proof (tpk_as_ref_length pk Hwf) as Hl. unfold read_tpk, write_tpk.
  rewrite decide_False by (rewrite length_app; lia).
  rewrite take_app_length', drop_app_length' by done.
  destruct pk as [key e|key e]; cbn [tpk_wf] in Hwf; rewrite Hwf; clear Hwf Hl e.
  - rewrite tpk_ed25519_as_ref. cbn [nth]. rewrite decide_True by done.
    cbn [drop Nat.add]. rewrite drop_app_length' by by rewrite fwrite_length.
    cbn [existsb negb bool_decide]. rewrite bool_decide_eq_true_2 by done. cbn [negb orb].
    rewrite drop_0, take_app_length' by by rewrite fwrite_length.
    pose proof (fread_fwrite key [] (ed_pk_valid key)) as Hr. rewrite app_nil_r in Hr.
    rewrite Hr. cbn. unfold tpk_ed25519. by rewrite ed_pk_size.
  - cbn [tpk_as_ref tpk_secp256r1 nth app]. rewrite decide_False by done.
    rewrite decide_True by done. cbn [drop]. rewrite drop_0.
    pose proof (fread_fwrite key [] (r1_pk_valid key)) as Hr. rewrite app_nil_r in Hr.
    by rewrite Hr.
Qed.

Lemma one_byte_zero (l : bytes) :
  length l = 1%nat → existsb (λ b, negb (bool_decide (b = x00))) l = false → l = [x00].
Proof.
  destruct l as [|b [|]]; cbn; try done. intros _ Hb.
  rewrite orb_false_r in Hb. apply negb_false_iff, bool_decide_eq_true in Hb. by subst.
Qed.

(** What decodes is canonical: the encoded bytes are the consumed prefix. *)
Lemma read_tpk_canonical buf pk rest :
  read_tpk buf = Ok (pk, rest) → tpk_wf pk ∧ buf = write_tpk pk ++ rest.
Proof.
  unfold read_tpk. case_decide; [done|].
  set (e := take TransactionPublicKey_SIZE buf).
  assert (length e = TransactionPublicKey_SIZE) as He by (unfold e; rewrite length_take_le; lia).
  assert (buf = e ++ drop TransactionPublicKey_SIZE buf) as Hbuf by (unfold e; by rewrite take_drop).
  clearbody e. destruct e as [|s e]; [done|]. injection He as He.
  change KEY_BYTES with 33%nat in He. cbn [nth drop Nat.add].
  rewrite drop_0. case_decide as Hs; [|case_decide as Hs'; [|done]].
  - subst s. destruct (existsb _ _) eqn:Hz; [done|].
    intros ([key k] & Hk & ?)%bind_Ok; simplify_eq.
    apply fread_canonical in Hk as [_ Hk]. rewrite ed_pk_size in *. cbn in Hz.
    assert (length k = 0%nat) as Hk0.
    { apply (f_equal length) in Hk. rewrite length_app, fwrite_length, length_take_le, ed_pk_size in Hk
        by lia. lia. }
    destruct k; [|done]. rewrite app_nil_r in Hk.
    apply one_byte_zero in Hz; [|rewrite length_drop; lia].
    assert (e = fwrite key ++ [x00]) as ->.
    { transitivity (take 32 e ++ drop 32 e); [by rewrite take_drop | by rewrite Hk, Hz]. }
    split; [|done]. cbn. unfold tpk_ed25519. by rewrite ed_pk_size.
  - subst s. intros ([key k] & Hk & ?)%bind_Ok; simplify_eq.
    apply fread_canonical in Hk as [_ ->].
    destruct k; [|rewrite length_app, fwrite_length, r1_pk_size in He; cbn in He; lia].
    rewrite app_nil_r in *. done.
Qed.

Lemma from_public_key_total pk :
  tpk_wf pk → ∃ k, from_public_key pk = Ret k ∧ length k = AccountKey_SIZE ∧
    from_public_key_bytes (tpk_as_ref pk) = Some k.
Proof.
  intros Hwf. pose proof (tpk_as_ref_length pk Hwf) as Hl. unfold from_public_key, from_public_key_bytes.
  rewrite decide_False by tauto.
  destruct pk as [key e|key e]; cbn [tpk_wf] in Hwf; rewrite Hwf.
  - rewrite tpk_ed25519_as_ref. cbn [nth drop]. rewrite drop_0, decide_True by done.
    eexists; split_and!; [done| |done].
    rewrite take_app_length' by by rewrite fwrite_length, ed_pk_size.
    by rewrite fwrite_length, ed_pk_size.
  - cbn [tpk_as_ref tpk_secp256r1 nth app]. rewrite decide_False by done.
    rewrite decide_True by done. eexists; split_and!; [done| |done]. apply sha256_length.
Qed.

Lemma read_write_account_key (k rest : bytes) :
  length k = AccountKey_SIZE → read_account_key (write_account_key k ++ rest) = Ok (k, rest).
Proof.
  intros Hk. unfold read_account_key, write_account_key.
  rewrite decide_False by (rewrite length_app; lia).
  by rewrite take_app_length', drop_app_length'.
Qed.

Lemma read_account_key_canonical buf k rest :
  read_account_key buf = Ok (k, rest) → length k = AccountKey_SIZE ∧ buf = write_account_key k ++ rest.
Proof.
  unfold read_account_key, write_account_key. case_decide; [done|]. intros; simplify_eq.
  rewrite take_drop, length_take_le by lia. done.
Qed.

Lemma read_scheme (s : byte) (l rest : bytes) :
  read_uint 1 ((s :: l) ++ rest) = Ok (byte_val s, l ++ rest).
Proof.
  rewrite read_uint_be. rewrite decide_False by (cbn; lia).
  cbn [take app drop]. rewrite take_0, drop_0. done.
Qed.

Lemma webauthn_encoding_length s auth client :
  zlen (webauthn_encoding s auth client) = MIN_SIZE + 4 + zlen auth + zlen client.
Proof.
  unfold webauthn_encoding. rewrite !zlen_app.
  unfold zlen. rewrite !write_uint_length, fwrite_length, r1_sig_size.
  unfold MIN_SIZE, SIGNATURE_BYTES. cbn [length]. lia.
Qed.

(** Encoded signatures stay within [MIN_SIZE] and [MAX_SIZE]. *)
Lemma sig_size_bounds s : sig_wf s → MIN_SIZE ≤ zlen (sig_as_ref s) ≤ MAX_SIZE.
Proof.
  destruct s as [s e|s auth client e]; cbn [sig_wf].
  - intros ->. cbn. unfold zlen. cbn. rewrite fwrite_length, ed_sig_size.
    unfold MIN_SIZE, MAX_SIZE, SIGNATURE_BYTES, WEBAUTHN_AUTHENTICATOR_DATA_BYTES,
      WEBAUTHN_CLIENT_DATA_JSON_BYTES. lia.
  - unfold sig_secp256r1. repeat case_match; intros; simplify_eq. zbool.
    cbn [sig_as_ref]. rewrite webauthn_encoding_length.
    pose proof (zlen_nonneg auth). pose proof (zlen_nonneg client).
    unfold MIN_SIZE, MAX_SIZE in *. lia.
Qed.

Lemma ztake_app {A} (l1 l2 : list A) : ztake (zlen l1) (l1 ++ l2) = l1.
Proof. unfold ztake, zlen. apply take_app_length'. lia. Qed.

Lemma zdrop_app {A} (l1 l2 : list A) : zdrop (zlen l1) (l1 ++ l2) = l2.
Proof. unfold zdrop, zlen. apply drop_app_length'. lia. Qed.

Lemma ztake_zdrop {A} n (l : list A) : ztake n l ++ zdrop n l = l.
Proof. apply take_drop. Qed.

Lemma zlen_ztake {A} n (l : list A) : 0 ≤ n ≤ zlen l → zlen (ztake n l) = n.
Proof. unfold zlen, ztake. intros. rewrite length_take_le; lia. Qed.

Lemma read_write_sig s rest : sig_wf s → read_sig (write_sig s ++ rest) = Ok (s, rest).
Proof.
  intros Hwf. pose proof (sig_size_bounds s Hwf) as Hb. unfold read_sig, write_sig.
  rewrite decide_False.
  2: { rewrite length_app. unfold MIN_SIZE, zlen in Hb. lia. }
  destruct s as [s e|s auth client e]; cbn [sig_wf] in Hwf.
  - rewrite Hwf. cbn [sig_as_ref sig_ed25519 app].
    change (ED25519_SCHEME :: fwrite s ++ rest) with ((ED25519_SCHEME :: fwrite s) ++ rest).
    rewrite read_scheme. cbn [mbind result_bind]. rewrite decide_True by done.
    rewrite fread_fwrite by apply ed_sig_valid. done.
  - unfold sig_secp256r1 in Hwf. repeat case_match; simplify_eq. zbool.
    pose proof (zlen_nonneg auth). pose proof (zlen_nonneg client).
    unfold WEBAUTHN_AUTHENTICATOR_DATA_BYTES, WEBAUTHN_CLIENT_DATA_JSON_BYTES in *.
    cbn [sig_as_ref]. unfold webauthn_encoding. cbn [app].
    match goal with |- context [read_uint 1 (?s :: ?l)] =>
      change (s :: l) with ((s :: []) ++ l) end.
    rewrite read_scheme. cbn [mbind result_bind app].
    rewrite decide_False by done. rewrite decide_True by done.
    rewrite <- !app_assoc. rewrite fread_fwrite by apply r1_sig_valid. cbn [mbind result_bind].
    rewrite read_write_uint by (cbn; lia). cbn [mbind result_bind].
    rewrite (proj2 (Z.ltb_ge _ _)) by lia.
    rewrite (proj2 (Z.ltb_ge _ _)).
    2: { rewrite !zlen_app. unfold zlen at 3. rewrite write_uint_length.
         pose proof (zlen_nonneg client). pose proof (zlen_nonneg rest). lia. }
    rewrite ztake_app, zdrop_app.
    rewrite read_write_uint by (cbn; lia). cbn [mbind result_bind].
    rewrite (proj2 (Z.ltb_ge _ _)) by lia.
    rewrite (proj2 (Z.ltb_ge _ _)) by (rewrite zlen_app; pose proof (zlen_nonneg rest); lia).
    by rewrite ztake_app, zdrop_app.
Qed.

Lemma read_scheme_canonical b (x : Z) rest :
  read_uint 1 b = Ok (x, rest) → b = byte_of x :: rest.
Proof.
  intros [Hx ->]%read_uint_canonical. by rewrite write_uint_be.
Qed.

Lemma read_sig_canonical buf s rest :
  read_sig buf = Ok (s, rest) → sig_wf s ∧ buf = write_sig s ++ rest.
Proof.
  unfold read_sig. case_decide; [done|].
  intros ([x b] & ->%read_scheme_canonical & Hk)%bind_Ok.
  case_decide as Hs; [|case_decide as Hs'; [|done]]; subst x; rewrite byte_of_val.
  - apply bind_Ok in Hk as ([sg b'] & [_ ->]%fread_canonical & ?). simplify_eq. done.
  - apply bind_Ok in Hk as ([sg b1] & [_ ->]%fread_canonical & Hk).
    apply bind_Ok in Hk as ([n1 b2] & [Hn1 ->]%read_uint_canonical & Hk).
    destruct (_ <? n1) eqn:E1 in Hk; [done|]. destruct (zlen b2 <? n1 + 2) eqn:E2 in Hk; [done|].
    zbool. cbn in Hn1.
    apply bind_Ok in Hk as ([n2 b3] & [Hn2 Hb3]%read_uint_canonical & Hk).
    destruct (_ <? n2) eqn:E3 in Hk; [done|]. destruct (zlen b3 <? n2) eqn:E4 in Hk; [done|].
    zbool. cbn in Hn2. simplify_eq.
    assert (zlen (ztake n1 b2) = n1) by (apply zlen_ztake; lia).
    assert (zlen (ztake n2 b3) = n2) by (apply zlen_ztake; lia).
    split.
    + cbn. unfold sig_secp256r1. rewrite !(proj2 (Z.ltb_ge _ _)) by congruence. done.
    + cbn. unfold webauthn_encoding. rewrite <- !app_assoc. cbn.
      rewrite H4, H5, ztake_zdrop, <- Hb3, ztake_zdrop. done.
Qed.

(** ** Batch verification *)

(** Whether one signature verifies on its own. *)
Definition signature_ok (ns m : bytes) (pk : TransactionPublicKey) (s : TransactionSignature) : bool :=
  match pk, s with
  | PkEd25519 key _, SigEd25519 sg _ => ed_verify ns m key sg
  | PkSecp256r1 key _, SigSecp256r1 sg auth client _ =>
      verify_webauthn_assertion key m sg auth client
  | _, _ => false
  end.

Definition verifier_ok (v : TransactionBatchVerifier) : bool :=
  forallb (λ '(ns, m, k, s), ed_verify ns m k s) (ed_batch_items (v_ed25519 v))
  && forallb verify_item (v_secp256r1 v).

Lemma verifier_verify_ok st rng v : verifier_verify st rng v = verifier_ok v.
Proof.
  unfold verifier_verify, verifier_ok, verify_secp256r1. rewrite ed_batch_verify_spec.
  destruct (forallb _ _); cbn; [|done]. destruct (v_secp256r1 v) eqn:E; [done|].
  rewrite <- E. apply st_fold_andb.
Qed.

Lemma verifier_add_ok v ns m pk s :
  match verifier_add v ns m pk s with
  | (true, v') => verifier_ok v' = verifier_ok v && signature_ok ns m pk s
  | (false, _) => signature_ok ns m pk s = false
  end.
Proof.
  destruct pk as [key e|key e], s as [sg e'|sg auth client e']; cbn [verifier_add signature_ok]; try done.
  - destruct (ed_batch_add _ _ _ _ _) as [[] b] eqn:E; [|by eapply ed_batch_add_refused].
    unfold verifier_ok; cbn. rewrite (ed_batch_add_items _ _ _ _ _ _ E), forallb_app. cbn.
    rewrite andb_true_r. by rewrite <- !andb_assoc, (andb_comm (forallb verify_item _)).
  - unfold verifier_ok; cbn. rewrite forallb_app. cbn. by rewrite andb_true_r, andb_assoc.
Qed.

Lemma verifier_new_ok : verifier_ok verifier_new = true.
Proof. unfold verifier_ok; cbn. by rewrite ed_batch_new_items. Qed.

Lemma verify_webauthn_assertion_true key m s auth client :
  verify_webauthn_assertion key m s auth client = true ↔
  37 ≤ zlen auth ∧ Z.testbit (byte_val (nth 32 auth x00)) 2 = true ∧
  (∃ doc, json_from_slice client = Some doc ∧
     json_get_str doc "type" = Some "webauthn.get"%string ∧
     json_get_str doc "challenge" = Some (base64_url_no_pad m)) ∧
  r1_verify key (auth ++ sha256 client) s = true.
Proof.
  unfold verify_webauthn_assertion.
  assert (∀ x, 0 ≤ x < 256 → (Z.land x WEBAUTHN_USER_VERIFIED_FLAG =? 0) = negb (Z.testbit x 2)) as Hbit.
  { intros x Hx. apply eqb_prop.
    apply (all_below_256 (λ x, eqb (Z.land x WEBAUTHN_USER_VERIFIED_FLAG =? 0) (negb (Z.testbit x 2))));
      [vm_compute; reflexivity|done]. }
  rewrite Hbit by apply byte_val_bound.
  destruct (Z.ltb_spec (zlen auth) 37); [naive_solver lia|].
  destruct (Z.testbit _ 2); cbn; [|naive_solver].
  destruct (json_from_slice client) as [doc|]; [|naive_solver].
  repeat case_decide; naive_solver.
Qed.

End auth_lemmas.

#[export] Hint Resolve sig_size_bounds tpk_as_ref_length : cst.

(** ** Properties *)

(** Key and signature decoding accept exactly the canonical encodings: a
    buffer decodes to a key or a signature if and only if the value is one the
    constructors build and its encoding is the prefix that was consumed, of 34
    bytes for a key and between [MIN_SIZE] and [MAX_SIZE] bytes for a
    signature of either scheme. *)
Theorem auth_codecs_exact `{CodecLib} `{Hashing} `{Keys} :
  (∀ buf pk rest, read_tpk buf = Ok (pk, rest) ↔
     tpk_wf pk ∧ buf = write_tpk pk ++ rest ∧ length (write_tpk pk) = TransactionPublicKey_SIZE) ∧
  (∀ buf s rest, read_sig buf = Ok (s, rest) ↔
     sig_wf s ∧ buf = write_sig s ++ rest ∧ MIN_SIZE ≤ sig_encode_size s ≤ MAX_SIZE).
Proof.
  split; intros buf x rest; split.
  - intros [? ->]%read_tpk_canonical. split_and!; try done. by apply tpk_as_ref_length.
  - intros (? & -> & _). by apply read_write_tpk.
  - intros [? ->]%read_sig_canonical. split_and!; try done; by apply sig_size_bounds.
  - intros (? & -> & _). by apply read_write_sig.
Qed.

(** C37. A WebAuthn assertion authorizes one message only: if the same
    authenticator data and client data pass the check for two challenges, the
    challenges are equal (the unpadded base64url encoding is injective), and
    an accepted assertion carries the user-verified flag. *)
Theorem webauthn_assertion_binds_message `{CodecLib} `{Hashing} `{Keys} `{Json}
    k1 k2 m1 m2 s1 s2 auth client :
  verify_webauthn_assertion k1 m1 s1 auth client = true →
  verify_webauthn_assertion k2 m2 s2 auth client = true →
  m1 = m2 ∧ Z.testbit (byte_val (nth 32 auth x00)) 2 = true.
Proof.
  intros (_ & Hb & (doc & Hd & _ & Hc) & _)%verify_webauthn_assertion_true
         (_ & _ & (doc' & Hd' & _ & Hc') & _)%verify_webauthn_assertion_true.
  split; [|done]. apply base64_url_no_pad_inj. congruence.
Qed.

Definition sample_auth : bytes := replicate 32 x00 ++ [x04] ++ replicate 4 x00.
Definition sample_client : bytes := bytes_of_string "aGk".
Definition sample_r1_key : fb 33 := fb_of 33 [x02].
Definition sample_r1_sig : fb 64 :=
  fb_of 64 (proj1_sig sample_r1_key ++ sample_auth ++ proj1_sig (fb_of 32 sample_client)).

Lemma webauthn_assertion_binds_message_witness :
  bytes_of_string "hi" = bytes_of_string "hi" ∧
  Z.testbit (byte_val (nth 32 sample_auth x00)) 2 = true.
Proof.
  apply (webauthn_assertion_binds_message (H := conc_codec) (H0 := conc_hashing)
           (H1 := conc_keys) (H2 := conc_json) sample_r1_key sample_r1_key
           (bytes_of_string "hi") (bytes_of_string "hi") sample_r1_sig sample_r1_sig
           sample_auth sample_client); vm_compute; reflexivity.
Defined.
