(* ===== verification/Transaction.v ===== *)
(** * Transactions (crates/primitives/src/{sealed,transaction,signed}.rs)

    Sealed values, the transaction and signed-transaction codecs, lazily
    decoded signed transactions with their once-initialized cache, and the
    chunk routines that decode and verify a block body with a parallel
    strategy. *)

From stdpp Require Import prelude list strings.
From S2P Require Import Prelude Interfaces Concrete Auth.

(** ** Lazily decoded public keys *)

(** [commonware_codec::types::lazy::Lazy<TransactionPublicKey>]: either a
    value or the bytes it will be decoded from. *)
Class LazyKey `{CodecLib} `{Hashing} `{Keys} := {
  lazy : Type;
  lazy_new : TransactionPublicKey → lazy;
  lazy_get : lazy → option TransactionPublicKey;
  lazy_write : lazy → bytes;
  lazy_read : reader lazy;
  lazy_get_new pk : lazy_get (lazy_new pk) = Some pk;
  lazy_write_new pk : lazy_write (lazy_new pk) = write_tpk pk;
  lazy_read_short buf :
    (length buf < TransactionPublicKey_SIZE)%nat → lazy_read buf = Err EndOfBuffer;
  lazy_read_long b rest :
    length b = TransactionPublicKey_SIZE →
    ∃ l, lazy_read (b ++ rest) = Ok (l, rest) ∧ lazy_write l = b ∧
         lazy_get l = ok (decode read_tpk b)
}.

(** ** Data *)

(** [struct Sealed]. *)
Record Sealed `{Hashing} (T : Type) := mkSealed { inner : T; seal : digest }.
Arguments mkSealed {_ T} inner seal.
Arguments inner {_ T} s.
Arguments seal {_ T} s.

Definition Transaction_SIZE : nat := TransactionPublicKey_SIZE + AccountKey_SIZE + 8 + 8.

Section transaction.
Context `{LazyKey}.

(** [struct Transaction]. *)
Record Transaction := mkTransaction {
  sender : lazy;
  to : AccountKey;
  value : Z;
  tx_nonce : Z
}.

(** [Transaction::new]; the value is a [NonZeroU64] the caller has built. *)
Definition transaction_new (from recipient : TransactionPublicKey) (v n : Z) : run Transaction :=
  to_key ← from_public_key recipient;
  Ret (mkTransaction (lazy_new from) to_key v n).

Definition write_tx (tx : Transaction) : bytes :=
  lazy_write (sender tx) ++ write_account_key (to tx)
  ++ write_uint 8 (value tx) ++ write_uint 8 (tx_nonce tx).

Definition read_tx : reader Transaction := fun buf =>
  '(s, buf) ← lazy_read buf;
  '(t, buf) ← read_account_key buf;
  '(v, buf) ← read_uint 8 buf;
  if v =? 0 then Err (Invalid "Transaction" "value must be non-zero")
  else
    '(n, buf) ← read_uint 8 buf;
    Ok (mkTransaction s t v n, buf).

(** [Transaction::hash_slow] and [Sealable::seal]. *)
Definition hash_slow (tx : Transaction) : digest := hash (write_tx tx).
Definition seal_tx (tx : Transaction) : Sealed Transaction := mkSealed tx (hash_slow tx).

(** [Sealed]'s codec for transactions. *)
Definition write_sealed_tx (s : Sealed Transaction) : bytes := write_tx (inner s).
Definition read_sealed_tx : reader (Sealed Transaction) := fun buf =>
  '(tx, buf) ← read_tx buf; Ok (seal_tx tx, buf).

(** [struct SignedTransaction]. *)
Record SignedTransaction := mkSigned {
  st_inner : Sealed Transaction;
  st_signature : TransactionSignature
}.

Definition st_value (t : SignedTransaction) : Transaction := inner (st_inner t).
Definition message_digest (t : SignedTransaction) : digest := seal (st_inner t).

Definition write_signed (t : SignedTransaction) : bytes :=
  write_sealed_tx (st_inner t) ++ write_sig (st_signature t).

Definition signed_encode_size (t : SignedTransaction) : Z :=
  Z.of_nat Transaction_SIZE + sig_encode_size (st_signature t).

Definition read_signed : reader SignedTransaction := fun buf =>
  '(s, buf) ← read_sealed_tx buf;
  '(sg, buf) ← read_sig buf;
  Ok (mkSigned s sg, buf).

(** [Transaction::seal_and_sign] with an Ed25519 signer. *)
Definition seal_and_sign (tx : Transaction) (sk : ed_sk) (namespace : bytes) : SignedTransaction :=
  let sealed := seal_tx tx in
  mkSigned sealed (sig_ed25519 (ed_sign sk namespace (fwrite (seal sealed)))).

(** ** Lazily decoded signed transactions *)

(** [struct LazySignedTransaction]: the deferred bytes and the [OnceLock]
    cell, [None] until it is initialized. *)
Record LazySignedTransaction := mkLazy {
  pending : option bytes;
  cell : option (option SignedTransaction)
}.

Definition MAX_ENCODED_SIZE : Z := Z.of_nat Transaction_SIZE + MAX_SIZE.

(** [LazySignedTransaction::new] and [::deferred]. *)
Definition lst_new (t : SignedTransaction) : LazySignedTransaction := mkLazy None (Some (Some t)).
Definition lst_deferred (b : bytes) : LazySignedTransaction := mkLazy (Some b) None.

(** [LazySignedTransaction::get]: [OnceLock::get_or_init] returns the cell or
    initializes it from the pending bytes. *)
Definition lst_get_or_init (l : LazySignedTransaction)
    : run (option SignedTransaction * LazySignedTransaction) :=
  match cell l with
  | Some v => Ret (v, l)
  | None =>
      b ← expect (pending l) "pending bytes must exist when value is absent";
      let v := ok (decode read_signed b) in
      Ret (v, mkLazy (pending l) (Some v))
  end.

(** The value [get] returns. *)
Definition lst_get (l : LazySignedTransaction) : option SignedTransaction :=
  match lst_get_or_init l with Ret (v, _) => v | Panic _ => None end.

(** [encoded_signed_transaction]. *)
Definition encoded_signed_transaction (l : LazySignedTransaction) : run bytes :=
  match pending l with
  | Some b => Ret b
  | None =>
      t ← expect (lst_get l) "lazy signed transaction must have a value";
      Ret (write_signed t)
  end.

Definition write_lst (l : LazySignedTransaction) : run bytes :=
  match pending l with
  | Some b => Ret (write_len (zlen b) ++ b)
  | None =>
      t ← expect (lst_get l) "lazy signed transaction must have a value";
      Ret (write_len (signed_encode_size t) ++ write_signed t)
  end.

Definition lst_encode_size (l : LazySignedTransaction) : run Z :=
  match pending l with
  | Some b => Ret (encode_size_len (zlen b) + zlen b)
  | None =>
      t ← expect (lst_get l) "lazy signed transaction must have a value";
      let len := signed_encode_size t in
      Ret (encode_size_len len + len)
  end.

Definition read_lst : reader LazySignedTransaction := fun buf =>
  '(len, buf) ← read_len 0 MAX_ENCODED_SIZE buf;
  if len <? Z.of_nat Transaction_SIZE + MIN_SIZE then Err EndOfBuffer
  else if zlen buf <? len then Err EndOfBuffer
  else Ok (lst_deferred (ztake len buf), zdrop len buf).

(** ** Chunk routines *)

(** [materialize_transaction_chunks]. *)
Definition materialize_transaction_chunks (st : Strategy) (txs : list LazySignedTransaction)
    : option (list SignedTransaction) :=
  match txs with
  | [] => Some []
  | _ =>
      if (parallelism_hint <=? 1) || (zlen txs <=? parallelism_hint) then mapM lst_get txs
      else mapM (λ o, o) (map_collect_vec txs lst_get)
  end.

Definition signature_inputs_decode (l : LazySignedTransaction) : bool :=
  match lst_get l with
  | None => false
  | Some t => bool_decide (is_Some (lazy_get (sender (st_value t))))
  end.

(** [preload_transaction_chunks]. *)
Definition preload_transaction_chunks (st : Strategy) (txs : list LazySignedTransaction)
    : option (list LazySignedTransaction) :=
  match txs with
  | [] => Some []
  | _ =>
      let all_decode :=
        if (parallelism_hint <=? 1) || (zlen txs <=? parallelism_hint)
        then forallb signature_inputs_decode txs
        else st_fold txs true (λ decoded l, decoded && signature_inputs_decode l) andb in
      if all_decode : bool then Some txs else None
  end.

(** The loop of [verify_transaction_batch]: [None] is an early [return false]. *)
Fixpoint add_transactions `{Json} (namespace : bytes) (v : TransactionBatchVerifier)
    (txs : list LazySignedTransaction) : option TransactionBatchVerifier :=
  match txs with
  | [] => Some v
  | l :: txs' =>
      t ← lst_get l;
      pk ← lazy_get (sender (st_value t));
      let '(accepted, v') :=
        verifier_add v namespace (fwrite (message_digest t)) pk (st_signature t) in
      if accepted : bool then add_transactions namespace v' txs' else None
  end.

Definition verify_transaction_batch `{Json} (st : Strategy) (namespace : bytes) (rng : Z)
    (txs : list LazySignedTransaction) : bool :=
  match add_transactions namespace verifier_new txs with
  | None => false
  | Some v => verifier_verify st rng v
  end.

(** [verify_transaction_chunks]. *)
Definition verify_transaction_chunks `{Json} (sig_st hash_st : Strategy) (namespace : bytes)
    (rng : Z) (txs : list LazySignedTransaction) : option (list SignedTransaction) :=
  match txs with
  | [] => Some []
  | _ =>
      txs ← preload_transaction_chunks hash_st txs;
      if negb (verify_transaction_batch sig_st namespace rng txs) then None
      else mapM lst_get txs
  end.

End transaction.

(** ** Well-formedness and equivalence *)

Section lemmas.
Context `{LazyKey}.

(** A lazy key holds 34 bytes and decodes to what they decode to. *)
Definition lazy_wf (l : lazy) : Prop :=
  length (lazy_write l) = TransactionPublicKey_SIZE ∧
  lazy_get l = ok (decode read_tpk (lazy_write l)).

(** Two lazy keys with the same bytes and the same value are interchangeable. *)
#[global] Instance lazy_equiv : Equiv lazy :=
  λ l l', lazy_write l = lazy_write l' ∧ lazy_get l = lazy_get l'.
#[global] Instance lazy_equivalence : Equivalence (≡@{lazy}).
Proof. split; unfold equiv, lazy_equiv; repeat intros ?; naive_solver congruence. Qed.

#[global] Instance tx_equiv : Equiv Transaction :=
  λ a b, sender a ≡ sender b ∧ to a = to b ∧ value a = value b ∧ tx_nonce a = tx_nonce b.
#[global] Instance tx_equivalence : Equivalence (≡@{Transaction}).
Proof.
  split.
  - intros a. hnf. by split_and!.
  - intros a b (? & ? & ? & ?). hnf. by split_and!.
  - intros a b c (? & ? & ? & ?) (? & ? & ? & ?). hnf. split_and!; etrans; eauto.
Qed.

#[global] Instance write_tx_proper : Proper ((≡) ==> (=)) write_tx.
Proof.
  intros a b ([Hs _] & Ht & Hv & Hn). unfold write_tx. by rewrite Hs, Ht, Hv, Hn.
Qed.
#[global] Instance hash_slow_proper : Proper ((≡) ==> (=)) hash_slow.
Proof. intros a b Hab. unfold hash_slow. by rewrite Hab. Qed.

#[global] Instance st_equiv : Equiv SignedTransaction :=
  λ a b, st_value a ≡ st_value b ∧ message_digest a = message_digest b ∧
         st_signature a = st_signature b.
#[global] Instance st_equivalence : Equivalence (≡@{SignedTransaction}).
Proof.
  split.
  - intros a. hnf. by split_and!.
  - intros a b (? & ? & ?). hnf. by split_and!.
  - intros a b c (? & ? & ?) (? & ? & ?). hnf. split_and!; etrans; eauto.
Qed.

#[global] Instance write_signed_proper : Proper ((≡) ==> (=)) write_signed.
Proof.
  intros a b (Hv & _ & Hs). unfold write_signed, write_sealed_tx.
  change (inner (st_inner a)) with (st_value a). change (inner (st_inner b)) with (st_value b).
  by rewrite Hv, Hs.
Qed.

Record tx_wf (tx : Transaction) : Prop := {
  tx_sender_wf : lazy_wf (sender tx);
  tx_to_wf : length (to tx) = AccountKey_SIZE;
  tx_value_wf : 1 ≤ value tx ≤ u64_max;
  tx_nonce_wf : is_u64 (tx_nonce tx)
}.

(** The seal is the hash of the encoding, and the signature is well formed. *)
Record signed_wf (t : SignedTransaction) : Prop := {
  signed_tx_wf : tx_wf (st_value t);
  signed_seal_wf : message_digest t = hash_slow (st_value t);
  signed_sig_wf : sig_wf (st_signature t)
}.

(** ** Codec lemmas *)

Lemma lazy_new_wf pk : tpk_wf pk → lazy_wf (lazy_new pk).
Proof.
  intros Hpk. unfold lazy_wf. rewrite lazy_write_new, lazy_get_new.
  split; [by apply tpk_as_ref_length|].
  rewrite (decode_exact _ _ pk); [done|].
  pose proof (read_write_tpk pk [] Hpk) as Hr. by rewrite app_nil_r in Hr.
Qed.

Lemma lazy_read_write l rest :
  lazy_wf l → ∃ l', lazy_read (lazy_write l ++ rest) = Ok (l', rest) ∧ l ≡ l'.
Proof.
  intros [Hl Hg]. destruct (lazy_read_long (lazy_write l) rest Hl) as (l' & ? & Hw & Hg').
  exists l'. split; [done|]. split; congruence.
Qed.

Lemma lazy_read_canonical buf l rest :
  lazy_read buf = Ok (l, rest) → lazy_wf l ∧ buf = lazy_write l ++ rest.
Proof.
  intros Hr. destruct (decide (length buf < TransactionPublicKey_SIZE)%nat) as [Hs|Hs].
  { by rewrite lazy_read_short in Hr. }
  rewrite <- (take_drop TransactionPublicKey_SIZE buf) in Hr |- *.
  assert (length (take TransactionPublicKey_SIZE buf) = TransactionPublicKey_SIZE) as Hl
    by (rewrite length_take_le; lia).
  destruct (lazy_read_long _ (drop TransactionPublicKey_SIZE buf) Hl) as (l' & Hr' & Hw & Hg).
  rewrite Hr' in Hr. simplify_eq. unfold lazy_wf. by rewrite Hw.
Qed.

Lemma write_tx_length tx : tx_wf tx → length (write_tx tx) = Transaction_SIZE.
Proof.
  intros [[Hs _] Ht _ _]. unfold write_tx, write_account_key.
  rewrite !length_app, !write_uint_length, Hs, Ht. done.
Qed.

Lemma read_write_tx tx rest :
  tx_wf tx → ∃ tx', read_tx (write_tx tx ++ rest) = Ok (tx', rest) ∧ tx ≡ tx'.
Proof.
  intros [Hs Ht Hv Hn]. unfold read_tx, write_tx. rewrite <- !app_assoc.
  edestruct (lazy_read_write (sender tx)) as (l & -> & Hl); [done|]. cbn [mbind result_bind].
  rewrite read_write_account_key by done. cbn [mbind result_bind].
  rewrite read_write_u64 by (unfold is_u64; lia). cbn [mbind result_bind].
  rewrite (proj2 (Z.eqb_neq _ _)) by lia.
  rewrite read_write_u64 by done. cbn [mbind result_bind].
  eexists; split; [done|]. by repeat split; try apply Hl.
Qed.

Lemma read_tx_canonical buf tx rest :
  read_tx buf = Ok (tx, rest) → tx_wf tx ∧ buf = write_tx tx ++ rest.
Proof.
  unfold read_tx.
  intros ([s b1] & [Hs ->]%lazy_read_canonical & Hk)%bind_Ok.
  apply bind_Ok in Hk as ([t b2] & [Ht ->]%read_account_key_canonical & Hk).
  apply bind_Ok in Hk as ([v b3] & [Hv ->]%read_uint_canonical & Hk).
  destruct (v =? 0) eqn:Ev; [done|]. zbool.
  apply bind_Ok in Hk as ([n b4] & [Hn ->]%read_uint_canonical & Hk). simplify_eq.
  split; [split; cbn; [done|done| |]|].
  - apply is_u64_pow in Hv. unfold is_u64 in Hv. lia.
  - by apply is_u64_pow.
  - unfold write_tx. cbn. by rewrite <- !app_assoc.
Qed.

Lemma signed_encode_size_spec t : signed_wf t → signed_encode_size t = zlen (write_signed t).
Proof.
  intros [Ht _ _]. unfold signed_encode_size, write_signed, write_sealed_tx.
  rewrite zlen_app. unfold zlen at 1. change (inner (st_inner t)) with (st_value t).
  by rewrite write_tx_length.
Qed.

Lemma signed_size_bounds t :
  signed_wf t → Z.of_nat Transaction_SIZE + MIN_SIZE ≤ zlen (write_signed t) ≤ MAX_ENCODED_SIZE.
Proof.
  intros Hwf. rewrite <- signed_encode_size_spec by done. destruct Hwf as [_ _ Hs].
  pose proof (sig_size_bounds _ Hs). unfold signed_encode_size, MAX_ENCODED_SIZE, sig_encode_size. lia.
Qed.

Lemma read_write_signed t rest :
  signed_wf t → ∃ t', read_signed (write_signed t ++ rest) = Ok (t', rest) ∧ t ≡ t' ∧ signed_wf t'.
Proof.
  intros [Ht Hd Hs]. unfold read_signed, write_signed, write_sealed_tx, read_sealed_tx.
  rewrite <- app_assoc.
  destruct (read_write_tx _ (write_sig (st_signature t) ++ rest) Ht) as (tx' & Hr & Heq).
  unfold st_value in Hr. rewrite Hr. cbn [mbind result_bind].
  rewrite read_write_sig by done. cbn [mbind result_bind]. eexists; split; [done|].
  apply read_tx_canonical in Hr as [Hwf' _].
  split; [split; [done|]; split; [|done]|by split].
  cbn. rewrite Hd. by rewrite Heq.
Qed.

Lemma read_signed_canonical buf t rest :
  read_signed buf = Ok (t, rest) → signed_wf t ∧ buf = write_signed t ++ rest.
Proof.
  unfold read_signed, read_sealed_tx.
  intros ([s b1] & Hs & Hk)%bind_Ok. apply bind_Ok in Hs as ([tx b] & [Htx ->]%read_tx_canonical & ?).
  simplify_eq. apply bind_Ok in Hk as ([sg b2] & [Hsg ->]%read_sig_canonical & ?). simplify_eq.
  split; [by split|]. unfold write_signed, write_sealed_tx. cbn. by rewrite <- app_assoc.
Qed.

(** ** Lazily decoded signed transactions *)

(** The bytes a lazy transaction stands for. *)
Definition lst_bytes (l : LazySignedTransaction) : bytes :=
  match pending l, cell l with
  | Some b, _ => b
  | None, Some (Some t) => write_signed t
  | None, _ => []
  end.

(** A value is present from the start, or the cell is empty or caches the
    decoding of the pending bytes, whose length [read_lst] has bounded. *)
Definition lst_wf (l : LazySignedTransaction) : Prop :=
  match pending l with
  | None => ∃ t, cell l = Some (Some t) ∧ signed_wf t
  | Some b =>
      (cell l = None ∨ cell l = Some (ok (decode read_signed b))) ∧
      Z.of_nat Transaction_SIZE + MIN_SIZE ≤ zlen b ≤ MAX_ENCODED_SIZE
  end.

Lemma lst_new_wf t : signed_wf t → lst_wf (lst_new t).
Proof. intros. by exists t. Qed.

Lemma lst_bytes_bounds l :
  lst_wf l → Z.of_nat Transaction_SIZE + MIN_SIZE ≤ zlen (lst_bytes l) ≤ MAX_ENCODED_SIZE.
Proof.
  unfold lst_wf, lst_bytes. destruct (pending l); [by intros [_ ?]|].
  intros (t & -> & ?). by apply signed_size_bounds.
Qed.

(** Initializing the cell changes neither the bytes nor the value. *)
Lemma lst_get_or_init_spec l :
  lst_wf l →
  ∃ l', lst_get_or_init l = Ret (lst_get l, l') ∧ lst_wf l' ∧
    pending l' = pending l ∧ lst_bytes l' = lst_bytes l ∧ lst_get l' = lst_get l.
Proof.
  intros Hwf. unfold lst_get, lst_get_or_init, lst_wf, lst_bytes in *.
  destruct (cell l) as [v|] eqn:Ec.
  - exists l. rewrite Ec. by destruct (pending l).
  - destruct (pending l) as [b|] eqn:Ep; [|by destruct Hwf as (? & ? & _)]. cbn.
    eexists; split; [done|]. cbn. destruct Hwf as [_ Hb]. split; [split; [by right|exact Hb]|done].
Qed.

(** What [get] returns, from the bytes. *)
Lemma lst_get_deferred b : lst_get (lst_deferred b) = ok (decode read_signed b).
Proof. done. Qed.

Lemma lst_get_bytes l : lst_wf l → lst_get l ≡ ok (decode read_signed (lst_bytes l)).
Proof.
  unfold lst_wf, lst_get, lst_get_or_init, lst_bytes. destruct (pending l) as [b|].
  - intros [[-> | ->] _]; done.
  - intros (t & -> & Hwf). destruct (read_write_signed t [] Hwf) as (t' & Hr & Heq & _).
    rewrite app_nil_r in Hr. rewrite (decode_exact _ _ t') by done. by constructor.
Qed.

(** Whatever is decoded is well formed and has the bytes it came from. *)
Lemma lst_get_wf l t : lst_wf l → lst_get l = Some t → signed_wf t ∧ lst_bytes l = write_signed t.
Proof.
  unfold lst_wf, lst_get, lst_get_or_init, lst_bytes. destruct (pending l) as [b|].
  - intros [[-> | ->] _]; cbn; intros Hd%ok_Some%decode_Ok%read_signed_canonical;
      by rewrite app_nil_r in Hd.
  - intros (t' & -> & Hwf) ?. by simplify_eq/=.
Qed.

Lemma write_lst_spec l :
  lst_wf l →
  write_lst l = Ret (write_len (zlen (lst_bytes l)) ++ lst_bytes l) ∧
  lst_encode_size l = Ret (encode_size_len (zlen (lst_bytes l)) + zlen (lst_bytes l)).
Proof.
  unfold lst_wf, write_lst, lst_encode_size, lst_bytes, lst_get, lst_get_or_init.
  destruct (pending l) as [b|]; [done|]. intros (t & -> & Hwf). cbn.
  by rewrite signed_encode_size_spec.
Qed.

Lemma read_write_lst b rest :
  Z.of_nat Transaction_SIZE + MIN_SIZE ≤ zlen b ≤ MAX_ENCODED_SIZE →
  read_lst (write_len (zlen b) ++ b ++ rest) = Ok (lst_deferred b, rest).
Proof.
  intros Hb. pose proof (zlen_nonneg b). pose proof (zlen_nonneg rest).
  assert (MAX_ENCODED_SIZE < 2 ^ 32) by done.
  unfold read_lst. rewrite read_write_len by lia. cbn [mbind result_bind].
  rewrite (proj2 (Z.ltb_ge _ _)) by lia.
  rewrite (proj2 (Z.ltb_ge _ _)) by (rewrite zlen_app; lia).
  by rewrite ztake_app, zdrop_app.
Qed.

Lemma read_lst_canonical buf l rest :
  read_lst buf = Ok (l, rest) →
  ∃ b, l = lst_deferred b ∧ lst_wf l ∧ buf = write_len (zlen b) ++ b ++ rest.
Proof.
  unfold read_lst. intros ([n b1] & (? & ? & ->)%read_len_canonical & Hk)%bind_Ok.
  repeat case_in Hk. zbool. exists (ztake n b1).
  rewrite ztake_zdrop. assert (zlen (ztake n b1) = n) as Hn by (apply zlen_ztake; lia).
  rewrite Hn. split_and!; [done| |done]. split; [by left|]. rewrite Hn. lia.
Qed.

(** ** Chunk routines *)

Lemma mapM_id_map {A B} (f : A → option B) (l : list A) : mapM (λ o, o) (map f l) = mapM f l.
Proof. induction l as [|a l IH]; cbn; [done|]. destruct (f a); cbn; [|done]. by rewrite IH. Qed.

Lemma materialize_spec (st : Strategy) txs :
  materialize_transaction_chunks st txs = mapM lst_get txs.
Proof.
  unfold materialize_transaction_chunks. destruct txs as [|l txs]; [done|].
  case_match; [done|]. by rewrite map_collect_vec_spec, mapM_id_map.
Qed.

Lemma preload_spec (st : Strategy) txs :
  preload_transaction_chunks st txs = if forallb signature_inputs_decode txs then Some txs else None.
Proof.
  unfold preload_transaction_chunks. destruct txs as [|l txs]; [done|].
  rewrite st_fold_andb. by destruct (_ || _).
Qed.

(** The signature check of one body item, on its own. *)
Definition lst_signature_ok `{Json} (ns : bytes) (l : LazySignedTransaction) : bool :=
  match lst_get l with
  | None => false
  | Some t =>
      match lazy_get (sender (st_value t)) with
      | None => false
      | Some pk => signature_ok ns (fwrite (message_digest t)) pk (st_signature t)
      end
  end.

Lemma lst_signature_ok_decodes `{Json} ns l :
  lst_signature_ok ns l = true → signature_inputs_decode l = true.
Proof.
  unfold lst_signature_ok, signature_inputs_decode. destruct (lst_get l); [|done].
  destruct (lazy_get _); [|done]. intros _. by apply bool_decide_eq_true.
Qed.

Lemma add_transactions_ok `{Json} ns v txs :
  match add_transactions ns v txs with
  | None => verifier_ok v && forallb (lst_signature_ok ns) txs = false
  | Some v' => verifier_ok v' = verifier_ok v && forallb (lst_signature_ok ns) txs
  end.
Proof.
  revert v. induction txs as [|l txs IH]; intros v; cbn; [by rewrite andb_true_r|].
  unfold lst_signature_ok at 1 3. destruct (lst_get l) as [t|]; cbn; [|by rewrite andb_false_r].
  destruct (lazy_get _) as [pk|]; cbn; [|by rewrite andb_false_r].
  pose proof (verifier_add_ok v ns (fwrite (message_digest t)) pk (st_signature t)) as Ha.
  destruct (verifier_add _ _ _ _ _) as [[] v']; cbn in *.
  - rewrite andb_assoc, <- Ha. apply IH.
  - rewrite Ha. apply andb_false_r.
Qed.

Lemma verify_batch_ok `{Json} (st : Strategy) ns rng txs :
  verify_transaction_batch st ns rng txs = forallb (lst_signature_ok ns) txs.
Proof.
  unfold verify_transaction_batch. pose proof (add_transactions_ok ns verifier_new txs) as Ha.
  rewrite verifier_new_ok in Ha. destruct (add_transactions _ _ _); [|done].
  by rewrite verifier_verify_ok.
Qed.

Lemma forallb_impl {A} (p q : A → bool) l :
  (∀ a, p a = true → q a = true) → forallb p l = true → forallb q l = true.
Proof. rewrite !forallb_forall. auto. Qed.

Lemma verify_chunks_spec `{Json} (sig_st hash_st : Strategy) ns rng txs :
  verify_transaction_chunks sig_st hash_st ns rng txs
  = if forallb (lst_signature_ok ns) txs then mapM lst_get txs else None.
Proof.
  unfold verify_transaction_chunks. destruct txs as [|l txs]; [done|].
  rewrite preload_spec. destruct (forallb (lst_signature_ok ns) (l :: txs)) eqn:E.
  - rewrite (forallb_impl _ _ _ (lst_signature_ok_decodes ns) E). cbn [mbind option_bind].
    by rewrite verify_batch_ok, E.
  - case_match; [|done]. cbn [mbind option_bind]. by rewrite verify_batch_ok, E.
Qed.

(** A transaction signed by the key of its sender verifies. *)
Lemma seal_and_sign_ok `{Json} tx sk ns :
  lazy_get (sender tx) = Some (tpk_ed25519 (ed_public_key sk)) →
  lst_signature_ok ns (lst_new (seal_and_sign tx sk ns)) = true.
Proof.
  intros Hs. unfold lst_signature_ok, st_value, message_digest. cbn. rewrite Hs.
  cbn. apply ed_sign_verify.
Qed.

Lemma seal_and_sign_wf tx sk ns : tx_wf tx → signed_wf (seal_and_sign tx sk ns).
Proof. intros. split; done. Qed.

Lemma transaction_new_wf from recipient v n tx :
  tpk_wf from → tpk_wf recipient → 1 ≤ v ≤ u64_max → is_u64 n →
  transaction_new from recipient v n = Ret tx →
  tx_wf tx ∧ lazy_get (sender tx) = Some from.
Proof.
  intros Hf Hr Hv Hn. unfold transaction_new.
  destruct (from_public_key_total recipient Hr) as (k & -> & Hk & _). cbn. intros; simplify_eq.
  split; [split; cbn; [by apply lazy_new_wf|done..]|]. apply lazy_get_new.
Qed.

End lemmas.

#[export] Hint Resolve lazy_new_wf lst_new_wf seal_and_sign_wf : cst.

(** ** A concrete lazy key *)

#[export] Program Instance conc_lazy_key : LazyKey := {|
  lazy := TransactionPublicKey + bytes;
  lazy_new := inl;
  lazy_get l := match l with inl pk => Some pk | inr b => ok (decode read_tpk b) end;
  lazy_write l := match l with inl pk => write_tpk pk | inr b => b end;
  lazy_read buf :=
    if decide (length buf < TransactionPublicKey_SIZE)%nat then Err EndOfBuffer
    else Ok (inr (take TransactionPublicKey_SIZE buf), drop TransactionPublicKey_SIZE buf) |}.
Next Obligation. done. Qed.
Next Obligation. done. Qed.
Next Obligation. intros. cbv beta. by rewrite decide_True. Qed.
Next Obligation.
  intros b rest Hb. cbv beta. exists (inr b).
  rewrite decide_False by (rewrite length_app; lia).
  by rewrite take_app_length', drop_app_length'.
Qed.

(** Sample transactions for the witnesses: account [i] pays account [j]. *)
Definition sample_sk (i : Z) : ed_sk := ed_from_seed i.
Definition sample_pk (i : Z) : TransactionPublicKey := tpk_ed25519 (ed_public_key (sample_sk i)).
Definition sample_key (i : Z) : AccountKey :=
  match from_public_key (sample_pk i) with Ret k => k | Panic _ => [] end.
Definition sample_tx (i j v n : Z) : Transaction :=
  mkTransaction (lazy_new (sample_pk i)) (sample_key j) v n.
Definition sample_ns : bytes := bytes_of_string "_CONSTANTINOPLE".
Definition sample_signed (i j v n : Z) : SignedTransaction :=
  seal_and_sign (sample_tx i j v n) (sample_sk i) sample_ns.

Lemma sample_pk_wf i : tpk_wf (sample_pk i).
Proof. done. Qed.

Lemma sample_tx_wf i j v n : 1 ≤ v ≤ u64_max → is_u64 n → tx_wf (sample_tx i j v n).
Proof.
  intros Hv Hn. split; [exact (lazy_new_wf _ (sample_pk_wf i))| |done|done]. cbn.
  unfold sample_key. by destruct (from_public_key_total _ (sample_pk_wf j)) as (k & -> & Hk & _).
Qed.

#[export] Hint Resolve sample_pk_wf sample_tx_wf : cst.

(** ** Properties *)

(** Signed-transaction codec: decoding consumes exactly the encoding of
    what it returns, which is well formed (non-zero value, seal equal to the
    hash of the encoded transaction); every well-formed signed transaction
    decodes back to an equivalent one, whatever follows it in the buffer. *)
Theorem signed_transaction_codec_exact `{LazyKey} :
  (∀ buf t rest, read_signed buf = Ok (t, rest) → signed_wf t ∧ buf = write_signed t ++ rest) ∧
  (∀ t rest, signed_wf t →
     ∃ t', read_signed (write_signed t ++ rest) = Ok (t', rest) ∧ t ≡ t') ∧
  (∀ t, signed_wf t → signed_encode_size t = zlen (write_signed t)).
Proof.
  split_and!.
  - apply read_signed_canonical.
  - intros t rest Ht. destruct (read_write_signed t rest Ht) as (t' & ? & ? & _). by exists t'.
  - apply signed_encode_size_spec.
Qed.

Lemma signed_transaction_codec_exact_witness :
  ∃ t', read_signed (write_signed (sample_signed 1 2 5 0) ++ [x07]) = Ok (t', [x07]) ∧
        sample_signed 1 2 5 0 ≡ t'.
Proof.
  apply (signed_transaction_codec_exact (H2 := conc_lazy_key)).
  apply seal_and_sign_wf, sample_tx_wf; [unfold u64_max; lia|done].
Defined.

(** Lazy transactions: writing never panics, [encode_size] is the length
    written, reading the result back gives a deferred transaction with the
    same value whose forcing never panics and is cached without changing it. *)
Theorem lazy_transaction_roundtrip `{LazyKey} l rest :
  lst_wf l →
  ∃ b l', write_lst l = Ret b ∧ lst_encode_size l = Ret (zlen b) ∧
    read_lst (b ++ rest) = Ok (l', rest) ∧ lst_get l' ≡ lst_get l ∧
    ∃ forced, lst_get_or_init l' = Ret (lst_get l', forced) ∧ lst_get forced = lst_get l' ∧
      write_lst forced = Ret b.
Proof.
  intros Hwf. pose proof (lst_bytes_bounds l Hwf) as Hb.
  destruct (write_lst_spec l Hwf) as [Hw He].
  exists (write_len (zlen (lst_bytes l)) ++ lst_bytes l), (lst_deferred (lst_bytes l)).
  rewrite zlen_app. rewrite <- app_assoc, read_write_lst by done.
  split_and!; [done..| |].
  - rewrite lst_get_deferred. by rewrite lst_get_bytes.
  - destruct (lst_get_or_init_spec (lst_deferred (lst_bytes l))) as (f & ? & Hf & _ & Hfb & ?).
    { split; [by left|done]. }
    exists f. split_and!; [done..|]. by rewrite (proj1 (write_lst_spec f Hf)), Hfb.
Qed.

Lemma lazy_transaction_roundtrip_witness :
  ∃ b l', write_lst (lst_new (sample_signed 1 2 5 0)) = Ret b ∧
    lst_encode_size (lst_new (sample_signed 1 2 5 0)) = Ret (zlen b) ∧
    read_lst (b ++ [x01]) = Ok (l', [x01]) ∧
    lst_get l' ≡ lst_get (lst_new (sample_signed 1 2 5 0)) ∧
    ∃ forced, lst_get_or_init l' = Ret (lst_get l', forced) ∧ lst_get forced = lst_get l' ∧
      write_lst forced = Ret b.
Proof.
  apply (lazy_transaction_roundtrip (lst_new (sample_signed 1 2 5 0)) [x01]).
  apply lst_new_wf, seal_and_sign_wf, sample_tx_wf; [unfold u64_max; lia|done].
Defined.

(** C35. Parallel body verification equals the sequential definition: for all
    signature and decoding strategies and every batch randomness,
    [verify_transaction_chunks] returns the decoded transactions, in order,
    exactly when every one of them decodes and carries a signature that
    verifies on its own against its sender; decoding chunks in parallel is
    decoding them one by one. *)
Theorem verify_transaction_chunks_correct `{LazyKey} `{Json} (sig_st hash_st : Strategy) ns rng txs :
  verify_transaction_chunks sig_st hash_st ns rng txs
  = (if forallb (lst_signature_ok ns) txs then mapM lst_get txs else None) ∧
  (∀ out, verify_transaction_chunks sig_st hash_st ns rng txs = Some out →
     Forall2 (λ l t, lst_get l = Some t) txs out) ∧
  materialize_transaction_chunks hash_st txs = mapM lst_get txs.
Proof.
  split_and!; [apply verify_chunks_spec| |apply materialize_spec].
  intros out. rewrite verify_chunks_spec. case_match; [|done]. by intros ?%mapM_Some.
Qed.

Lemma verify_transaction_chunks_correct_witness :
  let txs := lst_new <$> [sample_signed 1 2 5 0; sample_signed 2 1 7 0; sample_signed 1 1 1 1] in
  verify_transaction_chunks halves halves sample_ns 9 txs = mapM lst_get txs.
Proof.
  cbv zeta.
  rewrite (proj1 (verify_transaction_chunks_correct halves halves sample_ns 9 _)).
  assert (forallb (lst_signature_ok sample_ns)
    (lst_new <$> [sample_signed 1 2 5 0; sample_signed 2 1 7 0; sample_signed 1 1 1 1]) = true)
    as -> by (vm_compute; reflexivity).
  reflexivity.
Defined.

(** A signer is always believed: a transaction built by [Transaction::new]
    from the signer's own key and sealed and signed by it passes the batch
    check in the namespace it was signed for, alone or deferred after a trip
    through the wire encoding. *)
Theorem signed_transaction_accepted `{LazyKey} `{Json} (sig_st hash_st : Strategy) ns rng sk recipient v n tx :
  tpk_wf recipient → 1 ≤ v ≤ u64_max → is_u64 n →
  transaction_new (tpk_ed25519 (ed_public_key sk)) recipient v n = Ret tx →
  let l := lst_new (seal_and_sign tx sk ns) in
  verify_transaction_chunks sig_st hash_st ns rng [l] = Some [seal_and_sign tx sk ns] ∧
  ∃ t', t' ≡ seal_and_sign tx sk ns ∧
    verify_transaction_chunks sig_st hash_st ns rng [lst_deferred (lst_bytes l)] = Some [t'].
Proof.
  intros Hr Hv Hn Hnew. apply transaction_new_wf in Hnew as [Hwf Hs]; [|done..].
  pose proof (seal_and_sign_ok tx sk ns Hs) as Hok. cbv zeta.
  rewrite !verify_chunks_spec. cbn [forallb]. rewrite Hok. split; [done|].
  destruct (read_write_signed (seal_and_sign tx sk ns) []) as (t' & Hrd & Heq & _);
    [by apply seal_and_sign_wf|].
  rewrite app_nil_r in Hrd. exists t'.
  assert (lst_get (lst_deferred (lst_bytes (lst_new (seal_and_sign tx sk ns)))) = Some t') as Hg.
  { rewrite lst_get_deferred. cbn. by rewrite (decode_exact _ _ _ Hrd). }
  split; [by symmetry|]. destruct Heq as ([[_ Hget] _] & Hd & Hsig).
  assert (lst_signature_ok ns (lst_deferred (lst_bytes (lst_new (seal_and_sign tx sk ns)))) = true)
    as ->; [|cbn [mapM]; by rewrite Hg].
  rewrite <- Hok. unfold lst_signature_ok. rewrite Hg. cbn [lst_get lst_get_or_init lst_new cell].
  by rewrite Hget, Hd, Hsig.
Qed.

Lemma signed_transaction_accepted_witness :
  verify_transaction_chunks halves sequential sample_ns 3 [lst_new (sample_signed 1 2 5 0)]
  = Some [sample_signed 1 2 5 0].
Proof.
  apply (signed_transaction_accepted halves sequential sample_ns 3 (sample_sk 1) (sample_pk 2) 5 0
           (sample_tx 1 2 5 0)); [apply sample_pk_wf|unfold u64_max; lia|done|].
  reflexivity.
Defined.
