(* ===== verification/Executor.v ===== *)
(** * Transfer execution (crates/application/src/executor.rs)

    The executor applies prepared transfers to a state through an overlay of
    writes.  [ledger_step] is the abstract transition it implements on a plain
    map of accounts; the theorems relate the overlay, the duplicate-free fast
    path and the proposal filter to it, and derive conservation of the total
    balance, replay protection and determinism of the changeset. *)

From stdpp Require Import prelude gmap list sorting strings.
From S2P Require Import Prelude Interfaces Concrete Account Auth Transaction.

(** ** Definitions *)

Abbreviation State := (gmap AccountKey Account).
Abbreviation Changeset := (list (AccountKey * Account)).

Section executor.
Context `{LazyKey}.

(** [struct PreparedTransfer]. *)
Record PreparedTransfer := mkTransfer {
  pt_sender : AccountKey;
  pt_recipient : AccountKey;
  pt_value : Z;
  pt_nonce : Z;
  pt_digest : digest
}.

(** [struct PreparedTransaction], [ProposalInput] and [ProposalOutput]. *)
Record PreparedTransaction := mkPrepared {
  p_transaction : SignedTransaction;
  p_transfer : PreparedTransfer
}.
Record ProposalInput := mkInput {
  candidates : list PreparedTransaction;
  in_invalid : list SignedTransaction
}.
Record ProposalOutput := mkOutput {
  valid : list SignedTransaction;
  out_invalid : list SignedTransaction;
  changeset : Changeset;
  transfers : list PreparedTransfer
}.

(** [struct Overlay] and its methods; capacities are not observable. *)
Record Overlay := mkOverlay { ov_base : State; ov_writes : State }.

Definition overlay_new (base : State) : Overlay := mkOverlay base ∅.

Definition overlay_get (ov : Overlay) (k : AccountKey) : option Account :=
  match ov_writes ov !! k with Some a => Some a | None => ov_base ov !! k end.

Definition overlay_set (ov : Overlay) (k : AccountKey) (a : Account) : Overlay :=
  mkOverlay (ov_base ov) (<[k:=a]> (ov_writes ov)).

(** [sort_unstable_by] on the keys; the keys are distinct at every call. *)
Definition key_le (x y : AccountKey * Account) : Prop := bytes_le x.1 y.1.
#[global] Instance key_le_dec x y : Decision (key_le x y) := ltac:(unfold key_le; apply _).
Definition sort_by_key (cs : Changeset) : Changeset := merge_sort key_le cs.

Definition into_changeset (ov : Overlay) : Changeset := sort_by_key (map_to_list (ov_writes ov)).

Definition account_key_from_sender (s : lazy) : option AccountKey :=
  from_public_key_bytes (lazy_write s).

Definition prepare_transfer (t : SignedTransaction) : option PreparedTransfer :=
  let transfer := st_value t in
  s ← account_key_from_sender (sender transfer);
  Some (mkTransfer s (to transfer) (value transfer) (tx_nonce transfer) (message_digest t)).

(** [apply_transfer]: the returned flag and the overlay afterwards. *)
Definition apply_transfer (ov : Overlay) (t : PreparedTransfer) : bool * Overlay :=
  match overlay_get ov (pt_sender t) with
  | None => (false, ov)
  | Some s =>
      if balance s <? pt_value t then (false, ov)
      else
        let '(consumed, n) := consume (nonce s) (pt_nonce t) in
        if negb consumed then (false, ov)
        else if decide (pt_sender t = pt_recipient t) then
          (true, overlay_set ov (pt_sender t) (mkAccount (balance s) n))
        else
          match overlay_get ov (pt_recipient t) with
          | None => (false, ov)
          | Some r =>
              match checked_add (balance r) (pt_value t) with
              | None => (false, ov)
              | Some recipient_balance =>
                  let ov1 :=
                    overlay_set ov (pt_sender t) (mkAccount (wrap64 (balance s - pt_value t)) n) in
                  (true, overlay_set ov1 (pt_recipient t) (mkAccount recipient_balance (nonce r)))
              end
          end
  end.

(** The loop of [prepare_proposal]. *)
Fixpoint prepare_loop (cands : list PreparedTransaction) (inv txs : list SignedTransaction)
    : ProposalInput :=
  match txs with
  | [] => mkInput cands inv
  | t :: txs' =>
      match prepare_transfer t with
      | None => prepare_loop cands (inv ++ [t]) txs'
      | Some tr => prepare_loop (cands ++ [mkPrepared t tr]) inv txs'
      end
  end.
Definition prepare_proposal (txs : list SignedTransaction) : ProposalInput := prepare_loop [] [] txs.

(** The loop of [propose_prepared]. *)
Fixpoint propose_loop (ov : Overlay) (v inv : list SignedTransaction) (trs : list PreparedTransfer)
    (cands : list PreparedTransaction) : ProposalOutput :=
  match cands with
  | [] => mkOutput v inv (into_changeset ov) trs
  | c :: cands' =>
      let '(accepted, ov') := apply_transfer ov (p_transfer c) in
      if accepted : bool
      then propose_loop ov' (v ++ [p_transaction c]) inv (trs ++ [p_transfer c]) cands'
      else propose_loop ov' v (inv ++ [p_transaction c]) trs cands'
  end.
Definition propose_prepared (st : State) (input : ProposalInput) : ProposalOutput :=
  propose_loop (overlay_new st) [] (in_invalid input) [] (candidates input).

Definition propose (st : State) (txs : list SignedTransaction) : ProposalOutput :=
  propose_prepared st (prepare_proposal txs).

(** [execute]; [None] from the loop is the early return. *)
Fixpoint execute_loop (ov : Overlay) (ts : list PreparedTransfer) : option Overlay :=
  match ts with
  | [] => Some ov
  | t :: ts' =>
      let '(accepted, ov') := apply_transfer ov t in
      if accepted : bool then execute_loop ov' ts' else None
  end.
Definition execute (st : State) (ts : list PreparedTransfer) : option Changeset :=
  into_changeset <$> execute_loop (overlay_new st) ts.

(** [execute_unique]: [accounts] holds sender and recipient of each transfer
    in turn. *)
Fixpoint execute_unique_loop (cs : Changeset) (ts : list PreparedTransfer) (accounts : list Account)
    : option Changeset :=
  match ts, accounts with
  | t :: ts', s :: r :: accounts' =>
      if balance s <? pt_value t then None
      else
        let '(consumed, n) := consume (nonce s) (pt_nonce t) in
        if negb consumed then None
        else
          recipient_balance ← checked_add (balance r) (pt_value t);
          execute_unique_loop
            (cs ++ [(pt_sender t, mkAccount (wrap64 (balance s - pt_value t)) n);
                    (pt_recipient t, mkAccount recipient_balance (nonce r))])
            ts' accounts'
  | _, _ => Some cs
  end.
Definition execute_unique (ts : list PreparedTransfer) (accounts : list Account) : option Changeset :=
  if negb (zlen accounts =? saturating_mul (zlen ts) 2) then None
  else sort_by_key <$> execute_unique_loop [] ts accounts.

End executor.

(** ** The abstract ledger *)

Section ledger.
Context `{LazyKey}.

(** One transfer on a plain map of accounts: the sender exists, can pay and
    has not used the nonce; paying oneself only uses the nonce; otherwise the
    recipient exists and can hold the value. *)
Definition ledger_step (st : State) (t : PreparedTransfer) : option State :=
  s ← st !! pt_sender t;
  if decide (pt_value t ≤ balance s) then
    let '(fresh, n) := consume (nonce s) (pt_nonce t) in
    if negb fresh then None
    else if decide (pt_sender t = pt_recipient t) then
      Some (<[pt_sender t := mkAccount (balance s) n]> st)
    else
      r ← st !! pt_recipient t;
      if decide (balance r + pt_value t ≤ u64_max) then
        Some (<[pt_recipient t := mkAccount (balance r + pt_value t) (nonce r)]>
              (<[pt_sender t := mkAccount (wrap64 (balance s - pt_value t)) n]> st))
      else None
  else None.

Fixpoint ledger_run (st : State) (ts : list PreparedTransfer) : option State :=
  match ts with
  | [] => Some st
  | t :: ts' => st' ← ledger_step st t; ledger_run st' ts'
  end.

(** The accounts a list of transfers names. *)
Definition touched (ts : list PreparedTransfer) : gset AccountKey :=
  list_to_set (concat (map (λ t, [pt_sender t; pt_recipient t]) ts)).

Arguments touched ts : simpl never.

(** The state an overlay stands for. *)
Definition overlay_state (ov : Overlay) : State := ov_writes ov ∪ ov_base ov.

(** Total balance. *)
Definition supply (st : State) : Z := sumZ (balance <$> (map_to_list st).*2).

Definition state_wf (st : State) : Prop := map_Forall (λ _ a, account_wf a) st.
Definition transfer_wf (t : PreparedTransfer) : Prop :=
  1 ≤ pt_value t ≤ u64_max ∧ is_u64 (pt_nonce t).

(** ** Lemmas on sorting by key *)

#[global] Instance key_le_total : Total key_le.
Proof. intros x y. apply (total bytes_le). Qed.
#[global] Instance key_le_trans : Transitive key_le.
Proof. intros x y z. apply (transitivity (R := bytes_le)). Qed.

Lemma sort_by_key_perm cs : sort_by_key cs ≡ₚ cs.
Proof. apply merge_sort_Permutation. Qed.

Lemma NoDup_fst_eq (l : Changeset) k a a' :
  NoDup l.*1 → (k, a) ∈ l → (k, a') ∈ l → a = a'.
Proof.
  intros Hnd Ha Hb. apply (elem_of_list_to_map (M := gmap AccountKey)) in Ha, Hb; [|done..].
  congruence.
Qed.

(** Sorting by distinct keys has one result, whatever the input order. *)
Lemma sorted_by_key_unique (l1 l2 : Changeset) :
  StronglySorted key_le l1 → StronglySorted key_le l2 → NoDup l1.*1 → l1 ≡ₚ l2 → l1 = l2.
Proof.
  intros Hs1 Hs2 Hnd Hp. apply (StronglySorted_unique_strong key_le); [|done..].
  intros [k a] [k' a'] Hin Hin' Hle Hge. rewrite <- Hp in Hin'.
  assert (k = k') as <- by exact (anti_symm bytes_le _ _ Hle Hge).
  f_equal. by eapply NoDup_fst_eq.
Qed.

Lemma sort_by_key_eq cs cs' : NoDup cs.*1 → cs ≡ₚ cs' → sort_by_key cs = sort_by_key cs'.
Proof.
  intros Hnd Hp. apply sorted_by_key_unique.
  - apply StronglySorted_merge_sort; apply _.
  - apply StronglySorted_merge_sort; apply _.
  - by rewrite sort_by_key_perm.
  - by rewrite !sort_by_key_perm.
Qed.

Lemma list_to_map_sorted (m : State) : list_to_map (sort_by_key (map_to_list m)) = m.
Proof.
  rewrite <- (list_to_map_to_list m) at 2. apply list_to_map_proper.
  - rewrite sort_by_key_perm. apply NoDup_fst_map_to_list.
  - apply sort_by_key_perm.
Qed.

(** ** The overlay implements the ledger *)

Lemma overlay_get_state ov k : overlay_get ov k = overlay_state ov !! k.
Proof.
  unfold overlay_get, overlay_state. rewrite lookup_union.
  destruct (ov_writes ov !! k), (ov_base ov !! k); done.
Qed.

Lemma overlay_set_state ov k a : overlay_state (overlay_set ov k a) = <[k:=a]> (overlay_state ov).
Proof. unfold overlay_state; cbn. by rewrite insert_union_l. Qed.

Lemma overlay_new_state st : overlay_state (overlay_new st) = st.
Proof. unfold overlay_state; cbn. by rewrite (left_id_L ∅ (∪)). Qed.

Lemma apply_transfer_ledger ov t :
  match ledger_step (overlay_state ov) t with
  | None => apply_transfer ov t = (false, ov)
  | Some st' => ∃ ov', apply_transfer ov t = (true, ov') ∧ overlay_state ov' = st' ∧
      ov_base ov' = ov_base ov ∧
      dom (ov_writes ov') = dom (ov_writes ov) ∪ {[pt_sender t; pt_recipient t]}
  end.
Proof.
  unfold apply_transfer, ledger_step, checked_add. rewrite !overlay_get_state.
  destruct (overlay_state ov !! pt_sender t) as [s|]; cbn [mbind option_bind]; [|done].
  destruct (Z.ltb_spec (balance s) (pt_value t)).
  { by rewrite decide_False by lia. }
  rewrite decide_True by lia. destruct (consume _ _) as [[] n]; cbn [negb]; [|done].
  destruct (decide (pt_sender t = pt_recipient t)) as [He|].
  { eexists; split_and!; [done|apply overlay_set_state|done|].
    cbn. rewrite dom_insert_L, <- He. set_solver. }
  destruct (overlay_state ov !! pt_recipient t) as [r|]; cbn [mbind option_bind]; [|done].
  case_decide; [|done].
  eexists; split_and!; [done|by rewrite !overlay_set_state|done|].
  cbn. rewrite !dom_insert_L. set_solver.
Qed.

Definition restrict (ks : gset AccountKey) (st : State) : State := filter (λ p, p.1 ∈ ks) st.

Lemma touched_cons t ts : touched (t :: ts) = {[pt_sender t; pt_recipient t]} ∪ touched ts.
Proof. unfold touched. cbn. set_solver. Qed.

Lemma execute_loop_ledger ov ts :
  match ledger_run (overlay_state ov) ts with
  | None => execute_loop ov ts = None
  | Some st' => ∃ ov', execute_loop ov ts = Some ov' ∧ overlay_state ov' = st' ∧
      ov_base ov' = ov_base ov ∧ dom (ov_writes ov') = dom (ov_writes ov) ∪ touched ts
  end.
Proof.
  revert ov. induction ts as [|t ts IH]; intros ov; cbn [ledger_run execute_loop].
  { exists ov. split_and!; [done..|]. unfold touched; cbn. set_solver. }
  pose proof (apply_transfer_ledger ov t) as Ht.
  destruct (ledger_step (overlay_state ov) t) as [st1|]; cbn [mbind option_bind]; [|by rewrite Ht].
  destruct Ht as (ov1 & -> & <- & Hb & Hd). specialize (IH ov1).
  destruct (ledger_run (overlay_state ov1) ts) as [st'|]; [|done].
  destruct IH as (ov' & -> & Hst & Hb' & Hd'). exists ov'. split_and!; [done|done|congruence|].
  rewrite Hd', Hd, touched_cons. set_solver.
Qed.

Lemma overlay_writes_restrict ov :
  ov_writes ov = restrict (dom (ov_writes ov)) (overlay_state ov).
Proof.
  apply map_eq. intros k. unfold restrict, overlay_state.
  destruct (ov_writes ov !! k) as [a|] eqn:E.
  - symmetry. apply map_lookup_filter_Some_2; [by apply lookup_union_Some_l|].
    cbn. by eapply elem_of_dom_2.
  - symmetry. apply map_lookup_filter_None_2. right. intros a _. cbn.
    by apply not_elem_of_dom.
Qed.

(** The changeset of a run: the final accounts it touched, in key order. *)
Definition ledger_changes (ts : list PreparedTransfer) (st' : State) : Changeset :=
  sort_by_key (map_to_list (restrict (touched ts) st')).

Lemma execute_ledger st ts : execute st ts = ledger_changes ts <$> ledger_run st ts.
Proof.
  unfold execute, ledger_changes, into_changeset. pose proof (execute_loop_ledger (overlay_new st) ts) as Hx.
  rewrite overlay_new_state in Hx. destruct (ledger_run st ts) as [st'|]; [|by rewrite Hx].
  destruct Hx as (ov & -> & <- & _ & Hd). cbn. f_equal.
  rewrite (overlay_writes_restrict ov) at 1. rewrite Hd. cbn. rewrite dom_empty_L. by rewrite (left_id_L ∅ (∪)).
Qed.

(** The outcomes of an accepted transfer. *)
Lemma ledger_step_Some st t st' :
  ledger_step st t = Some st' ↔
  ∃ s n, st !! pt_sender t = Some s ∧ pt_value t ≤ balance s ∧
    consume (nonce s) (pt_nonce t) = (true, n) ∧
    (pt_sender t = pt_recipient t ∧ st' = <[pt_sender t := mkAccount (balance s) n]> st ∨
     pt_sender t ≠ pt_recipient t ∧ ∃ r, st !! pt_recipient t = Some r ∧
       balance r + pt_value t ≤ u64_max ∧
       st' = <[pt_recipient t := mkAccount (balance r + pt_value t) (nonce r)]>
              (<[pt_sender t := mkAccount (wrap64 (balance s - pt_value t)) n]> st)).
Proof.
  unfold ledger_step. split.
  - intros Hs. destruct (st !! pt_sender t) as [s|]; [|done]. cbn in Hs.
    case_decide; [|done]. destruct (consume _ _) as [[] n] eqn:Ec; [|done]. cbn in Hs.
    exists s, n. split_and!; [done..|]. case_decide; [left; by simplify_eq|].
    destruct (st !! pt_recipient t) as [r|]; [|done]. cbn in Hs. case_decide; [|done].
    right. split; [done|]. exists r. by simplify_eq.
  - intros (s & n & -> & Hle & Hc & Hst). cbn. rewrite decide_True, Hc by done. cbn.
    destruct Hst as [[He ->]|(Hne & r & Hr & Hfit & ->)].
    + by rewrite decide_True.
    + rewrite decide_False, Hr by done. cbn. by rewrite decide_True.
Qed.

(** Only named accounts change. *)
Lemma ledger_step_frame st t st' k :
  ledger_step st t = Some st' → k ∉ touched [t] → st' !! k = st !! k.
Proof.
  rewrite touched_cons. intros (s & n & _ & _ & _ & Hs)%ledger_step_Some Hk.
  assert (k ≠ pt_sender t ∧ k ≠ pt_recipient t) as [? ?] by set_solver.
  destruct Hs as [[_ ->]|(_ & r & _ & _ & ->)]; by rewrite !lookup_insert_ne.
Qed.

Lemma ledger_run_frame st ts st' k :
  ledger_run st ts = Some st' → k ∉ touched ts → st' !! k = st !! k.
Proof.
  revert st. induction ts as [|t ts IH]; intros st; cbn; [by intros; simplify_eq|].
  destruct (ledger_step st t) as [st1|] eqn:E; [|done]. cbn. rewrite touched_cons.
  intros Hr Hk. rewrite (IH st1) by (done || set_solver).
  apply (ledger_step_frame _ _ _ _ E). rewrite touched_cons. set_solver.
Qed.

(** No account appears or disappears. *)
Lemma ledger_step_dom st t st' : ledger_step st t = Some st' → dom st' = dom st.
Proof.
  intros (s & n & Hs%elem_of_dom_2 & _ & _ & Hst)%ledger_step_Some.
  destruct Hst as [[_ ->]|(_ & r & Hr%elem_of_dom_2 & _ & ->)]; rewrite !dom_insert_L; set_solver.
Qed.

Lemma ledger_run_dom st ts st' : ledger_run st ts = Some st' → dom st' = dom st.
Proof.
  revert st. induction ts as [|t ts IH]; intros st; cbn; [by intros; simplify_eq|].
  destruct (ledger_step st t) as [st1|] eqn:E; [|done]. cbn.
  intros ->%IH. by eapply ledger_step_dom.
Qed.

(** Applying the changeset to the state gives the final state. *)
Lemma ledger_changes_apply st ts st' :
  ledger_run st ts = Some st' → list_to_map (ledger_changes ts st') ∪ st = st'.
Proof.
  intros Hr. unfold ledger_changes. rewrite list_to_map_sorted. apply map_eq. intros k.
  rewrite lookup_union. unfold restrict. rewrite map_lookup_filter.
  destruct (decide (k ∈ touched ts)) as [Hk|Hk].
  - destruct (st' !! k) as [a|] eqn:E; cbn; [case_guard; [|done]; cbn; by destruct (st !! k)|].
    destruct (st !! k) eqn:E'; [|done]. exfalso.
    apply elem_of_dom_2 in E'. rewrite <- (ledger_run_dom _ _ _ Hr) in E'.
    by apply not_elem_of_dom in E.
  - rewrite (ledger_run_frame _ _ _ _ Hr Hk). destruct (st !! k) as [a|]; cbn; [|done].
    case_guard; done.
Qed.

(** ** Invariants of the ledger *)

Lemma supply_insert st k a b :
  st !! k = Some a → supply (<[k:=b]> st) = supply st - balance a + balance b.
Proof.
  intros Hk. unfold supply.
  assert (st = <[k:=a]> (delete k st)) as Hst by by rewrite insert_delete_id.
  rewrite <- insert_delete_eq. rewrite Hst at 2.
  rewrite !map_to_list_insert by apply lookup_delete_eq. cbn. lia.
Qed.

Lemma consume_true_wf n x n' : nonce_wf n → is_u64 x → consume n x = (true, n') → nonce_wf n'.
Proof. intros Hn Hx Hc. pose proof (consume_wf n x Hn Hx) as Hw. by rewrite Hc in Hw. Qed.

Lemma ledger_step_inv st t st' :
  state_wf st → transfer_wf t → ledger_step st t = Some st' →
  state_wf st' ∧ supply st' = supply st.
Proof.
  intros Hwf [Hv Hn] (s & n & Hs & Hle & Hc & Hst)%ledger_step_Some.
  destruct (Hwf _ _ Hs) as [Hb Hnw]. pose proof (consume_true_wf _ _ _ Hnw Hn Hc).
  destruct Hst as [[_ ->]|(Hne & r & Hr & Hfit & ->)].
  - split; [by apply map_Forall_insert_2|]. rewrite (supply_insert _ _ _ _ Hs). cbn. lia.
  - destruct (Hwf _ _ Hr) as [Hrb Hrn]. unfold is_u64 in *.
    rewrite wrap64_id by (unfold is_u64; lia). split.
    + apply map_Forall_insert_2; [split; [unfold is_u64; cbn; lia|done]|].
      apply map_Forall_insert_2; [split; [unfold is_u64; cbn; lia|done]|done].
    + rewrite (supply_insert _ _ r) by by rewrite lookup_insert_ne.
      rewrite (supply_insert _ _ _ _ Hs). cbn. lia.
Qed.

Lemma ledger_run_inv st ts st' :
  state_wf st → Forall transfer_wf ts → ledger_run st ts = Some st' →
  state_wf st' ∧ supply st' = supply st.
Proof.
  intros Hwf Hts. revert st Hwf. induction Hts as [|t ts Ht _ IH]; intros st Hwf; cbn.
  { by intros; simplify_eq. }
  destruct (ledger_step st t) as [st1|] eqn:E; [|done]. cbn. intros Hr.
  destruct (ledger_step_inv _ _ _ Hwf Ht E) as [Hwf1 <-]. by apply IH.
Qed.

(** The nonces an account has used. *)
Definition used_by (st : State) (k : AccountKey) (x : Z) : Prop :=
  ∃ a, st !! k = Some a ∧ used (nonce a) x.

Lemma used_by_insert st k a k' x :
  used_by (<[k:=a]> st) k' x ↔ (k' = k ∧ used (nonce a) x) ∨ (k' ≠ k ∧ used_by st k' x).
Proof.
  unfold used_by. destruct (decide (k' = k)) as [->|].
  - rewrite lookup_insert_eq. naive_solver.
  - rewrite lookup_insert_ne by done. naive_solver.
Qed.

Lemma ledger_step_used st t st' :
  state_wf st → transfer_wf t → ledger_step st t = Some st' →
  ¬ used_by st (pt_sender t) (pt_nonce t) ∧ used_by st' (pt_sender t) (pt_nonce t) ∧
  ∀ k x, used_by st k x → used_by st' k x.
Proof.
  intros Hwf [Hv Hn] (s & n & Hs & Hle & Hc & Hst)%ledger_step_Some.
  destruct (Hwf _ _ Hs) as [_ Hnw].
  pose proof (consume_spec _ _ Hnw Hn) as Hspec. rewrite Hc in Hspec.
  destruct Hspec as (_ & Hfresh & _ & Hu). split; [intros (s' & ? & ?); naive_solver|].
  assert (used n (pt_nonce t)) by (apply Hu; auto).
  assert (∀ k x, used_by st k x → k = pt_sender t → used n x) as Hmono.
  { intros k x (a & Ha & Hx) ->. simplify_eq. apply Hu. by left. }
  destruct Hst as [[_ ->]|(Hne & r & Hr & _ & ->)].
  - split; [apply used_by_insert; by left|]. intros k x Hk. rewrite used_by_insert. cbn.
    destruct (decide (k = pt_sender t)); [left; eauto|by right].
  - split; [rewrite !used_by_insert; naive_solver|].
    intros k x Hk. rewrite !used_by_insert. cbn.
    destruct (decide (k = pt_recipient t)) as [->|]; [|destruct (decide (k = pt_sender t)); naive_solver].
    left. split; [done|]. destruct Hk as (a & ? & ?). by simplify_eq.
Qed.

Lemma ledger_run_used st ts st' :
  state_wf st → Forall transfer_wf ts → ledger_run st ts = Some st' →
  NoDup ((λ t, (pt_sender t, pt_nonce t)) <$> ts) ∧
  (∀ t, t ∈ ts → ¬ used_by st (pt_sender t) (pt_nonce t) ∧ used_by st' (pt_sender t) (pt_nonce t)) ∧
  (∀ k x, used_by st k x → used_by st' k x).
Proof.
  intros Hwf Hts. revert st Hwf. induction Hts as [|t ts Ht _ IH]; intros st Hwf; cbn.
  { intros; simplify_eq. split_and!; [constructor|set_solver|done]. }
  destruct (ledger_step st t) as [st1|] eqn:E; [|done]. cbn. intros Hr.
  destruct (ledger_step_used _ _ _ Hwf Ht E) as (Hf & Hu & Hm).
  destruct (ledger_step_inv _ _ _ Hwf Ht E) as [Hwf1 _].
  destruct (IH _ Hwf1 Hr) as (Hnd & Hin & Hm').
  split_and!; [constructor; [|done]| |naive_solver].
  - intros (t' & [= Hk Hx] & Hin')%list_elem_of_fmap.
    destruct (Hin _ Hin') as [Hbad _]. apply Hbad. by rewrite <- Hk, <- Hx.
  - intros t' [->|Ht']%elem_of_cons; [naive_solver|]. destruct (Hin _ Ht'). naive_solver.
Qed.

(** ** The fast path for distinct accounts *)

Definition transfer_keys (ts : list PreparedTransfer) : list AccountKey :=
  concat (map (λ t, [pt_sender t; pt_recipient t]) ts).

Lemma elem_of_touched k ts : k ∈ touched ts ↔ k ∈ transfer_keys ts.
Proof. unfold touched, transfer_keys. set_solver. Qed.

Lemma transfer_keys_length ts : length (transfer_keys ts) = (2 * length ts)%nat.
Proof. unfold transfer_keys. induction ts as [|t ts IH]; cbn; [done|]. rewrite IH. lia. Qed.

Lemma lookups_insert (st : State) k0 a0 ks accounts :
  k0 ∉ ks → Forall2 (λ k a, st !! k = Some a) ks accounts →
  Forall2 (λ k a, <[k0:=a0]> st !! k = Some a) ks accounts.
Proof.
  intros Hni. induction 1; constructor.
  - rewrite lookup_insert_ne by set_solver. done.
  - set_solver.
Qed.

(** On distinct keys the loop writes the accounts the ledger ends with. *)
Lemma execute_unique_loop_ledger st cs ts accounts :
  NoDup (transfer_keys ts) → Forall2 (λ k a, st !! k = Some a) (transfer_keys ts) accounts →
  match ledger_run st ts with
  | None => execute_unique_loop cs ts accounts = None
  | Some st' => ∃ cs', execute_unique_loop cs ts accounts = Some (cs ++ cs') ∧
      cs'.*1 = transfer_keys ts ∧ Forall (λ p, st' !! p.1 = Some p.2) cs'
  end.
Proof.
  revert st cs accounts. induction ts as [|t ts IH]; intros st cs accounts Hnd Hacc.
  { exists []. rewrite app_nil_r. by destruct accounts. }
  cbn in Hnd, Hacc. apply Forall2_cons_inv_l in Hacc as (s & acc1 & Hs & Hacc & ->).
  apply Forall2_cons_inv_l in Hacc as (r & acc2 & Hr & Hacc & ->).
  apply NoDup_cons in Hnd as [Hni1 Hnd]. apply NoDup_cons in Hnd as [Hni2 Hnd].
  cbn [ledger_run execute_unique_loop]. unfold ledger_step at 1, checked_add. rewrite Hs. cbn [mbind option_bind].
  destruct (Z.ltb_spec (balance s) (pt_value t)); [by rewrite decide_False by lia|].
  rewrite decide_True by lia. destruct (consume _ _) as [[] n]; cbn [negb]; [|done].
  rewrite decide_False by set_solver. rewrite Hr. cbn [mbind option_bind].
  case_decide; [|done]. cbn [mbind option_bind].
  set (st1 := <[pt_recipient t:=_]> _).
  set (cs1 := [(pt_sender t, _); (pt_recipient t, _)]).
  assert (Forall2 (λ k a, st1 !! k = Some a) (transfer_keys ts) acc2) as Hacc1.
  { apply lookups_insert; [done|]. apply lookups_insert; [set_solver|done]. }
  specialize (IH st1 (cs ++ cs1) acc2 Hnd Hacc1). destruct (ledger_run st1 ts) as [st'|] eqn:Er; [|done].
  destruct IH as (cs' & -> & Hk & Hf). exists (cs1 ++ cs'). rewrite <- app_assoc. split; [done|].
  split; [cbn; by rewrite Hk|].
  apply Forall_app; split; [|done]. unfold cs1.
  repeat constructor; cbn; rewrite (ledger_run_frame _ _ _ _ Er) by (rewrite elem_of_touched; set_solver).
  - unfold st1. rewrite lookup_insert_ne by set_solver. apply lookup_insert_eq.
  - apply lookup_insert_eq.
Qed.

Lemma execute_unique_ledger st ts accounts :
  zlen ts * 2 ≤ u64_max → NoDup (transfer_keys ts) →
  Forall2 (λ k a, st !! k = Some a) (transfer_keys ts) accounts →
  execute_unique ts accounts = ledger_changes ts <$> ledger_run st ts.
Proof.
  intros Hlen Hnd Hacc. unfold execute_unique, saturating_mul.
  assert (zlen accounts = zlen ts * 2) as ->.
  { unfold zlen. rewrite <- (Forall2_length _ _ _ Hacc). rewrite transfer_keys_length. lia. }
  rewrite Z.min_l, Z.eqb_refl by done. cbn [negb].
  pose proof (execute_unique_loop_ledger st [] ts accounts Hnd Hacc) as Hu.
  destruct (ledger_run st ts) as [st'|]; [|by rewrite Hu].
  destruct Hu as (cs & -> & Hk & Hf). cbn. f_equal. unfold ledger_changes.
  assert (NoDup cs.*1) as Hnd' by by rewrite Hk.
  apply sort_by_key_eq; [done|]. rewrite <- (map_to_list_to_map (M := gmap AccountKey)) by done.
  f_equiv. apply map_eq. intros k. apply option_eq. intros a.
  rewrite <- elem_of_list_to_map by done. unfold restrict. rewrite map_lookup_filter_Some. cbn.
  rewrite elem_of_touched, <- Hk, list_elem_of_fmap. rewrite Forall_forall in Hf. split.
  - intros Hin. split; [by apply (Hf (k, a))|]. by exists (k, a).
  - intros [Ha ([k' a'] & -> & Hin)]. apply Hf in Hin as Ha'. cbn in *. by simplify_eq.
Qed.

(** ** Proposing *)

(** How the proposal loop splits its candidates: the accepted ones replay
    from the overlay, each rejected one fails after the accepted ones before it. *)
Record proposal_split (ov : Overlay) (cands acc rej : list PreparedTransaction) (ov' : Overlay) : Prop := {
  ps_perm : acc ++ rej ≡ₚ cands;
  ps_order : acc `sublist_of` cands;
  ps_replay : execute_loop ov (p_transfer <$> acc) = Some ov';
  ps_reject c : c ∈ rej →
    ∃ acc1 acc2 ov1, acc = acc1 ++ acc2 ∧ execute_loop ov (p_transfer <$> acc1) = Some ov1 ∧
      (apply_transfer ov1 (p_transfer c)).1 = false
}.

Lemma propose_loop_spec ov v inv trs cands :
  ∃ acc rej ov', proposal_split ov cands acc rej ov' ∧
    propose_loop ov v inv trs cands =
      mkOutput (v ++ (p_transaction <$> acc)) (inv ++ (p_transaction <$> rej))
               (into_changeset ov') (trs ++ (p_transfer <$> acc)).
Proof.
  revert ov v inv trs. induction cands as [|c cands IH]; intros ov v inv trs; cbn [propose_loop].
  { exists [], [], ov. rewrite !app_nil_r. split; [|done]. split; [done..|]. set_solver. }
  destruct (apply_transfer ov (p_transfer c)) as [[] ov1] eqn:Ea.
  - destruct (IH ov1 (v ++ [p_transaction c]) inv (trs ++ [p_transfer c]))
      as (acc & rej & ov' & [Hp Ho Hr Hj] & ->).
    exists (c :: acc), rej, ov'. rewrite <- !app_assoc. split; [|done]. split; cbn.
    + by rewrite Hp.
    + by constructor.
    + by rewrite Ea.
    + intros c' (a1 & a2 & o & -> & ? & ?)%Hj. exists (c :: a1), a2, o. cbn. by rewrite Ea.
  - assert (ov1 = ov) as ->.
    { pose proof (apply_transfer_ledger ov (p_transfer c)) as Hl. rewrite Ea in Hl.
      destruct (ledger_step _ _); naive_solver. }
    destruct (IH ov v (inv ++ [p_transaction c]) trs) as (acc & rej & ov' & [Hp Ho Hr Hj] & ->).
    exists acc, (c :: rej), ov'. rewrite <- !app_assoc. split; [|done]. split.
    + by rewrite <- Permutation_middle, Hp.
    + by constructor.
    + done.
    + intros c' [->|Hc']%elem_of_cons; [|by apply Hj].
      exists [], acc, ov. cbn. by rewrite Ea.
Qed.

Lemma prepare_loop_spec cands inv txs :
  ∃ cs invs, prepare_loop cands inv txs = mkInput (cands ++ cs) (inv ++ invs) ∧
    (p_transaction <$> cs) ++ invs ≡ₚ txs ∧ (p_transaction <$> cs) `sublist_of` txs ∧
    Forall (λ c, prepare_transfer (p_transaction c) = Some (p_transfer c)) cs ∧
    Forall (λ t, prepare_transfer t = None) invs.
Proof.
  revert cands inv. induction txs as [|t txs IH]; intros cands inv; cbn.
  { exists [], []. rewrite !app_nil_r. split_and!; constructor. }
  destruct (prepare_transfer t) as [tr|] eqn:Et.
  - destruct (IH (cands ++ [mkPrepared t tr]) inv) as (cs & invs & -> & Hp & Ho & Hc & Hi).
    exists (mkPrepared t tr :: cs), invs. rewrite <- app_assoc. cbn.
    split_and!; [done|by rewrite Hp|by constructor|by constructor|done].
  - destruct (IH cands (inv ++ [t])) as (cs & invs & -> & Hp & Ho & Hc & Hi).
    exists cs, (t :: invs). rewrite <- app_assoc. cbn.
    split_and!; [done|by rewrite <- Permutation_middle, Hp|by constructor|done|by constructor].
Qed.

Lemma Forall_mapM {A B C} (f : B → option C) (g : A → B) (h : A → C) (l : list A) :
  Forall (λ a, f (g a) = Some (h a)) l → mapM f (g <$> l) = Some (h <$> l).
Proof. induction 1 as [|a l Ha _ IH]; cbn; [done|]. rewrite Ha. cbn. by rewrite IH. Qed.

Lemma execute_loop_Some ov ts ov' :
  execute_loop ov ts = Some ov' → ledger_run (overlay_state ov) ts = Some (overlay_state ov').
Proof.
  intros He. pose proof (execute_loop_ledger ov ts) as Hl. rewrite He in Hl.
  destruct (ledger_run _ _) as [st|]; [|done]. destruct Hl as (ov1 & [= ->] & -> & _). done.
Qed.

Lemma apply_transfer_rejects ov t :
  (apply_transfer ov t).1 = false → ledger_step (overlay_state ov) t = None.
Proof.
  intros Ha. pose proof (apply_transfer_ledger ov t) as Hl.
  destruct (ledger_step _ _); [|done]. destruct Hl as (? & Hb & _). by rewrite Hb in Ha.
Qed.

(** What a proposal contains. *)
Lemma propose_spec st txs :
  let out := propose st txs in
  valid out ++ out_invalid out ≡ₚ txs ∧
  valid out `sublist_of` txs ∧
  mapM prepare_transfer (valid out) = Some (transfers out) ∧
  execute st (transfers out) = Some (changeset out) ∧
  (∀ t tr, t ∈ out_invalid out → prepare_transfer t = Some tr →
     ∃ ts1 ts2 st1, transfers out = ts1 ++ ts2 ∧ ledger_run st ts1 = Some st1 ∧
       ledger_step st1 tr = None).
Proof.
  unfold propose, propose_prepared, prepare_proposal.
  destruct (prepare_loop_spec [] [] txs) as (cs & invs & -> & Hp & Ho & Hc & Hi). cbn.
  destruct (propose_loop_spec (overlay_new st) [] invs [] cs) as (acc & rej & ov' & [Hsp Hso Hsr Hsj] & ->).
  cbn. assert (Forall (λ c, prepare_transfer (p_transaction c) = Some (p_transfer c)) (acc ++ rej)) as Hall
    by by rewrite Hsp.
  apply Forall_app in Hall as [Hacc Hrej]. split_and!.
  - rewrite <- Hp, <- Hsp, fmap_app. rewrite <- app_assoc. f_equiv. apply Permutation_app_comm.
  - transitivity (p_transaction <$> cs); [|done]. by apply fmap_sublist.
  - by apply Forall_mapM.
  - unfold execute. by rewrite Hsr.
  - intros t tr [Ht|Ht]%elem_of_app Hpt.
    { rewrite Forall_forall in Hi. by rewrite Hi in Hpt. }
    apply list_elem_of_fmap in Ht as (c & -> & Hcin).
    rewrite Forall_forall in Hrej. rewrite (Hrej _ Hcin) in Hpt. simplify_eq.
    destruct (Hsj _ Hcin) as (a1 & a2 & o & -> & He & Hf). rewrite fmap_app.
    exists (p_transfer <$> a1), (p_transfer <$> a2), (overlay_state o).
    apply execute_loop_Some in He. rewrite overlay_new_state in He.
    split_and!; [done..|]. by apply apply_transfer_rejects.
Qed.

Lemma ledger_changes_sorted ts st :
  StronglySorted (λ x y, bytes_le x.1 y.1 ∧ x.1 ≠ y.1) (ledger_changes ts st) ∧
  ∀ k a, (k, a) ∈ ledger_changes ts st ↔ k ∈ touched ts ∧ st !! k = Some a.
Proof.
  unfold ledger_changes. set (m := restrict _ _). split.
  - assert (StronglySorted key_le (sort_by_key (map_to_list m))) as Hs
      by (apply StronglySorted_merge_sort; apply _).
    assert (NoDup (sort_by_key (map_to_list m)).*1) as Hnd
      by (rewrite sort_by_key_perm; apply NoDup_fst_map_to_list).
    induction Hs as [|x l Hs IH Hx]; constructor; cbn in Hnd; apply NoDup_cons in Hnd as [Hni Hnd].
    + by apply IH.
    + rewrite Forall_forall in Hx |- *. intros y Hy. split; [by apply Hx|].
      intros Heq. apply Hni. rewrite Heq. by apply list_elem_of_fmap_2.
  - intros k a. rewrite sort_by_key_perm, elem_of_map_to_list. unfold m, restrict.
    rewrite map_lookup_filter_Some. naive_solver.
Qed.

(** Every account an executed list names exists. *)
Lemma ledger_run_touched st ts st' :
  ledger_run st ts = Some st' → ∀ k, k ∈ touched ts → is_Some (st' !! k).
Proof.
  revert st. induction ts as [|t ts IH]; intros st; cbn; [set_solver|].
  destruct (ledger_step st t) as [st1|] eqn:E; [|done]. cbn. intros Hr k.
  rewrite touched_cons. intros [Hk|Hk]%elem_of_union; [|by eapply IH].
  rewrite <- elem_of_dom, (ledger_run_dom _ _ _ Hr), (ledger_step_dom _ _ _ E).
  apply ledger_step_Some in E as (s & n & Hs%elem_of_dom_2 & _ & _ & Hst).
  clear IH Hr. apply elem_of_union in Hk as [->%elem_of_singleton | ->%elem_of_singleton]; [done|].
  by destruct Hst as [[<- _]|(_ & r & Hr%elem_of_dom_2 & _)].
Qed.

(** Execution looks only at the accounts the transfers name. *)
Definition agree_on (ks : gset AccountKey) (st1 st2 : State) : Prop :=
  ∀ k, k ∈ ks → st1 !! k = st2 !! k.

Lemma agree_on_insert ks st1 st2 k a :
  agree_on ks st1 st2 → agree_on ks (<[k:=a]> st1) (<[k:=a]> st2).
Proof. intros Ha k' Hk'. rewrite !lookup_insert. by rewrite Ha. Qed.

Lemma ledger_step_agree ks st1 st2 t :
  pt_sender t ∈ ks → pt_recipient t ∈ ks → agree_on ks st1 st2 →
  match ledger_step st1 t with
  | None => ledger_step st2 t = None
  | Some st1' => ∃ st2', ledger_step st2 t = Some st2' ∧ agree_on ks st1' st2'
  end.
Proof.
  intros Hs Hr Ha. unfold ledger_step. rewrite <- (Ha _ Hs), <- (Ha _ Hr).
  destruct (st1 !! pt_sender t) as [s|]; cbn; [|done]. case_decide; [|done].
  destruct (consume _ _) as [[] n]; cbn; [|done].
  case_decide; [eexists; split; [done|]; by apply agree_on_insert|].
  destruct (st1 !! pt_recipient t) as [r|]; cbn; [|done]. case_decide; [|done].
  eexists; split; [done|]. by do 2 apply agree_on_insert.
Qed.

Lemma ledger_run_agree ks st1 st2 ts :
  touched ts ⊆ ks → agree_on ks st1 st2 →
  match ledger_run st1 ts with
  | None => ledger_run st2 ts = None
  | Some st1' => ∃ st2', ledger_run st2 ts = Some st2' ∧ agree_on ks st1' st2'
  end.
Proof.
  revert st1 st2. induction ts as [|t ts IH]; intros st1 st2 Hk Ha; cbn [ledger_run]; [by exists st2|].
  rewrite touched_cons in Hk.
  pose proof (ledger_step_agree ks st1 st2 t ltac:(set_solver) ltac:(set_solver) Ha) as Hs.
  destruct (ledger_step st1 t) as [st1'|]; cbn [mbind option_bind]; [|by rewrite Hs].
  destruct Hs as (st2' & -> & Ha'). cbn [mbind option_bind]. apply IH; [set_solver|done].
Qed.

Lemma execute_agree st1 st2 ts : agree_on (touched ts) st1 st2 → execute st1 ts = execute st2 ts.
Proof.
  intros Ha. rewrite !execute_ledger.
  pose proof (ledger_run_agree (touched ts) st1 st2 ts ltac:(done) Ha) as Hr.
  destruct (ledger_run st1 ts) as [st1'|]; [|by rewrite Hr].
  destruct Hr as (st2' & -> & Ha'). cbn. f_equal. unfold ledger_changes. do 2 f_equal.
  apply map_eq. intros k. apply option_eq. intros a. unfold restrict. rewrite !map_lookup_filter_Some. cbn.
  split; intros [Hl Hk]; (split; [|done]); [by rewrite <- Ha'|by rewrite Ha'].
Qed.

(** A transaction that decoded from the wire gives a well-formed transfer. *)
Lemma prepare_transfer_wf t tr : signed_wf t → prepare_transfer t = Some tr → transfer_wf tr.
Proof.
  intros [[_ _ Hv Hn] _ _]. unfold prepare_transfer.
  destruct (account_key_from_sender _); [|done]. cbn. intros; simplify_eq. by split.
Qed.

End ledger.

Arguments touched {_} ts : simpl never.
#[export] Hint Resolve prepare_transfer_wf : cst.

(** ** Sample state *)

Definition sample_state : State :=
  list_to_map [(sample_key 1, account_default); (sample_key 2, account_default);
               (sample_key 3, mkAccount 7 (mkNonce 4 0)); (sample_key 4, account_default)].
Definition sample_transfer (i j v n : Z) : PreparedTransfer :=
  mkTransfer (sample_key i) (sample_key j) v n EMPTY.

Lemma sample_state_wf : state_wf sample_state.
Proof.
  unfold sample_state, state_wf. cbn.
  repeat apply map_Forall_insert_2; try apply map_Forall_empty; try apply account_default_wf.
  split; [done|by apply nonce_empty_wf].
Qed.

(** ** Properties *)

(** C8. Execution refines the ledger: running the overlay over a list of
    transfers fails exactly when the ledger does, and otherwise returns the
    touched accounts of the ledger's final state; writing that changeset over
    the starting state gives the ledger's final state. *)
Theorem execute_refines_ledger `{LazyKey} st ts :
  execute st ts = ledger_changes ts <$> ledger_run st ts ∧
  (∀ cs, execute st ts = Some cs → ledger_run st ts = Some (list_to_map cs ∪ st)).
Proof.
  split; [apply execute_ledger|]. intros cs. rewrite execute_ledger.
  destruct (ledger_run st ts) as [st'|] eqn:Er; [|done]. intros [= <-].
  by rewrite (ledger_changes_apply _ _ _ Er).
Qed.

(** Conservation of money: an executed list of transfers neither creates
    nor destroys balance, every account of the resulting state keeps a [u64]
    balance and a well-formed nonce window, and no account is added or lost. *)
Theorem execute_conserves_supply `{LazyKey} st ts cs :
  state_wf st → Forall transfer_wf ts → execute st ts = Some cs →
  let st' := list_to_map cs ∪ st in
  supply st' = supply st ∧ state_wf st' ∧ dom st' = dom st.
Proof.
  intros Hwf Hts. rewrite execute_ledger.
  destruct (ledger_run st ts) as [st'|] eqn:Er; [|done]. intros [= <-].
  rewrite (ledger_changes_apply _ _ _ Er). cbv zeta.
  destruct (ledger_run_inv _ _ _ Hwf Hts Er). split_and!; [done..|]. by eapply ledger_run_dom.
Qed.

(** Three transfers between three accounts, one of them to its own sender. *)
Definition sample_transfers : list PreparedTransfer :=
  [sample_transfer 1 2 30 1; sample_transfer 2 3 130 0; sample_transfer 1 1 5 0].
Definition sample_changes : Changeset :=
  default [] (execute sample_state sample_transfers).

Lemma sample_transfers_wf : Forall transfer_wf sample_transfers.
Proof. repeat constructor; done. Qed.

Lemma execute_conserves_supply_witness :
  supply (list_to_map sample_changes ∪ sample_state) = 307.
Proof.
  assert (execute sample_state sample_transfers = Some sample_changes) as He
    by (vm_compute; reflexivity).
  rewrite (proj1 (execute_conserves_supply _ _ _ sample_state_wf sample_transfers_wf He)).
  vm_compute. reflexivity.
Defined.

(** C6. No replay: in a list of transfers that executes, no sender uses a
    nonce twice, none of the nonces was used in the starting state, and all
    of them, and every nonce used before, are used afterwards, so no later
    execution can accept them again. *)
Theorem execute_no_replay `{LazyKey} st ts cs :
  state_wf st → Forall transfer_wf ts → execute st ts = Some cs →
  NoDup ((λ t, (pt_sender t, pt_nonce t)) <$> ts) ∧
  (∀ t, t ∈ ts → ¬ used_by st (pt_sender t) (pt_nonce t)) ∧
  (∀ k x, used_by st k x ∨ (k, x) ∈ (λ t, (pt_sender t, pt_nonce t)) <$> ts →
     used_by (list_to_map cs ∪ st) k x).
Proof.
  intros Hwf Hts. rewrite execute_ledger.
  destruct (ledger_run st ts) as [st'|] eqn:Er; [|done]. intros [= <-].
  rewrite (ledger_changes_apply _ _ _ Er).
  destruct (ledger_run_used _ _ _ Hwf Hts Er) as (Hnd & Hin & Hm).
  split_and!; [done|naive_solver|]. intros k x [?|Hk]; [by apply Hm|].
  apply list_elem_of_fmap in Hk as (t & [= -> ->] & Ht). by apply Hin.
Qed.

Lemma execute_no_replay_witness :
  NoDup ((λ t, (pt_sender t, pt_nonce t)) <$> sample_transfers).
Proof.
  apply (execute_no_replay sample_state sample_transfers sample_changes sample_state_wf
           sample_transfers_wf).
  vm_compute. reflexivity.
Defined.

(** C15. The fast path is an optimisation only: when all senders and recipients
    of a block are distinct, [execute_unique] on the accounts listed in
    transfer order returns what [execute] returns on the map of them,
    rejections included. *)
Theorem execute_unique_agrees `{LazyKey} st ts accounts :
  zlen ts * 2 ≤ u64_max → NoDup (transfer_keys ts) →
  Forall2 (λ k a, st !! k = Some a) (transfer_keys ts) accounts →
  execute_unique ts accounts = execute st ts.
Proof. intros. rewrite execute_ledger. by apply execute_unique_ledger. Qed.

Lemma execute_unique_agrees_witness :
  execute_unique [sample_transfer 1 2 30 0; sample_transfer 3 4 7 4]
    [account_default; account_default; mkAccount 7 (mkNonce 4 0); account_default]
  = execute sample_state [sample_transfer 1 2 30 0; sample_transfer 3 4 7 4].
Proof.
  apply execute_unique_agrees.
  - done.
  - apply (bool_decide_unpack _). vm_compute. exact I.
  - repeat constructor; vm_compute; reflexivity.
Defined.

(** C9. A proposal replays: the transactions kept by [propose] are a
    subsequence of the input, prepare to exactly the reported transfers, and
    executing those from the same state succeeds with the proposal's
    changeset; kept and dropped transactions together are the input, and a
    dropped transaction that could be prepared was rejected by the ledger
    after some prefix of the kept ones. *)
Theorem propose_replays `{LazyKey} st txs :
  let out := propose st txs in
  valid out ++ out_invalid out ≡ₚ txs ∧
  valid out `sublist_of` txs ∧
  mapM prepare_transfer (valid out) = Some (transfers out) ∧
  execute st (transfers out) = Some (changeset out) ∧
  (∀ t tr, t ∈ out_invalid out → prepare_transfer t = Some tr →
     ∃ ts1 ts2 st1, transfers out = ts1 ++ ts2 ∧ ledger_run st ts1 = Some st1 ∧
       ledger_step st1 tr = None).
Proof. apply propose_spec. Qed.

(** Changesets are canonical: an executed changeset lists, in strictly
    increasing key order, exactly the accounts named by the transfers, so
    every node writes the same operations in the same order whatever the
    iteration order of its hash map. *)
Theorem changeset_canonical `{LazyKey} st ts cs :
  execute st ts = Some cs →
  StronglySorted (λ x y, bytes_le x.1 y.1 ∧ x.1 ≠ y.1) cs ∧
  (∀ k, k ∈ cs.*1 ↔ k ∈ touched ts) ∧
  (∀ writes, writes ≡ₚ cs → sort_by_key writes = cs).
Proof.
  rewrite execute_ledger. destruct (ledger_run st ts) as [st'|] eqn:Er; [|done]. intros [= <-].
  destruct (ledger_changes_sorted ts st') as [Hs Hin]. split_and!; [done| |].
  - intros k. rewrite list_elem_of_fmap. split.
    + intros ([k' a] & -> & Hk). by apply Hin in Hk as [? _].
    + intros Hk. destruct (ledger_run_touched _ _ _ Er k Hk) as [a Ha].
      exists (k, a). split; [done|]. by apply Hin.
  - intros w Hw. unfold ledger_changes in Hw |- *. rewrite sort_by_key_perm in Hw.
    symmetry. apply sort_by_key_eq; [apply NoDup_fst_map_to_list|done].
Qed.

Lemma changeset_canonical_witness :
  StronglySorted (λ x y, bytes_le x.1 y.1 ∧ x.1 ≠ y.1) sample_changes.
Proof.
  apply (changeset_canonical sample_state sample_transfers). vm_compute. reflexivity.
Defined.
