(* ===== verification/Block.v ===== *)
(** * Blocks and headers (crates/primitives/src/block.rs)

    The execution header, the block with its lazily decoded body, their codecs
    and the seal, which hashes the header only. *)

From stdpp Require Import prelude list strings.
From S2P Require Import Prelude Interfaces Concrete Auth Transaction.

(** ** Library types *)

(** Library types of variable size: [encode_size] is the length written and
    every accepted encoding is the one written. *)
Class VarCodec (A : Type) := {
  vvalid : A → Prop;
  vsize : A → Z;
  vwrite : A → bytes;
  vread : reader A;
  vsize_vwrite a : vsize a = zlen (vwrite a);
  vread_vwrite a rest : vvalid a → vread (vwrite a ++ rest) = Ok (a, rest);
  vread_canonical buf a rest : vread buf = Ok (a, rest) → vvalid a ∧ buf = vwrite a ++ rest
}.
#[global] Hint Mode VarCodec ! : typeclass_instances.

(** commonware-consensus: rounds, views and the [Context] a block is proposed
    in; commonware-utils: non-empty ranges of [u64], whose constructor asserts
    that the range is not empty. *)
Class ConsensusLib := {
  commitment : Type;
  commitment_EMPTY : commitment;
  peer : Type;
  round : Type;
  round_zero : round;
  view : Type;
  view_zero : view;
  Context : Type;
  mkContext : round → peer → view * commitment → Context;
  context_round : Context → round;
  context_round_mk r p v : context_round (mkContext r p v) = r;
  epoch_get : round → Z;
  view_get : round → Z;
  Context_codec :: VarCodec Context;
  Context_valid (c : Context) : vvalid c;
  NonEmptyRange : Type;
  NonEmptyRange_eq_dec :: EqDecision NonEmptyRange;
  NonEmptyRange_codec :: VarCodec NonEmptyRange;
  NonEmptyRange_valid (r : NonEmptyRange) : vvalid r;
  range_start : NonEmptyRange → Z;
  range_end : NonEmptyRange → Z;
  range_new : Z → Z → option NonEmptyRange;
  range_new_Some a b r :
    range_new a b = Some r ↔ is_u64 a ∧ is_u64 b ∧ a < b ∧ range_start r = a ∧ range_end r = b;
  range_new_ok a b : is_u64 a → is_u64 b → a < b → is_Some (range_new a b);
  range_bounds r : is_u64 (range_start r) ∧ is_u64 (range_end r) ∧ range_start r < range_end r
}.

(** [non_empty_range!]. *)
Definition non_empty_range `{ConsensusLib} (a b : Z) : run NonEmptyRange :=
  expect (range_new a b) "range must not be empty".

(** ** Definitions *)

Section block.
Context `{LazyKey} `{ConsensusLib}.

(** [struct Header]. *)
Record Header := mkHeader {
  context : Context;
  h_parent : digest;
  height : Z;
  timestamp : Z;
  state_root : digest;
  state_range : NonEmptyRange;
  transactions_root : digest;
  transactions_range : NonEmptyRange
}.

(** [struct Block] and [Block::new]. *)
Record Block := mkBlock { header : Header; body : list LazySignedTransaction }.

Definition block_new (h : Header) (txs : list SignedTransaction) : Block :=
  mkBlock h (map lst_new txs).

(** [BlockCfg]: the accepted range of body lengths. *)
Record BlockCfg := mkCfg { cfg_lo : Z; cfg_hi : Z }.

Definition block_cfg_default : BlockCfg := mkCfg 0 u64_max.

Definition write_header (h : Header) : bytes :=
  vwrite (context h) ++ fwrite (h_parent h) ++ write_uint 8 (height h)
  ++ write_uint 8 (timestamp h) ++ fwrite (state_root h) ++ vwrite (state_range h)
  ++ fwrite (transactions_root h) ++ vwrite (transactions_range h).

Definition header_encode_size (h : Header) : Z :=
  vsize (context h) + Z.of_nat (fsize digest) + 8 + 8 + Z.of_nat (fsize digest)
  + vsize (state_range h) + Z.of_nat (fsize digest) + vsize (transactions_range h).

Definition read_header : reader Header := fun buf =>
  '(c, buf) ← vread buf;
  '(p, buf) ← fread buf;
  '(h, buf) ← read_uint 8 buf;
  '(ts, buf) ← read_uint 8 buf;
  '(sr, buf) ← fread buf;
  '(srange, buf) ← vread buf;
  '(tr, buf) ← fread buf;
  '(trange, buf) ← vread buf;
  Ok (mkHeader c p h ts sr srange tr trange, buf).

(** [Header::hash_slow] and [Sealable for Header]. *)
Definition header_hash_slow (h : Header) : digest := hash (write_header h).
Definition seal_header (h : Header) : Sealed Header := mkSealed h (header_hash_slow h).

(** [Write], [EncodeSize] and [Read] for blocks; writing an item of the body
    may panic. *)
Definition write_block (b : Block) : run bytes :=
  items ← mapM write_lst (body b);
  Ret (write_header (header b) ++ write_vec (λ i, i) items).

Definition block_encode_size (b : Block) : run Z :=
  sizes ← mapM lst_encode_size (body b);
  Ret (header_encode_size (header b) + (encode_size_len (zlen (body b)) + sumZ sizes)).

Definition read_block (cfg : BlockCfg) : reader Block := fun buf =>
  '(h, buf) ← read_header buf;
  '(txs, buf) ← read_vec read_lst (cfg_lo cfg) (cfg_hi cfg) buf;
  Ok (mkBlock h txs, buf).

(** [Sealable for Block], and the codec of sealed blocks. *)
Definition seal_block (b : Block) : Sealed Block := mkSealed b (header_hash_slow (header b)).
Definition write_sealed_block (s : Sealed Block) : run bytes := write_block (inner s).
Definition read_sealed_block (cfg : BlockCfg) : reader (Sealed Block) := fun buf =>
  '(b, buf) ← read_block cfg buf; Ok (seal_block b, buf).

End block.

Abbreviation SealedBlock := (Sealed Block).

(** ** Lemmas *)

Section lemmas.
Context `{LazyKey} `{ConsensusLib}.

Record header_wf (h : Header) : Prop := {
  height_wf : is_u64 (height h);
  timestamp_wf : is_u64 (timestamp h)
}.

Lemma read_write_header h rest :
  header_wf h → read_header (write_header h ++ rest) = Ok (h, rest).
Proof.
  intros [Hh Ht]. unfold read_header, write_header. rewrite <- !app_assoc.
  repeat first
    [ rewrite vread_vwrite by (apply Context_valid || apply NonEmptyRange_valid)
    | rewrite fread_fwrite by apply digest_valid
    | rewrite read_write_u64 by done
    | progress cbn [mbind result_bind] ].
  by destruct h.
Qed.

Lemma read_header_canonical buf h rest :
  read_header buf = Ok (h, rest) → header_wf h ∧ buf = write_header h ++ rest.
Proof.
  unfold read_header.
  intros ([c b1] & [_ ->]%vread_canonical & Hk)%bind_Ok.
  apply bind_Ok in Hk as ([p b2] & [_ ->]%fread_canonical & Hk).
  apply bind_Ok in Hk as ([ht b3] & [Hht ->]%read_uint_canonical & Hk).
  apply bind_Ok in Hk as ([ts b4] & [Hts ->]%read_uint_canonical & Hk).
  apply bind_Ok in Hk as ([sr b5] & [_ ->]%fread_canonical & Hk).
  apply bind_Ok in Hk as ([sg b6] & [_ ->]%vread_canonical & Hk).
  apply bind_Ok in Hk as ([tr b7] & [_ ->]%fread_canonical & Hk).
  apply bind_Ok in Hk as ([tg b8] & [_ ->]%vread_canonical & Hk). simplify_eq.
  split; [by split; apply is_u64_pow|]. unfold write_header; cbn. by rewrite <- !app_assoc.
Qed.

Lemma header_encode_size_spec h : header_encode_size h = zlen (write_header h).
Proof.
  unfold header_encode_size, write_header. rewrite !zlen_app, !vsize_vwrite.
  unfold zlen. rewrite !fwrite_length, !write_uint_length. lia.
Qed.

(** A body item is encoded as its length and its bytes. *)
Definition lst_wire (l : LazySignedTransaction) : bytes :=
  write_len (zlen (lst_bytes l)) ++ lst_bytes l.

Lemma write_lst_wire l :
  lst_wf l → write_lst l = Ret (lst_wire l) ∧ lst_encode_size l = Ret (zlen (lst_wire l)).
Proof. intros Hl. unfold lst_wire. rewrite zlen_app. by apply write_lst_spec. Qed.

Lemma write_body_items ls :
  Forall lst_wf ls →
  mapM write_lst ls = Ret (lst_wire <$> ls) ∧
  mapM lst_encode_size ls = Ret ((λ l, zlen (lst_wire l)) <$> ls).
Proof.
  induction 1 as [|l ls Hl _ [IH1 IH2]]; [done|]. cbn.
  destruct (write_lst_wire l Hl) as [-> ->]. cbn. by rewrite IH1, IH2.
Qed.

Lemma write_vec_items (ls : list LazySignedTransaction) :
  write_vec (λ i, i) (lst_wire <$> ls) = write_vec lst_wire ls.
Proof.
  rewrite !write_vec_spec. unfold zlen. rewrite length_fmap. f_equal. f_equal. by rewrite map_id.
Qed.

Lemma write_block_spec b :
  Forall lst_wf (body b) →
  write_block b = Ret (write_header (header b) ++ write_vec lst_wire (body b)) ∧
  block_encode_size b = Ret (zlen (write_header (header b) ++ write_vec lst_wire (body b))).
Proof.
  intros Hb. unfold write_block, block_encode_size.
  destruct (write_body_items _ Hb) as [-> ->]. cbn. rewrite write_vec_items. split; [done|].
  rewrite write_vec_spec, !zlen_app, header_encode_size_spec. do 3 f_equal.
  clear. induction (body b) as [|l ls IH]; cbn; [done|]. by rewrite zlen_app, IH.
Qed.

Lemma read_lst_wire l rest :
  lst_wf l → read_lst (lst_wire l ++ rest) = Ok (lst_deferred (lst_bytes l), rest).
Proof.
  intros Hl. unfold lst_wire. rewrite <- app_assoc.
  apply read_write_lst. by apply lst_bytes_bounds.
Qed.

(** Two body items that decode alike. *)
Definition lst_same (l l' : LazySignedTransaction) : Prop :=
  lst_bytes l = lst_bytes l' ∧ lst_get l ≡ lst_get l'.

Lemma read_write_body cfg ls rest :
  Forall lst_wf ls → cfg_lo cfg ≤ zlen ls ≤ cfg_hi cfg → zlen ls < 2 ^ 32 →
  ∃ ls', read_vec read_lst (cfg_lo cfg) (cfg_hi cfg) (write_vec lst_wire ls ++ rest) = Ok (ls', rest) ∧
    Forall2 lst_same ls ls'.
Proof.
  intros Hb Hc Hn. apply read_write_vec; [done|done|].
  intros l bs Hl. rewrite Forall_forall in Hb. apply Hb in Hl.
  rewrite read_lst_wire by done. eexists; split; [done|]. split; [done|].
  rewrite lst_get_deferred. by apply lst_get_bytes.
Qed.

Lemma read_write_block cfg b rest :
  header_wf (header b) → Forall lst_wf (body b) →
  cfg_lo cfg ≤ zlen (body b) ≤ cfg_hi cfg → zlen (body b) < 2 ^ 32 →
  ∃ b', read_block cfg (write_header (header b) ++ write_vec lst_wire (body b) ++ rest) = Ok (b', rest) ∧
    header b' = header b ∧ Forall2 lst_same (body b) (body b').
Proof.
  intros Hh Hb Hc Hn. unfold read_block. rewrite read_write_header by done. cbn [mbind result_bind].
  destruct (read_write_body cfg (body b) rest Hb Hc Hn) as (txs & -> & Hs).
  cbn. by eexists.
Qed.

Lemma read_block_canonical cfg buf b rest :
  read_block cfg buf = Ok (b, rest) →
  header_wf (header b) ∧ Forall lst_wf (body b) ∧
  cfg_lo cfg ≤ zlen (body b) ≤ cfg_hi cfg ∧ zlen (body b) < 2 ^ 32 ∧
  buf = write_header (header b) ++ write_vec lst_wire (body b) ++ rest.
Proof.
  unfold read_block. intros ([h b1] & [Hh ->]%read_header_canonical & Hk)%bind_Ok.
  apply bind_Ok in Hk as ([txs b2] & Hv & ?). simplify_eq.
  apply (read_vec_canonical _ lst_wire lst_wf) in Hv as (? & ? & ? & ->); [done|].
  intros bs l r (x & -> & Hl & ->)%read_lst_canonical. unfold lst_wire. cbn.
  by rewrite <- app_assoc.
Qed.

Lemma block_new_wf h txs : Forall signed_wf txs → Forall lst_wf (body (block_new h txs)).
Proof. intros Ht. cbn. rewrite Forall_map. eapply Forall_impl; [done|]. apply lst_new_wf. Qed.

End lemmas.

(** ** Concrete library types *)

Definition u64_range : Type := dsig (λ p : Z * Z, is_u64 p.1 ∧ is_u64 p.2 ∧ p.1 < p.2).

Definition range_of (a b : Z) : option u64_range :=
  match decide (is_u64 a ∧ is_u64 b ∧ a < b) with
  | left Hr => Some (dexist (a, b) Hr)
  | right _ => None
  end.

Definition range_read : reader u64_range := fun buf =>
  '(a, buf) ← conc_read_uint 8 buf;
  '(b, buf) ← conc_read_uint 8 buf;
  r ← ok_or (range_of a b) (Invalid "NonEmptyRange" "start must be < end");
  Ok (r, buf).

Lemma range_of_Some a b r :
  range_of a b = Some r ↔
  is_u64 a ∧ is_u64 b ∧ a < b ∧ (proj1_sig r).1 = a ∧ (proj1_sig r).2 = b.
Proof.
  unfold range_of. case_decide as Hd.
  - split; [intros [= <-]; naive_solver|]. intros (_ & _ & _ & Ha & Hb). f_equal. apply dsig_eq. cbn.
    destruct (proj1_sig r); cbn in *. congruence.
  - split; [done|]. intros (? & ? & ? & _). naive_solver.
Qed.

Definition range_write (r : u64_range) : bytes := to_be 8 (proj1_sig r).1 ++ to_be 8 (proj1_sig r).2.

Lemma range_valid (r : u64_range) : is_u64 (proj1_sig r).1 ∧ is_u64 (proj1_sig r).2 ∧ (proj1_sig r).1 < (proj1_sig r).2.
Proof. destruct r as [p Hp]. exact (bool_decide_unpack _ Hp). Qed.

#[export] Program Instance range_codec : VarCodec u64_range := {|
  vvalid _ := True; vsize _ := 16; vwrite := range_write; vread := range_read |}.
Next Obligation.
  intros r. cbv beta. unfold range_write, zlen. by rewrite length_app, !to_be_length.
Qed.
Next Obligation.
  intros r rest _. unfold range_read, range_write. rewrite <- app_assoc.
  destruct (range_valid r) as (Ha & Hb & Hlt).
  rewrite (read_write_u64 (H := conc_codec)) by done. cbn [mbind result_bind].
  rewrite (read_write_u64 (H := conc_codec)) by done. cbn [mbind result_bind].
  rewrite (proj2 (range_of_Some _ _ r)) by done. done.
Qed.
Next Obligation.
  intros buf r rest. unfold range_read.
  intros ([a b1] & [Ha ->]%(read_uint_canonical (H := conc_codec)) & Hk)%bind_Ok.
  apply bind_Ok in Hk as ([b b2] & [Hb ->]%(read_uint_canonical (H := conc_codec)) & Hk).
  apply bind_Ok in Hk as (r' & (_ & _ & _ & <- & <-)%ok_or_Ok%range_of_Some & ?). simplify_eq.
  split; [done|]. unfold range_write. by rewrite <- app_assoc.
Qed.

#[export] Program Instance fb_varcodec n : VarCodec (fb n) := {|
  vvalid _ := True; vsize _ := Z.of_nat n; vwrite := fwrite; vread := fread |}.
Next Obligation. intros n a. cbv beta. unfold zlen. by rewrite fwrite_length. Qed.
Next Obligation. intros n a rest _. by apply fread_fwrite. Qed.
Next Obligation. intros n buf a rest Hr. by apply fread_canonical in Hr as [_ ->]. Qed.

#[export] Program Instance pair_varcodec {A B} `{VarCodec A} `{VarCodec B} : VarCodec (A * B) := {|
  vvalid p := vvalid p.1 ∧ vvalid p.2;
  vsize p := vsize p.1 + vsize p.2;
  vwrite p := vwrite p.1 ++ vwrite p.2;
  vread buf := '(a, buf) ← vread buf; '(b, buf) ← vread buf; Ok ((a, b), buf) |}.
Next Obligation. intros A B ? ? [a b]. cbn. by rewrite zlen_app, !vsize_vwrite. Qed.
Next Obligation.
  intros A B ? ? [a b] rest [Ha Hb]. cbn in *. rewrite <- app_assoc.
  rewrite vread_vwrite by done. cbn. by rewrite vread_vwrite.
Qed.
Next Obligation.
  intros A B ? ? buf [a b] rest. cbv beta.
  intros ([a' b1] & [Ha ->]%vread_canonical & Hk)%bind_Ok.
  apply bind_Ok in Hk as ([b' b2] & [Hb ->]%vread_canonical & ?). simplify_eq/=.
  by rewrite <- app_assoc.
Qed.

#[export] Program Instance conc_consensus : ConsensusLib := {|
  commitment := fb 32; commitment_EMPTY := fb_of 32 [];
  peer := fb 32; round := fb 16; round_zero := fb_of 16 []; view := fb 8; view_zero := fb_of 8 [];
  Context := fb 16 * fb 72;
  mkContext r p vc := (r, fb_of 72 (proj1_sig p ++ proj1_sig vc.1 ++ proj1_sig vc.2));
  context_round := fst;
  epoch_get r := from_be (take 8 (proj1_sig r));
  view_get r := from_be (drop 8 (proj1_sig r));
  NonEmptyRange := u64_range;
  range_start r := (proj1_sig r).1; range_end r := (proj1_sig r).2;
  range_new := range_of |}.
Next Obligation. done. Qed.
Next Obligation. done. Qed.
Next Obligation. done. Qed.
Next Obligation. apply range_of_Some. Qed.
Next Obligation. intros a b Ha Hb Hab. unfold range_of. case_decide; [by eexists|naive_solver]. Qed.
Next Obligation. intros r. apply range_valid. Qed.

(** ** Properties *)

(** C36. Block codec: a block with well-formed header and body items encodes
    without panicking to [encode_size] bytes, and decoding them under a
    configuration that admits its length gives back the header, body items
    with the same bytes and values, and the same seal. *)
Theorem block_codec_roundtrip `{LazyKey} `{ConsensusLib} cfg b rest :
  header_wf (header b) → Forall lst_wf (body b) →
  cfg_lo cfg ≤ zlen (body b) ≤ cfg_hi cfg → zlen (body b) < 2 ^ 32 →
  ∃ enc b', write_sealed_block (seal_block b) = Ret enc ∧ block_encode_size b = Ret (zlen enc) ∧
    read_sealed_block cfg (enc ++ rest) = Ok (seal_block b', rest) ∧
    header b' = header b ∧ Forall2 lst_same (body b) (body b') ∧
    seal (seal_block b') = seal (seal_block b).
Proof.
  intros Hh Hb Hc Hn. destruct (write_block_spec b Hb) as [Hw He].
  destruct (read_write_block cfg b rest Hh Hb Hc Hn) as (b' & Hr & Heq & Hs).
  eexists _, b'. unfold write_sealed_block, read_sealed_block. split; [exact Hw|].
  rewrite <- app_assoc, Hr. split_and!; [done..|]. cbn. by rewrite Heq.
Qed.

(** A block of two transactions; the ranges are those of a one-operation history. *)
Lemma unit_range_ok : is_u64 (0, 1).1 ∧ is_u64 (0, 1).2 ∧ (0, 1).1 < (0, 1).2.
Proof. done. Qed.
Definition unit_range : u64_range := dexist (0, 1) unit_range_ok.
Definition sample_range (a n : Z) : u64_range := default unit_range (range_of a (a + n + 1)).
Definition sample_header (h ts a n : Z) : Header :=
  mkHeader (mkContext round_zero (fb_of 32 [x05]) (view_zero, commitment_EMPTY)) EMPTY h ts
    (hash [x01]) (sample_range a n) (hash [x02]) (sample_range a n).
Definition sample_block : Block :=
  block_new (sample_header 3 1000 4 2) [sample_signed 1 2 5 0; sample_signed 2 1 7 0].

Lemma block_codec_roundtrip_witness :
  ∃ enc b', write_sealed_block (seal_block sample_block) = Ret enc ∧
    block_encode_size sample_block = Ret (zlen enc) ∧
    read_sealed_block block_cfg_default (enc ++ []) = Ok (seal_block b', []) ∧
    header b' = header sample_block ∧ Forall2 lst_same (body sample_block) (body b') ∧
    seal (seal_block b') = seal (seal_block sample_block).
Proof.
  apply (block_codec_roundtrip block_cfg_default sample_block []).
  - by split.
  - apply block_new_wf. repeat constructor; try done; apply lazy_new_wf; done.
  - done.
  - done.
Defined.

(** Decoded blocks are canonical: whatever [read_cfg] accepts is exactly
    the encoding of the block it returns, the body length is within the
    configured range, every body item can be forced without panicking, and the
    seal is the hash of the encoded header. *)
Theorem decoded_block_canonical `{LazyKey} `{ConsensusLib} cfg buf s rest :
  read_sealed_block cfg buf = Ok (s, rest) →
  (∃ enc, write_sealed_block s = Ret enc ∧ buf = enc ++ rest) ∧
  cfg_lo cfg ≤ zlen (body (inner s)) ≤ cfg_hi cfg ∧
  seal s = hash (write_header (header (inner s))) ∧
  Forall (λ l, ∃ v l', lst_get_or_init l = Ret (v, l')) (body (inner s)).
Proof.
  unfold read_sealed_block. intros ([b r] & Hb & ?)%bind_Ok. simplify_eq.
  apply read_block_canonical in Hb as (Hh & Hwf & Hc & Hn & ->).
  destruct Hc as [Hlo Hhi]. split_and!; [|done..|].
  - destruct (write_block_spec b Hwf) as [Hw _]. eexists; split; [exact Hw|].
    by rewrite <- app_assoc.
  - eapply Forall_impl; [done|]. intros l (l' & ? & _)%lst_get_or_init_spec. by eauto.
Qed.

Definition sample_block_bytes : bytes :=
  match write_sealed_block (seal_block sample_block) with Ret b => b | Panic _ => [] end.

Lemma decoded_block_canonical_witness :
  ∃ s, read_sealed_block (mkCfg 0 10) sample_block_bytes = Ok (s, []) ∧
       seal s = hash (write_header (header (inner s))).
Proof.
  destruct (read_sealed_block (mkCfg 0 10) sample_block_bytes) as [[s rest]|e] eqn:E.
  - assert (rest = []) as ->.
    { assert ((λ r, match r with Ok (_, rest) => bool_decide (rest = []) | Err _ => false end)
        (read_sealed_block (mkCfg 0 10) sample_block_bytes) = true) as Hb by (vm_compute; reflexivity).
      rewrite E in Hb. by apply bool_decide_eq_true in Hb. }
    exists s. split; [done|].
    apply (decoded_block_canonical (mkCfg 0 10) sample_block_bytes s [] E).
  - exfalso.
    assert ((λ r, match r with Ok _ => true | Err _ => false end)
        (read_sealed_block (mkCfg 0 10) sample_block_bytes) = true) as Hb by (vm_compute; reflexivity).
    by rewrite E in Hb.
Defined.
