(* ===== verification/Signed.v ===== *)
(** * Signed values (crates/primitives/src/signed.rs, sealed.rs)

    The generic container: a sealed value with a lazily decoded signature over
    its seal, its codec, verification, and signing in one step.  Sealing,
    signature schemes and lazy decoding are type classes; transactions signed
    with Ed25519 keys are an instance, on which the container agrees with
    [SignedTransaction]. *)

From stdpp Require Import prelude list strings.
From S2P Require Import Prelude Interfaces Auth Transaction Block.

(** ** Interfaces *)

(** [trait Sealable]. *)
Class Sealable `{Hashing} (T : Type) := { seal_digest : T → digest }.

(** [Signer], [Verifier] and [Signature] of commonware-cryptography. *)
Class SignatureScheme := {
  scheme_pk : Type;
  scheme_sk : Type;
  scheme_sig : Type;
  scheme_sig_codec :: FixedCodec scheme_sig;
  scheme_sig_valid (s : scheme_sig) : fvalid s;
  scheme_public_key : scheme_sk → scheme_pk;
  scheme_sign : scheme_sk → bytes → bytes → scheme_sig;
  scheme_verify : scheme_pk → bytes → bytes → scheme_sig → bool;
  scheme_sign_verify sk ns m : scheme_verify (scheme_public_key sk) ns m (scheme_sign sk ns m) = true
}.

(** [Lazy<Sig>]: a value, or bytes decoded when asked for. *)
Class LazySignature `{CodecLib} `{SignatureScheme} := {
  lsig : Type;
  lsig_new : scheme_sig → lsig;
  lsig_get : lsig → option scheme_sig;
  lsig_write : lsig → bytes;
  lsig_read : reader lsig;
  lsig_get_new s : lsig_get (lsig_new s) = Some s;
  lsig_write_new s : lsig_write (lsig_new s) = fwrite s;
  lsig_write_length l : length (lsig_write l) = fsize scheme_sig;
  lsig_read_long b rest :
    length b = fsize scheme_sig →
    ∃ l, lsig_read (b ++ rest) = Ok (l, rest) ∧ lsig_write l = b ∧ lsig_get l = ok (decode fread b);
  lsig_read_short buf : (length buf < fsize scheme_sig)%nat → lsig_read buf = Err EndOfBuffer;
  lsig_decodes l s : lsig_get l = Some s → lsig_write l = fwrite s
}.

(** ** Definitions *)

Section signed.
Context `{CodecLib} `{Hashing} `{SignatureScheme} `{!LazySignature} {T : Type} `{!Sealable T} `{!VarCodec T}.

(** [Sealable::seal], and the codec of [Sealed]: the seal is not written and is
    recomputed from what is read. *)
Definition seal_value (t : T) : Sealed T := mkSealed t (seal_digest t).
Definition write_sealed (s : Sealed T) : bytes := vwrite (inner s).
Definition sealed_encode_size (s : Sealed T) : Z := vsize (inner s).
Definition read_sealed : reader (Sealed T) := fun buf => '(t, buf) ← vread buf; Ok (seal_value t, buf).

(** [struct Signed]. *)
Record Signed := mkSignedValue { sg_inner : Sealed T; sg_signature : lsig }.

Definition signed_new (sealed : Sealed T) (namespace : bytes) (signer : scheme_sk) : Signed :=
  mkSignedValue sealed (lsig_new (scheme_sign signer namespace (fwrite (seal sealed)))).
Definition signed_new_unchecked (sealed : Sealed T) (signature : scheme_sig) : Signed :=
  mkSignedValue sealed (lsig_new signature).
Definition signed_value (s : Signed) : T := inner (sg_inner s).
Definition signed_message_digest (s : Signed) : digest := seal (sg_inner s).
Definition signed_signature (s : Signed) : option scheme_sig := lsig_get (sg_signature s).
Definition signed_verify (s : Signed) (namespace : bytes) (public_key : scheme_pk) : bool :=
  match signed_signature s with
  | None => false
  | Some signature => scheme_verify public_key namespace (fwrite (signed_message_digest s)) signature
  end.

Definition write_signed_value (s : Signed) : bytes := write_sealed (sg_inner s) ++ lsig_write (sg_signature s).
Definition read_signed_value : reader Signed := fun buf =>
  '(sealed, buf) ← read_sealed buf;
  '(signature, buf) ← lsig_read buf;
  Ok (mkSignedValue sealed signature, buf).

(** [Signable::seal_and_sign]. *)
Definition signable_seal_and_sign (t : T) (signer : scheme_sk) (namespace : bytes) : Signed :=
  signed_new (seal_value t) namespace signer.

(** ** Properties *)

(** A container whose seal belongs to its value, as every constructor but the
    unchecked ones makes it. *)
Definition sealed_well (s : Sealed T) : Prop := seal s = seal_digest (inner s).

(** Signing in one step: the container holds the value, its digest is the seal,
    and it verifies under the signer's key in the namespace. *)
Theorem seal_and_sign_verifies t signer namespace :
  let s := signable_seal_and_sign t signer namespace in
  signed_value s = t ∧ signed_message_digest s = seal_digest t ∧
  signed_verify s namespace (scheme_public_key signer) = true.
Proof.
  cbn. split_and!; [done..|]. unfold signed_verify, signed_signature, signable_seal_and_sign, signed_new. cbn.
  rewrite lsig_get_new. apply scheme_sign_verify.
Qed.

(** What is written is read back: the same value and seal, a signature with the
    same bytes, decoded only when those are a signature. *)
Theorem signed_value_roundtrip s rest :
  sealed_well (sg_inner s) → vvalid (signed_value s) →
  ∃ s', read_signed_value (write_signed_value s ++ rest) = Ok (s', rest) ∧ sg_inner s' = sg_inner s ∧
    lsig_write (sg_signature s') = lsig_write (sg_signature s) ∧
    signed_signature s' = ok (decode fread (lsig_write (sg_signature s))) ∧
    (∀ sig, signed_signature s = Some sig → signed_signature s' = Some sig).
Proof.
  intros Hs Hv. unfold read_signed_value, read_sealed, write_signed_value, write_sealed. rewrite <- app_assoc.
  rewrite vread_vwrite by done. cbn [mbind result_bind].
  destruct (lsig_read_long (lsig_write (sg_signature s)) rest (lsig_write_length _)) as (l & -> & Hw & Hg).
  cbn [mbind result_bind]. eexists. split; [reflexivity|]. cbn. split_and!; [|done|done|].
  - unfold seal_value. destruct (sg_inner s) as [v d]. cbn in *. unfold sealed_well in Hs. cbn in Hs. by rewrite Hs.
  - intros sig Hsig. unfold signed_signature in *. cbn. rewrite Hg, (lsig_decodes _ _ Hsig).
    rewrite (decode_exact _ _ sig); [done|]. rewrite <- (app_nil_r (fwrite sig)). apply fread_fwrite, scheme_sig_valid.
Qed.

(** What is read was written by the container it gives, whose seal is that of
    its value. *)
Theorem signed_value_canonical buf s rest :
  read_signed_value buf = Ok (s, rest) →
  sealed_well (sg_inner s) ∧ vvalid (signed_value s) ∧ buf = write_signed_value s ++ rest.
Proof.
  unfold read_signed_value, read_sealed. intros ([sealed b1] & Hr & Hk)%bind_Ok.
  apply bind_Ok in Hr as ([t b2] & [Hv ->]%vread_canonical & [= <- <-]).
  apply bind_Ok in Hk as ([l b3] & Hl & [= <- <-]).
  destruct (decide (length b2 < fsize scheme_sig)%nat) as [Hlt|Hge]; [by rewrite lsig_read_short in Hl|].
  destruct (lsig_read_long (take (fsize scheme_sig) b2) (drop (fsize scheme_sig) b2)) as (l' & Hl' & Hw & _);
    [rewrite length_take; lia|].
  rewrite take_drop, Hl in Hl'. injection Hl' as -> ->.
  split_and!; [done|done|]. unfold write_signed_value, write_sealed. cbn. by rewrite Hw, <- app_assoc, take_drop.
Qed.
End signed.

(** ** Transactions *)

(** Transactions are sealed with the hash of their encoding, and Ed25519 is a
    scheme. *)
#[export] Instance transaction_sealable `{LazyKey} : Sealable Transaction := {| seal_digest := hash_slow |}.
Definition ed25519_scheme `{Keys} : SignatureScheme.
Proof.
  refine {| scheme_pk := ed_pk; scheme_sk := ed_sk; scheme_sig := ed_sig; scheme_public_key := ed_public_key;
            scheme_sign := ed_sign; scheme_verify pk ns m s := ed_verify ns m pk s |}.
  - apply ed_sig_valid.
  - apply ed_sign_verify.
Defined.

(** The container and [SignedTransaction] agree: same digest, and the one
    verifies under an Ed25519 key exactly when the other passes the checks of a
    block body whose sender is that key. *)
Theorem signed_agrees_with_transactions `{LazyKey} `{Json} `{!LazySignature (H0 := ed25519_scheme)}
    (tx : Transaction) (pk : ed_pk) encoded ns (sg : scheme_sig (SignatureScheme := ed25519_scheme)) :
  lazy_get (sender tx) = Some (PkEd25519 pk encoded) →
  let s := signed_new_unchecked (seal_value tx) sg in
  let t := mkSigned (seal_tx tx) (sig_ed25519 sg) in
  signed_message_digest s = message_digest t ∧ signed_verify s ns pk = lst_signature_ok ns (lst_new t).
Proof.
  intros Hpk. split; [done|]. unfold signed_verify, signed_signature, signed_new_unchecked, lst_signature_ok. cbn.
  rewrite lsig_get_new. unfold st_value. cbn. by rewrite Hpk.
Qed.

(** Lazy decoding for any scheme: the value, or as many bytes as it has. *)
Definition bytes_lazy_signature `{CodecLib} `{SignatureScheme} : LazySignature.
Proof.
  set (raw := dsig (λ b : bytes, length b = fsize scheme_sig)).
  refine {| lsig := scheme_sig + raw; lsig_new := inl;
    lsig_get l := match l with inl s => Some s | inr b => ok (decode fread (`b)) end;
    lsig_write l := match l with inl s => fwrite s | inr b => `b end;
    lsig_read buf :=
      match decide (length (take (fsize scheme_sig) buf) = fsize scheme_sig) with
      | left Hb => Ok (inr (dexist _ Hb), drop (fsize scheme_sig) buf)
      | right _ => Err EndOfBuffer
      end |}.
  - done.
  - done.
  - intros [s|b]; [apply fwrite_length|exact (proj2_dsig b)].
  - intros b rest Hb. destruct (decide _) as [Ht|Hn].
    + eexists. split; [by rewrite drop_app_length' by done|]. cbn. by rewrite take_app_length' by done.
    + by rewrite take_app_length' in Hn by done.
  - intros buf Hl. destruct (decide _) as [Ht|]; [|done]. pose proof Ht as Ht'. rewrite length_take in Ht'. lia.
  - intros [s'|b] s; [by intros [= ->]|]. intros Hd%ok_Some%decode_Ok. apply fread_canonical in Hd as [_ Hb].
    by rewrite app_nil_r in Hb.
Defined.
