(* ===== verification/Database.v ===== *)
(** * Databases of the application (crates/application/src/consensus/db.rs)

    The application keeps its accounts and its transaction history in two
    QMDB databases of commonware-storage.  The classes below state what the
    sources use of their batches; [apply_changeset], [apply_transaction_digests]
    and [finalize_execution] are the helpers built on them. *)

From stdpp Require Import prelude gmap list strings.
From S2P Require Import Prelude Interfaces Concrete Account Auth Transaction Executor.

(** ** commonware-storage *)

(** A speculative batch of the account database reads through to the
    database.  Batches with the same contents are equivalent: equivalent
    batches merkleize to the same root and bounds.  Any operation that
    touches storage may fail; on a healthy store it does not. *)
Class StateDb `{Hashing} := {
  qmdb_error : Type;
  sbatch : Type;
  smerkle : Type;
  sbatch_equiv :: Equiv sbatch;
  sbatch_equivalence :: Equivalence (≡@{sbatch});
  smerkle_equiv :: Equiv smerkle;
  smerkle_equivalence :: Equivalence (≡@{smerkle});
  sb_view : sbatch → State;
  sb_healthy : sbatch → Prop;
  sb_get_many : sbatch → list AccountKey → result qmdb_error (list (option Account));
  sb_write : sbatch → AccountKey → option Account → sbatch;
  sb_merkleize : sbatch → result qmdb_error smerkle;
  sm_root : smerkle → digest;
  sm_bounds : smerkle → Z * Z;
  sb_view_proper :: Proper ((≡) ==> (=)) sb_view;
  sb_write_proper :: Proper ((≡) ==> (=) ==> (=) ==> (≡)) sb_write;
  sm_root_proper :: Proper ((≡) ==> (=)) sm_root;
  sm_bounds_proper :: Proper ((≡) ==> (=)) sm_bounds;
  sb_get_many_view b ks vs : sb_get_many b ks = Ok vs → vs = (λ k, sb_view b !! k) <$> ks;
  sb_merkleize_proper b b' m m' :
    b ≡ b' → sb_merkleize b = Ok m → sb_merkleize b' = Ok m' → m ≡ m';
  sb_view_write b k a : sb_view (sb_write b k (Some a)) = <[k:=a]> (sb_view b);
  sm_bounds_range b m :
    sb_merkleize b = Ok m → 0 ≤ (sm_bounds m).1 < (sm_bounds m).2 ∧ (sm_bounds m).2 ≤ u64_max;
  sb_healthy_get b ks : sb_healthy b → ∃ vs, sb_get_many b ks = Ok vs;
  sb_healthy_write b k o : sb_healthy b → sb_healthy (sb_write b k o);
  sb_healthy_merkleize b : sb_healthy b → ∃ m, sb_merkleize b = Ok m
}.

(** A batch of the append-only transaction history: its size counts the
    operations so far, [tb_floor] is the inactivity floor it will commit;
    merkleizing appends one commit operation. *)
Class HistoryDb `{StateDb} := {
  tbatch : Type;
  tmerkle : Type;
  tbatch_equiv :: Equiv tbatch;
  tbatch_equivalence :: Equivalence (≡@{tbatch});
  tmerkle_equiv :: Equiv tmerkle;
  tmerkle_equivalence :: Equivalence (≡@{tmerkle});
  tb_size : tbatch → Z;
  tb_floor : tbatch → Z;
  tb_healthy : tbatch → Prop;
  tb_append : tbatch → digest → tbatch;
  with_inactivity_floor : tbatch → Z → tbatch;
  tb_merkleize : tbatch → result qmdb_error tmerkle;
  tm_root : tmerkle → digest;
  tm_bounds : tmerkle → Z * Z;
  tb_size_proper :: Proper ((≡) ==> (=)) tb_size;
  tb_append_proper :: Proper ((≡) ==> (=) ==> (≡)) tb_append;
  with_floor_proper :: Proper ((≡) ==> (=) ==> (≡)) with_inactivity_floor;
  tm_root_proper :: Proper ((≡) ==> (=)) tm_root;
  tm_bounds_proper :: Proper ((≡) ==> (=)) tm_bounds;
  tb_merkleize_proper b b' m m' :
    b ≡ b' → tb_merkleize b = Ok m → tb_merkleize b' = Ok m' → m ≡ m';
  tb_size_append b d : tb_size (tb_append b d) = tb_size b + 1;
  tb_size_floor b f : tb_size (with_inactivity_floor b f) = tb_size b;
  tb_floor_append b d : tb_floor (tb_append b d) = tb_floor b;
  tb_floor_floor b f : tb_floor (with_inactivity_floor b f) = f;
  tm_bounds_commit b m : tb_merkleize b = Ok m → tm_bounds m = (tb_floor b, tb_size b + 1);
  tb_healthy_append b d : tb_healthy b → tb_healthy (tb_append b d);
  tb_healthy_floor b f : tb_healthy b → 0 ≤ f ≤ tb_size b → tb_healthy (with_inactivity_floor b f);
  tb_healthy_merkleize b : tb_healthy b → ∃ m, tb_merkleize b = Ok m
}.

(** ** Definitions *)

Section database.
Context `{HistoryDb}.

Definition apply_changeset (b : sbatch) (cs : Changeset) : sbatch :=
  fold_left (λ b '(k, a), sb_write b k (Some a)) cs b.

Definition apply_transaction_digests (b : tbatch) (ds : list digest) : tbatch :=
  fold_left tb_append ds b.

(** [finalize_execution]: both merkleizations run, the first error is returned. *)
Definition finalize_execution (sb : sbatch) (tb : tbatch) : result qmdb_error (smerkle * tmerkle) :=
  let s := sb_merkleize sb in
  let t := tb_merkleize tb in
  sm ← s; tm ← t; Ok (sm, tm).

(** ** Lemmas *)

#[global] Instance apply_changeset_proper : Proper ((≡) ==> (=) ==> (≡)) apply_changeset.
Proof.
  intros b b' Hb cs _ <-. unfold apply_changeset. revert b b' Hb.
  induction cs as [|[k a] cs IH]; intros b b' Hb; cbn; [done|]. apply IH. by rewrite Hb.
Qed.

#[global] Instance apply_digests_proper : Proper ((≡) ==> (=) ==> (≡)) apply_transaction_digests.
Proof.
  intros b b' Hb ds _ <-. unfold apply_transaction_digests. revert b b' Hb.
  induction ds as [|d ds IH]; intros b b' Hb; cbn; [done|]. apply IH. by rewrite Hb.
Qed.

Lemma apply_changeset_healthy b cs : sb_healthy b → sb_healthy (apply_changeset b cs).
Proof.
  unfold apply_changeset. revert b.
  induction cs as [|[k a] cs IH]; intros b Hb; cbn; [done|]. by apply IH, sb_healthy_write.
Qed.

Lemma apply_digests_healthy b ds : tb_healthy b → tb_healthy (apply_transaction_digests b ds).
Proof.
  unfold apply_transaction_digests. revert b.
  induction ds as [|d ds IH]; intros b Hb; cbn; [done|]. by apply IH, tb_healthy_append.
Qed.

Lemma apply_digests_size b ds :
  tb_size (apply_transaction_digests b ds) = tb_size b + zlen ds ∧
  tb_floor (apply_transaction_digests b ds) = tb_floor b.
Proof.
  unfold apply_transaction_digests, zlen. revert b.
  induction ds as [|d ds IH]; intros b; cbn; [split; [lia|done]|].
  destruct (IH (tb_append b d)) as [-> ->]. rewrite tb_size_append, tb_floor_append. split; [lia|done].
Qed.

(** Writing a sorted changeset updates the view to the changed accounts. *)
Lemma apply_changeset_view b cs :
  NoDup cs.*1 → sb_view (apply_changeset b cs) = list_to_map cs ∪ sb_view b.
Proof.
  unfold apply_changeset. revert b. induction cs as [|[k a] cs IH]; intros b Hnd; cbn.
  { by rewrite (left_id_L ∅ (∪)). }
  apply NoDup_cons in Hnd as [Hni Hnd]. cbn in Hni. rewrite IH by done. rewrite sb_view_write.
  rewrite <- insert_union_r by by apply not_elem_of_list_to_map. by rewrite insert_union_l.
Qed.

Lemma finalize_execution_Ok sb tb sm tm :
  finalize_execution sb tb = Ok (sm, tm) ↔ sb_merkleize sb = Ok sm ∧ tb_merkleize tb = Ok tm.
Proof.
  unfold finalize_execution. destruct (sb_merkleize sb), (tb_merkleize tb); cbn; naive_solver.
Qed.

End database.

#[export] Hint Resolve apply_changeset_healthy apply_digests_healthy : cst.

(** ** Concrete databases *)

(** A batch is the map it stands for; its root hashes the sorted contents. *)
Definition conc_state_root (m : State) : fb 32 :=
  fb_of 32 (concat (map (λ '(k, a), k ++ write_account (H := conc_codec) a) (sort_by_key (map_to_list m)))).

Definition conc_write (m : State) (k : AccountKey) (o : option Account) : State :=
  match o with Some a => <[k:=a]> m | None => delete k m end.

#[export] Program Instance conc_state_db : StateDb := {|
  qmdb_error := unit; sbatch := State; smerkle := State;
  sbatch_equiv := (=); smerkle_equiv := (=);
  sb_view m := m; sb_healthy _ := True;
  sb_get_many m ks := Ok ((λ k, m !! k) <$> ks);
  sb_write := conc_write;
  sb_merkleize m := Ok m;
  sm_root := conc_state_root;
  sm_bounds m := (0, Z.min (Z.of_nat (size m) + 1) u64_max) |}.
Next Obligation. intros b ks vs. cbv beta. by intros [= <-]. Qed.
Next Obligation. intros b b' m m' Heq. cbv beta. intros [= <-] [= <-]. exact Heq. Qed.
Next Obligation. done. Qed.
Next Obligation. intros. cbv beta. unfold u64_max; cbn -[Z.min]. lia. Qed.
Next Obligation. intros. by eexists. Qed.
Next Obligation. done. Qed.
Next Obligation. intros. by eexists. Qed.

(** A history is its operations, newest last, with the floor to commit. *)
Record conc_history := mkHist { h_ops : list (fb 32); h_base : Z; h_floor : Z }.

#[export] Program Instance conc_history_db : HistoryDb := {|
  tbatch := conc_history; tmerkle := conc_history;
  tbatch_equiv := (=); tmerkle_equiv := (=);
  tb_size h := h_base h + zlen (h_ops h); tb_floor := h_floor; tb_healthy _ := True;
  tb_append h d := mkHist (h_ops h ++ [d]) (h_base h) (h_floor h);
  with_inactivity_floor h f := mkHist (h_ops h) (h_base h) f;
  tb_merkleize h := Ok h;
  tm_root h := fb_of 32 (concat (map proj1_sig (h_ops h)));
  tm_bounds h := (h_floor h, h_base h + zlen (h_ops h) + 1) |}.
Next Obligation. intros b b' m m' Heq. cbv beta. intros [= <-] [= <-]. exact Heq. Qed.
Next Obligation. intros. cbn. rewrite zlen_app. unfold zlen at 2; cbn. lia. Qed.
Next Obligation. done. Qed.
Next Obligation. done. Qed.
Next Obligation. done. Qed.
Next Obligation. intros b m. cbv beta. by intros [= ->]. Qed.
Next Obligation. done. Qed.
Next Obligation. done. Qed.
Next Obligation. intros. by eexists. Qed.
