(* ===== verification/Execution.v ===== *)
(** * Block execution (crates/application/src/consensus/{execution,history,body,time}.rs)

    Loading accounts for a list of transfers, executing them on the cheapest
    loaded form, finalizing the two databases of a child block, and the checks
    a block must pass: signatures, timestamp and commitments. *)

From stdpp Require Import prelude gmap list strings.
From S2P Require Import Prelude Interfaces Concrete Account Auth Transaction Executor Database Block.

(** ** Reasons and policy constants *)

Definition INVALID_SIGNATURE : string := "invalid signature".
Definition SIGNATURE_TASK_CLOSED : string := "signature verification task closed".
Definition MATERIALIZE_TASK_CLOSED : string := "transaction materialization task closed".
Definition MALFORMED_TRANSACTION : string := "malformed transaction".
Definition STATIC_INVALID_TRANSACTION : string := "statically invalid transaction".

Definition MAX_BLOCK_TIMESTAMP_MS : Z := 7258118400000.

(** [timestamp_ms]: the clock reads milliseconds since the Unix epoch,
    negative before it. *)
Definition timestamp_ms (now : Z) : run Z :=
  if now <? 0 then Panic "clock moved before unix epoch"
  else if u64_max <? now then Panic "timestamp milliseconds exceeded u64"
  else Ret now.

Definition is_valid_child_timestamp (parent_timestamp_ms child_timestamp_ms : Z) : bool :=
  (parent_timestamp_ms <? child_timestamp_ms) && (child_timestamp_ms <=? MAX_BLOCK_TIMESTAMP_MS).

(** [block_deadline]; [clock_max] is the largest offset the platform's
    [SystemTime] represents. *)
Definition block_deadline (clock_max block_timestamp_ms : Z) : run Z :=
  if block_timestamp_ms <=? clock_max then Ret block_timestamp_ms
  else Panic "block timestamp exceeded maximum".

Section execution.
Context `{LazyKey} `{ConsensusLib} `{!StateDb} `{!HistoryDb}.

(** [parent_transactions_inactivity_floor]. *)
Definition parent_transactions_inactivity_floor (parent : SealedBlock) : run Z :=
  let parent_body_len := zlen (body (inner parent)) in
  expect
    (e ← checked_sub (range_end (transactions_range (header (inner parent)))) parent_body_len;
     checked_sub e 1)
    "parent transaction range must include the parent commit".

(** [enum LoadedState]. *)
Inductive LoadedState : Type :=
| Unique (accounts : list Account)
| Shared (accounts : State).

(** [load_accounts]; the keys come from a hash set in no particular order. *)
Definition load_accounts (b : sbatch) (ks : list AccountKey) : result qmdb_error State :=
  match ks with
  | [] => Ok ∅
  | _ =>
      values ← sb_get_many b ks;
      Ok (list_to_map (zip ks (default account_default <$> values)))
  end.

Definition load_state (b : sbatch) (ts : list PreparedTransfer) : result qmdb_error State :=
  match ts with
  | [] => Ok ∅
  | _ => load_accounts b (elements (touched ts))
  end.

Definition load_execution_state (b : sbatch) (ts : list PreparedTransfer)
    : result qmdb_error LoadedState :=
  match ts with
  | [] => Ok (Unique [])
  | _ =>
      let account_keys := transfer_keys ts in
      let unique := touched ts in
      if decide (size unique = length account_keys) then
        values ← sb_get_many b account_keys;
        Ok (Unique (default account_default <$> values))
      else
        st ← load_accounts b (elements unique);
        Ok (Shared st)
  end.

Definition execute_loaded (st : LoadedState) (ts : list PreparedTransfer) : option Changeset :=
  match st with
  | Unique accounts => execute_unique ts accounts
  | Shared accounts => execute accounts ts
  end.

Definition transfer_digests (ts : list PreparedTransfer) : list digest := pt_digest <$> ts.

Definition range_from_bounds (bounds : Z * Z) : run NonEmptyRange :=
  non_empty_range bounds.1 bounds.2.

(** [struct BlockExecution], without its timings. *)
Record BlockExecution := mkExecution {
  ex_state : smerkle;
  ex_transactions : tmerkle;
  ex_state_sync_range : NonEmptyRange;
  ex_transactions_range : NonEmptyRange;
  ex_transaction_count : Z
}.
Record ProposalExecution := mkProposal {
  pe_block : BlockExecution;
  pe_body : list SignedTransaction
}.

Definition into_merkleized (e : BlockExecution) : smerkle * tmerkle :=
  (ex_state e, ex_transactions e).

(** [Result::expect]. *)
Definition expect_ok {E A} (r : result E A) (why : string) : run A := expect (ok r) why.

Definition finalize_child (sb : sbatch) (tb : tbatch) (parent : SealedBlock) (count : Z)
    (expect_message : string) : run BlockExecution :=
  floor ← parent_transactions_inactivity_floor parent;
  let tb := with_inactivity_floor tb floor in
  '(s, t) ← expect_ok (finalize_execution sb tb) expect_message;
  srange ← range_from_bounds (sm_bounds s);
  trange ← range_from_bounds (tm_bounds t);
  Ret (mkExecution s t srange trange count).

Definition execute_proposal (sb : sbatch) (tb : tbatch) (parent : SealedBlock)
    (input : ProposalInput) (candidate_transfers : list PreparedTransfer) : run ProposalExecution :=
  st ← expect_ok (load_state sb candidate_transfers) "proposal state loading must succeed";
  let output := propose_prepared st input in
  let digests := transfer_digests (transfers output) in
  let sb := apply_changeset sb (changeset output) in
  let tb := apply_transaction_digests tb digests in
  blk ← finalize_child sb tb parent (zlen (valid output)) "database merkleization must succeed";
  Ret (mkProposal blk (valid output)).

(** [execute_body]: an [Err] is a rejection reason, a panic a storage failure. *)
Definition execute_body (sb : sbatch) (tb : tbatch) (parent : SealedBlock)
    (txs : list LazySignedTransaction) : run (result string BlockExecution) :=
  match mapM (λ l, t ← lst_get l; prepare_transfer t) txs with
  | None => Ret (Err MALFORMED_TRANSACTION)
  | Some ts =>
      st ← expect_ok (load_execution_state sb ts) "block state loading must succeed";
      match execute_loaded st ts with
      | None => Ret (Err STATIC_INVALID_TRANSACTION)
      | Some cs =>
          let sb := apply_changeset sb cs in
          let tb := apply_transaction_digests tb (transfer_digests ts) in
          e ← finalize_child sb tb parent (zlen ts)
                "database merkleization during verification must succeed";
          Ret (Ok e)
      end
  end.

Definition apply_prepared_body (sb : sbatch) (tb : tbatch) (floor : Z)
    (ts : list PreparedTransfer) : run (result string (smerkle * tmerkle)) :=
  st ← expect_ok (load_execution_state sb ts) "state loading must succeed for certified apply";
  match execute_loaded st ts with
  | None => Ret (Err STATIC_INVALID_TRANSACTION)
  | Some cs =>
      let sb := apply_changeset sb cs in
      let tb := with_inactivity_floor
                  (apply_transaction_digests tb (transfer_digests ts)) floor in
      Ret (map_err (λ _, STATIC_INVALID_TRANSACTION) (finalize_execution sb tb))
  end.

Definition commitments_match (h : Header) (e : BlockExecution) : bool :=
  if decide (sm_root (ex_state e) = state_root h) then
    if decide (ex_state_sync_range e = state_range h) then
      if decide (tm_root (ex_transactions e) = transactions_root h) then
        bool_decide (ex_transactions_range e = transactions_range h)
      else false
    else false
  else false.

(** [verify_signatures] and [materialize_body]: the work runs in a spawned
    task, which may be closed before it answers. *)
Definition verify_signatures `{Json} (task_alive : bool) (sig_st hash_st : Strategy) (ns : bytes)
    (rng : Z) (txs : list LazySignedTransaction) : result string unit :=
  if negb task_alive then Err SIGNATURE_TASK_CLOSED
  else
    match preload_transaction_chunks hash_st txs with
    | Some txs' =>
        if verify_transaction_batch sig_st ns rng txs' then Ok () else Err INVALID_SIGNATURE
    | None => Err INVALID_SIGNATURE
    end.

Definition materialize_body (task_alive : bool) (hash_st : Strategy)
    (txs : list LazySignedTransaction) : result string (list SignedTransaction) :=
  if negb task_alive then Err MATERIALIZE_TASK_CLOSED
  else ok_or (materialize_transaction_chunks hash_st txs) MALFORMED_TRANSACTION.

End execution.

(** ** Loading accounts *)

Section lemmas.
Context `{LazyKey} `{ConsensusLib} `{!StateDb} `{!HistoryDb}.

(** An account that was never written has the default balance and nonce. *)
Definition acct (b : sbatch) (k : AccountKey) : Account := default account_default (sb_view b !! k).

(** The accounts of [ks], as the executor sees them. *)
Definition accounts_of (b : sbatch) (ks : gset AccountKey) : State :=
  list_to_map ((λ k, (k, acct b k)) <$> elements ks).

Lemma lookup_keyed {A} (f : AccountKey → A) (ks : list AccountKey) k :
  list_to_map (M := gmap AccountKey A) ((λ k, (k, f k)) <$> ks) !! k
  = if decide (k ∈ ks) then Some (f k) else None.
Proof.
  induction ks as [|k' ks IH]; cbn; [done|].
  destruct (decide (k = k')) as [->|].
  - rewrite lookup_insert_eq, decide_True; [done|left].
  - rewrite lookup_insert_ne, IH by done. repeat case_decide; set_solver.
Qed.

Lemma accounts_of_lookup b ks k : k ∈ ks → accounts_of b ks !! k = Some (acct b k).
Proof. intros Hk. unfold accounts_of. rewrite lookup_keyed, decide_True; [done|set_solver]. Qed.

Lemma get_many_defaults b ks vs :
  sb_get_many b ks = Ok vs → default account_default <$> vs = acct b <$> ks.
Proof. intros ->%sb_get_many_view. by rewrite <- list_fmap_compose. Qed.

Lemma zip_fmap_keyed {A B} (f : A → B) (l : list A) : zip l (f <$> l) = (λ x, (x, f x)) <$> l.
Proof. induction l; cbn; [done|]. by f_equal. Qed.

Lemma load_accounts_Ok b ks st :
  load_accounts b (elements ks) = Ok st → st = accounts_of b ks.
Proof.
  unfold load_accounts, accounts_of. destruct (elements ks) as [|k l] eqn:E; [by intros [= <-]|].
  intros (vs & Hv%get_many_defaults & Heq)%bind_Ok. rewrite Hv, zip_fmap_keyed in Heq. congruence.
Qed.

Lemma load_accounts_healthy b ks :
  sb_healthy b → load_accounts b (elements ks) = Ok (accounts_of b ks).
Proof.
  intros Hb. unfold load_accounts, accounts_of. destruct (elements ks) as [|k l]; [done|].
  destruct (sb_healthy_get b (k :: l) Hb) as [vs Hv]. rewrite Hv. cbn [mbind result_bind].
  by rewrite (get_many_defaults _ _ _ Hv), zip_fmap_keyed.
Qed.

(** The set of keys is as large as the list exactly when no key repeats. *)
Lemma size_list_to_set_NoDup (l : list AccountKey) :
  size (list_to_set (C := gset AccountKey) l) = length l → NoDup l.
Proof.
  assert (∀ l : list AccountKey, size (list_to_set (C := gset AccountKey) l) ≤ length l)%nat as Hle.
  { clear. induction l as [|x l IH]; cbn [list_to_set length]; [rewrite size_empty; lia|].
    rewrite size_union_alt, size_singleton.
    assert (size (list_to_set l ∖ {[x]} : gset AccountKey) ≤ size (list_to_set l : gset AccountKey))%nat
      by (apply subseteq_size; set_solver). lia. }
  induction l as [|x l IH]; cbn [list_to_set length]; intros Hs; [constructor|].
  destruct (decide (x ∈ l)) as [Hx|Hx].
  - exfalso. specialize (Hle l).
    replace ({[x]} ∪ list_to_set l) with (list_to_set (C := gset AccountKey) l) in Hs by set_solver. lia.
  - constructor; [done|]. apply IH. rewrite size_union, size_singleton in Hs by set_solver. lia.
Qed.

Lemma touched_size ts :
  size (touched ts) = length (transfer_keys ts) → NoDup (transfer_keys ts).
Proof. apply size_list_to_set_NoDup. Qed.

(** What execution computes from a batch. *)
Definition batch_execute (b : sbatch) (ts : list PreparedTransfer) : option Changeset :=
  execute (accounts_of b (touched ts)) ts.

Lemma execute_superset b ks ts :
  touched ts ⊆ ks → execute (accounts_of b ks) ts = batch_execute b ts.
Proof.
  intros Hk. apply execute_agree. intros k Hin. rewrite !accounts_of_lookup by set_solver. done.
Qed.

Lemma load_state_Ok b ts st : load_state b ts = Ok st → st = accounts_of b (touched ts).
Proof.
  unfold load_state. destruct ts as [|t ts]; [by intros [= <-]|]. apply load_accounts_Ok.
Qed.

(** Both loaded forms execute to the same result. *)
Lemma execute_loaded_batch b ts st :
  zlen ts * 2 ≤ u64_max → load_execution_state b ts = Ok st →
  execute_loaded st ts = batch_execute b ts.
Proof.
  intros Hlen. unfold load_execution_state. destruct ts as [|t ts]; [by intros [= <-]|].
  set (tss := t :: ts) in *. case_decide as Hsz.
  - apply touched_size in Hsz. intros (vs & Hv%get_many_defaults & [= <-])%bind_Ok. cbn [execute_loaded].
    rewrite Hv. unfold batch_execute. rewrite execute_ledger. apply execute_unique_ledger; [done..|].
    apply Forall2_fmap_r, Forall_Forall2_diag, Forall_forall. intros k Hk.
    apply accounts_of_lookup. by rewrite elem_of_touched.
  - intros (st' & ->%load_accounts_Ok & [= <-])%bind_Ok. done.
Qed.

Lemma load_execution_state_healthy b ts :
  sb_healthy b → ∃ st, load_execution_state b ts = Ok st.
Proof.
  intros Hb. unfold load_execution_state. destruct ts as [|t ts]; [by eexists|]. case_decide.
  - destruct (sb_healthy_get b (transfer_keys (t :: ts)) Hb) as [vs ->]. by eexists.
  - rewrite load_accounts_healthy by done. by eexists.
Qed.

#[global] Instance acct_proper : Proper ((≡) ==> (=) ==> (=)) acct.
Proof. intros b b' Hb k _ <-. unfold acct. by rewrite Hb. Qed.

#[global] Instance batch_execute_proper : Proper ((≡) ==> (=) ==> (=)) batch_execute.
Proof.
  intros b b' Hb ts _ <-. unfold batch_execute. f_equal. unfold accounts_of. f_equal.
  apply list_fmap_ext. intros _ k _. by rewrite Hb.
Qed.

(** ** Finalizing a child *)

Lemma expect_ok_Ret {E A} (r : result E A) why a : expect_ok r why = Ret a ↔ r = Ok a.
Proof. unfold expect_ok, expect. destruct r; cbn; naive_solver. Qed.

Lemma expect_Ret {A} (o : option A) why a : expect o why = Ret a ↔ o = Some a.
Proof. destruct o; cbn; naive_solver. Qed.

Lemma parent_floor_Ret (parent : SealedBlock) f :
  parent_transactions_inactivity_floor parent = Ret f ↔
  f = range_end (transactions_range (header (inner parent))) - zlen (body (inner parent)) - 1 ∧ 0 ≤ f.
Proof.
  unfold parent_transactions_inactivity_floor. rewrite expect_Ret.
  pose proof (zlen_nonneg (body (inner parent))).
  split.
  - destruct (checked_sub _ _) eqn:E; [|done]. cbn. apply checked_sub_Some in E as [-> ?].
    intros [-> ?]%checked_sub_Some. lia.
  - intros [-> ?]. rewrite (proj2 (checked_sub_Some _ _ _)) by (split; [reflexivity|lia]). cbn.
    apply checked_sub_Some. lia.
Qed.

(** Everything a finalized child records. *)
Record finalized_child (sb : sbatch) (tb : tbatch) (parent : SealedBlock) (e : BlockExecution) (floor : Z) : Prop := {
  fc_floor : parent_transactions_inactivity_floor parent = Ret floor;
  fc_state : sb_merkleize sb = Ok (ex_state e);
  fc_transactions : tb_merkleize (with_inactivity_floor tb floor) = Ok (ex_transactions e);
  fc_srange : range_start (ex_state_sync_range e) = (sm_bounds (ex_state e)).1 ∧
              range_end (ex_state_sync_range e) = (sm_bounds (ex_state e)).2;
  fc_trange : range_start (ex_transactions_range e) = floor ∧
              range_end (ex_transactions_range e) = tb_size tb + 1;
  fc_floor_le : 0 ≤ floor ≤ tb_size tb;
  fc_size : tb_size tb + 1 ≤ u64_max
}.

Lemma range_from_bounds_Ret bounds r :
  range_from_bounds bounds = Ret r ↔
  0 ≤ bounds.1 < bounds.2 ∧ bounds.2 ≤ u64_max ∧ range_start r = bounds.1 ∧ range_end r = bounds.2.
Proof.
  unfold range_from_bounds, non_empty_range. rewrite expect_Ret, range_new_Some. unfold is_u64.
  intuition lia.
Qed.

Lemma finalize_child_Ret sb tb parent n msg e :
  finalize_child sb tb parent n msg = Ret e →
  ∃ floor, finalized_child sb tb parent e floor ∧ ex_transaction_count e = n.
Proof.
  unfold finalize_child. intros (floor & Hf & Hk)%bind_Ret.
  apply bind_Ret in Hk as ([s t] & [Hs Ht]%expect_ok_Ret%finalize_execution_Ok & Hk).
  apply bind_Ret in Hk as (sr & Hsr%range_from_bounds_Ret & Hk).
  apply bind_Ret in Hk as (tr & Htr%range_from_bounds_Ret & [= <-]).
  exists floor. split; [|done].
  rewrite (tm_bounds_commit _ _ Ht), tb_floor_floor, tb_size_floor in Htr. cbn in Htr.
  split; cbn; try done; try apply Hsr; lia || naive_solver.
Qed.

(** Equivalent healthy batches finalize to equivalent databases and the same
    ranges. *)
Lemma finalize_child_equiv sb sb' tb tb' parent n n' msg msg' e :
  sb ≡ sb' → tb ≡ tb' → sb_healthy sb' → tb_healthy tb' →
  finalize_child sb tb parent n msg = Ret e →
  ∃ e', finalize_child sb' tb' parent n' msg' = Ret e' ∧
    ex_state e ≡ ex_state e' ∧ ex_transactions e ≡ ex_transactions e' ∧
    ex_state_sync_range e = ex_state_sync_range e' ∧
    ex_transactions_range e = ex_transactions_range e'.
Proof.
  intros Hsb Htb Hsh Hth He. pose proof He as (floor & Hfc & _)%finalize_child_Ret.
  destruct Hfc as [Hf Hs Ht _ _ Hle _]. rewrite Htb in Hle.
  destruct (sb_healthy_merkleize _ Hsh) as [s' Hs'].
  destruct (tb_healthy_merkleize _ (tb_healthy_floor _ _ Hth Hle)) as [t' Ht'].
  pose proof (sb_merkleize_proper _ _ _ _ Hsb Hs Hs') as Hsm.
  assert (with_inactivity_floor tb floor ≡ with_inactivity_floor tb' floor) as Htf by by rewrite Htb.
  pose proof (tb_merkleize_proper _ _ _ _ Htf Ht Ht') as Htm.
  unfold finalize_child in He |- *. rewrite Hf in He |- *. cbn [mbind run_bind] in He |- *.
  rewrite (proj2 (finalize_execution_Ok _ _ _ _) (conj Hs Ht)) in He.
  rewrite (proj2 (finalize_execution_Ok _ _ _ _) (conj Hs' Ht')).
  cbn [expect_ok expect ok mbind run_bind] in He |- *.
  assert (sm_bounds (ex_state e) = sm_bounds s') as Hb1 by by rewrite Hsm.
  assert (tm_bounds (ex_transactions e) = tm_bounds t') as Hb2 by by rewrite Htm.
  rewrite Hb1, Hb2 in He.
  destruct (range_from_bounds (sm_bounds s')) as [sr|]; [|done].
  cbn [mbind run_bind] in He |- *.
  destruct (range_from_bounds (tm_bounds t')) as [tr|]; [|done].
  cbn [mbind run_bind] in He |- *. injection He as <-. by eexists.
Qed.

(** Ranges are determined by their ends. *)
Lemma range_ext r1 r2 : range_start r1 = range_start r2 → range_end r1 = range_end r2 →
  range_new (range_start r1) (range_end r1) = Some r1 → r1 = r2.
Proof.
  intros Hs He Hn. pose proof Hn as (? & ? & ? & _)%range_new_Some.
  assert (range_new (range_start r1) (range_end r1) = Some r2) by by apply range_new_Some.
  congruence.
Qed.

(** ** Executing a body *)

(** The transfers of a body. *)
Definition body_transfers (txs : list LazySignedTransaction) : option (list PreparedTransfer) :=
  mapM (λ l, t ← lst_get l; prepare_transfer t) txs.

Lemma body_transfers_length txs ts : body_transfers txs = Some ts → length ts = length txs.
Proof. unfold body_transfers. intros Hm%mapM_Some. symmetry. by apply Forall2_length in Hm. Qed.

(** The batches after executing [ts]. *)
Definition executed (sb : sbatch) (tb : tbatch) (cs : Changeset) (ts : list PreparedTransfer)
    : sbatch * tbatch :=
  (apply_changeset sb cs, apply_transaction_digests tb (transfer_digests ts)).

Lemma execute_body_Ok sb tb parent txs e :
  zlen txs * 2 ≤ u64_max →
  execute_body sb tb parent txs = Ret (Ok e) →
  ∃ ts cs, body_transfers txs = Some ts ∧ batch_execute sb ts = Some cs ∧
    finalize_child (executed sb tb cs ts).1 (executed sb tb cs ts).2 parent (zlen ts)
      "database merkleization during verification must succeed" = Ret e.
Proof.
  intros Hlen. unfold execute_body. fold (body_transfers txs).
  destruct (body_transfers txs) as [ts|] eqn:Et; [|done].
  intros (st & Hst%expect_ok_Ret & Hk)%bind_Ret.
  apply body_transfers_length in Et as Hl.
  rewrite (execute_loaded_batch sb ts st) in Hk by (unfold zlen in *; rewrite ?Hl; done).
  destruct (batch_execute sb ts) as [cs|] eqn:Ec; [|done].
  apply bind_Ret in Hk as (e' & He & [= <-]). by exists ts, cs.
Qed.

Lemma execute_body_healthy sb tb parent txs ts cs :
  zlen txs * 2 ≤ u64_max → sb_healthy sb →
  body_transfers txs = Some ts → batch_execute sb ts = Some cs →
  execute_body sb tb parent txs =
    e ← finalize_child (executed sb tb cs ts).1 (executed sb tb cs ts).2 parent (zlen ts)
          "database merkleization during verification must succeed";
    Ret (Ok e).
Proof.
  intros Hlen Hh Ht Hc. unfold execute_body. fold (body_transfers txs). rewrite Ht.
  destruct (load_execution_state_healthy sb ts Hh) as [st Hst].
  apply body_transfers_length in Ht as Hl.
  rewrite (proj2 (expect_ok_Ret _ _ _) Hst). cbn [mbind run_bind].
  rewrite (execute_loaded_batch sb ts st) by (unfold zlen in *; rewrite ?Hl; done).
  by rewrite Hc.
Qed.

Lemma verify_signatures_Ok `{Json} alive (sig_st hash_st : Strategy) ns rng txs :
  verify_signatures alive sig_st hash_st ns rng txs = Ok () ↔
  alive = true ∧ forallb (lst_signature_ok ns) txs = true.
Proof.
  unfold verify_signatures. destruct alive; cbn; [|naive_solver]. rewrite preload_spec.
  destruct (forallb (lst_signature_ok ns) txs) eqn:E.
  - rewrite (forallb_impl _ _ _ (lst_signature_ok_decodes ns) E). by rewrite verify_batch_ok, E.
  - destruct (forallb signature_inputs_decode txs); [rewrite verify_batch_ok, E|]; naive_solver.
Qed.

Lemma commitments_match_true h e :
  commitments_match h e = true ↔
  sm_root (ex_state e) = state_root h ∧ ex_state_sync_range e = state_range h ∧
  tm_root (ex_transactions e) = transactions_root h ∧ ex_transactions_range e = transactions_range h.
Proof.
  unfold commitments_match. repeat case_decide; rewrite ?bool_decide_eq_true; naive_solver.
Qed.

End lemmas.
