(* ===== verification/Application.v ===== *)
(** * The application (crates/application/src/consensus/{mod,genesis,lifecycle,glue}.rs)

    Genesis, proposing a child block, verifying one, applying a certified one
    and the pruning schedule of finalized blocks.  The theorems connect the
    three entry points: what is proposed is accepted, what is accepted is
    sound, and what was accepted applies without panicking to the same
    databases. *)

From stdpp Require Import prelude gmap list strings.
From S2P Require Import Prelude Interfaces Concrete Account Auth Transaction Executor Database Block Execution.

(** ** Definitions *)

Section application.
Context `{LazyKey} `{Json} `{ConsensusLib} `{!StateDb} `{!HistoryDb}.

(** [StateSyncTarget] and [TransactionHistoryTarget]. *)
Record StateSyncTarget := mkStateTarget { target_root : digest; target_start : Z; target_end : Z }.
Record TransactionHistoryTarget := mkHistoryTarget { history_root : digest; leaf_count : Z }.

Definition header_range_to_target (root : digest) (range : NonEmptyRange) : TransactionHistoryTarget :=
  mkHistoryTarget root (range_end range).

(** [struct Application]: its configuration, the prune watermark, whether it has
    a hook for finalized blocks and the counter of proposed transactions. *)
Record Application := mkApplication {
  signature_strategy : Strategy;
  hash_strategy : Strategy;
  genesis_leader : peer;
  genesis_parent : commitment;
  transaction_namespace : bytes;
  genesis_state_target : StateSyncTarget;
  genesis_transactions_target : TransactionHistoryTarget;
  prune_cadence_blocks : Z;
  previous_prune_cadence_state_end : Z;
  finalized_hook : bool;
  proposed_transactions : Z
}.

Definition application_new (sig_st hash_st : Strategy) (leader : peer) (parent : commitment)
    (ns : bytes) (st : StateSyncTarget) (tt : TransactionHistoryTarget) (cadence : Z) (hook : bool) : Application :=
  mkApplication sig_st hash_st leader parent ns st tt cadence (target_end st) hook 0.

Definition should_prune_after_finalize (app : Application) (h : Z) : bool :=
  negb (h =? 0) && (h mod prune_cadence_blocks app =? 0).

(** [genesis_block_with_parent] and [genesis_block]. *)
Definition genesis_block_with_parent (leader : peer) (parent : view * commitment) (ts : Z)
    (st : StateSyncTarget) (tt : TransactionHistoryTarget) : run SealedBlock :=
  srange ← non_empty_range (target_start st) (target_end st);
  trange ← non_empty_range 0 (leaf_count tt);
  let h := mkHeader (mkContext round_zero leader parent) EMPTY 0 ts
             (target_root st) srange (history_root tt) trange in
  Ret (seal_block (block_new h [])).

Definition genesis_block (leader : peer) (ts : Z) (st : StateSyncTarget)
    (tt : TransactionHistoryTarget) : run SealedBlock :=
  genesis_block_with_parent leader (view_zero, commitment_EMPTY) ts st tt.

(** The trait methods [genesis] and [sync_targets]. *)
Definition genesis (app : Application) : run SealedBlock :=
  genesis_block_with_parent (genesis_leader app) (view_zero, genesis_parent app) 0
    (genesis_state_target app) (genesis_transactions_target app).

Definition sync_targets (blk : SealedBlock) : StateSyncTarget * TransactionHistoryTarget :=
  let h := header (inner blk) in
  (mkStateTarget (state_root h) (range_start (state_range h)) (range_end (state_range h)),
   header_range_to_target (transactions_root h) (transactions_range h)).

(** [propose_child]: [txs] is what the transaction source returned, [now]
    the reading of the clock. *)
Definition propose_child (app : Application) (now : Z) (ctx : Context) (parent : SealedBlock)
    (batches : sbatch * tbatch) (txs : list SignedTransaction)
    : run (Application * (SealedBlock * (smerkle * tmerkle))) :=
  let input := prepare_proposal txs in
  let candidate_transfers := p_transfer <$> candidates input in
  execution ← execute_proposal batches.1 batches.2 parent input candidate_transfers;
  let app' := mkApplication (signature_strategy app) (hash_strategy app) (genesis_leader app)
    (genesis_parent app) (transaction_namespace app) (genesis_state_target app)
    (genesis_transactions_target app) (prune_cadence_blocks app)
    (previous_prune_cadence_state_end app) (finalized_hook app)
    (wrap64 (proposed_transactions app + ex_transaction_count (pe_block execution))) in
  ts ← timestamp_ms now;
  let h := mkHeader ctx (seal parent) (wrap64 (height (header (inner parent)) + 1)) ts
             (sm_root (ex_state (pe_block execution)))
             (ex_state_sync_range (pe_block execution))
             (tm_root (ex_transactions (pe_block execution)))
             (ex_transactions_range (pe_block execution)) in
  Ret (app', (seal_block (block_new h (pe_body execution)), into_merkleized (pe_block execution))).

(** [verify_child].  The signature task, the execution and the wait for the
    timestamp are joined and the first failure wins: [signatures_first] tells
    whether a failed signature check is seen before a storage failure of the
    execution. *)
Definition verify_child (app : Application) (clock_max : Z) (task_alive signatures_first : bool)
    (rng : Z) (blk parent : SealedBlock) (batches : sbatch * tbatch)
    : run (option (smerkle * tmerkle)) :=
  let h := header (inner blk) in
  let txs := body (inner blk) in
  if negb (is_valid_child_timestamp (timestamp (header (inner parent))) (timestamp h)) then Ret None
  else
    deadline ← block_deadline clock_max (timestamp h);
    let signatures := verify_signatures task_alive (signature_strategy app) (hash_strategy app)
                        (transaction_namespace app) rng txs in
    match signatures, execute_body batches.1 batches.2 parent txs with
    | Ok _, Ret (Ok execution) =>
        if commitments_match h execution then Ret (Some (into_merkleized execution)) else Ret None
    | Ok _, Ret (Err _) => Ret None
    | Ok _, Panic why => Panic why
    | Err _, Ret _ => Ret None
    | Err _, Panic why => if signatures_first then Ret None else Panic why
    end.

(** [apply_certified]. *)
Definition apply_certified (app : Application) (task_alive : bool) (blk : SealedBlock)
    (batches : sbatch * tbatch) : run (smerkle * tmerkle) :=
  match materialize_body task_alive (hash_strategy app) (body (inner blk)) with
  | Err reason => Panic ("certified block contained " +:+ reason)
  | Ok materialized =>
      match mapM prepare_transfer materialized with
      | None => Panic ("certified block contained " +:+ MALFORMED_TRANSACTION)
      | Some ts =>
          r ← apply_prepared_body batches.1 batches.2
                (range_start (transactions_range (header (inner blk)))) ts;
          match r with
          | Ok m => Ret m
          | Err reason => Panic ("certified block contained " +:+ reason)
          end
      end
  end.

(** The trait methods [propose] and [verify] take the parent (and the block)
    from the ancestry stream. *)
Definition propose_from (app : Application) (now : Z) (ctx : Context) (ancestry : list SealedBlock)
    (batches : sbatch * tbatch) (txs : list SignedTransaction)
    : run (option (Application * (SealedBlock * (smerkle * tmerkle)))) :=
  match ancestry with
  | [] => Ret None
  | parent :: _ => r ← propose_child app now ctx parent batches txs; Ret (Some r)
  end.
Definition verify_from (app : Application) (clock_max : Z) (task_alive signatures_first : bool)
    (rng : Z) (ancestry : list SealedBlock) (batches : sbatch * tbatch)
    : run (option (smerkle * tmerkle)) :=
  match ancestry with
  | blk :: parent :: _ => verify_child app clock_max task_alive signatures_first rng blk parent batches
  | _ => Ret None
  end.

(** Effects of [finalized] outside the application: the call of the hook, the
    height handed to the pruner and the location the account database is pruned
    to. *)
Inductive FinalizedEffect : Type :=
| CallHook (blk : SealedBlock)
| PruneBlocks (height : Z)
| PruneState (location : Z).

(** [finalized]: [sync_boundary] is that of the account database, and
    [prune_state] its answer to a prune request. *)
Definition finalized (app : Application) (blk : SealedBlock) (sync_boundary : Z)
    (prune_state : Z → bool) : run (Application * list FinalizedEffect) :=
  let h := height (header (inner blk)) in
  let hook := if finalized_hook app then [CallHook blk] else [] in
  if negb (should_prune_after_finalize app h) then Ret (app, hook)
  else
    let prune_height := saturating_sub h (prune_cadence_blocks app) in
    let state_prune_target := previous_prune_cadence_state_end app in
    let app' := mkApplication (signature_strategy app) (hash_strategy app) (genesis_leader app)
      (genesis_parent app) (transaction_namespace app) (genesis_state_target app)
      (genesis_transactions_target app) (prune_cadence_blocks app)
      (range_end (state_range (header (inner blk)))) (finalized_hook app) (proposed_transactions app) in
    let prune_to := Z.min state_prune_target sync_boundary in
    if prune_state prune_to then Ret (app', hook ++ [PruneBlocks prune_height; PruneState prune_to])
    else Panic "state db prune must not fail at the sync boundary".

End application.

(** ** Lemmas *)

Section lemmas.
Context `{LazyKey} `{Json} `{ConsensusLib} `{!StateDb} `{!HistoryDb}.

(** Two merkleized pairs with the same contents. *)
Definition same_databases (m m' : smerkle * tmerkle) : Prop := m.1 ≡ m'.1 ∧ m.2 ≡ m'.2.

Lemma accounts_of_dom b ks : dom (accounts_of b ks) = ks.
Proof.
  apply set_eq. intros k. rewrite elem_of_dom. unfold accounts_of. rewrite lookup_keyed.
  case_decide as Hk; rewrite elem_of_elements in Hk; [naive_solver|].
  split; [by intros [? ?]|done].
Qed.

(** A list that executes names only loaded accounts. *)
Lemma execute_touched st ts cs : execute st ts = Some cs → touched ts ⊆ dom st.
Proof.
  rewrite execute_ledger. destruct (ledger_run st ts) as [st'|] eqn:E; [|done]. intros _ k Hk.
  rewrite <- (ledger_run_dom _ _ _ E). by apply elem_of_dom, (ledger_run_touched _ _ _ E).
Qed.

Lemma body_transfers_new txs : body_transfers (lst_new <$> txs) = mapM prepare_transfer txs.
Proof. unfold body_transfers. induction txs as [|t txs IH]; cbn; [done|]. destruct (prepare_transfer t); cbn; [|done]. by rewrite IH. Qed.

Lemma mapM_two {A B C} (f : A → option B) (g : B → option C) l :
  mapM (λ a, b ← f a; g b) l = bs ← mapM f l; mapM g bs.
Proof.
  induction l as [|a l IH]; cbn; [done|]. destruct (f a) as [b|]; cbn; [|done].
  destruct (mapM f l) as [bs|]; cbn in *; [by rewrite IH|].
  rewrite IH. by destruct (g b).
Qed.

(** What a proposal is made of. *)
Lemma propose_child_Ret app now ctx parent sb tb txs app' blk m :
  propose_child app now ctx parent (sb, tb) txs = Ret (app', (blk, m)) →
  ∃ ts cs v e, mapM prepare_transfer v = Some ts ∧ v `sublist_of` txs ∧
    batch_execute sb ts = Some cs ∧
    finalize_child (executed sb tb cs ts).1 (executed sb tb cs ts).2 parent (zlen v)
      "database merkleization must succeed" = Ret e ∧
    m = into_merkleized e ∧ 0 ≤ now ≤ u64_max ∧
    blk = seal_block (block_new
      (mkHeader ctx (seal parent) (wrap64 (height (header (inner parent)) + 1)) now
         (sm_root (ex_state e)) (ex_state_sync_range e)
         (tm_root (ex_transactions e)) (ex_transactions_range e)) v).
Proof.
  unfold propose_child, execute_proposal. cbn [fst snd].
  set (cand := p_transfer <$> candidates (prepare_proposal txs)).
  intros (pe & (st & Hst%expect_ok_Ret%load_state_Ok & Hk)%bind_Ret & Hr)%bind_Ret.
  fold (propose st txs) in Hk.
  destruct (propose_spec st txs) as (_ & Hsub & Hprep & Hexec & _).
  set (out := propose st txs) in *.
  apply bind_Ret in Hk as (ex & He & Hpe). injection Hpe as <-. cbn in Hr.
  apply bind_Ret in Hr as (ts & Hts & [= _ <- <-]).
  exists (transfers out), (changeset out), (valid out), ex.
  assert (ts = now ∧ 0 ≤ now ≤ u64_max) as [-> ?].
  { unfold timestamp_ms in Hts. repeat case_in Hts. zbool. naive_solver lia. }
  split_and!; try done; [|lia..].
  rewrite Hst in Hexec. apply execute_touched in Hexec as Htt. rewrite accounts_of_dom in Htt.
  by rewrite <- Hexec, (execute_superset sb (touched cand)).
Qed.

Lemma proposed_body_wf app now ctx parent sb tb txs app' blk m :
  propose_child app now ctx parent (sb, tb) txs = Ret (app', (blk, m)) → Forall signed_wf txs →
  Forall lst_wf (body (inner blk)).
Proof.
  intros Hp Hwf. apply propose_child_Ret in Hp as (ts & cs & v & e & _ & Hsub & _ & _ & _ & _ & ->).
  apply block_new_wf. rewrite Forall_forall in *. intros t Ht. apply Hwf. by eapply elem_of_sublist.
Qed.

(** What an accepted block satisfies. *)
Lemma verify_child_Some app clock_max alive sf rng blk parent sb tb m :
  zlen (body (inner blk)) * 2 ≤ u64_max →
  verify_child app clock_max alive sf rng blk parent (sb, tb) = Ret (Some m) →
  let h := header (inner blk) in
  is_valid_child_timestamp (timestamp (header (inner parent))) (timestamp h) = true ∧
  forallb (lst_signature_ok (transaction_namespace app)) (body (inner blk)) = true ∧
  ∃ ts cs e, body_transfers (body (inner blk)) = Some ts ∧ batch_execute sb ts = Some cs ∧
    finalize_child (executed sb tb cs ts).1 (executed sb tb cs ts).2 parent (zlen ts)
      "database merkleization during verification must succeed" = Ret e ∧
    commitments_match h e = true ∧ m = into_merkleized e.
Proof.
  intros Hlen. unfold verify_child. cbn [fst snd].
  destruct (is_valid_child_timestamp _ _) eqn:Ets; cbn [negb]; [|done].
  intros (d & _ & Hk)%bind_Ret.
  destruct (verify_signatures _ _ _ _ _ _) as [[]|reason] eqn:Es;
    destruct (execute_body _ _ _ _) as [[ex|]|] eqn:Ee; try done; try (by destruct sf).
  apply verify_signatures_Ok in Es as [_ Es]. destruct (commitments_match _ _) eqn:Ec; [|done].
  apply execute_body_Ok in Ee as (ts & cs & Ht & Hc & Hf); [|done].
  simplify_eq. split_and!; [done..|]. by exists ts, cs, ex.
Qed.

Lemma executed_equiv sb sb' tb tb' cs ts :
  sb ≡ sb' → tb ≡ tb' →
  (executed sb tb cs ts).1 ≡ (executed sb' tb' cs ts).1 ∧
  (executed sb tb cs ts).2 ≡ (executed sb' tb' cs ts).2.
Proof. intros Hs Ht. cbn. by rewrite Hs, Ht. Qed.

Lemma is_valid_child_timestamp_true p c :
  is_valid_child_timestamp p c = true ↔ p < c ≤ MAX_BLOCK_TIMESTAMP_MS.
Proof. unfold is_valid_child_timestamp. rewrite andb_true_iff, Z.ltb_lt, Z.leb_le. done. Qed.

(** The account changes of an executed list, seen through the batch. *)
Lemma acct_after sb ts cs :
  batch_execute sb ts = Some cs →
  ∃ st', ledger_run (accounts_of sb (touched ts)) ts = Some st' ∧
    ∀ k, acct (apply_changeset sb cs) k = default (acct sb k) (st' !! k).
Proof.
  unfold batch_execute. rewrite execute_ledger.
  destruct (ledger_run _ ts) as [st'|] eqn:Er; [|done]. intros [= <-]. exists st'. split; [done|].
  intros k. unfold acct at 1. rewrite apply_changeset_view.
  2: { unfold ledger_changes. rewrite sort_by_key_perm. apply NoDup_fst_map_to_list. }
  unfold ledger_changes. rewrite list_to_map_sorted, lookup_union. unfold restrict.
  rewrite map_lookup_filter. pose proof (ledger_run_dom _ _ _ Er) as Hd. rewrite accounts_of_dom in Hd.
  destruct (st' !! k) as [a|] eqn:Ea; cbn.
  - case_guard as Hg; [cbn; by destruct (sb_view sb !! k)|].
    exfalso. apply Hg. cbn. rewrite <- Hd. by eapply elem_of_dom_2.
  - unfold acct. by destruct (sb_view sb !! k).
Qed.

End lemmas.

Section chain.
Context `{LazyKey} `{Json} `{ConsensusLib} `{!StateDb} `{!HistoryDb}.

(** A finalized block with the sync boundary of the account database at that
    moment. *)
Fixpoint finalized_all (prune_state : Z → bool) (app : Application) (blks : list (SealedBlock * Z))
    : run (Application * list FinalizedEffect) :=
  match blks with
  | [] => Ret (app, [])
  | (blk, boundary) :: blks' =>
      '(app1, es) ← finalized app blk boundary prune_state;
      '(app2, es') ← finalized_all prune_state app1 blks';
      Ret (app2, es ++ es')
  end.

(** The effects prescribed at height [h]: hand the block to the hook; at a
    cadence point, drop the blocks below the previous cadence point, and the
    account operations up to its range end, never past the sync boundary. *)
Definition prune_policy (hook : bool) (cadence : Z) (end_at : Z → Z) (h : Z) (p : SealedBlock * Z) : list FinalizedEffect :=
  (if hook then [CallHook p.1] else []) ++
  (if decide (h mod cadence = 0)
   then [PruneBlocks (h - cadence); PruneState (Z.min (end_at (h - cadence)) p.2)]
   else []).

Lemma cadence_step c h :
  0 < c → 0 ≤ h → c * ((h + 1) / c) = if decide ((h + 1) mod c = 0) then h + 1 else c * (h / c).
Proof.
  intros Hc Hh. case_decide as Hm.
  - pose proof (Z.div_mod (h + 1) c). lia.
  - assert ((h + 1) / c = h / c) as ->; [|done].
    pose proof (Z.div_mod (h + 1) c ltac:(lia)). pose proof (Z.mod_pos_bound (h + 1) c Hc).
    apply (Z.div_unique_pos _ _ _ ((h + 1) mod c - 1)); lia.
Qed.

(** One finalized block moves the watermark to the last cadence point. *)
Lemma finalized_step app blk boundary prune_state end_at h :
  (∀ x, x ≤ boundary → prune_state x = true) →
  0 < prune_cadence_blocks app → 0 ≤ h →
  height (header (inner blk)) = h + 1 →
  range_end (state_range (header (inner blk))) = end_at (h + 1) →
  previous_prune_cadence_state_end app
    = end_at (prune_cadence_blocks app * (h / prune_cadence_blocks app)) →
  ∃ app', finalized app blk boundary prune_state
          = Ret (app', prune_policy (finalized_hook app) (prune_cadence_blocks app) end_at (h + 1) (blk, boundary)) ∧
    prune_cadence_blocks app' = prune_cadence_blocks app ∧ finalized_hook app' = finalized_hook app ∧
    previous_prune_cadence_state_end app'
      = end_at (prune_cadence_blocks app * ((h + 1) / prune_cadence_blocks app)).
Proof.
  intros Hok Hc Hh Hht Hend Hw. unfold finalized, prune_policy, should_prune_after_finalize.
  rewrite Hht, (proj2 (Z.eqb_neq (h + 1) 0)) by lia. cbn [negb andb].
  rewrite cadence_step by done. set (c := prune_cadence_blocks app) in *.
  destruct (Z.eqb_spec ((h + 1) mod c) 0) as [Hm|Hm]; cbn [negb].
  - rewrite !decide_True by done. rewrite Hok by lia.
    assert (c * (h / c) = h + 1 - c) as Hprev.
    { pose proof (Z.div_mod (h + 1) c ltac:(lia)) as Hd. rewrite Hm in Hd.
      assert (h / c = (h + 1) / c - 1) as ->; [|lia].
      symmetry. apply (Z.div_unique_pos _ _ _ (c - 1)); lia. }
    assert (0 ≤ h + 1 - c).
    { rewrite <- Hprev. apply Z.mul_nonneg_nonneg; [lia|]. apply Z.div_pos; lia. }
    rewrite Hw, Hprev. unfold saturating_sub. rewrite Z.max_l by lia.
    eexists; split; [reflexivity|]. by split.
  - rewrite !decide_False by done. rewrite app_nil_r. by exists app.
Qed.

Lemma finalized_all_policy hook cadence prune_state end_at blks n app :
  0 < cadence → prune_cadence_blocks app = cadence → finalized_hook app = hook →
  previous_prune_cadence_state_end app = end_at (cadence * (Z.of_nat n / cadence)) →
  (∀ i blk boundary, blks !! i = Some (blk, boundary) →
     height (header (inner blk)) = Z.of_nat (n + i) + 1 ∧
     range_end (state_range (header (inner blk))) = end_at (Z.of_nat (n + i) + 1) ∧
     ∀ x, x ≤ boundary → prune_state x = true) →
  ∃ app', finalized_all prune_state app blks
    = Ret (app', concat (imap (λ i, prune_policy hook cadence end_at (Z.of_nat (n + i) + 1)) blks)).
Proof.
  intros Hc. revert n app.
  induction blks as [|[blk boundary] blks IH]; intros n app Hcad Hhook Hw Hb; cbn [finalized_all].
  { by exists app. }
  destruct (Hb 0%nat blk boundary) as (Hh & He & Hp); [done|]. rewrite Nat.add_0_r in Hh, He.
  destruct (finalized_step app blk boundary prune_state end_at (Z.of_nat n)) as (app1 & -> & Hc1 & Hh1 & Hw1);
    [done|lia|lia|done|done|by rewrite Hcad|]. cbn [mbind run_bind].
  destruct (IH (S n) app1) as (app2 & ->).
  - congruence.
  - congruence.
  - rewrite Hw1, Hcad. do 2 f_equal. f_equal. lia.
  - intros i b bd Hi. specialize (Hb (S i) b bd Hi). by rewrite Nat.add_succ_r in Hb.
  - cbn [mbind run_bind]. exists app2. rewrite imap_cons. cbn [concat]. rewrite Hcad, Hhook.
    do 3 f_equal; [f_equal; lia|]. f_equal. apply imap_ext. intros. cbn. f_equal. lia.
Qed.

End chain.

(** ** Properties *)

Section properties.
Context `{LazyKey} `{Json} `{ConsensusLib} `{!StateDb} `{!HistoryDb}.

Lemma proposal_verifies app vapp clock_max sf rng now ctx parent sb tb sb' tb' txs app' blk m :
  propose_child app now ctx parent (sb, tb) txs = Ret (app', (blk, m)) →
  sb ≡ sb' → tb ≡ tb' → sb_healthy sb' → tb_healthy tb' →
  Forall (λ t, lst_signature_ok (transaction_namespace vapp) (lst_new t) = true) txs →
  zlen txs * 2 ≤ u64_max →
  timestamp (header (inner parent)) < now ≤ MAX_BLOCK_TIMESTAMP_MS →
  MAX_BLOCK_TIMESTAMP_MS ≤ clock_max →
  ∃ m', verify_child vapp clock_max true sf rng blk parent (sb', tb') = Ret (Some m') ∧
    same_databases m m'.
Proof.
  intros Hp Hsb Htb Hsh Hth Hsig Hlen Hnow Hmax.
  apply propose_child_Ret in Hp as (ts & cs & v & e & Hprep & Hsub & Hexec & Hfin & -> & _ & ->).
  set (h := mkHeader _ _ _ _ _ _ _ _).
  assert (zlen v * 2 ≤ u64_max).
  { apply sublist_length in Hsub. unfold zlen in *. lia. }
  destruct (executed_equiv sb sb' tb tb' cs ts Hsb Htb) as [He1 He2].
  eapply (finalize_child_equiv _ _ _ _ _ _ (zlen ts)) in Hfin as (e' & Hfin' & Hs & Ht & Hsr & Htr);
    [|exact He1|exact He2|by apply apply_changeset_healthy|by apply apply_digests_healthy].
  exists (into_merkleized e'). split; [|by split].
  unfold verify_child. cbn [inner seal_block header body block_new fst snd].
  rewrite (proj2 (is_valid_child_timestamp_true _ _)) by (cbn; lia). cbn [negb].
  unfold block_deadline. rewrite (proj2 (Z.leb_le _ _)) by (cbn; lia). cbn [mbind run_bind].
  rewrite (proj2 (verify_signatures_Ok _ _ _ _ _ _)).
  2: { split; [done|]. apply forallb_forall. intros l Hl.
       apply list_elem_of_In, list_elem_of_fmap in Hl as (t & -> & Hin).
       rewrite Forall_forall in Hsig. apply Hsig. by eapply elem_of_sublist. }
  rewrite (execute_body_healthy sb' tb' parent _ ts cs);
    [|unfold zlen in *; by rewrite length_map|done|by rewrite <- Hprep, <- body_transfers_new|by rewrite <- Hsb].
  rewrite Hfin'. cbn [mbind run_bind].
  rewrite (proj2 (commitments_match_true _ _)); [done|]. cbn. by rewrite Hs, Ht.
Qed.

(** What a validator proposes, every validator accepts: a block built by
    [propose_child] from signed transactions, on a clock past the parent's
    timestamp and before the 2200 cutoff, passes [verify_child] on any node
    with equivalent healthy databases, whatever its strategies, randomness
    and task scheduling, and yields equivalent databases. *)
Theorem proposed_block_verifies app vapp clock_max sf rng now ctx parent sb tb sb' tb' txs app' blk m :
  propose_child app now ctx parent (sb, tb) txs = Ret (app', (blk, m)) →
  sb ≡ sb' → tb ≡ tb' → sb_healthy sb' → tb_healthy tb' →
  Forall (λ t, lst_signature_ok (transaction_namespace vapp) (lst_new t) = true) txs →
  zlen txs * 2 ≤ u64_max →
  timestamp (header (inner parent)) < now ≤ MAX_BLOCK_TIMESTAMP_MS →
  MAX_BLOCK_TIMESTAMP_MS ≤ clock_max →
  ∃ m', verify_child vapp clock_max true sf rng blk parent (sb', tb') = Ret (Some m') ∧
    same_databases m m'.
Proof. apply proposal_verifies. Qed.

(** C5. Acceptance is sound: when [verify_child] accepts a block, its
    timestamp is after its parent's and not past the cutoff, every body item
    decodes and is signed by its sender in the chain's namespace, the ledger
    accepts the transfers in order from the accounts of the parent state, and
    the header commits to the roots and ranges of exactly the resulting
    databases. *)
Theorem verified_block_sound app clock_max alive sf rng blk parent sb tb m :
  zlen (body (inner blk)) * 2 ≤ u64_max →
  verify_child app clock_max alive sf rng blk parent (sb, tb) = Ret (Some m) →
  let h := header (inner blk) in
  timestamp (header (inner parent)) < timestamp h ≤ MAX_BLOCK_TIMESTAMP_MS ∧
  Forall (λ l, lst_signature_ok (transaction_namespace app) l = true) (body (inner blk)) ∧
  ∃ ts cs st' floor,
    body_transfers (body (inner blk)) = Some ts ∧
    ledger_run (accounts_of sb (touched ts)) ts = Some st' ∧
    (∀ k, acct (apply_changeset sb cs) k = default (acct sb k) (st' !! k)) ∧
    sb_merkleize (apply_changeset sb cs) = Ok m.1 ∧
    tb_merkleize (with_inactivity_floor (apply_transaction_digests tb (transfer_digests ts)) floor) = Ok m.2 ∧
    sm_root m.1 = state_root h ∧ tm_root m.2 = transactions_root h ∧
    range_start (state_range h) = (sm_bounds m.1).1 ∧ range_end (state_range h) = (sm_bounds m.1).2 ∧
    range_start (transactions_range h) = floor ∧
    range_end (transactions_range h) = tb_size tb + zlen ts + 1.
Proof.
  intros Hlen Hv. apply verify_child_Some in Hv as (Hts & Hsig & ts & cs & e & Ht & Hc & Hf & Hm & ->); [|done].
  split; [by apply is_valid_child_timestamp_true|].
  split. { apply Forall_forall. intros l Hl. rewrite forallb_forall in Hsig. by apply Hsig, list_elem_of_In. }
  apply acct_after in Hc as Ha. destruct Ha as (st' & Hst & Hacct).
  apply finalize_child_Ret in Hf as (floor & [_ Hs Htx [Hs1 Hs2] [Ht1 Ht2] _ _] & _).
  apply commitments_match_true in Hm as (Hr1 & Hr2 & Hr3 & Hr4).
  rewrite Hr2 in Hs1, Hs2. rewrite Hr4 in Ht1, Ht2.
  exists ts, cs, st', floor. split_and!; try done. rewrite Ht2. cbn.
  rewrite (proj1 (apply_digests_size _ _)). unfold transfer_digests, zlen. by rewrite length_fmap.
Qed.

(** Certified blocks apply: a block that [verify_child] accepted on some
    node is applied by [apply_certified] on every node with equivalent
    healthy databases without panicking, and gives equivalent databases,
    although it takes the inactivity floor from the header instead of the
    parent and skips the signature checks. *)
Theorem verified_block_applies app vapp clock_max alive sf rng blk parent sb tb sb' tb' m :
  zlen (body (inner blk)) * 2 ≤ u64_max →
  verify_child vapp clock_max alive sf rng blk parent (sb, tb) = Ret (Some m) →
  sb ≡ sb' → tb ≡ tb' → sb_healthy sb' → tb_healthy tb' →
  ∃ m', apply_certified app true blk (sb', tb') = Ret m' ∧ same_databases m m'.
Proof.
  intros Hlen Hv Hsb Htb Hsh Hth.
  apply verify_child_Some in Hv as (_ & _ & ts & cs & e & Ht & Hc & Hf & Hm & ->); [|done].
  apply finalize_child_Ret in Hf as (floor & [_ Hs Htx _ [Ht1 _] Hle _] & _).
  apply commitments_match_true in Hm as (_ & _ & _ & Hr4). rewrite Hr4 in Ht1.
  destruct (executed_equiv sb sb' tb tb' cs ts Hsb Htb) as [He1 He2]. rewrite He2 in Hle.
  destruct (sb_healthy_merkleize _ (apply_changeset_healthy _ cs Hsh)) as [s' Hs'].
  destruct (tb_healthy_merkleize _ (tb_healthy_floor _ floor
    (apply_digests_healthy _ (transfer_digests ts) Hth) Hle)) as [t' Ht'].
  exists (s', t'). split.
  2: { split; cbn; [by eapply sb_merkleize_proper|].
       eapply tb_merkleize_proper; [|exact Htx|exact Ht']. by rewrite He2. }
  apply body_transfers_length in Ht as Hl. unfold body_transfers in Ht. rewrite mapM_two in Ht.
  unfold apply_certified, materialize_body. cbn [negb]. rewrite materialize_spec.
  destruct (mapM lst_get _) as [mats|]; [|done]. cbn in Ht. cbn [ok_or]. rewrite Ht.
  unfold apply_prepared_body. destruct (load_execution_state_healthy sb' ts Hsh) as [st Hst].
  cbn [fst snd]. rewrite (proj2 (expect_ok_Ret _ _ _) Hst). cbn [mbind run_bind].
  rewrite (execute_loaded_batch sb' ts st) by (unfold zlen in *; rewrite ?Hl; done).
  rewrite <- Hsb, Hc, Ht1. cbn [mbind run_bind].
  by rewrite (proj2 (finalize_execution_Ok _ _ _ _) (conj Hs' Ht')).
Qed.

(** History ranges along the chain: an accepted child of a parent whose
    history ends where the batch starts extends the range by its body and one
    commit, starts it at the first operation of the parent's body, and can
    itself be built upon: its inactivity floor is defined and is the end of
    the parent's range. *)
Theorem history_ranges_chain app clock_max alive sf rng blk parent sb tb m :
  zlen (body (inner blk)) * 2 ≤ u64_max →
  verify_child app clock_max alive sf rng blk parent (sb, tb) = Ret (Some m) →
  let p := transactions_range (header (inner parent)) in
  let c := transactions_range (header (inner blk)) in
  tb_size tb = range_end p →
  range_end c = range_end p + zlen (body (inner blk)) + 1 ∧
  range_start c = range_end p - zlen (body (inner parent)) - 1 ∧
  0 ≤ range_start c < range_end c ∧ range_end c ≤ u64_max ∧
  parent_transactions_inactivity_floor blk = Ret (range_end p).
Proof.
  intros Hlen Hv p c Hsz. apply verify_child_Some in Hv as (_ & _ & ts & cs & e & Ht & _ & Hf & Hm & ->); [|done].
  apply finalize_child_Ret in Hf as (floor & [Hfl _ _ _ [Ht1 Ht2] Hle Hmax] & _).
  apply commitments_match_true in Hm as (_ & _ & _ & Hr4). rewrite Hr4 in Ht1, Ht2.
  apply body_transfers_length in Ht as Hl. cbn in Ht2, Hle, Hmax.
  destruct (apply_digests_size tb (transfer_digests ts)) as [Hs _]. rewrite Hs in *.
  apply parent_floor_Ret in Hfl as [Hfl ?]. fold p in Hfl. fold c in Ht1, Ht2.
  assert (zlen (transfer_digests ts) = zlen (body (inner blk))) as Hz
    by (unfold transfer_digests, zlen; rewrite length_fmap; lia).
  pose proof (zlen_nonneg (body (inner blk))). pose proof (zlen_nonneg (body (inner parent))).
  rewrite parent_floor_Ret. fold c. lia.
Qed.

(** The two loading paths agree: whatever list of transfers is executed
    from a batch, the duplicate-free fast path and the shared map give the
    result of executing on the plainly loaded state. *)
Lemma loading_paths_agree sb ts st ld :
  zlen ts * 2 ≤ u64_max → load_state sb ts = Ok st → load_execution_state sb ts = Ok ld →
  execute_loaded ld ts = execute st ts.
Proof.
  intros Hlen ->%load_state_Ok Hld. by rewrite (execute_loaded_batch sb ts ld).
Qed.

(** Pruning schedule: finalizing the blocks of heights 1, 2, ... in order
    hands each to the hook first, never panics while the account database accepts prunes up to its sync
    boundary, and at each multiple of the cadence prunes the blocks below the
    previous multiple and the account operations before the range end recorded
    there (the genesis target at the first), never past the sync boundary. *)
Theorem pruning_schedule sig_st hash_st leader parent ns gst gtt cadence hook prune_state end_at blks :
  0 < cadence → end_at 0 = target_end gst →
  (∀ i blk boundary, blks !! i = Some (blk, boundary) →
     height (header (inner blk)) = Z.of_nat i + 1 ∧
     range_end (state_range (header (inner blk))) = end_at (Z.of_nat i + 1) ∧
     ∀ x, x ≤ boundary → prune_state x = true) →
  ∃ app, finalized_all prune_state
           (application_new sig_st hash_st leader parent ns gst gtt cadence hook) blks
         = Ret (app, concat (imap (λ i, prune_policy hook cadence end_at (Z.of_nat i + 1)) blks)).
Proof.
  intros Hc H0' Hblks.
  destruct (finalized_all_policy hook cadence prune_state end_at blks 0
    (application_new sig_st hash_st leader parent ns gst gtt cadence hook)) as (app & Happ); [done..| |done|].
  - by rewrite Z.div_0_l, Z.mul_0_r by lia.
  - by exists app.
Qed.

(** Genesis: from non-empty targets the genesis block is built without
    panicking, has height 0 and an empty body, sync targets equal to the ones
    it was built from, and a defined inactivity floor for its children. *)
Theorem genesis_valid app :
  let gst := genesis_state_target app in
  let gtt := genesis_transactions_target app in
  0 ≤ target_start gst < target_end gst → target_end gst ≤ u64_max →
  1 ≤ leaf_count gtt ≤ u64_max →
  ∃ g, genesis app = Ret g ∧ sync_targets g = (gst, gtt) ∧
    height (header (inner g)) = 0 ∧ body (inner g) = [] ∧
    seal g = hash (write_header (header (inner g))) ∧
    parent_transactions_inactivity_floor g = Ret (leaf_count gtt - 1).
Proof.
  intros gst gtt Hs He Ht. unfold genesis, genesis_block_with_parent, non_empty_range.
  fold gst gtt.
  destruct (range_new_ok (target_start gst) (target_end gst)) as (sr & Hsr); [unfold is_u64; lia..|].
  destruct (range_new_ok 0 (leaf_count gtt)) as (tr & Htr);
    [done|unfold is_u64; lia|lia|].
  rewrite Hsr, Htr. cbn [expect mbind run_bind].
  apply range_new_Some in Hsr as (_ & _ & _ & Hs1 & Hs2).
  apply range_new_Some in Htr as (_ & _ & _ & Ht1 & Ht2).
  eexists; split_and!; [reflexivity| |done..|].
  - unfold sync_targets, header_range_to_target. cbn. rewrite Hs1, Hs2, Ht2. by destruct gst, gtt.
  - apply parent_floor_Ret. cbn. unfold zlen; cbn. lia.
Qed.

End properties.

(** ** Witnesses *)

Definition sample_gst : StateSyncTarget := mkStateTarget (hash [x01]) 0 1.
Definition sample_gtt : TransactionHistoryTarget := mkHistoryTarget (hash [x02]) 1.
Definition sample_app : Application :=
  application_new halves halves (fb_of 32 [x05]) commitment_EMPTY sample_ns sample_gst sample_gtt 2 false.
Definition sample_parent : SealedBlock :=
  match genesis sample_app with Ret g => g | Panic _ => seal_block sample_block end.
Definition sample_sb : sbatch := sample_state.
Definition sample_tb : tbatch := mkHist [] 1 0.
Definition sample_ctx : Context := mkContext round_zero (fb_of 32 [x06]) (view_zero, commitment_EMPTY).
Definition sample_txs : list SignedTransaction :=
  [sample_signed 1 2 5 0; sample_signed 1 3 999 1; sample_signed 2 3 7 0].
Definition sample_proposal : run (Application * (SealedBlock * (smerkle * tmerkle))) :=
  propose_child sample_app 1000 sample_ctx sample_parent (sample_sb, sample_tb) sample_txs.
Definition sample_child : SealedBlock :=
  match sample_proposal with Ret (_, (b, _)) => b | Panic _ => sample_parent end.
Abbreviation sample_verify :=
  (verify_child sample_app (2 ^ 63) true false 1 sample_child sample_parent (sample_sb, sample_tb)).

Lemma sample_txs_signed :
  Forall (λ t, lst_signature_ok (transaction_namespace sample_app) (lst_new t) = true) sample_txs.
Proof. repeat constructor; vm_compute; reflexivity. Qed.

Lemma sample_txs_wf : Forall signed_wf sample_txs.
Proof.
  repeat constructor; try done; apply lazy_new_wf; done.
Qed.

Lemma sample_child_body_wf : Forall lst_wf (body (inner sample_child)).
Proof.
  destruct (is_ret_inv sample_proposal) as [[app' [blk m]] Hp]; [vm_compute; reflexivity|].
  unfold sample_child. rewrite Hp. unfold sample_proposal in Hp. eapply proposed_body_wf; [exact Hp|apply sample_txs_wf].
Qed.

Lemma sample_parent_time : timestamp (header (inner sample_parent)) < 1000 ≤ MAX_BLOCK_TIMESTAMP_MS.
Proof. vm_compute. done. Qed.

Lemma sample_child_length : zlen (body (inner sample_child)) * 2 ≤ u64_max.
Proof. vm_compute. done. Qed.

Lemma sample_verify_accepts : ∃ m, sample_verify = Ret (Some m).
Proof. apply is_ret_some_inv. vm_compute. reflexivity. Qed.

Lemma sample_tb_size : tb_size sample_tb = range_end (transactions_range (header (inner sample_parent))).
Proof. vm_compute. reflexivity. Qed.

Lemma proposed_block_verifies_witness :
  ∃ app' blk m, sample_proposal = Ret (app', (blk, m)) ∧
    ∃ m', verify_child sample_app (2 ^ 63) true false 1 blk sample_parent (sample_sb, sample_tb)
          = Ret (Some m') ∧ same_databases m m'.
Proof.
  destruct (is_ret_inv sample_proposal) as [[app' [blk m]] Hp]; [vm_compute; reflexivity|].
  exists app', blk, m. split; [exact Hp|].
  apply (proposed_block_verifies sample_app sample_app (2 ^ 63) false 1 1000 sample_ctx sample_parent
           sample_sb sample_tb sample_sb sample_tb sample_txs app' blk m Hp).
  - reflexivity.
  - reflexivity.
  - exact I.
  - exact I.
  - exact sample_txs_signed.
  - apply Z.leb_le; reflexivity.
  - exact sample_parent_time.
  - apply Z.leb_le; reflexivity.
Defined.

Lemma verified_block_sound_witness :
  ∃ m, sample_verify = Ret (Some m) ∧
    Forall (λ l, lst_signature_ok (transaction_namespace sample_app) l = true) (body (inner sample_child)).
Proof.
  destruct sample_verify_accepts as [m Hv].
  exists m. split; [exact Hv|].
  exact (proj1 (proj2 (verified_block_sound sample_app (2 ^ 63) true false 1 sample_child sample_parent
           sample_sb sample_tb m sample_child_length Hv))).
Defined.

Lemma verified_block_applies_witness :
  ∃ m, sample_verify = Ret (Some m) ∧
    ∃ m', apply_certified sample_app true sample_child (sample_sb, sample_tb) = Ret m' ∧
      same_databases m m'.
Proof.
  destruct sample_verify_accepts as [m Hv].
  exists m. split; [exact Hv|].
  apply (verified_block_applies sample_app sample_app (2 ^ 63) true false 1 sample_child sample_parent
           sample_sb sample_tb sample_sb sample_tb m).
  - exact sample_child_length.
  - exact Hv.
  - reflexivity.
  - reflexivity.
  - exact I.
  - exact I.
Defined.

Lemma history_ranges_chain_witness :
  ∃ m, sample_verify = Ret (Some m) ∧
    range_end (transactions_range (header (inner sample_child))) = 1 + 2 + 1.
Proof.
  destruct sample_verify_accepts as [m Hv].
  exists m. split; [exact Hv|].
  rewrite (proj1 (history_ranges_chain sample_app (2 ^ 63) true false 1 sample_child sample_parent
    sample_sb sample_tb m sample_child_length Hv sample_tb_size)).
  vm_compute. reflexivity.
Defined.

(** Blocks of heights 1 to 4 with range ends 11 to 14. *)
Definition sample_finalized (h : Z) : SealedBlock :=
  seal_block (block_new (sample_header h (1000 + h) 0 (9 + h)) []).

Lemma pruning_schedule_witness :
  ∃ app, finalized_all (λ x, x <=? 12)
           (application_new halves halves (fb_of 32 [x05]) commitment_EMPTY sample_ns sample_gst sample_gtt 2 true)
           [(sample_finalized 1, 5); (sample_finalized 2, 6); (sample_finalized 3, 7); (sample_finalized 4, 11)]
         = Ret (app, [CallHook (sample_finalized 1); CallHook (sample_finalized 2); PruneBlocks 0; PruneState 1;
                      CallHook (sample_finalized 3); CallHook (sample_finalized 4); PruneBlocks 2; PruneState 11]).
Proof.
  apply (pruning_schedule (H4 := conc_consensus) halves halves (fb_of 32 [x05]) commitment_EMPTY sample_ns sample_gst sample_gtt 2 true
           (λ x, x <=? 12) (λ h, if h =? 0 then 1 else 10 + h)
           [(sample_finalized 1, 5); (sample_finalized 2, 6); (sample_finalized 3, 7); (sample_finalized 4, 11)]).
  - done.
  - done.
  - intros [|[|[|[|i]]]] blk boundary Hi; cbn in Hi; simplify_eq;
      (split_and!; [vm_compute; reflexivity..|]); intros x Hx; apply Z.leb_le; lia.
Defined.

Lemma genesis_valid_witness :
  ∃ g, genesis sample_app = Ret g ∧ sync_targets g = (sample_gst, sample_gtt) ∧
    height (header (inner g)) = 0 ∧ body (inner g) = [] ∧
    seal g = hash (write_header (header (inner g))) ∧
    parent_transactions_inactivity_floor g = Ret 0.
Proof. apply (genesis_valid sample_app); vm_compute; done. Defined.
