(* ===== verification/Chain.v ===== *)
(** * Whole chains (crates/application/src/consensus)

    The theorems of Application.v are about one block.  Here blocks are
    verified one on top of the other, each on the databases its parent left,
    from any starting state.  The theorem shows what the whole chain means: its
    accounts are those of the abstract ledger run over all transactions in
    order, no transaction is executed twice, no money appears or disappears,
    the history is gapless, and a node that only applies the certified blocks
    ends with the same databases. *)

From stdpp Require Import prelude gmap list strings.
From S2P Require Import Prelude Interfaces Concrete Account Auth Transaction Executor Database Block Execution Application.

(** ** Continuing on a parent *)

(** commonware-glue gives the application the batches of a child on the
    merkleized databases of its parent: they read the parent's accounts and
    continue its history. *)
Class ChildBatches `{HistoryDb} := {
  sb_child : smerkle → sbatch;
  tb_child : tmerkle → tbatch;
  sb_child_proper :: Proper ((≡) ==> (≡)) sb_child;
  tb_child_proper :: Proper ((≡) ==> (≡)) tb_child;
  sb_child_view b m : sb_merkleize b = Ok m → sb_view (sb_child m) = sb_view b;
  tb_child_size b m : tb_merkleize b = Ok m → tb_size (tb_child m) = tb_size b + 1;
  sb_child_healthy m : sb_healthy (sb_child m);
  tb_child_healthy m : tb_healthy (tb_child m)
}.

Section chain.
Context `{LazyKey} `{Json} `{ConsensusLib} `{!StateDb} `{!HistoryDb} `{!ChildBatches}.

Definition child_batches (m : smerkle * tmerkle) : sbatch * tbatch := (sb_child m.1, tb_child m.2).

(** A chain of blocks on [g], each accepted by some validator on the databases
    its parent left; the validators share the namespace of transactions. *)
Inductive chain (ns : bytes) (g : SealedBlock) (start : sbatch * tbatch)
    : list SealedBlock → SealedBlock → sbatch * tbatch → Prop :=
| chain_start : chain ns g start [] g start
| chain_child blks tip batches app clock_max alive sf rng blk m :
    chain ns g start blks tip batches →
    transaction_namespace app = ns →
    Forall lst_wf (body (inner blk)) → zlen (body (inner blk)) * 2 ≤ u64_max →
    verify_child app clock_max alive sf rng blk tip batches = Ret (Some m) →
    chain ns g start (blks ++ [blk]) blk (child_batches m).

(** A node that applies certified blocks in order. *)
Fixpoint apply_chain (app : Application) (batches : sbatch * tbatch) (blks : list SealedBlock)
    : run (sbatch * tbatch) :=
  match blks with
  | [] => Ret batches
  | blk :: blks' => m ← apply_certified app true blk batches; apply_chain app (child_batches m) blks'
  end.

(** The transfers of a chain, in order. *)
Definition chain_transfers (blks : list SealedBlock) : option (list PreparedTransfer) :=
  @concat _ <$> mapM (λ b, body_transfers (body (inner b))) blks.

(** ** Lemmas *)

Lemma touched_app ts ts' : touched (ts ++ ts') = touched ts ∪ touched ts'.
Proof. apply set_eq. intros k. rewrite elem_of_union, !elem_of_touched. unfold transfer_keys.
  rewrite map_app, concat_app. apply elem_of_app. Qed.

Lemma ledger_run_app st ts ts' : ledger_run st (ts ++ ts') = st1 ← ledger_run st ts; ledger_run st1 ts'.
Proof.
  revert st. induction ts as [|t ts IH]; intros st; cbn; [done|]. destruct (ledger_step st t); cbn; [apply IH|done].
Qed.

Lemma chain_transfers_snoc blks blk ts ts' :
  chain_transfers blks = Some ts → body_transfers (body (inner blk)) = Some ts' →
  chain_transfers (blks ++ [blk]) = Some (ts ++ ts').
Proof.
  unfold chain_transfers. intros (l & Hl & ->)%fmap_Some Hb. apply fmap_Some. exists (l ++ [ts']).
  split; [|by rewrite concat_app; cbn; rewrite app_nil_r].
  apply mapM_Some. apply mapM_Some in Hl. apply Forall2_app; [done|by repeat constructor].
Qed.

Lemma body_transfers_wf txs ts : Forall lst_wf txs → body_transfers txs = Some ts → Forall transfer_wf ts.
Proof.
  unfold body_transfers. rewrite mapM_Some. intros Hwf Hts. induction Hts as [|l t txs ts Hl _ IH]; [constructor|].
  apply Forall_cons in Hwf as [Hw Hwf]. constructor; [|by apply IH].
  apply bind_Some in Hl as (s & Hs & Hp). destruct (lst_get_wf l s Hw Hs) as [Hsw _]. by eapply prepare_transfer_wf.
Qed.

Lemma accounts_of_wf b ks : state_wf (sb_view b) → state_wf (accounts_of b ks).
Proof.
  intros Hwf k a. unfold accounts_of. rewrite lookup_keyed. case_decide; [|done]. intros [= <-].
  unfold acct. destruct (sb_view b !! k) as [x|] eqn:E; cbn; [by eapply Hwf|apply account_default_wf].
Qed.

(** The accounts of [K] after a list of transfers that ran on fewer of them. *)
Lemma ledger_extends sb sb' ts st' K :
  touched ts ⊆ K → ledger_run (accounts_of sb (touched ts)) ts = Some st' →
  (∀ k, acct sb' k = default (acct sb k) (st' !! k)) →
  ledger_run (accounts_of sb K) ts = Some (accounts_of sb' K).
Proof.
  intros HK Hr Ha.
  pose proof (ledger_run_agree (touched ts) (accounts_of sb (touched ts)) (accounts_of sb K) ts ltac:(done)) as Hagree.
  rewrite Hr in Hagree. destruct Hagree as (st2 & Hr2 & Hag).
  { intros k Hk. rewrite !accounts_of_lookup by set_solver. done. }
  rewrite Hr2. f_equal. apply map_eq. intros k.
  destruct (decide (k ∈ K)) as [HkK|HkK].
  - rewrite accounts_of_lookup, Ha by done. destruct (decide (k ∈ touched ts)) as [Hk|Hk].
    + rewrite <- (Hag k Hk). by destruct (ledger_run_touched _ _ _ Hr k Hk) as [a ->].
    + rewrite (ledger_run_frame _ _ _ _ Hr2 Hk), accounts_of_lookup by done.
      pose proof (ledger_run_frame _ _ _ _ Hr Hk) as ->.
      rewrite (proj1 (not_elem_of_dom (accounts_of sb (touched ts)) k)); [done|]. by rewrite accounts_of_dom.
  - pose proof (ledger_run_dom _ _ _ Hr2) as Hd. rewrite accounts_of_dom in Hd.
    rewrite (proj1 (not_elem_of_dom st2 k)) by by rewrite Hd.
    symmetry. apply not_elem_of_dom. by rewrite accounts_of_dom.
Qed.

Abbreviation block_time b := (timestamp (header (inner b))).

(** What a chain keeps, for the transfers [ts] of its blocks. *)
Record chain_inv (ns : bytes) (g : SealedBlock) (start : sbatch * tbatch) (blks : list SealedBlock)
    (tip : SealedBlock) (batches : sbatch * tbatch) (ts : list PreparedTransfer) : Prop := {
  ci_transfers : chain_transfers blks = Some ts;
  ci_wf : Forall transfer_wf ts;
  ci_signed : Forall (λ b, Forall (λ l, lst_signature_ok ns l = true) (body (inner b))) blks;
  ci_ledger K : touched ts ⊆ K → ledger_run (accounts_of start.1 K) ts = Some (accounts_of batches.1 K);
  ci_history : tb_size batches.2 = range_end (transactions_range (header (inner tip))) ∧
    range_end (transactions_range (header (inner tip)))
    = range_end (transactions_range (header (inner g))) + zlen ts + zlen blks;
  ci_tip : last (g :: blks) = Some tip;
  ci_times i b b' : (g :: blks) !! i = Some b → (g :: blks) !! S i = Some b' → block_time b < block_time b'
}.

Lemma chain_inv_child ns g start blks tip sb tb ts app clock_max alive sf rng blk m :
  chain_inv ns g start blks tip (sb, tb) ts → transaction_namespace app = ns →
  Forall lst_wf (body (inner blk)) → zlen (body (inner blk)) * 2 ≤ u64_max →
  verify_child app clock_max alive sf rng blk tip (sb, tb) = Ret (Some m) →
  ∃ ts', chain_inv ns g start (blks ++ [blk]) blk (child_batches m) (ts ++ ts').
Proof.
  intros [Htr Hwf Hsig Hled [Hsz Hend] Htip Htm] <- Hb Hlen Hv.
  apply verify_child_Some in Hv as (Htime & Hs & ts' & cs & e & Ht & Hc & Hf & Hm & ->); [|done].
  destruct (acct_after _ _ _ Hc) as (st' & Hst & Hacct).
  apply finalize_child_Ret in Hf as (floor & [_ Hsm Htx _ [_ Ht2] _ _] & _).
  apply commitments_match_true in Hm as (_ & _ & _ & Hr4). rewrite Hr4 in Ht2. cbn [executed fst snd] in *.
  destruct (apply_digests_size tb (transfer_digests ts')) as [Hds _].
  assert (zlen (transfer_digests ts') = zlen ts') as Hz by (unfold transfer_digests, zlen; by rewrite length_fmap).
  exists ts'. split; cbn [child_batches into_merkleized fst snd].
  - by apply chain_transfers_snoc.
  - apply Forall_app. split; [done|by eapply body_transfers_wf].
  - apply Forall_app. split; [done|]. repeat constructor. apply Forall_forall. intros l Hl.
    rewrite forallb_forall in Hs. by apply Hs, list_elem_of_In.
  - intros K HK. rewrite touched_app in HK. rewrite ledger_run_app, (Hled K) by set_solver. cbn [mbind option_bind fst].
    apply (ledger_extends sb _ ts' st'); [set_solver|done|]. intros k. unfold acct at 1.
    rewrite (sb_child_view _ _ Hsm). apply Hacct.
  - rewrite (tb_child_size _ _ Htx), tb_size_floor, Ht2. split; [done|]. cbn [snd] in Hsz.
    rewrite Hds, Hz, Hsz, Hend, !zlen_app. change (zlen [blk]) with 1. lia.
  - by rewrite app_comm_cons, last_snoc.
  - apply is_valid_child_timestamp_true in Htime as [Htime _]. intros i b b' Hi Hi'.
    rewrite app_comm_cons in Hi, Hi'. apply lookup_snoc_Some in Hi' as [[Hlt Hi']|[HSi <-]].
    + rewrite lookup_app_l in Hi by lia. by eapply Htm.
    + rewrite lookup_app_l in Hi by lia. rewrite last_lookup, <- HSi in Htip. cbn in Htip.
      rewrite Hi in Htip. by injection Htip as ->.
Qed.

Lemma chain_chain_inv ns g start blks tip batches :
  tb_size start.2 = range_end (transactions_range (header (inner g))) →
  chain ns g start blks tip batches → ∃ ts, chain_inv ns g start blks tip batches ts.
Proof.
  intros Hs. induction 1 as [|blks tip [sb tb] app clock_max alive sf rng blk m Hch [ts IH] Hns Hb Hlen Hv].
  - exists []. split; cbn; try done. split; [done|]. unfold zlen; cbn; lia.
  - destruct (chain_inv_child _ _ _ _ _ _ _ _ _ _ _ _ _ _ _ IH Hns Hb Hlen Hv) as [ts' Hi]. eauto.
Qed.

(** Applying the certified blocks reaches the same databases. *)
Lemma apply_chain_app app bs blks blks' :
  apply_chain app bs (blks ++ blks') = bs' ← apply_chain app bs blks; apply_chain app bs' blks'.
Proof.
  revert bs. induction blks as [|b blks IH]; intros bs; cbn; [done|].
  destruct (apply_certified app true b bs); cbn; [apply IH|done].
Qed.

Lemma replica_follows ns g start blks tip batches rapp rstart :
  chain ns g start blks tip batches →
  start.1 ≡ rstart.1 → start.2 ≡ rstart.2 → sb_healthy rstart.1 → tb_healthy rstart.2 →
  ∃ rbatches, apply_chain rapp rstart blks = Ret rbatches ∧
    batches.1 ≡ rbatches.1 ∧ batches.2 ≡ rbatches.2 ∧ sb_healthy rbatches.1 ∧ tb_healthy rbatches.2.
Proof.
  intros Hch H1' H2' Hh1 Hh2.
  induction Hch as [|blks tip [sb tb] app clock_max alive sf rng blk m Hch (rb & Hr & He1 & He2 & Hs & Ht) Hns Hb Hlen Hv].
  - by exists rstart.
  - destruct rb as [rsb rtb]. cbn [fst snd] in *.
    destruct (verified_block_applies rapp app clock_max alive sf rng blk tip sb tb rsb rtb m) as (m' & Ha & Hm1 & Hm2); [done..|].
    exists (child_batches m'). rewrite apply_chain_app, Hr. cbn [mbind run_bind apply_chain]. rewrite Ha.
    cbn [mbind run_bind]. cbn [child_batches fst snd]. rewrite Hm1, Hm2.
    split_and!; [done..|apply sb_child_healthy|apply tb_child_healthy].
Qed.

(** C1. A chain is one run of the ledger.  For blocks verified one on top of
    the other from well-formed accounts, by validators that may differ in
    everything but the namespace: every transaction of every body is signed;
    running all transfers in order on the abstract ledger gives exactly the
    accounts the chain leaves, other accounts are unchanged; no sender's nonce
    occurs twice in the whole chain, so no transaction is ever executed again;
    the total balance of any set of accounts that includes the touched ones is
    what it was; the history grows by every transaction and one commit per
    block; times increase; and a node that only applies the certified blocks
    does so without panicking and has equivalent databases. *)
Theorem chain_refines_ledger ns g start blks tip batches :
  state_wf (sb_view start.1) →
  tb_size start.2 = range_end (transactions_range (header (inner g))) →
  chain ns g start blks tip batches →
  ∃ ts, chain_transfers blks = Some ts ∧
    Forall (λ b, Forall (λ l, lst_signature_ok ns l = true) (body (inner b))) blks ∧
    (∀ K, touched ts ⊆ K →
       ledger_run (accounts_of start.1 K) ts = Some (accounts_of batches.1 K) ∧
       supply (accounts_of batches.1 K) = supply (accounts_of start.1 K) ∧
       state_wf (accounts_of batches.1 K)) ∧
    (∀ k, k ∉ touched ts → acct batches.1 k = acct start.1 k) ∧
    NoDup ((λ t, (pt_sender t, pt_nonce t)) <$> ts) ∧
    tb_size batches.2 = range_end (transactions_range (header (inner g))) + zlen ts + zlen blks ∧
    (∀ i b b', (g :: blks) !! i = Some b → (g :: blks) !! S i = Some b' → block_time b < block_time b') ∧
    ∀ rapp rstart,
      start.1 ≡ rstart.1 → start.2 ≡ rstart.2 → sb_healthy rstart.1 → tb_healthy rstart.2 →
      ∃ rbatches, apply_chain rapp rstart blks = Ret rbatches ∧
        batches.1 ≡ rbatches.1 ∧ batches.2 ≡ rbatches.2.
Proof.
  intros Hwf Hsz Hch. destruct (chain_chain_inv _ _ _ _ _ _ Hsz Hch) as [ts [Htr Htw Hsig Hled [Hh1 Hh2] _ Htm]].
  assert (∀ K, state_wf (accounts_of start.1 K)) as Hw by (intros; by apply accounts_of_wf).
  exists ts. split_and!; [done|done| | | |congruence|done|].
  - intros K HK. destruct (ledger_run_inv _ _ _ (Hw K) Htw (Hled K HK)) as [? ?]. split_and!; [by apply Hled|done..].
  - intros k Hk. pose proof (ledger_run_frame _ _ _ k (Hled (touched ts ∪ {[k]}) ltac:(set_solver)) Hk) as Hfr.
    rewrite !accounts_of_lookup in Hfr by set_solver. by injection Hfr.
  - by destruct (ledger_run_used _ _ _ (Hw _) Htw (Hled (touched ts) ltac:(done))) as [? _].
  - intros rapp rstart H1' H2' Hs Ht.
    destruct (replica_follows _ _ _ _ _ _ rapp rstart Hch H1' H2' Hs Ht) as (rb & ? & ? & ? & _). by exists rb.
Qed.
End chain.

(** ** Concrete child batches and witness *)

#[export] Program Instance conc_child_batches : ChildBatches := {|
  sb_child m := m;
  tb_child h := mkHist (h_ops h) (h_base h + 1) (h_floor h) |}.
Next Obligation. intros b m. cbn. by intros [= ->]. Qed.
Next Obligation. intros b m. cbn. intros [= ->]. cbn. lia. Qed.
Next Obligation. done. Qed.
Next Obligation. done. Qed.

(** Two blocks: the child of Application.v and a child of its own, offered a
    transaction of the first again. *)
Definition batches_after `{HistoryDb} `{!ChildBatches} (d : sbatch * tbatch) (r : run (option (smerkle * tmerkle)))
    : sbatch * tbatch :=
  match r with Ret (Some m) => child_batches m | _ => d end.
Definition block_of {A M} (d : SealedBlock) (r : run (A * (SealedBlock * M))) : SealedBlock :=
  match r with Ret (_, (b, _)) => b | Panic _ => d end.
Definition sample_batches1 : sbatch * tbatch := batches_after (sample_sb, sample_tb) sample_verify.
Definition sample_replay : list SignedTransaction := [sample_signed 2 1 3 1; sample_signed 1 2 5 0].
Definition sample_grandchild : SealedBlock :=
  block_of sample_child (propose_child sample_app 2000 sample_ctx sample_child sample_batches1 sample_replay).
Abbreviation sample_verify2 :=
  (verify_child sample_app (2 ^ 63) true true 2 sample_grandchild sample_child sample_batches1).

Lemma sample_verify2_accepts : ∃ m, sample_verify2 = Ret (Some m).
Proof. apply is_ret_some_inv. vm_compute. reflexivity. Qed.

Lemma sample_replay_wf : Forall signed_wf sample_replay.
Proof. repeat constructor; try done; apply lazy_new_wf; done. Qed.

Lemma sample_grandchild_body_wf : Forall lst_wf (body (inner sample_grandchild)).
Proof.
  destruct (is_ret_inv (propose_child sample_app 2000 sample_ctx sample_child sample_batches1 sample_replay)) as [[app' [blk m]] Hp]; [vm_compute; reflexivity|].
  unfold sample_grandchild. rewrite Hp. destruct sample_batches1 as [sb tb]. eapply proposed_body_wf; [exact Hp|apply sample_replay_wf].
Qed.

Lemma sample_chain_ok : ∃ tip batches,
  chain sample_ns sample_parent (sample_sb, sample_tb) [sample_child; sample_grandchild] tip batches.
Proof.
  destruct sample_verify_accepts as [m Hv]. destruct sample_verify2_accepts as [m2 Hv2].
  exists sample_grandchild, (child_batches m2).
  apply (chain_child _ _ _ [sample_child] sample_child sample_batches1 sample_app (2 ^ 63) true true 2).
  - unfold sample_batches1. rewrite Hv.
    apply (chain_child _ _ _ [] sample_parent (sample_sb, sample_tb) sample_app (2 ^ 63) true false 1);
      [constructor|done|apply sample_child_body_wf|apply sample_child_length|exact Hv].
  - done.
  - apply sample_grandchild_body_wf.
  - apply Z.leb_le. vm_compute. reflexivity.
  - exact Hv2.
Qed.

(** The replayed transaction of the second proposal is not in the chain. *)
Lemma chain_refines_ledger_witness :
  ∃ tip batches ts, chain sample_ns sample_parent (sample_sb, sample_tb) [sample_child; sample_grandchild] tip batches ∧
    chain_transfers [sample_child; sample_grandchild] = Some ts ∧
    NoDup ((λ t, (pt_sender t, pt_nonce t)) <$> ts) ∧ zlen ts = 3.
Proof.
  destruct sample_chain_ok as (tip & batches & Hch). exists tip, batches.
  destruct (chain_refines_ledger sample_ns sample_parent (sample_sb, sample_tb) [sample_child; sample_grandchild] tip batches
    sample_state_wf sample_tb_size Hch) as (ts & Hts & _ & _ & _ & Hnd & _).
  exists ts. split; [exact Hch|]. split; [exact Hts|]. split; [exact Hnd|].
  assert (zlen <$> chain_transfers [sample_child; sample_grandchild] = Some 3) as Hl by (vm_compute; reflexivity).
  rewrite Hts in Hl. by injection Hl.
Defined.
