(* ===== verification/Mempool.v ===== *)
(** * The mempool actor (crates/mempool/src/webserver/actor.rs)

    The actor owns a byte-bounded FIFO pool of verified transactions, the
    batches it has proposed, and the status of every submitted batch.  Its
    event loop is [handle], one message at a time; what it sends back on
    channels is a list of events. *)

From stdpp Require Import prelude gmap list strings.
From S2P Require Import Prelude Interfaces Concrete Account Auth Transaction Block.

(** ** Data *)

Definition MAX_STATUS_ENTRIES : Z := 1000000.

(** [enum TxStatus]. *)
Inductive TxStatus : Type :=
| TxFinalized (height : Z)
| TxPartiallyFinalized (height : Z) (included filtered : list string)
| TxDropped.

(** [enum BatchStatus]. *)
Inductive BatchStatus : Type :=
| Accepted (digests : list string)
| Finalized (height : Z) (included : list string)
| PartiallyFinalized (height : Z) (included filtered : list string)
| Dropped (filtered : list string).

(** [enum DigestOutcome]. *)
Inductive DigestOutcome : Type :=
| DigestFinalized (height : Z)
| DigestDropped.

#[export] Instance BatchStatus_eq_dec : EqDecision BatchStatus.
Proof. solve_decision. Defined.

(** A [oneshot::Sender], by its identity. *)
Abbreviation waiter := nat.

Section mempool.
Context `{LazyKey} `{ConsensusLib}.

(** [struct PoolEntry] and [struct ProposedBatch]. *)
Record PoolEntry := mkEntry { transactions : list SignedTransaction; total_bytes : Z }.
Record ProposedBatch := mkProposed { pb_height : Z; pb_digests : list digest }.

(** ** Helpers *)

(** The loop of [batch_status_from_outcomes]; [None] when some digest has no
    outcome yet. *)
Fixpoint collect_outcomes (outcomes : gmap digest DigestOutcome) (included filtered : list string)
    (finalized_height : Z) (ds : list digest) : option (list string * list string * Z) :=
  match ds with
  | [] => Some (included, filtered, finalized_height)
  | d :: ds' =>
      match outcomes !! d with
      | Some (DigestFinalized h) =>
          collect_outcomes outcomes (included ++ [digest_to_string d]) filtered
            (Z.max finalized_height h) ds'
      | Some DigestDropped =>
          collect_outcomes outcomes included (filtered ++ [digest_to_string d]) finalized_height ds'
      | None => None
      end
  end.

Definition batch_status_from_outcomes (ds : list digest) (outcomes : gmap digest DigestOutcome)
    : option BatchStatus :=
  '(included, filtered, h) ← collect_outcomes outcomes [] [] 0 ds;
  match included, filtered with
  | [], _ => Some (Dropped filtered)
  | _, [] => Some (Finalized h included)
  | _, _ => Some (PartiallyFinalized h included filtered)
  end.

Definition tx_status_from_batch (s : BatchStatus) : option TxStatus :=
  match s with
  | Accepted _ => None
  | Finalized h _ => Some (TxFinalized h)
  | PartiallyFinalized h included filtered => Some (TxPartiallyFinalized h included filtered)
  | Dropped _ => Some TxDropped
  end.

Definition accepted_status (ds : list digest) : BatchStatus := Accepted (digest_to_string <$> ds).

(** The expiry loop of [remember_status]. *)
Fixpoint expire_loop (statuses : gmap string BatchStatus) (order expired : list string)
    : gmap string BatchStatus * list string * list string :=
  match order with
  | [] => (statuses, order, expired)
  | id :: order' =>
      if MAX_STATUS_ENTRIES <? Z.of_nat (size statuses)
      then expire_loop (delete id statuses) order' (expired ++ [id])
      else (statuses, order, expired)
  end.

(** [remember_status]: the updated maps and the expired batch ids. *)
Definition remember_status (statuses : gmap string BatchStatus) (order : list string)
    (batch_id : string) (status : BatchStatus)
    : gmap string BatchStatus * list string * list string :=
  let order := if decide (is_Some (statuses !! batch_id)) then order else order ++ [batch_id] in
  expire_loop (<[batch_id:=status]> statuses) order [].

(** What the actor sends on its channels. *)
Inductive Event : Type :=
| SendTxStatus (w : waiter) (s : TxStatus)
| SendIngest (w : waiter) (accepted : bool)
| SendBatchStatus (w : waiter) (s : option BatchStatus)
| SendRound (w : waiter) (r : Z)
| SendProposal (w : waiter) (txs : list SignedTransaction)
| Acknowledge.

(** [send_pending_waiters]. *)
Definition send_pending_waiters (pending : gmap string (list waiter)) (batch_id : string)
    (status : BatchStatus) : gmap string (list waiter) * list Event :=
  match tx_status_from_batch status with
  | None => (pending, [])
  | Some s =>
      match pending !! batch_id with
      | None => (pending, [])
      | Some ws => (delete batch_id pending, (λ w, SendTxStatus w s) <$> ws)
      end
  end.

(** [watch_batch]. *)
Fixpoint watch_loop (batch_id : string) (seen : gset digest) (watchers : gmap digest (list string))
    (ds : list digest) : gmap digest (list string) :=
  match ds with
  | [] => watchers
  | d :: ds' =>
      if decide (d ∈ seen) then watch_loop batch_id seen watchers ds'
      else watch_loop batch_id ({[d]} ∪ seen)
             (<[d := default [] (watchers !! d) ++ [batch_id]]> watchers) ds'
  end.
Definition watch_batch (batch_id : string) (ds : list digest) (watchers : gmap digest (list string))
    : gmap digest (list string) := watch_loop batch_id ∅ watchers ds.

(** The loop of [forget_batch]. *)
Fixpoint forget_loop (batch_id : string) (seen : gset digest) (watchers : gmap digest (list string))
    (outcomes : gmap digest DigestOutcome) (ds : list digest)
    : gmap digest (list string) * gmap digest DigestOutcome :=
  match ds with
  | [] => (watchers, outcomes)
  | d :: ds' =>
      if decide (d ∈ seen) then forget_loop batch_id seen watchers outcomes ds'
      else
        match watchers !! d with
        | None => forget_loop batch_id ({[d]} ∪ seen) watchers outcomes ds'
        | Some ids =>
            match filter (λ known, known ≠ batch_id) ids with
            | [] => forget_loop batch_id ({[d]} ∪ seen) (delete d watchers) (delete d outcomes) ds'
            | ids' => forget_loop batch_id ({[d]} ∪ seen) (<[d:=ids']> watchers) outcomes ds'
            end
        end
  end.

(** The tables that follow a batch to its outcome. *)
Record Tracker := mkTracker {
  statuses : gmap string BatchStatus;
  status_order : list string;
  batch_digests : gmap string (list digest);
  digest_watchers : gmap digest (list string);
  digest_outcomes : gmap digest DigestOutcome;
  pending_waiters : gmap string (list waiter)
}.

(** [forget_batch] and [forget_expired_batches]. *)
Definition forget_batch (batch_id : string) (t : Tracker) : Tracker :=
  let pending := delete batch_id (pending_waiters t) in
  match batch_digests t !! batch_id with
  | None =>
      mkTracker (statuses t) (status_order t) (batch_digests t) (digest_watchers t)
        (digest_outcomes t) pending
  | Some ds =>
      let '(ws, os) := forget_loop batch_id ∅ (digest_watchers t) (digest_outcomes t) ds in
      mkTracker (statuses t) (status_order t) (delete batch_id (batch_digests t)) ws os pending
  end.

Definition forget_expired_batches (expired : list string) (t : Tracker) : Tracker :=
  fold_left (λ t id, forget_batch id t) expired t.

(** [watched_batches_for]. *)
Definition watched_batches_for (ds : list digest) (watchers : gmap digest (list string)) : gset string :=
  fold_left (λ acc d, acc ∪ list_to_set (default [] (watchers !! d))) ds ∅.

(** [resolve_batch_if_terminal]. *)
Definition resolve_batch_if_terminal (batch_id : string) (t : Tracker) : Tracker * list Event :=
  match batch_digests t !! batch_id with
  | None => (t, [])
  | Some ds =>
      match batch_status_from_outcomes ds (digest_outcomes t) with
      | None => (t, [])
      | Some status =>
          let '(sts, order, expired) := remember_status (statuses t) (status_order t) batch_id status in
          let '(pending, es) :=
            match sts !! batch_id with
            | Some s => send_pending_waiters (pending_waiters t) batch_id s
            | None => (pending_waiters t, [])
            end in
          let t1 := mkTracker sts order (batch_digests t) (digest_watchers t) (digest_outcomes t) pending in
          (forget_expired_batches expired (forget_batch batch_id t1), es)
      end
  end.

(** The [for batch_id in affected] loops.  The set has no particular order, and
    none is needed: [resolve_all_perm] of Answers.v shows that every order ends
    with the same tables and sends the same answers. *)
Fixpoint resolve_all (ids : list string) (t : Tracker) : Tracker * list Event :=
  match ids with
  | [] => (t, [])
  | id :: ids' =>
      let '(t1, es) := resolve_batch_if_terminal id t in
      let '(t2, es') := resolve_all ids' t1 in
      (t2, es ++ es')
  end.

(** [new_transactions] and [remove_known_digests]. *)
Fixpoint new_loop (accepted : list SignedTransaction) (known : gset digest)
    (txs : list SignedTransaction) : list SignedTransaction * gset digest :=
  match txs with
  | [] => (accepted, known)
  | t :: txs' =>
      if decide (message_digest t ∈ known) then new_loop accepted known txs'
      else new_loop (accepted ++ [t]) ({[message_digest t]} ∪ known) txs'
  end.
Definition new_transactions (txs : list SignedTransaction) (known : gset digest)
    : list SignedTransaction * gset digest := new_loop [] known txs.

Definition remove_known_digests (txs : list SignedTransaction) (known : gset digest) : gset digest :=
  fold_left (λ known t, known ∖ {[message_digest t]}) txs known.

(** [total_bytes_for]; the sum of [usize] lengths wraps. *)
Definition total_bytes_for (txs : list SignedTransaction) : Z :=
  fold_left (λ acc t, wrap64 (acc + signed_encode_size t)) txs 0.

Definition rotation_round (r : round) : Z := wrapping_add (epoch_get r) (view_get r).

(** ** The event loop *)

(** [enum Message]. *)
Inductive Message : Type :=
| Submit (batch_id : string) (digests : list digest) (txs : list SignedTransaction)
    (bytes : Z) (result ingest_result : option waiter)
| QueryStatus (batch_id : string) (response : waiter)
| QueryConsensusRound (response : waiter)
| Propose (height : Z) (response : waiter)
| ReportBlock (block : SealedBlock)
| ReportTip (r : round).

(** The limits of [struct Config]. *)
Record Config := mkConfig {
  max_pool_bytes : Z;
  max_propose_bytes : Z;
  drop_grace_blocks : Z
}.

(** The local variables of [Actor::run]. *)
Record Actor := mkActor {
  pool : list PoolEntry;
  pool_bytes : Z;
  proposed : list ProposedBatch;
  tracker : Tracker;
  known_digests : gset digest;
  highest_consensus_round : Z
}.

Definition tracker_new : Tracker := mkTracker ∅ [] ∅ ∅ ∅ ∅.
Definition actor_new : Actor := mkActor [] 0 [] tracker_new ∅ 0.

Definition send_opt {A} (o : option waiter) (f : waiter → A) : list A :=
  match o with Some w => [f w] | None => [] end.

(** [pending_waiters.entry(batch_id).or_default().push(result)]. *)
Definition push_waiter (batch_id : string) (result : option waiter)
    (pending : gmap string (list waiter)) : gmap string (list waiter) :=
  match result with
  | Some w => <[batch_id := default [] (pending !! batch_id) ++ [w]]> pending
  | None => pending
  end.

(** The [Submit] arm. *)
Definition handle_submit (cfg : Config) (a : Actor) (batch_id : string) (ds : list digest)
    (txs : list SignedTransaction) (bytes : Z) (result ingest_result : option waiter)
    : Actor * list Event :=
  let t := tracker a in
  match statuses t !! batch_id with
  | Some status =>
      let es := send_opt ingest_result (λ w, SendIngest w true) in
      match tx_status_from_batch status with
      | Some s => (a, es ++ send_opt result (λ w, SendTxStatus w s))
      | None =>
          let t' := mkTracker (statuses t) (status_order t) (batch_digests t) (digest_watchers t)
                      (digest_outcomes t) (push_waiter batch_id result (pending_waiters t)) in
          (mkActor (pool a) (pool_bytes a) (proposed a) t' (known_digests a)
             (highest_consensus_round a), es)
      end
  | None =>
      let '(fresh, known) := new_transactions txs (known_digests a) in
      let total := Z.min (total_bytes_for fresh) bytes in
      if bool_decide (fresh ≠ []) && (max_pool_bytes cfg <? wrap64 (pool_bytes a + total)) then
        (mkActor (pool a) (pool_bytes a) (proposed a) t (remove_known_digests fresh known)
           (highest_consensus_round a),
         send_opt result (λ w, SendTxStatus w TxDropped)
         ++ send_opt ingest_result (λ w, SendIngest w false))
      else
        let '(sts, order, expired) :=
          remember_status (statuses t) (status_order t) batch_id (accepted_status ds) in
        let t1 := mkTracker sts order (<[batch_id:=ds]> (batch_digests t))
                    (watch_batch batch_id ds (digest_watchers t)) (digest_outcomes t)
                    (pending_waiters t) in
        let t2 := forget_expired_batches expired t1 in
        let t3 := mkTracker (statuses t2) (status_order t2) (batch_digests t2) (digest_watchers t2)
                    (digest_outcomes t2) (push_waiter batch_id result (pending_waiters t2)) in
        let '(pool', bytes') :=
          match fresh with
          | [] => (pool a, pool_bytes a)
          | _ => (pool a ++ [mkEntry fresh total], wrap64 (pool_bytes a + total))
          end in
        (mkActor pool' bytes' (proposed a) t3 known (highest_consensus_round a),
         send_opt ingest_result (λ w, SendIngest w true))
  end.

(** The loop of the [Propose] arm. *)
Fixpoint drain_loop (cfg : Config) (h : Z) (pool : list PoolEntry) (pool_bytes : Z)
    (proposed : list ProposedBatch) (batch_txs : list SignedTransaction) (batch_bytes : Z)
    : list PoolEntry * Z * list ProposedBatch * list SignedTransaction :=
  match pool with
  | [] => (pool, pool_bytes, proposed, batch_txs)
  | e :: pool' =>
      if (max_propose_bytes cfg <? wrap64 (batch_bytes + total_bytes e)) && bool_decide (batch_txs ≠ [])
      then (pool, pool_bytes, proposed, batch_txs)
      else drain_loop cfg h pool' (wrap64 (pool_bytes - total_bytes e))
             (proposed ++ [mkProposed h (message_digest <$> transactions e)])
             (batch_txs ++ transactions e) (wrap64 (batch_bytes + total_bytes e))
  end.

Definition handle_propose (cfg : Config) (a : Actor) (h : Z) (response : waiter) : Actor * list Event :=
  let '(pool', bytes', proposed', txs) :=
    drain_loop cfg h (pool a) (pool_bytes a) (proposed a) [] 0 in
  (mkActor pool' bytes' proposed' (tracker a) (known_digests a) (highest_consensus_round a),
   [SendProposal response txs]).

Definition set_outcome (d : digest) (o : DigestOutcome) (t : Tracker) : Tracker :=
  mkTracker (statuses t) (status_order t) (batch_digests t) (digest_watchers t)
    (<[d:=o]> (digest_outcomes t)) (pending_waiters t).

(** Recording the outcome of every digest of a proposed batch. *)
Fixpoint record_outcomes (outcome : digest → DigestOutcome) (ds : list digest) (t : Tracker)
    (known : gset digest) : Tracker * gset digest :=
  match ds with
  | [] => (t, known)
  | d :: ds' => record_outcomes outcome ds' (set_outcome d (outcome d) t) (known ∖ {[d]})
  end.

(** The loop over the proposed batches in the [Report] arm. *)
Fixpoint report_loop (cfg : Config) (h : Z) (fin : gset digest) (remaining : list ProposedBatch)
    (t : Tracker) (known : gset digest) (batches : list ProposedBatch)
    : list ProposedBatch * Tracker * gset digest * list Event :=
  match batches with
  | [] => (remaining, t, known, [])
  | b :: batches' =>
      let affected := watched_batches_for (pb_digests b) (digest_watchers t) in
      if existsb (λ d, bool_decide (d ∈ fin)) (pb_digests b) then
        let '(t1, known1) :=
          record_outcomes (λ d, if decide (d ∈ fin) then DigestFinalized h else DigestDropped)
            (pb_digests b) t known in
        let '(t2, es) := resolve_all (elements affected) t1 in
        let '(r, t3, k, es') := report_loop cfg h fin remaining t2 known1 batches' in
        (r, t3, k, es ++ es')
      else if wrap64 (pb_height b + drop_grace_blocks cfg) <=? h then
        let '(t1, known1) := record_outcomes (λ _, DigestDropped) (pb_digests b) t known in
        let '(t2, es) := resolve_all (elements affected) t1 in
        let '(r, t3, k, es') := report_loop cfg h fin remaining t2 known1 batches' in
        (r, t3, k, es ++ es')
      else report_loop cfg h fin (remaining ++ [b]) t known batches'
  end.

Definition finalized_digests (b : SealedBlock) : gset digest :=
  list_to_set (omap (λ l, message_digest <$> lst_get l) (body (inner b))).

Definition handle_report (cfg : Config) (a : Actor) (b : SealedBlock) : Actor * list Event :=
  let hdr := header (inner b) in
  let highest := Z.max (highest_consensus_round a) (rotation_round (context_round (context hdr))) in
  let '(remaining, t, known, es) :=
    report_loop cfg (height hdr) (finalized_digests b) [] (tracker a) (known_digests a) (proposed a) in
  (mkActor (pool a) (pool_bytes a) remaining t known highest, es ++ [Acknowledge]).

(** One round of the [while let Some(message)] loop. *)
Definition handle (cfg : Config) (a : Actor) (m : Message) : Actor * list Event :=
  match m with
  | Submit id ds txs bytes result ingest => handle_submit cfg a id ds txs bytes result ingest
  | QueryStatus id w => (a, [SendBatchStatus w (statuses (tracker a) !! id)])
  | QueryConsensusRound w => (a, [SendRound w (highest_consensus_round a)])
  | Propose h w => handle_propose cfg a h w
  | ReportBlock b => handle_report cfg a b
  | ReportTip r =>
      (mkActor (pool a) (pool_bytes a) (proposed a) (tracker a) (known_digests a)
         (Z.max (highest_consensus_round a) (rotation_round r)), [])
  end.

(** [Actor::run] on a sequence of messages. *)
Fixpoint run_actor (cfg : Config) (a : Actor) (ms : list Message) : Actor * list Event :=
  match ms with
  | [] => (a, [])
  | m :: ms' =>
      let '(a1, es) := handle cfg a m in
      let '(a2, es') := run_actor cfg a1 ms' in
      (a2, es ++ es')
  end.

End mempool.

(** ** Pool and in-flight digests *)

Section pool.
Context `{LazyKey} `{ConsensusLib}.

Definition entry_digests (e : PoolEntry) : list digest := message_digest <$> transactions e.

(** Digests waiting in the pool or proposed and not yet resolved. *)
Definition live_digests (a : Actor) : list digest :=
  concat (entry_digests <$> pool a) ++ concat (pb_digests <$> proposed a).

(** The pool accounts for its bytes, stays within the limit, and no digest is
    live twice or unknown. *)
Record pool_inv (cfg : Config) (a : Actor) : Prop := {
  pi_bytes : pool_bytes a = sumZ (total_bytes <$> pool a);
  pi_entries : Forall (λ e, 0 ≤ total_bytes e ∧ transactions e ≠ []) (pool a);
  pi_max : pool_bytes a ≤ max_pool_bytes cfg;
  pi_nodup : NoDup (live_digests a);
  pi_known : known_digests a = list_to_set (live_digests a)
}.

(** Limits and message sizes are lengths of in-memory buffers. *)
Definition cfg_wf (cfg : Config) : Prop := 0 ≤ max_pool_bytes cfg < 2 ^ 63.
Definition message_wf (m : Message) : Prop :=
  match m with Submit _ _ _ bytes _ _ => 0 ≤ bytes < 2 ^ 63 | _ => True end.

Lemma new_loop_spec acc known txs :
  ∃ fresh, new_loop acc known txs
           = (acc ++ fresh, known ∪ list_to_set (message_digest <$> fresh)) ∧
    fresh `sublist_of` txs ∧ NoDup (message_digest <$> fresh) ∧
    (∀ d, d ∈ message_digest <$> fresh → d ∉ known) ∧
    (∀ t, t ∈ txs → message_digest t ∈ known ∪ list_to_set (message_digest <$> fresh)).
Proof.
  revert acc known. induction txs as [|t txs IH]; intros acc known; cbn [new_loop].
  { exists []. rewrite app_nil_r. cbn. split_and!; [f_equal; set_solver|done|constructor|set_solver|set_solver]. }
  case_decide as Hd.
  - destruct (IH acc known) as (fresh & -> & Hs & Hn & Hf & Hc). exists fresh.
    split_and!; [done|by constructor|done|done|]. intros t' [->|Ht]%elem_of_cons; [set_solver|by apply Hc].
  - destruct (IH (acc ++ [t]) ({[message_digest t]} ∪ known)) as (fresh & -> & Hs & Hn & Hf & Hc).
    exists (t :: fresh). rewrite <- app_assoc. cbn. split_and!.
    + f_equal. set_solver.
    + by constructor.
    + constructor; [|done]. intros Hin. apply Hf in Hin. set_solver.
    + intros d [->|Hin]%elem_of_cons; [done|]. apply Hf in Hin. set_solver.
    + intros t' [->|Ht]%elem_of_cons; [set_solver|]. apply Hc in Ht. set_solver.
Qed.

Lemma remove_known_spec txs known :
  remove_known_digests txs known = known ∖ list_to_set (message_digest <$> txs).
Proof.
  unfold remove_known_digests. revert known. induction txs as [|t txs IH]; intros known; cbn; [set_solver|].
  rewrite IH. set_solver.
Qed.

Lemma total_bytes_for_bound txs : is_u64 (total_bytes_for txs).
Proof.
  unfold total_bytes_for. assert (is_u64 0) as Hz by done. revert Hz. generalize 0.
  induction txs as [|t txs IH]; intros z Hz; cbn; [done|]. apply IH, wrap64_bound.
Qed.

(** The drain loop takes a prefix of the pool, in order. *)
Lemma drain_loop_spec cfg h p bytes prop txs n :
  ∃ taken rest, p = taken ++ rest ∧
    drain_loop cfg h p bytes prop txs n =
      (rest, fold_left (λ b e, wrap64 (b - total_bytes e)) taken bytes,
       prop ++ ((λ e, mkProposed h (entry_digests e)) <$> taken),
       txs ++ concat (transactions <$> taken)) ∧
    (txs = [] → p ≠ [] → taken ≠ []).
Proof.
  revert bytes prop txs n. induction p as [|e p IH]; intros bytes prop txs n; cbn [drain_loop].
  { exists [], []. by rewrite !app_nil_r. }
  case_match eqn:E.
  { exists [], (e :: p). rewrite !app_nil_r. split_and!; [done..|]. intros ->.
    zbool. by case_bool_decide. }
  destruct (IH (wrap64 (bytes - total_bytes e)) (prop ++ [mkProposed h (message_digest <$> transactions e)])
    (txs ++ transactions e) (wrap64 (n + total_bytes e))) as (taken & rest & -> & -> & _).
  exists (e :: taken), rest. rewrite <- !app_assoc. cbn. by split_and!.
Qed.

Lemma wrap_sub_bytes taken bytes :
  Forall (λ e, 0 ≤ total_bytes e) taken → sumZ (total_bytes <$> taken) ≤ bytes ≤ u64_max →
  fold_left (λ b e, wrap64 (b - total_bytes e)) taken bytes = bytes - sumZ (total_bytes <$> taken).
Proof.
  intros Hf. revert bytes. induction Hf as [|e taken He Hf IH]; intros bytes Hb; cbn in *; [lia|].
  assert (0 ≤ sumZ (total_bytes <$> taken)).
  { apply sumZ_nonneg. apply Forall_fmap. done. }
  rewrite wrap64_id by (unfold is_u64; lia). rewrite IH by lia. lia.
Qed.

(** ** Reporting *)

(** Whether a finalized block at height [h] settles a proposed batch. *)
Definition settles (cfg : Config) (h : Z) (fin : gset digest) (b : ProposedBatch) : bool :=
  existsb (λ d, bool_decide (d ∈ fin)) (pb_digests b)
  || (wrap64 (pb_height b + drop_grace_blocks cfg) <=? h).

Lemma record_outcomes_known f ds t known :
  (record_outcomes f ds t known).2 = known ∖ list_to_set ds.
Proof.
  revert t known. induction ds as [|d ds IH]; intros t known; cbn; [set_solver|]. rewrite IH. set_solver.
Qed.

Lemma report_loop_batches cfg h fin rem t known bs :
  (report_loop cfg h fin rem t known bs).1.1.1
    = rem ++ filter (λ b, settles cfg h fin b = false) bs ∧
  (report_loop cfg h fin rem t known bs).1.2
    = known ∖ list_to_set (concat (pb_digests <$> filter (λ b, settles cfg h fin b = true) bs)).
Proof.
  revert rem t known. induction bs as [|b bs IH]; intros rem t known; cbn [report_loop].
  { cbn. rewrite app_nil_r. split; [done|set_solver]. }
  rewrite !filter_cons.
  assert (settles cfg h fin b = true → ∀ f,
    let '(t1, known1) := record_outcomes f (pb_digests b) t known in
    let '(t2, es) := resolve_all (elements (watched_batches_for (pb_digests b) (digest_watchers t))) t1 in
    let '(r, t3, k, es') := report_loop cfg h fin rem t2 known1 bs in
    r = rem ++ filter (λ b, settles cfg h fin b = false) bs ∧
    k = known ∖ list_to_set (concat (pb_digests <$> b :: filter (λ b, settles cfg h fin b = true) bs))) as Hset.
  { intros _ f. pose proof (record_outcomes_known f (pb_digests b) t known) as Hk.
    destruct (record_outcomes _ _ _ _) as [t1 k1]. cbn in Hk. subst k1.
    destruct (resolve_all _ _) as [t2 es]. specialize (IH rem t2 (known ∖ list_to_set (pb_digests b))).
    destruct (report_loop _ _ _ _ _ _ _) as [[[r t3] k] es']. cbn in *. destruct IH as [-> ->].
    split; [done|]. set_solver. }
  destruct (existsb _ _) eqn:E1; [|destruct (_ <=? h) eqn:E2].
  1,2: assert (settles cfg h fin b = true) as Hs by (unfold settles; rewrite E1, ?E2; done);
       rewrite Hs; rewrite (decide_False (P := true = false)), (decide_True (P := true = true)) by done;
       match goal with |- context [record_outcomes ?f _ _ _] => specialize (Hset Hs f) end;
       destruct (record_outcomes _ _ _ _) as [t1 k1]; destruct (resolve_all _ _) as [t2 es];
       destruct (report_loop _ _ _ _ _ _ _) as [[[r t3] k] es']; exact Hset.
  assert (settles cfg h fin b = false) as Hs by (unfold settles; rewrite E1, E2; done).
  rewrite Hs. rewrite (decide_True (P := false = false)), (decide_False (P := false = true)) by done.
  destruct (IH (rem ++ [b]) t known) as [-> ->]. rewrite <- app_assoc. done.
Qed.

(** ** The pool invariant *)

(** The fields the invariant reads. *)
Lemma pool_inv_fields cfg a a' :
  pool a' = pool a → pool_bytes a' = pool_bytes a → proposed a' = proposed a →
  known_digests a' = known_digests a → pool_inv cfg a → pool_inv cfg a'.
Proof.
  intros Hp Hb Hpr Hk [? ? ? ? ?]. split; unfold live_digests in *; rewrite ?Hp, ?Hb, ?Hpr, ?Hk; done.
Qed.

Lemma pool_inv_push cfg a fresh total t r :
  cfg_wf cfg → pool_inv cfg a → 0 ≤ total → fresh ≠ [] → pool_bytes a + total ≤ max_pool_bytes cfg →
  NoDup (message_digest <$> fresh) → (∀ d, d ∈ message_digest <$> fresh → d ∉ known_digests a) →
  pool_inv cfg (mkActor (pool a ++ [mkEntry fresh total]) (wrap64 (pool_bytes a + total)) (proposed a) t
    (known_digests a ∪ list_to_set (message_digest <$> fresh)) r).
Proof.
  intros Hcfg [Hb He Hm Hn Hk] Ht Hne Hfit Hnd Hfr.
  assert (0 ≤ pool_bytes a).
  { rewrite Hb. apply sumZ_nonneg, Forall_fmap. eapply Forall_impl; [done|]. cbn. tauto. }
  assert (live_digests (mkActor (pool a ++ [mkEntry fresh total]) (wrap64 (pool_bytes a + total))
    (proposed a) t (known_digests a ∪ list_to_set (message_digest <$> fresh)) r)
    ≡ₚ (message_digest <$> fresh) ++ live_digests a) as Hp.
  { unfold live_digests; cbn. rewrite fmap_app, concat_app. cbn. rewrite app_nil_r.
    rewrite (Permutation_app_comm (concat (entry_digests <$> pool a)) (message_digest <$> fresh)).
    by rewrite <- app_assoc. }
  unfold cfg_wf, u64_max in *. rewrite wrap64_id in * by (unfold is_u64, u64_max; lia).
  split; cbn.
  - rewrite Hb, fmap_app, sumZ_app. cbn. lia.
  - apply Forall_app; split; [done|]. by repeat constructor.
  - done.
  - rewrite Hp. apply NoDup_app. split_and!; [done| |done]. intros d Hd Hl. apply (Hfr d Hd).
    rewrite Hk. by apply elem_of_list_to_set.
  - rewrite Hk, (list_to_set_perm_L _ _ Hp), list_to_set_app_L. set_solver.
Qed.

Lemma handle_submit_pool cfg a id ds txs bytes result ingest :
  cfg_wf cfg → 0 ≤ bytes < 2 ^ 63 → pool_inv cfg a →
  pool_inv cfg (handle_submit cfg a id ds txs bytes result ingest).1.
Proof.
  intros Hcfg Hbytes Hinv. unfold handle_submit.
  destruct (statuses (tracker a) !! id) as [st|].
  { destruct (tx_status_from_batch st); [done|]. by apply (pool_inv_fields cfg a). }
  unfold new_transactions.
  destruct (new_loop_spec [] (known_digests a) txs) as (fresh & -> & Hs & Hn & Hf & Hc). cbn [app].
  set (total := Z.min (total_bytes_for fresh) bytes).
  pose proof (total_bytes_for_bound fresh) as Htb. unfold is_u64 in Htb.
  assert (0 ≤ total < 2 ^ 63) as Htot by lia.
  destruct (bool_decide (fresh ≠ []) && (max_pool_bytes cfg <? wrap64 (pool_bytes a + total))) eqn:Edrop.
  { apply (pool_inv_fields cfg a); [done..| |done]. cbn. rewrite remove_known_spec.
    apply set_eq. intros d. specialize (Hf d). set_solver. }
  destruct (remember_status _ _ _ _) as [[sts order] expired].
  destruct fresh as [|t0 fresh0] eqn:Efresh.
  { apply (pool_inv_fields cfg a); [done..| |done]. cbn. set_solver. }
  rewrite <- Efresh in *. apply pool_inv_push; try done; [lia|by rewrite Efresh|].
  rewrite bool_decide_eq_true_2 in Edrop by by rewrite Efresh. cbn in Edrop. zbool.
  destruct Hinv as [Hb He Hm _ _].
  assert (0 ≤ pool_bytes a).
  { rewrite Hb. apply sumZ_nonneg, Forall_fmap. eapply Forall_impl; [done|]. cbn. tauto. }
  unfold cfg_wf in Hcfg. rewrite wrap64_id in Edrop; [done|]. unfold is_u64, u64_max. lia.
Qed.

Lemma handle_propose_pool cfg a h w :
  cfg_wf cfg → pool_inv cfg a → pool_inv cfg (handle_propose cfg a h w).1.
Proof.
  intros Hcfg [Hb He Hm Hn Hk]. unfold handle_propose.
  destruct (drain_loop_spec cfg h (pool a) (pool_bytes a) (proposed a) [] 0)
    as (taken & rest & Hp & -> & _). cbn.
  rewrite Hp in He, Hb. apply Forall_app in He as [He1 He2]. rewrite fmap_app, sumZ_app in Hb.
  assert (Forall (λ e, 0 ≤ total_bytes e) taken) by (eapply Forall_impl; [done|]; cbn; tauto).
  assert (0 ≤ sumZ (total_bytes <$> rest)).
  { apply sumZ_nonneg, Forall_fmap. eapply Forall_impl; [done|]. cbn. tauto. }
  assert (0 ≤ sumZ (total_bytes <$> taken)) by (apply sumZ_nonneg, Forall_fmap; done).
  unfold cfg_wf in Hcfg. rewrite wrap_sub_bytes by (done || (unfold u64_max; lia)).
  assert (concat (entry_digests <$> rest) ++ concat (pb_digests <$> proposed a ++
    ((λ e, mkProposed h (entry_digests e)) <$> taken)) ≡ₚ live_digests a) as Hperm.
  { unfold live_digests. rewrite Hp, !fmap_app, !concat_app.
    rewrite <- list_fmap_compose. change (pb_digests ∘ _) with entry_digests.
    rewrite <- !app_assoc. rewrite (Permutation_app_comm (concat (pb_digests <$> proposed a))).
    by rewrite !app_assoc, (Permutation_app_comm (concat (entry_digests <$> rest))). }
  split; cbn; [lia|done|lia| |].
  - unfold live_digests; cbn. by rewrite Hperm.
  - rewrite Hk. symmetry. by apply list_to_set_perm_L.
Qed.

Lemma filter_split {A} (p : A → bool) (l : list A) :
  l ≡ₚ filter (λ a, p a = true) l ++ filter (λ a, p a = false) l.
Proof.
  induction l as [|a l IH]; [done|]. rewrite !filter_cons. destruct (p a).
  - rewrite decide_True, decide_False by done. cbn. by rewrite <- IH.
  - rewrite decide_False, decide_True by done. rewrite <- Permutation_middle. by rewrite <- IH.
Qed.

Lemma handle_report_pool cfg a b : pool_inv cfg a → pool_inv cfg (handle_report cfg a b).1.
Proof.
  intros [Hb He Hm Hn Hk]. unfold handle_report. set (h := height _). set (fin := finalized_digests b).
  destruct (report_loop_batches cfg h fin [] (tracker a) (known_digests a) (proposed a)) as [Hr Hkn].
  destruct (report_loop _ _ _ _ _ _ _) as [[[r t] k] es]. cbn in Hr, Hkn. subst r k. cbn [fst].
  set (keep := filter (λ b, settles cfg h fin b = false) (proposed a)).
  set (gone := filter (λ b, settles cfg h fin b = true) (proposed a)).
  assert (proposed a ≡ₚ gone ++ keep) as Hsplit.
  { apply filter_split. }
  assert (live_digests a ≡ₚ concat (pb_digests <$> gone) ++
    (concat (entry_digests <$> pool a) ++ concat (pb_digests <$> keep))) as Hlive.
  { unfold live_digests. rewrite Hsplit, fmap_app, concat_app.
    rewrite !app_assoc. f_equiv. apply Permutation_app_comm. }
  rewrite Hlive in Hn. apply NoDup_app in Hn as (_ & Hdis & Hn).
  split; cbn; [done..| |]; unfold live_digests; cbn; [done|].
  rewrite Hk, (list_to_set_perm_L _ _ Hlive), list_to_set_app_L.
  apply set_eq. intros d. specialize (Hdis d). set_solver.
Qed.

Lemma handle_pool_inv cfg a m :
  cfg_wf cfg → message_wf m → pool_inv cfg a → pool_inv cfg (handle cfg a m).1.
Proof.
  intros Hcfg Hm Hinv. destruct m; cbn [handle].
  - by apply handle_submit_pool.
  - done.
  - done.
  - by apply handle_propose_pool.
  - by apply handle_report_pool.
  - by apply (pool_inv_fields cfg a).
Qed.

End pool.

(** ** Batch tracking *)

Section tracker.
Context `{LazyKey} `{ConsensusLib}.

(** The batches watching a digest. *)
Definition watching (ws : gmap digest (list string)) (d : digest) : list string :=
  default [] (ws !! d).

(** The status table and its insertion order. *)
Definition status_table (sts : gmap string BatchStatus) (order : list string) : Prop :=
  NoDup order ∧ dom sts = list_to_set order ∧ Z.of_nat (size sts) ≤ MAX_STATUS_ENTRIES.

(** The tables agree with each other; the batches of [X] are waiting to be
    forgotten: their status is gone or final. *)
Record tracker_wf (X : gset string) (t : Tracker) : Prop := {
  tw_table : status_table (statuses t) (status_order t);
  tw_digests id ds : batch_digests t !! id = Some ds → id ∉ X →
    statuses t !! id = Some (accepted_status ds);
  tw_accepted id l : statuses t !! id = Some (Accepted l) →
    is_Some (batch_digests t !! id) ∧ id ∉ X;
  tw_watch d id : id ∈ watching (digest_watchers t) d ↔
    ∃ ds, batch_digests t !! id = Some ds ∧ d ∈ ds;
  tw_pending : dom (pending_waiters t) ⊆ dom (batch_digests t)
}.

Abbreviation tracker_inv := (tracker_wf ∅).

Lemma watch_loop_spec id seen ws ds d id' :
  id' ∈ watching (watch_loop id seen ws ds) d ↔
  id' ∈ watching ws d ∨ (id' = id ∧ d ∈ ds ∧ d ∉ seen).
Proof.
  revert seen ws. induction ds as [|d0 ds IH]; intros seen ws; cbn [watch_loop]; [set_solver|].
  case_decide; [rewrite IH; set_solver|]. rewrite IH. unfold watching.
  destruct (decide (d = d0)) as [->|].
  - rewrite lookup_insert_eq. cbn. set_solver.
  - rewrite lookup_insert_ne by done. set_solver.
Qed.

Lemma forget_loop_spec id seen ws os ds d id' :
  id' ∈ watching (forget_loop id seen ws os ds).1 d ↔
  id' ∈ watching ws d ∧ ¬ (id' = id ∧ d ∈ ds ∧ d ∉ seen).
Proof.
  revert seen ws os. induction ds as [|d0 ds IH]; intros seen ws os; cbn [forget_loop]; [set_solver|].
  case_decide; [rewrite IH; set_solver|].
  destruct (ws !! d0) as [ids|] eqn:Ew.
  2: { rewrite IH. unfold watching. destruct (decide (d = d0)) as [->|]; [rewrite Ew|]; set_solver. }
  assert (∀ x, x ∈ filter (λ known, known ≠ id) ids ↔ x ≠ id ∧ x ∈ ids) as Hf
    by (intros x; apply (list_elem_of_filter (λ known, known ≠ id))).
  destruct (filter _ ids) as [|i0 ids0]; rewrite IH; unfold watching;
    (destruct (decide (d = d0)) as [->|];
     [rewrite ?lookup_delete_eq, ?lookup_insert_eq, Ew; cbn
     |rewrite ?lookup_delete_ne, ?lookup_insert_ne by done]);
    specialize (Hf id'); set_solver.
Qed.

(** Outcomes that are still watched are kept. *)
Lemma forget_loop_outcomes id seen ws os ds d :
  (forget_loop id seen ws os ds).2 !! d = os !! d ∨
  (forget_loop id seen ws os ds).2 !! d = None.
Proof.
  revert seen ws os. induction ds as [|d0 ds IH]; intros seen ws os; cbn [forget_loop]; [by left|].
  case_decide; [apply IH|]. destruct (ws !! d0) as [ids|]; [|apply IH].
  destruct (filter _ ids); [|apply IH]. destruct (IH ({[d0]} ∪ seen) (delete d0 ws) (delete d0 os)) as [->|?]; [|by right].
  destruct (decide (d = d0)) as [->|]; [right; apply lookup_delete_eq|].
  left. by rewrite lookup_delete_ne.
Qed.

Lemma forget_batch_fields id t :
  statuses (forget_batch id t) = statuses t ∧ status_order (forget_batch id t) = status_order t ∧
  batch_digests (forget_batch id t) = delete id (batch_digests t) ∧
  pending_waiters (forget_batch id t) = delete id (pending_waiters t) ∧
  (∀ d id', id' ∈ watching (digest_watchers (forget_batch id t)) d ↔
     id' ∈ watching (digest_watchers t) d ∧
     ¬ (id' = id ∧ d ∈ default [] (batch_digests t !! id))) ∧
  (∀ d, digest_outcomes (forget_batch id t) !! d = digest_outcomes t !! d ∨
        digest_outcomes (forget_batch id t) !! d = None).
Proof.
  unfold forget_batch. destruct (batch_digests t !! id) as [ds|] eqn:E.
  - pose proof (forget_loop_spec id ∅ (digest_watchers t) (digest_outcomes t) ds) as Hs.
    pose proof (forget_loop_outcomes id ∅ (digest_watchers t) (digest_outcomes t) ds) as Ho.
    destruct (forget_loop _ _ _ _ _) as [ws os]. cbn in *. split_and!; try done.
    intros d id'. rewrite Hs. set_solver.
  - cbn. split_and!; try done; [by rewrite delete_id|set_solver|by left].
Qed.

Lemma forget_batch_wf X id t :
  tracker_wf X t → id ∈ X → tracker_wf (X ∖ {[id]}) (forget_batch id t).
Proof.
  intros [Htab Hdg Ha Hw Hp] HX.
  destruct (forget_batch_fields id t) as (Es & Eo & Eb & Ep & Ew & _).
  split; rewrite ?Es, ?Eo, ?Eb, ?Ep; try done.
  - intros id' ds Hl Hn. rewrite lookup_delete_Some in Hl. destruct Hl. apply Hdg; set_solver.
  - intros id' l Hl. destruct (Ha _ _ Hl) as [Hb Hn]. rewrite lookup_delete_ne by set_solver. set_solver.
  - intros d id'. rewrite Ew, Hw. setoid_rewrite lookup_delete_Some. split.
    + intros [(ds & Hl & Hin) Hn]. exists ds. split_and!; try done. intros ->.
      rewrite Hl in Hn. set_solver.
    + intros (ds & (Hne & Hl) & Hin). split; [by exists ds|]. intros [-> _]. done.
  - rewrite !dom_delete_L. set_solver.
Qed.

Lemma forget_expired_wf expired X t :
  tracker_wf X t → (∀ id, id ∈ expired → id ∈ X) → NoDup expired →
  tracker_wf (X ∖ list_to_set expired) (forget_expired_batches expired t).
Proof.
  unfold forget_expired_batches. revert X t.
  induction expired as [|id expired IH]; intros X t Ht Hin Hnd; cbn.
  { by rewrite difference_empty_L. }
  apply NoDup_cons in Hnd as [Hni Hnd].
  replace (X ∖ ({[id]} ∪ list_to_set expired)) with ((X ∖ {[id]}) ∖ list_to_set expired) by set_solver.
  apply IH; [apply forget_batch_wf; [done|set_solver]|set_solver|done].
Qed.

Lemma forget_expired_digests expired t id :
  id ∉ expired → batch_digests (forget_expired_batches expired t) !! id = batch_digests t !! id.
Proof.
  unfold forget_expired_batches. revert t. induction expired as [|x expired IH]; intros t Hni; cbn; [done|].
  rewrite IH by set_solver. destruct (forget_batch_fields x t) as (_ & _ & -> & _).
  apply lookup_delete_ne. set_solver.
Qed.

Lemma expire_loop_stop sts order expired :
  Z.of_nat (size sts) ≤ MAX_STATUS_ENTRIES → expire_loop sts order expired = (sts, order, expired).
Proof. intros Hs. destruct order; [done|]. cbn. by rewrite (proj2 (Z.ltb_ge _ _)) by lia. Qed.

Lemma remember_known sts order id s :
  status_table sts order → is_Some (sts !! id) →
  remember_status sts order id s = (<[id:=s]> sts, order, []) ∧ status_table (<[id:=s]> sts) order.
Proof.
  intros (Hn & Hd & Hs) Hin. unfold remember_status. rewrite decide_True by done.
  assert (size (<[id:=s]> sts) = size sts) as Hsz by (destruct Hin; by eapply map_size_insert_Some).
  assert (id ∈ dom sts) by by apply elem_of_dom.
  rewrite expire_loop_stop by by rewrite Hsz. split; [done|]. split_and!; [done| |by rewrite Hsz].
  rewrite dom_insert_L, Hd. set_solver.
Qed.

Lemma fresh_order sts order id :
  status_table sts order → sts !! id = None → id ∉ order ∧ NoDup (order ++ [id]).
Proof.
  intros (Hn & Hd & _) Hf. apply not_elem_of_dom in Hf. rewrite Hd, elem_of_list_to_set in Hf.
  split; [done|]. apply NoDup_app. split_and!; [done|set_solver|apply NoDup_singleton].
Qed.

Lemma remember_room sts order id s :
  status_table sts order → sts !! id = None → Z.of_nat (size sts) < MAX_STATUS_ENTRIES →
  remember_status sts order id s = (<[id:=s]> sts, order ++ [id], []) ∧
  status_table (<[id:=s]> sts) (order ++ [id]).
Proof.
  intros Ht Hf Hs. destruct (fresh_order _ _ _ Ht Hf) as [_ Hnd]. destruct Ht as (_ & Hd & _).
  unfold remember_status. rewrite decide_False by (rewrite Hf; by intros [? ?]).
  assert (size (<[id:=s]> sts) = S (size sts)) as Hsz by by apply map_size_insert_None.
  rewrite expire_loop_stop by (rewrite Hsz; lia). split; [done|].
  split_and!; [done| |rewrite Hsz; lia]. rewrite dom_insert_L, Hd, list_to_set_app_L. set_solver.
Qed.

Lemma remember_full sts order id s :
  status_table sts order → sts !! id = None → Z.of_nat (size sts) = MAX_STATUS_ENTRIES →
  ∃ x order0, order = x :: order0 ∧ x ≠ id ∧
    remember_status sts order id s = (delete x (<[id:=s]> sts), order0 ++ [id], [x]) ∧
    status_table (delete x (<[id:=s]> sts)) (order0 ++ [id]).
Proof.
  intros Ht Hf Hs. destruct (fresh_order _ _ _ Ht Hf) as [Hno Hnd]. destruct Ht as (_ & Hd & _).
  destruct order as [|x order].
  { rewrite list_to_set_nil in Hd. apply dom_empty_inv_L in Hd as ->.
    by rewrite map_size_empty in Hs. }
  apply not_elem_of_cons in Hno as [Hne Hno]. cbn in Hnd. apply NoDup_cons in Hnd as [Hx Hnd].
  exists x, order. split_and!; [done|done| |].
  all: assert (size (<[id:=s]> sts) = S (size sts)) as Hsz by by apply map_size_insert_None.
  all: assert (size (delete x (<[id:=s]> sts)) = size sts) as Hsz2
    by (rewrite map_size_delete_Some, Hsz;
        [done|rewrite lookup_insert_ne by done; apply elem_of_dom; rewrite Hd; set_solver]).
  - unfold remember_status. rewrite decide_False by (rewrite Hf; by intros [? ?]).
    cbn [app expire_loop]. rewrite Hsz, (proj2 (Z.ltb_lt _ _)) by lia.
    by rewrite expire_loop_stop by (rewrite Hsz2; lia).
  - split_and!; [done| |rewrite Hsz2; lia].
    rewrite dom_delete_L, dom_insert_L, Hd, list_to_set_app_L. set_solver.
Qed.

(** [remember_status] keeps the table within its bound by expiring the oldest
    batch, never the one just written. *)
Lemma remember_status_spec sts order id s :
  status_table sts order →
  ∃ sts' order' expired, remember_status sts order id s = (sts', order', expired) ∧
    status_table sts' order' ∧ NoDup expired ∧ id ∉ expired ∧ sts' !! id = Some s ∧
    (∀ id', id' ≠ id → sts' !! id' = if decide (id' ∈ expired) then None else sts !! id') ∧
    (is_Some (sts !! id) → expired = []).
Proof.
  intros Ht. destruct (sts !! id) as [s0|] eqn:E; [|destruct (decide (Z.of_nat (size sts) < MAX_STATUS_ENTRIES))].
  - destruct (remember_known sts order id s Ht ltac:(by rewrite E)) as [-> Ht'].
    eexists _, _, []. split_and!; [done|done|constructor|set_solver|apply lookup_insert_eq| |done].
    intros id' ?. by rewrite lookup_insert_ne.
  - destruct (remember_room sts order id s Ht E) as [-> Ht']; [done|].
    eexists _, _, []. split_and!; [done|done|constructor|set_solver|apply lookup_insert_eq| |done].
    intros id' ?. by rewrite lookup_insert_ne.
  - destruct (remember_full sts order id s Ht E) as (x & o & -> & Hne & -> & Ht').
    { destruct Ht as (_ & _ & ?). lia. }
    eexists _, _, [x]. split_and!; [done|done|apply NoDup_singleton|set_solver| | |by intros [? ?]].
    + rewrite lookup_delete_ne by done. apply lookup_insert_eq.
    + intros id' Hne'. case_decide as Hx.
      * assert (id' = x) as -> by set_solver. apply lookup_delete_eq.
      * rewrite lookup_delete_ne, lookup_insert_ne by set_solver. done.
Qed.

(** ** Invariant of the tables *)

Lemma send_pending_spec pending id s :
  send_pending_waiters pending id s =
    match tx_status_from_batch s with
    | None => (pending, [])
    | Some x => (delete id pending, (λ w, SendTxStatus w x) <$> default [] (pending !! id))
    end.
Proof.
  unfold send_pending_waiters. destruct (tx_status_from_batch s); [|done].
  destruct (pending !! id) eqn:E; [done|]. cbn. by rewrite delete_id.
Qed.

Lemma terminal_status ds os s :
  batch_status_from_outcomes ds os = Some s → ∃ x, tx_status_from_batch s = Some x.
Proof.
  unfold batch_status_from_outcomes. destruct (collect_outcomes _ _ _ _ _) as [[[inc fil] h]|]; [|done].
  cbn. intros. repeat case_match; simplify_eq/=; eauto.
Qed.

(** Resolving a batch: its final status is recorded, all its waiters are told,
    and it is no longer tracked; no other batch is affected. *)
Lemma resolve_terminal id t ds s :
  tracker_inv t → batch_digests t !! id = Some ds →
  batch_status_from_outcomes ds (digest_outcomes t) = Some s →
  ∃ x, tx_status_from_batch s = Some x ∧
    resolve_batch_if_terminal id t
    = (forget_batch id (mkTracker (<[id:=s]> (statuses t)) (status_order t) (batch_digests t)
         (digest_watchers t) (digest_outcomes t) (delete id (pending_waiters t))),
       (λ w, SendTxStatus w x) <$> default [] (pending_waiters t !! id)) ∧
    status_table (<[id:=s]> (statuses t)) (status_order t).
Proof.
  intros Ht Hd Hs. destruct (terminal_status _ _ _ Hs) as [x Hx]. exists x.
  assert (is_Some (statuses t !! id)) as Hin.
  { rewrite (tw_digests _ _ Ht _ _ Hd); [by eexists|set_solver]. }
  destruct (remember_known _ _ id s (tw_table _ _ Ht) Hin) as [Hr Htab].
  unfold resolve_batch_if_terminal. rewrite Hd, Hs, Hr, lookup_insert_eq, send_pending_spec, Hx.
  done.
Qed.

Lemma resolve_wf id t : tracker_inv t → tracker_inv (resolve_batch_if_terminal id t).1.
Proof.
  intros Ht. destruct (batch_digests t !! id) as [ds|] eqn:Ed.
  2: { unfold resolve_batch_if_terminal. by rewrite Ed. }
  destruct (batch_status_from_outcomes ds (digest_outcomes t)) as [s|] eqn:Es.
  2: { unfold resolve_batch_if_terminal. by rewrite Ed, Es. }
  destruct (resolve_terminal id t ds s Ht Ed Es) as (x & Hx & -> & Htab). cbn [fst].
  replace ∅ with ({[id]} ∖ {[id]} : gset string) by set_solver.
  apply forget_batch_wf; [|set_solver]. destruct Ht as [_ Hdg Ha Hw Hp]. split; cbn.
  - done.
  - intros id' ds' Hl Hne. rewrite lookup_insert_ne by set_solver. apply Hdg; [done|set_solver].
  - intros id' l. destruct (decide (id' = id)) as [->|].
    + rewrite lookup_insert_eq. intros [= ->]. by cbn in Hx.
    + rewrite lookup_insert_ne by done. intros Hl. destruct (Ha _ _ Hl). set_solver.
  - done.
  - rewrite dom_delete_L. set_solver.
Qed.

Lemma resolve_all_wf ids t : tracker_inv t → tracker_inv (resolve_all ids t).1.
Proof.
  revert t. induction ids as [|id ids IH]; intros t Ht; cbn [resolve_all]; [done|].
  pose proof (resolve_wf id t Ht) as Hr. destruct (resolve_batch_if_terminal id t) as [t1 es].
  specialize (IH t1 Hr). by destruct (resolve_all ids t1).
Qed.

Lemma set_outcome_wf X d o t : tracker_wf X t → tracker_wf X (set_outcome d o t).
Proof. by intros [? ? ? ? ?]. Qed.

Lemma record_outcomes_wf f ds t known :
  tracker_inv t → tracker_inv (record_outcomes f ds t known).1.
Proof.
  revert t known. induction ds as [|d ds IH]; intros t known Ht; cbn; [done|].
  by apply IH, set_outcome_wf.
Qed.

Lemma report_loop_wf cfg h fin rem t known bs :
  tracker_inv t → tracker_inv (report_loop cfg h fin rem t known bs).1.1.2.
Proof.
  revert rem t known. induction bs as [|b bs IH]; intros rem t known Ht; cbn [report_loop]; [done|].
  set (ids := elements _). destruct (existsb _ _); [|destruct (_ <=? h); [|by apply IH]].
  all: match goal with |- context [record_outcomes ?f _ _ _] =>
         pose proof (record_outcomes_wf f (pb_digests b) t known Ht) as Hr end.
  all: destruct (record_outcomes _ _ _ _) as [t1 k1]; pose proof (resolve_all_wf ids t1 Hr) as Ha;
       destruct (resolve_all _ _) as [t2 es]; specialize (IH rem t2 k1 Ha);
       by destruct (report_loop _ _ _ _ _ _ _) as [[[r t3] k] es'].
Qed.

Lemma push_waiter_wf id result t :
  tracker_inv t → is_Some (batch_digests t !! id) →
  tracker_inv (mkTracker (statuses t) (status_order t) (batch_digests t) (digest_watchers t)
    (digest_outcomes t) (push_waiter id result (pending_waiters t))).
Proof.
  intros [? ? ? ? Hp] Hb%elem_of_dom. split; try done. cbn.
  destruct result; cbn; [rewrite dom_insert_L|]; set_solver.
Qed.

(** Accepting a new batch. *)
Lemma track_batch_wf id ds t sts order expired :
  tracker_inv t → statuses t !! id = None →
  remember_status (statuses t) (status_order t) id (accepted_status ds) = (sts, order, expired) →
  tracker_inv (forget_expired_batches expired
    (mkTracker sts order (<[id:=ds]> (batch_digests t)) (watch_batch id ds (digest_watchers t))
       (digest_outcomes t) (pending_waiters t))) ∧ id ∉ expired.
Proof.
  intros Ht Hnew Hrem. destruct (remember_status_spec _ _ id (accepted_status ds) (tw_table _ _ Ht))
    as (sts' & order' & exp' & Hr & Htab & Hnd & Hni & Hid & Hoth & _).
  rewrite Hrem in Hr. simplify_eq. split; [|done]. destruct Ht as [_ Hdg Ha Hw Hp].
  assert (batch_digests t !! id = None) as Hbn.
  { destruct (batch_digests t !! id) as [ds'|] eqn:E; [|done]. apply Hdg in E; [congruence|set_solver]. }
  replace ∅ with (list_to_set exp' ∖ list_to_set exp' : gset string) by set_solver.
  apply forget_expired_wf; [|by intros id' ?; apply elem_of_list_to_set|done]. split; cbn.
  - done.
  - intros id' ds' Hl Hne. rewrite elem_of_list_to_set in Hne.
    apply lookup_insert_Some in Hl as [[<- <-]|[Hn Hl]]; [done|].
    rewrite Hoth by done. rewrite decide_False by done. apply Hdg; [done|set_solver].
  - intros id' l Hl. rewrite elem_of_list_to_set. destruct (decide (id' = id)) as [->|Hn].
    + rewrite lookup_insert_eq. by split.
    + rewrite Hoth in Hl by done. case_decide; [done|]. rewrite lookup_insert_ne by done.
      split; [|done]. by destruct (Ha _ _ Hl).
  - intros d id'. unfold watch_batch. rewrite watch_loop_spec, Hw. setoid_rewrite lookup_insert_Some.
    destruct (decide (id' = id)) as [->|]; set_solver.
  - rewrite dom_insert_L. set_solver.
Qed.

Lemma handle_tracker_inv cfg a m :
  tracker_inv (tracker a) → tracker_inv (tracker (handle cfg a m).1).
Proof.
  intros Ht. destruct m as [id ds txs bytes result ingest| | |h w|b|]; cbn [handle fst tracker]; try done.
  - unfold handle_submit. destruct (statuses (tracker a) !! id) as [st|] eqn:Est.
    + destruct (tx_status_from_batch st) eqn:Etx; [done|]. cbn. apply push_waiter_wf; [done|].
      destruct st; try done. by eapply tw_accepted.
    + destruct (new_transactions txs (known_digests a)) as [fresh known].
      case_match; [done|]. destruct (remember_status _ _ _ _) as [[sts order] expired] eqn:Er.
      destruct (track_batch_wf id ds _ _ _ _ Ht Est Er) as [Hwf Hni].
      destruct fresh; cbn [fst tracker]; (apply push_waiter_wf; [done|]);
        rewrite forget_expired_digests by done; cbn; rewrite lookup_insert_eq; by eexists.
  - unfold handle_propose. by destruct (drain_loop _ _ _ _ _ _ _) as [[[? ?] ?] ?].
  - unfold handle_report.
    pose proof (report_loop_wf cfg (height (header (inner b))) (finalized_digests b) [] (tracker a)
      (known_digests a) (proposed a) Ht) as Hr.
    by destruct (report_loop _ _ _ _ _ _ _) as [[[r t3] k] es].
Qed.

Lemma tracker_new_inv : tracker_inv tracker_new.
Proof.
  split; cbn; try done.
  - split_and!; [constructor|set_solver|]. rewrite map_size_empty. done.
  - intros d id. unfold watching. rewrite lookup_empty. cbn.
    split; [set_solver|]. intros (ds & Hl & _). by rewrite lookup_empty in Hl.
Qed.

End tracker.

Abbreviation tracker_inv := (tracker_wf ∅).

(** ** Truth of the reported statuses *)

Section soundness.
Context `{LazyKey} `{ConsensusLib}.

(** What a status asserts, given the finalizations [R] seen so far. *)
Definition all_finalized (R : digest → Z → Prop) (h : Z) (included : list string) : Prop :=
  Forall (λ x, ∃ d h', x = digest_to_string d ∧ R d h' ∧ h' ≤ h) included.
Definition status_sound (R : digest → Z → Prop) (s : BatchStatus) : Prop :=
  match s with
  | Accepted _ | Dropped _ => True
  | Finalized h included | PartiallyFinalized h included _ => all_finalized R h included
  end.

Record sound (R : digest → Z → Prop) (t : Tracker) : Prop := {
  so_outcomes d h : digest_outcomes t !! d = Some (DigestFinalized h) → R d h;
  so_statuses id s : statuses t !! id = Some s → status_sound R s
}.

Lemma sound_mono (R R' : digest → Z → Prop) t : (∀ d h, R d h → R' d h) → sound R t → sound R' t.
Proof.
  intros HR [Ho Hs]. split; [eauto|]. intros id s Hl. apply Hs in Hl.
  destruct s; cbn in *; try done; (eapply Forall_impl; [done|]); cbn; naive_solver.
Qed.

Lemma collect_outcomes_sound R os inc fil h ds inc' fil' h' :
  (∀ d h, os !! d = Some (DigestFinalized h) → R d h) →
  all_finalized R h inc → collect_outcomes os inc fil h ds = Some (inc', fil', h') →
  all_finalized R h' inc'.
Proof.
  intros Ho. revert inc fil h. induction ds as [|d ds IH]; intros inc fil h Hi; cbn.
  { by intros [= <- <- <-]. }
  destruct (os !! d) as [[hd|]|] eqn:E; [|by apply IH|done]. apply IH. apply Forall_app; split.
  - eapply Forall_impl; [done|]. cbn. intros x (d' & h0 & ? & ? & ?). exists d', h0. split_and!; [done..|lia].
  - repeat constructor. exists d, hd. split_and!; [done|by apply Ho|lia].
Qed.

Lemma batch_status_sound R t ds s :
  sound R t → batch_status_from_outcomes ds (digest_outcomes t) = Some s → status_sound R s.
Proof.
  intros [Ho _]. unfold batch_status_from_outcomes.
  destruct (collect_outcomes _ _ _ _ _) as [[[inc fil] h]|] eqn:E; [|done]. cbn.
  apply (collect_outcomes_sound R) in E; [|done|constructor].
  intros. repeat case_match; by simplify_eq.
Qed.

Lemma forget_batch_sound R id t : sound R t → sound R (forget_batch id t).
Proof.
  intros [Ho Hs]. destruct (forget_batch_fields id t) as (Es & _ & _ & _ & _ & Eo).
  split; [|by rewrite Es]. intros d h Hl. destruct (Eo d) as [He|He]; rewrite He in Hl; [by apply Ho|done].
Qed.

Lemma forget_expired_sound R expired t : sound R t → sound R (forget_expired_batches expired t).
Proof.
  unfold forget_expired_batches. revert t. induction expired as [|id e IH]; intros t Ht; cbn; [done|].
  by apply IH, forget_batch_sound.
Qed.

Lemma remember_sound (P : BatchStatus → Prop) sts order id s :
  status_table sts order → (∀ i x, sts !! i = Some x → P x) → P s →
  ∀ i x, (remember_status sts order id s).1.1 !! i = Some x → P x.
Proof.
  intros Ht Hp Hs i x. destruct (remember_status_spec sts order id s Ht)
    as (sts' & order' & e & -> & _ & _ & _ & Hid & Ho & _). cbn.
  destruct (decide (i = id)) as [->|]; [rewrite Hid; by intros [= <-]|].
  rewrite Ho by done. case_decide; [done|]. apply Hp.
Qed.

Lemma resolve_sound R id t :
  tracker_inv t → sound R t → sound R (resolve_batch_if_terminal id t).1.
Proof.
  intros Ht Hs. destruct (batch_digests t !! id) as [ds|] eqn:Ed.
  2: { unfold resolve_batch_if_terminal. by rewrite Ed. }
  destruct (batch_status_from_outcomes ds (digest_outcomes t)) as [s|] eqn:Es.
  2: { unfold resolve_batch_if_terminal. by rewrite Ed, Es. }
  destruct (resolve_terminal id t ds s Ht Ed Es) as (x & Hx & -> & Htab). cbn [fst].
  apply forget_batch_sound. pose proof (batch_status_sound R t ds s Hs Es). destruct Hs as [Ho Hst].
  split; cbn; [done|]. intros i x' [[<- <-]|[_ Hl]]%lookup_insert_Some; [done|by eapply Hst].
Qed.

Lemma resolve_all_sound R ids t :
  tracker_inv t → sound R t → sound R (resolve_all ids t).1.
Proof.
  revert t. induction ids as [|id ids IH]; intros t Ht Hs; cbn [resolve_all]; [done|].
  pose proof (resolve_wf id t Ht) as Hw. pose proof (resolve_sound R id t Ht Hs) as Hs1.
  destruct (resolve_batch_if_terminal id t) as [t1 es]. specialize (IH t1 Hw Hs1).
  by destruct (resolve_all ids t1).
Qed.

Lemma record_outcomes_sound R f ds t known :
  (∀ d h, f d = DigestFinalized h → R d h) → sound R t → sound R (record_outcomes f ds t known).1.
Proof.
  intros Hf. revert t known. induction ds as [|d ds IH]; intros t known Ht; cbn; [done|].
  apply IH. destruct Ht as [Ho Hs]. split; [cbn|done].
  intros d' h [[<- Hfd]|[_ Hl]]%lookup_insert_Some; [by apply Hf|by apply Ho].
Qed.

Lemma report_loop_sound R cfg h fin rem t known bs :
  (∀ d, d ∈ fin → R d h) → tracker_inv t → sound R t →
  sound R (report_loop cfg h fin rem t known bs).1.1.2.
Proof.
  intros HR. revert rem t known. induction bs as [|b bs IH]; intros rem t known Ht Hs; cbn [report_loop]; [done|].
  set (ids := elements _). destruct (existsb _ _); [|destruct (_ <=? h); [|by apply IH]].
  all: match goal with |- context [record_outcomes ?f _ _ _] =>
         pose proof (record_outcomes_wf f (pb_digests b) t known Ht) as Hw;
         assert (sound R (record_outcomes f (pb_digests b) t known).1) as Hr
           by (apply record_outcomes_sound; [intros d h'; repeat case_decide; intros; simplify_eq; auto|done]) end.
  all: destruct (record_outcomes _ _ _ _) as [t1 k1]; pose proof (resolve_all_wf ids t1 Hw) as Hw2;
       pose proof (resolve_all_sound R ids t1 Hw Hr) as Hr2;
       destruct (resolve_all _ _) as [t2 es]; specialize (IH rem t2 k1 Hw2 Hr2);
       by destruct (report_loop _ _ _ _ _ _ _) as [[[r t3] k] es'].
Qed.

(** The finalizations one message reports. *)
Definition reports (m : Message) (d : digest) (h : Z) : Prop :=
  match m with
  | ReportBlock b => d ∈ finalized_digests b ∧ height (header (inner b)) = h
  | _ => False
  end.

Lemma handle_sound R cfg a m :
  (∀ d h, reports m d h → R d h) → tracker_inv (tracker a) → sound R (tracker a) →
  sound R (tracker (handle cfg a m).1).
Proof.
  intros HR Ht Hs. destruct m as [id ds txs bytes result ingest| | |h w|b|]; cbn [handle fst tracker]; try done.
  - unfold handle_submit. destruct (statuses (tracker a) !! id) as [st|] eqn:Est.
    + destruct (tx_status_from_batch st); [done|]. by destruct Hs.
    + destruct (new_transactions txs (known_digests a)) as [fresh known].
      case_match; [done|].
      pose proof (remember_sound (status_sound R) _ _ id (accepted_status ds) (tw_table _ _ Ht)
        (so_statuses _ _ Hs) I) as Hrem.
      destruct (remember_status _ _ _ _) as [[sts order] expired].
      set (t1 := mkTracker sts order _ _ _ _).
      assert (sound R t1) as H1' by (destruct Hs; by split).
      apply (forget_expired_sound R expired) in H1'. destruct H1'.
      by destruct fresh; split.
  - unfold handle_propose. by destruct (drain_loop _ _ _ _ _ _ _) as [[[? ?] ?] ?].
  - unfold handle_report.
    assert (sound R (report_loop cfg (height (header (inner b))) (finalized_digests b) [] (tracker a)
      (known_digests a) (proposed a)).1.1.2) as Hr.
    { apply report_loop_sound; [|done..]. intros d Hd. by apply HR. }
    by destruct (report_loop _ _ _ _ _ _ _) as [[[r t3] k] es].
Qed.

End soundness.

(** ** Bounds of a proposal *)

Section bounds.
Context `{LazyKey} `{ConsensusLib}.

(** Once something is taken, entries are taken while they fit. *)
Lemma drain_loop_fits cfg h p bytes prop txs n taken rest :
  txs ≠ [] → 0 ≤ n → Forall (λ e, 0 ≤ total_bytes e) p → n + sumZ (total_bytes <$> p) ≤ u64_max →
  p = taken ++ rest → (drain_loop cfg h p bytes prop txs n).1.1.1 = rest →
  (taken = [] ∨ n + sumZ (total_bytes <$> taken) ≤ max_propose_bytes cfg) ∧
  (∀ e rest', rest = e :: rest' → max_propose_bytes cfg < n + sumZ (total_bytes <$> taken) + total_bytes e).
Proof.
  intros Ht Hn Hp. revert bytes prop txs n taken Ht Hn.
  induction Hp as [|e p He Hp IH]; intros bytes prop txs n taken Ht Hn Hs Hsplit; cbn [drain_loop].
  { intros <-. destruct taken; [|done]. split; [by left|done]. }
  assert (0 ≤ sumZ (total_bytes <$> p)) by (apply sumZ_nonneg; by apply Forall_fmap).
  cbn in Hs. rewrite bool_decide_eq_true_2, andb_true_r by done.
  rewrite wrap64_id by (unfold is_u64; lia).
  destruct (Z.ltb_spec (max_propose_bytes cfg) (n + total_bytes e)); cbn [fst].
  - intros <-. assert (taken = []) as ->.
    { apply (f_equal length) in Hsplit. rewrite length_app in Hsplit. cbn in Hsplit. destruct taken; [done|]. cbn in *. lia. }
    split; [by left|]. intros e' r [= <- <-]. cbn. lia.
  - intros Hr. destruct taken as [|e0 taken].
    { exfalso. cbn in Hsplit. destruct (drain_loop_spec cfg h p (wrap64 (bytes - total_bytes e))
        (prop ++ [mkProposed h (message_digest <$> transactions e)]) (txs ++ transactions e) (n + total_bytes e))
        as (tk & rs & -> & Hd & _). rewrite Hd in Hr. cbn in Hr. subst rs.
      apply (f_equal length) in Hsplit. cbn in Hsplit. rewrite length_app in Hsplit. lia. }
    cbn in Hsplit. injection Hsplit as <- Hsplit.
    destruct (IH _ _ (txs ++ transactions e) (n + total_bytes e) taken ltac:(by destruct txs) ltac:(lia)
      ltac:(lia) Hsplit Hr) as [Hfit Hmax].
    split.
    + right. cbn. destruct Hfit as [->|?]; cbn; lia.
    + intros e' r Hr'. specialize (Hmax e' r Hr'). cbn. lia.
Qed.

Lemma handle_propose_fits cfg a h w :
  cfg_wf cfg → pool_inv cfg a →
  ∃ taken rest, pool a = taken ++ rest ∧
    handle_propose cfg a h w =
      (mkActor rest (sumZ (total_bytes <$> rest))
         (proposed a ++ ((λ e, mkProposed h (entry_digests e)) <$> taken)) (tracker a)
         (known_digests a) (highest_consensus_round a),
       [SendProposal w (concat (transactions <$> taken))]) ∧
    (pool a ≠ [] → taken ≠ []) ∧
    (sumZ (total_bytes <$> taken) ≤ max_propose_bytes cfg ∨ (length taken ≤ 1)%nat) ∧
    (∀ e rest', rest = e :: rest' →
       max_propose_bytes cfg < sumZ (total_bytes <$> taken) + total_bytes e).
Proof.
  intros Hcfg Hinv. pose proof (handle_propose_pool cfg a h w Hcfg Hinv) as [Hb' _ _ _ _].
  destruct Hinv as [Hb He Hm _ _]. unfold handle_propose in *.
  destruct (drain_loop_spec cfg h (pool a) (pool_bytes a) (proposed a) [] 0)
    as (taken & rest & Hp & Hd & Hne).
  rewrite Hd in Hb' |- *. cbn in Hb'. rewrite Hb'. exists taken, rest.
  split_and!; [done|done|auto| |].
  all: unfold cfg_wf in Hcfg; destruct (pool a) as [|e p] eqn:Ep;
    [destruct taken; [|done]; cbn in Hp; subst rest; cbn; try (right; lia); done|].
  all: inversion He as [|? ? [He0 Hetx] He']; subst.
  all: destruct taken as [|e0 taken]; [by destruct (Hne eq_refl ltac:(done))|].
  all: cbn in Hp; injection Hp as <- Hp.
  all: cbn in Hb; cbn [drain_loop] in Hd; rewrite bool_decide_eq_false_2, andb_false_r in Hd by tauto.
  all: assert (Forall (λ e, 0 ≤ total_bytes e) p) as Hp0 by (eapply Forall_impl; [done|]; cbn; tauto).
  all: assert (0 ≤ sumZ (total_bytes <$> p)) by (apply sumZ_nonneg; by apply Forall_fmap).
  all: rewrite (wrap64_id (0 + total_bytes e)) in Hd by (unfold is_u64, u64_max; lia).
  all: edestruct (drain_loop_fits cfg h p) as [Hfit Hmax];
    [| |exact Hp0| |exact Hp|exact (f_equal (λ x, x.1.1.1) Hd)|]; [done|lia|unfold u64_max; lia|].
  - cbn. destruct Hfit as [->|?]; [right; cbn; lia|left; lia].
  - intros e' r Hr. specialize (Hmax e' r Hr). cbn. lia.
Qed.

End bounds.

(** ** Runs *)

Section runs.
Context `{LazyKey} `{ConsensusLib}.

(** An invariant of single steps holds along every run. *)
Lemma run_actor_ind (P : list Message → Actor → Prop) cfg a ms0 :
  P ms0 a → (∀ ms a m, P ms a → P (ms ++ [m]) (handle cfg a m).1) →
  ∀ ms, P (ms0 ++ ms) (run_actor cfg a ms).1.
Proof.
  intros Ha Hstep ms. revert ms0 a Ha. induction ms as [|m ms IH]; intros ms0 a Ha; cbn [run_actor].
  { by rewrite app_nil_r. }
  specialize (Hstep ms0 a m Ha) as Hm. destruct (handle cfg a m) as [a1 es]. cbn in Hm.
  specialize (IH (ms0 ++ [m]) a1 Hm). rewrite <- app_assoc in IH.
  by destruct (run_actor cfg a1 ms).
Qed.

Lemma actor_new_pool cfg : cfg_wf cfg → pool_inv cfg actor_new.
Proof. intros [? _]. split; cbn; try done. constructor. Qed.

Lemma run_tracker_inv cfg ms : tracker_inv (tracker (run_actor cfg actor_new ms).1).
Proof.
  apply (run_actor_ind (λ _ a, tracker_inv (tracker a)) cfg actor_new [] tracker_new_inv).
  intros _ a m. apply handle_tracker_inv.
Qed.

End runs.

(** ** Properties *)

Section properties.
Context `{LazyKey} `{ConsensusLib}.

(** C20. Pool invariant: after any sequence of messages the byte counter is the
    sum of the pooled entries and never exceeds the configured maximum, no
    counter has wrapped, and each live transaction (pooled or proposed and
    unsettled) is held exactly once, the set of known digests being exactly
    those. *)
Theorem mempool_pool_bounded cfg ms :
  cfg_wf cfg → Forall message_wf ms →
  let a := (run_actor cfg actor_new ms).1 in
  pool_bytes a = sumZ (total_bytes <$> pool a) ∧ 0 ≤ pool_bytes a ≤ max_pool_bytes cfg ∧
  NoDup (live_digests a) ∧ known_digests a = list_to_set (live_digests a).
Proof.
  intros Hcfg Hms a.
  assert (Forall message_wf ms → pool_inv cfg a) as Hinv.
  { apply (run_actor_ind (λ ms a, Forall message_wf ms → pool_inv cfg a) cfg actor_new []).
    - intros _. by apply actor_new_pool.
    - intros ms' a' m IH [Hms' Hm]%Forall_app. apply handle_pool_inv; [done|by inversion Hm|auto]. }
  destruct (Hinv Hms) as [Hb He Hm Hn Hk]. split_and!; try done.
  rewrite Hb. apply sumZ_nonneg, Forall_fmap. eapply Forall_impl; [done|]. cbn. tauto.
Qed.

(** The batch tables stay consistent and bounded: after any sequence of
    messages at most a million statuses are kept, in insertion order without
    duplicates; exactly the batches still marked accepted are tracked; a batch
    watches a digest exactly when it contains it; and waiters exist only for
    tracked batches. *)
Theorem mempool_tables_consistent cfg ms :
  let t := tracker (run_actor cfg actor_new ms).1 in
  Z.of_nat (size (statuses t)) ≤ MAX_STATUS_ENTRIES ∧
  NoDup (status_order t) ∧ dom (statuses t) = list_to_set (status_order t) ∧
  (∀ id, is_Some (batch_digests t !! id) ↔ ∃ l, statuses t !! id = Some (Accepted l)) ∧
  (∀ d id, id ∈ watching (digest_watchers t) d ↔ ∃ ds, batch_digests t !! id = Some ds ∧ d ∈ ds) ∧
  dom (pending_waiters t) ⊆ dom (batch_digests t).
Proof.
  intros t. destruct (run_tracker_inv cfg ms) as [(Hn & Hd & Hs) Hdg Ha Hw Hp].
  split_and!; try done. intros id. split.
  - intros [ds Hl]. apply Hdg in Hl; [by eexists|set_solver].
  - intros [l Hl]. by apply Ha in Hl as [? _].
Qed.

(** C21. Reported finality is true: whatever status the actor holds after any
    sequence of messages, a digest it lists as included was contained in a
    finalized block it had been told about, of a height not above the reported
    one. *)
Theorem mempool_finality_sound cfg ms id s :
  statuses (tracker (run_actor cfg actor_new ms).1) !! id = Some s →
  status_sound (λ d h, ∃ b, ReportBlock b ∈ ms ∧ d ∈ finalized_digests b ∧
                            height (header (inner b)) = h) s.
Proof.
  set (R := λ (ms : list Message) d h, ∃ b, ReportBlock b ∈ ms ∧ d ∈ finalized_digests b ∧ height (header (inner b)) = h).
  change (statuses (tracker (run_actor cfg actor_new ms).1) !! id = Some s → status_sound (R ms) s).
  assert (tracker_inv (tracker (run_actor cfg actor_new ms).1) ∧
          sound (R ms) (tracker (run_actor cfg actor_new ms).1)) as [_ [_ Hs]]; [|apply Hs].
  apply (run_actor_ind (λ ms a, tracker_inv (tracker a) ∧ sound (R ms) (tracker a)) cfg actor_new []).
  - split; [apply tracker_new_inv|]. split; cbn; intros ? ?; by rewrite lookup_empty.
  - intros ms' a m [Ht Hso]. split; [by apply handle_tracker_inv|]. apply handle_sound; [|done|].
    + intros d h Hr. destruct m; try done. destruct Hr as [Hd Hh]. exists block. set_solver.
    + eapply sound_mono; [|done]. intros d h (b & Hb & ?). exists b. set_solver.
Qed.

(** Proposals are FIFO and bounded: a proposal takes the longest prefix of
    the pool that fits the byte budget (one entry at least when the pool is
    not empty), returns its transactions in order, remembers one proposed batch
    per entry and leaves the rest of the pool and the byte count exact. *)
Theorem mempool_propose_fifo cfg a h w :
  cfg_wf cfg → pool_inv cfg a →
  ∃ taken rest, pool a = taken ++ rest ∧
    handle_propose cfg a h w =
      (mkActor rest (sumZ (total_bytes <$> rest))
         (proposed a ++ ((λ e, mkProposed h (entry_digests e)) <$> taken)) (tracker a)
         (known_digests a) (highest_consensus_round a),
       [SendProposal w (concat (transactions <$> taken))]) ∧
    (pool a ≠ [] → taken ≠ []) ∧
    (sumZ (total_bytes <$> taken) ≤ max_propose_bytes cfg ∨ (length taken ≤ 1)%nat) ∧
    (∀ e rest', rest = e :: rest' →
       max_propose_bytes cfg < sumZ (total_bytes <$> taken) + total_bytes e).
Proof. apply handle_propose_fits. Qed.

(** A finalized block settles what it should: after a report of height
    [h], the proposed batches that remain, in their order, are those with no
    finalized digest whose grace period has not elapsed; the digests of the
    settled ones, and only those, stop being known; and the update is
    acknowledged last. *)
Theorem mempool_report_settles cfg a b :
  let h := height (header (inner b)) in
  let fin := finalized_digests b in
  let a' := (handle_report cfg a b).1 in
  proposed a' = filter (λ p, settles cfg h fin p = false) (proposed a) ∧
  known_digests a' = known_digests a ∖
    list_to_set (concat (pb_digests <$> filter (λ p, settles cfg h fin p = true) (proposed a))) ∧
  (∀ p, p ∈ proposed a' →
     (∀ d, d ∈ pb_digests p → d ∉ fin) ∧ h < wrap64 (pb_height p + drop_grace_blocks cfg)) ∧
  pool a' = pool a ∧ pool_bytes a' = pool_bytes a ∧
  last (handle_report cfg a b).2 = Some Acknowledge.
Proof.
  intros h fin a'. unfold a', handle_report. fold h fin.
  destruct (report_loop_batches cfg h fin [] (tracker a) (known_digests a) (proposed a)) as [Hr Hk].
  destruct (report_loop _ _ _ _ _ _ _) as [[[r t] k] es]. cbn in Hr, Hk |- *. subst r k.
  split_and!; try done; [|apply last_snoc].
  intros p [Hp _]%(list_elem_of_filter (λ p, settles cfg h fin p = false)).
  unfold settles in Hp. apply orb_false_iff in Hp as [He Hg]. zbool. split; [|done].
  intros d Hd Hf. assert (existsb (λ d, bool_decide (d ∈ fin)) (pb_digests p) = true); [|congruence].
  apply existsb_exists. exists d. split; [by apply list_elem_of_In|by apply bool_decide_eq_true].
Qed.

(** Resolving a batch is exact: when every digest of a tracked batch has
    an outcome, its final status is recorded, every waiter of the batch is
    sent that status, and the batch leaves the tables without touching the
    tracking of any other; while one outcome is missing nothing changes. *)
Theorem mempool_batch_resolution id t ds :
  tracker_inv t → batch_digests t !! id = Some ds →
  let '(t', es) := resolve_batch_if_terminal id t in
  match batch_status_from_outcomes ds (digest_outcomes t) with
  | None => t' = t ∧ es = []
  | Some s => ∃ x, tx_status_from_batch s = Some x ∧
      statuses t' = <[id:=s]> (statuses t) ∧
      es = (λ w, SendTxStatus w x) <$> default [] (pending_waiters t !! id) ∧
      batch_digests t' = delete id (batch_digests t) ∧
      pending_waiters t' = delete id (pending_waiters t) ∧
      (∀ d id', id' ∈ watching (digest_watchers t') d ↔ id' ∈ watching (digest_watchers t) d ∧ id' ≠ id)
  end.
Proof.
  intros Ht Hd. destruct (batch_status_from_outcomes ds (digest_outcomes t)) as [s|] eqn:Es.
  2: { unfold resolve_batch_if_terminal. by rewrite Hd, Es. }
  destruct (resolve_terminal id t ds s Ht Hd Es) as (x & Hx & -> & _).
  set (t1 := mkTracker _ _ _ _ _ _). destruct (forget_batch_fields id t1) as (E1 & _ & E3 & E4 & E5 & _).
  exists x. rewrite E1, E3, E4. cbn. split_and!; try done; [apply delete_delete_eq|].
  intros d id'. rewrite E5. cbn. rewrite Hd. cbn. split.
  - intros [Hin Hn]. split; [done|]. intros ->. apply Hn. split; [done|].
    apply (tw_watch _ _ Ht) in Hin as (ds' & ? & ?). by simplify_eq.
  - intros [Hin Hn]. split; [done|]. naive_solver.
Qed.

End properties.

(** ** Partition of a resolved batch *)

Section partition.
Context `{LazyKey} `{ConsensusLib}.

Definition finalized_at (os : gmap digest DigestOutcome) (d : digest) : option Z :=
  match os !! d with Some (DigestFinalized h) => Some h | _ => None end.
Definition was_finalized (os : gmap digest DigestOutcome) (d : digest) : bool :=
  match finalized_at os d with Some _ => true | None => false end.

Lemma collect_outcomes_spec os inc fil h ds :
  collect_outcomes os inc fil h ds =
    if forallb (λ d, bool_decide (is_Some (os !! d))) ds then
      Some (inc ++ (digest_to_string <$> filter (λ d, was_finalized os d = true) ds),
            fil ++ (digest_to_string <$> filter (λ d, was_finalized os d = false) ds),
            fold_left Z.max (omap (finalized_at os) ds) h)
    else None.
Proof.
  revert inc fil h. induction ds as [|d ds IH]; intros inc fil h; cbn [collect_outcomes forallb omap list_omap].
  { by rewrite !app_nil_r. }
  rewrite !filter_cons. destruct (os !! d) as [[hd|]|] eqn:E; [| |done].
  - assert (finalized_at os d = Some hd) as Hf by by (unfold finalized_at; rewrite E).
    assert (was_finalized os d = true) as Hw by by (unfold was_finalized; rewrite Hf).
    rewrite Hw, Hf, IH, decide_True, decide_False by done. cbn [andb bool_decide].
    rewrite bool_decide_eq_true_2 by by eexists. destruct (forallb _ ds); [|done].
    cbn. by rewrite <- !app_assoc.
  - assert (finalized_at os d = None) as Hf by by (unfold finalized_at; rewrite E).
    assert (was_finalized os d = false) as Hw by by (unfold was_finalized; rewrite Hf).
    rewrite Hw, Hf, IH, decide_False, decide_True by done.
    rewrite bool_decide_eq_true_2 by by eexists. destruct (forallb _ ds); [|done].
    cbn. by rewrite <- !app_assoc.
Qed.

(** A resolved batch is reported exactly: a status is produced only when
    every digest has an outcome, the included and filtered lists are the
    finalized and dropped digests in batch order, the height is the largest
    finalized height, and the variant says which of the two lists are empty. *)
Theorem batch_status_partition ds os :
  batch_status_from_outcomes ds os =
    if forallb (λ d, bool_decide (is_Some (os !! d))) ds then
      let included := digest_to_string <$> filter (λ d, was_finalized os d = true) ds in
      let filtered := digest_to_string <$> filter (λ d, was_finalized os d = false) ds in
      let h := fold_left Z.max (omap (finalized_at os) ds) 0 in
      Some (if decide (included = []) then Dropped filtered
            else if decide (filtered = []) then Finalized h included
            else PartiallyFinalized h included filtered)
    else None.
Proof.
  unfold batch_status_from_outcomes. rewrite collect_outcomes_spec. destruct (forallb _ ds); [|done].
  cbn. destruct (digest_to_string <$> filter _ ds) as [|x inc]; [done|].
  by destruct (digest_to_string <$> filter (λ d, was_finalized os d = false) ds).
Qed.

End partition.

(** ** Witnesses *)

Definition sample_cfg : Config := mkConfig 1000 400 2.
Definition sample_digest (i j v n : Z) : digest := message_digest (sample_signed i j v n).
Definition sample_report (h : Z) (txs : list SignedTransaction) : Message :=
  ReportBlock (seal_block (block_new (sample_header h (1000 + h) 0 1) txs)).
Definition tx_d : SignedTransaction := sample_signed 1 2 5 0.
Definition tx_e : SignedTransaction := sample_signed 2 3 7 0.
Definition tx_f : SignedTransaction := sample_signed 3 1 2 0.
Definition submit (id : string) (txs : list SignedTransaction) : Message :=
  Submit id (message_digest <$> txs) txs (147 * zlen txs) (Some 1%nat) None.

Definition sample_run : list Message :=
  [submit "A" [tx_d]; submit "B" [tx_d; tx_e]; Propose 1 2%nat; sample_report 1 [tx_d]].

Lemma sample_run_wf : Forall message_wf sample_run.
Proof. repeat constructor; vm_compute; done. Qed.

Lemma sample_cfg_wf : cfg_wf sample_cfg.
Proof. done. Qed.

Lemma mempool_pool_bounded_witness :
  pool_bytes (run_actor sample_cfg actor_new sample_run).1 ≤ 1000 ∧
  NoDup (live_digests (run_actor sample_cfg actor_new sample_run).1).
Proof.
  destruct (mempool_pool_bounded sample_cfg sample_run sample_cfg_wf sample_run_wf)
    as (_ & [_ Hm] & Hn & _). exact (conj Hm Hn).
Defined.

Lemma mempool_finality_sound_witness :
  status_sound (λ d h, ∃ b, ReportBlock b ∈ sample_run ∧ d ∈ finalized_digests b ∧
                            height (header (inner b)) = h)
    (Finalized 1 [digest_to_string (message_digest tx_d)]).
Proof.
  apply (mempool_finality_sound sample_cfg sample_run "A"). vm_compute. reflexivity.
Defined.

(** An actor with three pooled entries. *)
Definition sample_actor : Actor :=
  (run_actor sample_cfg actor_new [submit "A" [tx_d]; submit "B" [tx_e]; submit "C" [tx_f]]).1.

Lemma sample_actor_pool : pool_inv sample_cfg sample_actor.
Proof.
  unfold sample_actor. cbn [run_actor].
  repeat match goal with
  | |- context [let '(_, _) := handle ?c ?a ?m in _] =>
      let H := fresh in
      assert (pool_inv sample_cfg (handle c a m).1) as H;
      [apply handle_pool_inv; [exact sample_cfg_wf|vm_compute; done|first [assumption|apply actor_new_pool, sample_cfg_wf]]
      |destruct (handle c a m) as [? ?]; cbn [fst] in *]
  end. assumption.
Qed.

Lemma mempool_propose_fifo_witness :
  ∃ taken rest, pool sample_actor = taken ++ rest ∧
    handle_propose sample_cfg sample_actor 5 9%nat =
      (mkActor rest (sumZ (total_bytes <$> rest))
         (proposed sample_actor ++ ((λ e, mkProposed 5 (entry_digests e)) <$> taken)) (tracker sample_actor)
         (known_digests sample_actor) (highest_consensus_round sample_actor),
       [SendProposal 9%nat (concat (transactions <$> taken))]) ∧
    (pool sample_actor ≠ [] → taken ≠ []) ∧
    (sumZ (total_bytes <$> taken) ≤ max_propose_bytes sample_cfg ∨ (length taken ≤ 1)%nat) ∧
    (∀ e rest', rest = e :: rest' →
       max_propose_bytes sample_cfg < sumZ (total_bytes <$> taken) + total_bytes e).
Proof.
  apply (mempool_propose_fifo sample_cfg sample_actor 5 9%nat sample_cfg_wf sample_actor_pool).
Defined.

(** Batch A with the outcome of its only digest known. *)
Definition sample_tracker : Tracker :=
  set_outcome (message_digest tx_d) (DigestFinalized 1)
    (tracker (run_actor sample_cfg actor_new [submit "A" [tx_d]]).1).

Lemma sample_tracker_inv : tracker_inv sample_tracker.
Proof. apply set_outcome_wf, run_tracker_inv. Qed.

Lemma sample_tracker_digests : batch_digests sample_tracker !! "A" = Some [message_digest tx_d].
Proof. reflexivity. Qed.

Lemma sample_tracker_status :
  batch_status_from_outcomes [message_digest tx_d] (digest_outcomes sample_tracker)
  = Some (Finalized 1 [digest_to_string (message_digest tx_d)]).
Proof. vm_compute. reflexivity. Qed.

Lemma mempool_batch_resolution_witness :
  statuses (resolve_batch_if_terminal "A" sample_tracker).1 !! "A"
  = Some (Finalized 1 [digest_to_string (message_digest tx_d)]).
Proof.
  pose proof (mempool_batch_resolution "A" sample_tracker [message_digest tx_d]
    sample_tracker_inv sample_tracker_digests) as Hr.
  destruct (resolve_batch_if_terminal "A" sample_tracker) as [t' es].
  rewrite sample_tracker_status in Hr. destruct Hr as (x & _ & Hs & _).
  cbn [fst]. rewrite Hs. apply lookup_insert_eq.
Defined.
