(* ===== verification/Answers.v ===== *)
(** * Every request to the mempool is answered (crates/mempool/src/webserver/actor.rs)

    A request that waits for the outcome of its batch is held by the actor until
    every digest of the batch has one.  Whatever else is submitted, proposed and
    reported in between, including other batches that share its transactions,
    the actor answers it once enough proposals were made to empty what was in
    the pool before it and a block past their grace period is reported.

    This holds as long as the status of the batch is not evicted. The proof
    follows the digests that were live when the request came: the entries of
    the pool at that time, in front of all later ones, and the batches
    proposed from them. While the batch is tracked, each of its digests has
    an outcome or is one of those, and one of them at least is.

    Two more facts about reports stand here: settling the batches of a set gives
    the same statuses and answers in every order, and a later report can
    overwrite the outcome of a finalized digest. *)

From stdpp Require Import prelude gmap list strings.
From S2P Require Import Prelude Interfaces Concrete Account Auth Transaction Block Mempool.

Section answers.
Context `{LazyKey} `{ConsensusLib}.
Implicit Types (t : Tracker) (L : gset digest).

(** ** What a tracked batch waits for *)

(** Each digest has an outcome or is in [L], and one of them is in [L]. *)
Definition follows L t (ds : list digest) : Prop :=
  (∀ d, d ∈ ds → is_Some (digest_outcomes t !! d) ∨ d ∈ L) ∧ ∃ d, d ∈ ds ∧ d ∈ L.

Definition followed L (id : string) t : Prop :=
  ∃ ds, batch_digests t !! id = Some ds ∧ follows L t ds.

(** The requests waiting for a batch. *)
Definition waiters (id : string) t : list waiter := default [] (pending_waiters t !! id).

(** The outcome of a step for a batch: it is still followed, with the same
    requests waiting, or they were all answered. *)
Definition served L (id : string) t t' (es : list Event) : Prop :=
  (followed L id t' ∧ waiters id t' = waiters id t) ∨
  (batch_digests t' !! id = None ∧ ∃ s, ∀ w, w ∈ waiters id t → SendTxStatus w s ∈ es).

Lemma followed_mono L L' id t : L ⊆ L' → followed L id t → followed L' id t.
Proof. intros HL (ds & Hd & Ho & d & Hin & Hl). exists ds. split; [done|]. split; [|exists d]; set_solver. Qed.

(** ** Resolving *)

(** An outcome that another batch watches is kept. *)
Lemma forget_loop_keeps id id' seen ws os ds d :
  id' ≠ id → id' ∈ watching ws d → (forget_loop id seen ws os ds).2 !! d = os !! d.
Proof.
  intros Hne. revert seen ws os. induction ds as [|d0 ds IH]; intros seen ws os Hw; cbn [forget_loop]; [done|].
  case_decide; [by apply IH|]. destruct (ws !! d0) as [ids|] eqn:Ew; [|by apply IH].
  assert (∀ x, x ∈ filter (λ known, known ≠ id) ids ↔ x ≠ id ∧ x ∈ ids) as Hf
    by (intros x; apply (list_elem_of_filter (λ known, known ≠ id))).
  specialize (Hf id'). unfold watching in *. destruct (filter _ ids) as [|i0 ids0].
  - assert (d ≠ d0) as Hd by (intros ->; rewrite Ew in Hw; cbn in Hw; set_solver).
    rewrite IH by (by rewrite lookup_delete_ne). by rewrite lookup_delete_ne.
  - apply IH. destruct (decide (d = d0)) as [->|Hd]; [|by rewrite lookup_insert_ne].
    rewrite lookup_insert_eq. rewrite Ew in Hw. cbn in *. set_solver.
Qed.

Lemma forget_batch_keeps id id' t d :
  id' ≠ id → id' ∈ watching (digest_watchers t) d →
  digest_outcomes (forget_batch id t) !! d = digest_outcomes t !! d.
Proof.
  intros Hne Hw. unfold forget_batch. destruct (batch_digests t !! id) as [ds|]; [|done].
  pose proof (forget_loop_keeps id id' ∅ (digest_watchers t) (digest_outcomes t) ds d Hne Hw) as Hk.
  by destruct (forget_loop _ _ _ _ _).
Qed.

(** A batch is resolved when, and only when, all its digests have outcomes. *)
Lemma batch_status_complete ds os :
  (∀ d, d ∈ ds → is_Some (os !! d)) ↔ is_Some (batch_status_from_outcomes ds os).
Proof.
  rewrite batch_status_partition. destruct (forallb _ ds) eqn:E.
  - split; [by eexists|]. intros _ d Hd. rewrite forallb_forall in E.
    by apply (bool_decide_unpack _), Is_true_true, E, list_elem_of_In.
  - split; [|by intros [? ?]]. intros Hall. exfalso. apply not_true_iff_false in E. apply E, forallb_forall.
    intros d Hd. apply bool_decide_eq_true, Hall. by apply list_elem_of_In.
Qed.

(** Resolving a batch changes nothing, or answers all its requests and stops
    tracking it, leaving to other batches what they watch. *)
Lemma resolve_cases id t :
  tracker_inv t →
  (resolve_batch_if_terminal id t = (t, []) ∧
   ∀ ds, batch_digests t !! id = Some ds → batch_status_from_outcomes ds (digest_outcomes t) = None) ∨
  ∃ t' x, resolve_batch_if_terminal id t = (t', (λ w, SendTxStatus w x) <$> waiters id t) ∧
    status_order t' = status_order t ∧ batch_digests t' = delete id (batch_digests t) ∧
    pending_waiters t' = delete id (pending_waiters t) ∧
    ∀ id' d, id' ≠ id → id' ∈ watching (digest_watchers t) d → digest_outcomes t' !! d = digest_outcomes t !! d.
Proof.
  intros Ht. destruct (batch_digests t !! id) as [ds|] eqn:Ed.
  2: { left. unfold resolve_batch_if_terminal. by rewrite Ed. }
  destruct (batch_status_from_outcomes ds (digest_outcomes t)) as [s|] eqn:Es.
  2: { left. unfold resolve_batch_if_terminal. rewrite Ed, Es. split; [done|]. by intros ? [= <-]. }
  right. destruct (resolve_terminal id t ds s Ht Ed Es) as (x & _ & -> & _).
  set (t1 := mkTracker _ _ _ _ _ _). destruct (forget_batch_fields id t1) as (_ & Eo & Eb & Ep & _ & _).
  exists (forget_batch id t1), x. rewrite Eo, Eb, Ep. cbn. rewrite delete_delete_eq. split_and!; [done..|].
  intros id' d Hne Hw. by apply (forget_batch_keeps id id' t1 d).
Qed.

(** Resolving one batch, another one keeps its digests, outcomes and requests. *)
Lemma resolve_keeps id id' t ds :
  tracker_inv t → id' ≠ id → batch_digests t !! id = Some ds →
  let t' := (resolve_batch_if_terminal id' t).1 in
  batch_digests t' !! id = Some ds ∧ (∀ d, d ∈ ds → digest_outcomes t' !! d = digest_outcomes t !! d) ∧
  waiters id t' = waiters id t.
Proof.
  intros Ht Hne Hd. cbn zeta. destruct (resolve_cases id' t Ht) as [[-> _]|(t' & x & -> & _ & Eb & Ep & Eo)]; [done|].
  cbn [fst]. unfold waiters. rewrite Eb, Ep, !lookup_delete_ne by done. split_and!; [done| |done].
  intros d Hin. apply (Eo id); [done|]. apply (tw_watch _ _ Ht). by exists ds.
Qed.

Lemma resolve_other L id id' t :
  tracker_inv t → id' ≠ id → followed L id t →
  let t' := (resolve_batch_if_terminal id' t).1 in followed L id t' ∧ waiters id t' = waiters id t.
Proof.
  intros Ht Hne (ds & Hd & Ho & Hl). destruct (resolve_keeps id id' t ds Ht Hne Hd) as (Hd' & Ho' & Hw').
  split; [|done]. exists ds. split; [done|]. split; [|done]. intros d Hin. rewrite Ho' by done. by apply Ho.
Qed.

Lemma resolve_self L id t :
  tracker_inv t → followed L id t →
  let '(t', es) := resolve_batch_if_terminal id t in served L id t t' es.
Proof.
  intros Ht Hf. destruct (resolve_cases id t Ht) as [[-> _]|(t' & x & -> & _ & Eb & _ & _)]; [by left|right].
  rewrite Eb, lookup_delete_eq. split; [done|]. exists x. intros w Hw. apply list_elem_of_fmap. by exists w.
Qed.

(** A batch that is not tracked stays so. *)
Lemma resolve_untracked id id' t :
  tracker_inv t → batch_digests t !! id = None → batch_digests (resolve_batch_if_terminal id' t).1 !! id = None.
Proof.
  intros Ht Hn. destruct (resolve_cases id' t Ht) as [[-> _]|(t' & x & -> & _ & Eb & _ & _)]; [done|].
  cbn [fst]. rewrite Eb. apply lookup_delete_None. by right.
Qed.

Lemma resolve_all_untracked id ids t :
  tracker_inv t → batch_digests t !! id = None → batch_digests (resolve_all ids t).1 !! id = None.
Proof.
  revert t. induction ids as [|id' ids IH]; intros t Ht Hn; cbn [resolve_all]; [done|].
  pose proof (resolve_wf id' t Ht) as Hw. pose proof (resolve_untracked id id' t Ht Hn) as Hn'.
  destruct (resolve_batch_if_terminal id' t) as [t1 es]. specialize (IH t1 Hw Hn'). by destruct (resolve_all ids t1).
Qed.

(** Resolving any batches serves a followed one, and answers it if it is among
    them and all its digests have outcomes. *)
Lemma resolve_all_served L id ids t :
  tracker_inv t → followed L id t →
  let '(t', es) := resolve_all ids t in served L id t t' es.
Proof.
  revert t. induction ids as [|id' ids IH]; intros t Ht Hf; cbn [resolve_all]; [by left|].
  pose proof (resolve_wf id' t Ht) as Hw.
  assert (served L id t (resolve_batch_if_terminal id' t).1 (resolve_batch_if_terminal id' t).2) as Hone.
  { destruct (decide (id' = id)) as [->|Hne].
    - pose proof (resolve_self L id t Ht Hf) as Hs. by destruct (resolve_batch_if_terminal id t).
    - left. by apply resolve_other. }
  destruct (resolve_batch_if_terminal id' t) as [t1 es] eqn:E1. cbn [fst snd] in *.
  destruct Hone as [[Hf1 Hw1]|[Hn (s & Hs)]].
  - specialize (IH t1 Hw Hf1). destruct (resolve_all ids t1) as [t2 es'].
    destruct IH as [[Hf2 Hw2]|[Hn (s & Hs)]]; [left; split; [done|congruence]|right].
    split; [done|]. exists s. intros w Hin. rewrite <- Hw1 in Hin. apply elem_of_app. right. by apply Hs.
  - pose proof (resolve_all_untracked id ids t1 Hw Hn) as Hn2. destruct (resolve_all ids t1) as [t2 es']. right.
    split; [done|]. exists s. intros w Hin. apply elem_of_app. left. by apply Hs.
Qed.

(** If the batch is among those resolved and all its digests have outcomes it
    does not stay tracked. *)
Lemma resolve_all_complete id ids t ds :
  tracker_inv t → id ∈ ids → batch_digests t !! id = Some ds → (∀ d, d ∈ ds → is_Some (digest_outcomes t !! d)) →
  batch_digests (resolve_all ids t).1 !! id = None.
Proof.
  revert t. induction ids as [|id' ids IH]; intros t Ht Hin Hd Ho; cbn [resolve_all]; [by apply not_elem_of_nil in Hin|].
  pose proof (resolve_wf id' t Ht) as Hw. apply elem_of_cons in Hin.
  destruct (decide (id' = id)) as [->|Hne].
  - assert (batch_digests (resolve_batch_if_terminal id t).1 !! id = None) as Hn.
    { apply batch_status_complete in Ho as [s Hs].
      destruct (resolve_cases id t Ht) as [[_ Hnone]|(t' & x & -> & _ & Eb & _)]; [by rewrite (Hnone ds Hd) in Hs|].
      cbn [fst]. by rewrite Eb, lookup_delete_eq. }
    pose proof (resolve_all_untracked id ids _ Hw Hn) as Hn2.
    destruct (resolve_batch_if_terminal id t) as [t1 es]. cbn [fst] in *. by destruct (resolve_all ids t1).
  - destruct Hin as [->|Hin]; [done|]. destruct (resolve_keeps id id' t ds Ht Hne Hd) as (Hd' & Ho' & _).
    destruct (resolve_batch_if_terminal id' t) as [t1 es]. cbn [fst] in *. specialize (IH t1 Hw Hin Hd').
    destruct (resolve_all ids t1). apply IH. intros d Hdd. rewrite Ho' by done. by apply Ho.
Qed.

(** ** Reporting *)

Lemma record_outcomes_frame f ds t known :
  let t' := (record_outcomes f ds t known).1 in
  statuses t' = statuses t ∧ status_order t' = status_order t ∧ batch_digests t' = batch_digests t ∧
  digest_watchers t' = digest_watchers t ∧ pending_waiters t' = pending_waiters t ∧
  ∀ d, is_Some (digest_outcomes t !! d) ∨ d ∈ ds → is_Some (digest_outcomes t' !! d).
Proof.
  cbn zeta. revert t known. induction ds as [|d0 ds IH]; intros t known; cbn [record_outcomes].
  { split_and!; try done. intros d [?|?%not_elem_of_nil]; done. }
  destruct (IH (set_outcome d0 (f d0) t) (known ∖ {[d0]})) as (E1 & E2 & E3 & E4 & E5 & E6).
  split_and!; [done..|]. intros d Hd. apply E6. cbn. destruct (decide (d = d0)) as [->|Hne].
  - left. rewrite lookup_insert_eq. by eexists.
  - rewrite lookup_insert_ne by done. destruct Hd as [?|[?|?]%elem_of_cons]; [by left|done|by right].
Qed.

Lemma watched_batches_spec ds ws id :
  id ∈ watched_batches_for ds ws ↔ ∃ d, d ∈ ds ∧ id ∈ watching ws d.
Proof.
  unfold watched_batches_for. assert (∀ acc : gset string, id ∈ fold_left (λ acc d, acc ∪ list_to_set (default [] (ws !! d))) ds acc ↔
    id ∈ acc ∨ ∃ d, d ∈ ds ∧ id ∈ watching ws d) as Hgen; [|rewrite Hgen; set_solver].
  unfold watching. induction ds as [|d ds IH]; intros acc; cbn [fold_left]; [set_solver|]. rewrite IH. set_solver.
Qed.

(** Settling a proposed batch serves a batch that follows its digests: they no
    longer have to be live. *)
Lemma settle_served L id t known f ds :
  tracker_inv t → followed (L ∪ list_to_set ds) id t →
  let t1 := (record_outcomes f ds t known).1 in
  let '(t', es) := resolve_all (elements (watched_batches_for ds (digest_watchers t))) t1 in
  served L id t t' es.
Proof.
  intros Ht (bds & Hd & Ho & d & Hin & Hl). cbn zeta.
  pose proof (record_outcomes_wf f ds t known Ht) as Ht1.
  destruct (record_outcomes_frame f ds t known) as (_ & _ & Eb & _ & Ep & Eo).
  set (t1 := (record_outcomes f ds t known).1) in *. set (ids := elements _).
  assert (∀ d, d ∈ bds → is_Some (digest_outcomes t1 !! d) ∨ d ∈ L) as Ho1.
  { intros d' Hd'. destruct (Ho d' Hd') as [?|[?|?%elem_of_list_to_set]%elem_of_union]; [left|by right|left]; apply Eo; auto. }
  rewrite <- Eb in Hd. assert (waiters id t = waiters id t1) as Hwt by (unfold waiters; by rewrite Ep).
  destruct (decide (Exists (λ d, d ∈ L) bds)) as [(d' & Hd' & HL)%Exists_exists|Hno].
  - pose proof (resolve_all_served L id ids t1 Ht1) as Hs. destruct (resolve_all ids t1) as [t2 es].
    unfold served. rewrite Hwt. apply Hs. exists bds. split; [done|]. split; [done|]. by exists d'.
  - assert (∀ d, d ∈ bds → d ∉ L) as HnL by (intros d' ? ?; apply Hno, Exists_exists; by exists d').
    assert (∀ d, d ∈ bds → is_Some (digest_outcomes t1 !! d)) as Hall.
    { intros d' Hd'. destruct (Ho1 d' Hd') as [?|?]; [done|]. by destruct (HnL d' Hd'). }
    assert (id ∈ ids) as Hids.
    { apply elem_of_elements, watched_batches_spec. exists d. specialize (HnL d Hin). split; [set_solver|].
      apply (tw_watch _ _ Ht). rewrite <- Eb. by exists bds. }
    pose proof (resolve_all_complete id ids t1 bds Ht1 Hids Hd Hall) as Hn.
    pose proof (resolve_all_served (list_to_set bds) id ids t1 Ht1) as Hs. destruct (resolve_all ids t1) as [t2 es].
    cbn [fst] in Hn. destruct Hs as [[(x & Hx & _) _]|[_ Hs]];
      [exists bds; split; [done|]; split; [set_solver|exists d; set_solver]|congruence|].
    right. split; [done|]. by rewrite Hwt.
Qed.

(** The digests of proposed batches, and of those a report settles. *)
Definition batches_digests (bs : list ProposedBatch) : gset digest := list_to_set (concat (pb_digests <$> bs)).
Definition settled (cfg : Config) (h : Z) (fin : gset digest) (bs : list ProposedBatch) : gset digest :=
  batches_digests (filter (λ b, settles cfg h fin b = true) bs).

Lemma served_trans L L' id t t1 t2 es es' :
  served L' id t t1 es → (followed L' id t1 → served L id t1 t2 es') →
  (batch_digests t1 !! id = None → batch_digests t2 !! id = None) → served L id t t2 (es ++ es').
Proof.
  intros [[Hf Hw]|[Hn (s & Hs)]] Hthen Hkeep.
  - destruct (Hthen Hf) as [[Hf' Hw']|[Hn (s & Hs)]]; [left; split; [done|congruence]|right].
    split; [done|]. exists s. intros w Hin. rewrite <- Hw in Hin. apply elem_of_app. right. by apply Hs.
  - right. split; [by apply Hkeep|]. exists s. intros w Hin. apply elem_of_app. left. by apply Hs.
Qed.

(** The steps of a report on one batch. *)
Lemma report_loop_cons cfg h fin rem t known b bs :
  report_loop cfg h fin rem t known (b :: bs) =
    if settles cfg h fin b then
      let f := if existsb (λ d, bool_decide (d ∈ fin)) (pb_digests b)
               then λ d, if decide (d ∈ fin) then DigestFinalized h else DigestDropped else λ _, DigestDropped in
      let '(t1, known1) := record_outcomes f (pb_digests b) t known in
      let '(t2, es) := resolve_all (elements (watched_batches_for (pb_digests b) (digest_watchers t))) t1 in
      let '(r, t3, k, es') := report_loop cfg h fin rem t2 known1 bs in
      (r, t3, k, es ++ es')
    else report_loop cfg h fin (rem ++ [b]) t known bs.
Proof. cbn [report_loop]. unfold settles. by destruct (existsb _ _), (_ <=? h). Qed.

Lemma report_loop_untracked cfg h fin rem t known bs id :
  tracker_inv t → batch_digests t !! id = None →
  batch_digests (report_loop cfg h fin rem t known bs).1.1.2 !! id = None.
Proof.
  revert rem t known. induction bs as [|b bs IH]; intros rem t known Ht Hn; [done|].
  rewrite report_loop_cons. destruct (settles cfg h fin b); [|by apply IH]. cbn zeta. set (f := if existsb _ _ then _ else _).
  pose proof (record_outcomes_wf f (pb_digests b) t known Ht) as Ht1.
  destruct (record_outcomes_frame f (pb_digests b) t known) as (_ & _ & Eb & _). rewrite <- Eb in Hn.
  destruct (record_outcomes _ _ _ _) as [t1 k1]. cbn [fst] in *.
  pose proof (resolve_all_untracked id (elements (watched_batches_for (pb_digests b) (digest_watchers t))) t1 Ht1 Hn) as Hn2.
  pose proof (resolve_all_wf (elements (watched_batches_for (pb_digests b) (digest_watchers t))) t1 Ht1) as Ht2.
  destruct (resolve_all _ t1) as [t2 es]. specialize (IH rem t2 k1 Ht2 Hn2).
  by destruct (report_loop _ _ _ _ _ _ _) as [[[r t3] k] es'].
Qed.

(** A report serves every followed batch, up to the digests it settles. *)
Lemma report_loop_served cfg h fin rem t known bs L id :
  tracker_inv t → followed L id t →
  let '(_, t', _, es) := report_loop cfg h fin rem t known bs in served (L ∖ settled cfg h fin bs) id t t' es.
Proof.
  revert rem t known L. induction bs as [|b bs IH]; intros rem t known L Ht Hf.
  { cbn. left. split; [|done]. eapply followed_mono; [|done]. unfold settled. cbn. set_solver. }
  rewrite report_loop_cons. unfold settled. rewrite filter_cons. destruct (settles cfg h fin b) eqn:Hset.
  2: { rewrite decide_False by done. by apply IH. }
  rewrite decide_True by done. cbn zeta. set (f := if existsb _ _ then _ else _).
  pose proof (record_outcomes_wf f (pb_digests b) t known Ht) as Ht1.
  set (L1 := L ∖ list_to_set (pb_digests b)).
  assert (followed (L1 ∪ list_to_set (pb_digests b)) id t) as Hf1.
  { eapply followed_mono; [|done]. intros d. unfold L1. destruct (decide (d ∈ pb_digests b)); set_solver. }
  pose proof (settle_served L1 id t known f (pb_digests b) Ht Hf1) as Hs. cbn zeta in Hs.
  destruct (record_outcomes _ _ _ _) as [t1 k1]. cbn [fst] in *.
  pose proof (resolve_all_wf (elements (watched_batches_for (pb_digests b) (digest_watchers t))) t1 Ht1) as Ht2.
  destruct (resolve_all _ t1) as [t2 es]. cbn [fst] in Ht2.
  pose proof (report_loop_untracked cfg h fin rem t2 k1 bs id Ht2) as Hu. specialize (IH rem t2 k1 L1 Ht2).
  destruct (report_loop _ _ _ _ _ _ _) as [[[r t3] k] es']. cbn [fst snd] in Hu.
  eapply served_trans; [exact Hs| |exact Hu]. intros Hf2. specialize (IH Hf2).
  replace (L ∖ batches_digests (b :: filter (λ b, settles cfg h fin b = true) bs)) with (L1 ∖ settled cfg h fin bs); [done|].
  unfold L1, settled, batches_digests. rewrite fmap_cons. cbn [concat]. set_solver.
Qed.

(** ** Submitting *)

(** The statuses written after that of a batch: the table evicts it when they
    fill the rest of it. *)
Fixpoint younger (id : string) (order : list string) : nat :=
  match order with
  | [] => 0%nat
  | x :: order' => if decide (x = id) then length order' else younger id order'
  end.

Lemma younger_new id order : id ∉ order → younger id order = 0%nat ∧ younger id (order ++ [id]) = 0%nat.
Proof.
  induction order as [|x order IH]; intros Hn; cbn; [by rewrite decide_True|].
  apply not_elem_of_cons in Hn as [Hne Hn]. rewrite !decide_False by done. by apply IH.
Qed.

Lemma younger_snoc id order x : id ∈ order → younger id (order ++ [x]) = S (younger id order).
Proof.
  induction order as [|y order IH]; intros Hin; [by apply not_elem_of_nil in Hin|]. cbn [app younger].
  case_decide; [rewrite length_app; cbn; lia|]. apply IH. set_solver.
Qed.

(** A batch the table does not evict at its next entry. *)
Definition lasting (id : string) (t : Tracker) : Prop :=
  id ∈ status_order t ∧ Z.of_nat (S (younger id (status_order t))) < MAX_STATUS_ENTRIES.

Lemma remember_new sts order id s :
  status_table sts order → sts !! id = None →
  ∃ sts' order' expired, remember_status sts order id s = (sts', order', expired) ∧ id ∉ expired ∧
    id ∈ order' ∧ younger id order' = 0%nat ∧
    ∀ id', id' ∈ order → Z.of_nat (S (younger id' order)) < MAX_STATUS_ENTRIES →
      id' ∉ expired ∧ id' ∈ order' ∧ younger id' order' = S (younger id' order).
Proof.
  intros Ht Hf. pose proof (fresh_order _ _ _ Ht Hf) as [Hno _]. pose proof Ht as (Hnd & Hdom & Hmax).
  destruct (decide (Z.of_nat (size sts) < MAX_STATUS_ENTRIES)) as [Hlt|Hge].
  - destruct (remember_room sts order id s Ht Hf Hlt) as [-> _]. exists (<[id:=s]> sts), (order ++ [id]), [].
    split_and!; [done|set_solver|set_solver|by apply younger_new|]. intros id' Hin Hy.
    split_and!; [set_solver|set_solver|by apply younger_snoc].
  - destruct (remember_full sts order id s Ht Hf ltac:(lia)) as (x & order0 & -> & Hx & -> & _).
    eexists _, _, _. split_and!; [done|set_solver|set_solver|apply younger_new; set_solver|]. intros id' Hin Hy.
    assert (x ≠ id') as Hne.
    { intros ->. cbn in Hy. rewrite decide_True in Hy by done.
      assert (size sts = S (length order0)) as Hs; [|lia]. rewrite <- size_dom, Hdom, size_list_to_set; done. }
    assert (id' ∈ order0) by set_solver.
    split_and!; [set_solver|set_solver|]. cbn [younger]. rewrite decide_False by done. by apply younger_snoc.
Qed.

(** What a step leaves of a batch. *)
Record kept (id : string) t t' : Prop := {
  kp_digests : batch_digests t' !! id = batch_digests t !! id;
  kp_waiters : waiters id t' = waiters id t;
  kp_outcomes ds d : batch_digests t !! id = Some ds → d ∈ ds → digest_outcomes t' !! d = digest_outcomes t !! d }.

Lemma kept_followed L id t t' : kept id t t' → followed L id t → followed L id t'.
Proof.
  intros [Ed _ Eo] (ds & Hd & Ho & Hl). exists ds. rewrite Ed. split; [done|]. split; [|done].
  intros d Hin. rewrite (Eo ds) by done. by apply Ho.
Qed.

Lemma forget_expired_kept id expired t :
  id ∉ expired → (∀ d ds, batch_digests t !! id = Some ds → d ∈ ds → id ∈ watching (digest_watchers t) d) →
  kept id t (forget_expired_batches expired t).
Proof.
  unfold forget_expired_batches. revert t. induction expired as [|x expired IH]; intros t Hn Hw; [by constructor|].
  apply not_elem_of_cons in Hn as [Hne Hn]. cbn [fold_left].
  destruct (forget_batch_fields x t) as (_ & _ & Eb & Ep & Ew & _).
  assert (batch_digests (forget_batch x t) !! id = batch_digests t !! id) as Ed by (rewrite Eb; by apply lookup_delete_ne).
  destruct (IH (forget_batch x t) Hn) as [E1 E2 E3].
  { intros d ds Hd Hin. apply Ew. split; [apply (Hw d ds); congruence|]. by intros [? _]. }
  constructor.
  - by rewrite E1.
  - rewrite E2. unfold waiters. rewrite Ep. by rewrite lookup_delete_ne.
  - intros ds d Hd Hin. rewrite (E3 ds) by (by rewrite ?Ed). apply (forget_batch_keeps x id); [done|]. by apply (Hw d ds).
Qed.

Lemma forget_expired_order expired t : status_order (forget_expired_batches expired t) = status_order t.
Proof.
  unfold forget_expired_batches. revert t. induction expired as [|x expired IH]; intros t; cbn [fold_left]; [done|].
  rewrite IH. by destruct (forget_batch_fields x t) as (_ & -> & _).
Qed.

Lemma forget_expired_gone id expired t :
  id ∈ expired ∨ batch_digests t !! id = None → batch_digests (forget_expired_batches expired t) !! id = None.
Proof.
  unfold forget_expired_batches. revert t. induction expired as [|x expired IH]; intros t Hin; cbn [fold_left]; [set_solver|].
  apply IH. destruct (forget_batch_fields x t) as (_ & _ & -> & _). rewrite lookup_delete_None.
  destruct Hin as [[->|?]%elem_of_cons|?]; auto.
Qed.

Lemma waiters_push id id' result t :
  default [] (push_waiter id result (pending_waiters t) !! id') =
  waiters id' t ++ (if decide (id' = id) then option_list result else []).
Proof.
  unfold waiters, push_waiter. destruct result as [w|]; [|case_decide; by rewrite app_nil_r].
  case_decide as E; [subst; by rewrite lookup_insert_eq|]. by rewrite lookup_insert_ne, app_nil_r.
Qed.

(** A submission: refused or already settled, it is answered at once; otherwise
    its request joins those of the batch, and all its digests are known.  The
    other batches are kept, or evicted if they do not last. *)
Record submitted (a : Actor) (id : string) (ds : list digest) (txs : list SignedTransaction)
    (result : option waiter) (a' : Actor) (es : list Event) : Prop := {
  sb_proposed : proposed a' = proposed a;
  sb_pool : ∃ more, pool a' = pool a ++ more;
  sb_known : known_digests a ⊆ known_digests a';
  sb_younger id' : lasting id' (tracker a) → id' ∈ status_order (tracker a') ∧
    (younger id' (status_order (tracker a')) ≤ S (younger id' (status_order (tracker a))))%nat;
  sb_others id' : id' ≠ id → kept id' (tracker a) (tracker a') ∨
    (batch_digests (tracker a') !! id' = None ∧ ¬ lasting id' (tracker a));
  sb_self :
    (tracker a' = tracker a ∧ ∀ w, result = Some w → ∃ s, SendTxStatus w s ∈ es) ∨
    (waiters id (tracker a') = waiters id (tracker a) ++ option_list result ∧
     id ∈ status_order (tracker a') ∧
     (younger id (status_order (tracker a')) ≤ younger id (status_order (tracker a)))%nat ∧
     ((is_Some (batch_digests (tracker a) !! id) ∧
       batch_digests (tracker a') !! id = batch_digests (tracker a) !! id ∧
       digest_outcomes (tracker a') = digest_outcomes (tracker a)) ∨
      (batch_digests (tracker a) !! id = None ∧ batch_digests (tracker a') !! id = Some ds ∧
       ∀ x, x ∈ txs → message_digest x ∈ known_digests a'))) }.

(** A new batch in the tables. *)
Lemma track_new id ds result t sts order expired :
  tracker_inv t → statuses t !! id = None → batch_digests t !! id = None →
  remember_status (statuses t) (status_order t) id (accepted_status ds) = (sts, order, expired) →
  let t2 := forget_expired_batches expired
    (mkTracker sts order (<[id:=ds]> (batch_digests t)) (watch_batch id ds (digest_watchers t)) (digest_outcomes t)
       (pending_waiters t)) in
  let t' := mkTracker (statuses t2) (status_order t2) (batch_digests t2) (digest_watchers t2) (digest_outcomes t2)
    (push_waiter id result (pending_waiters t2)) in
  (∀ id', lasting id' t → id' ∈ status_order t' ∧ younger id' (status_order t') = S (younger id' (status_order t))) ∧
  (∀ id', id' ≠ id → kept id' t t' ∨ (batch_digests t' !! id' = None ∧ ¬ lasting id' t)) ∧
  waiters id t' = waiters id t ++ option_list result ∧
  id ∈ status_order t' ∧ younger id (status_order t') = 0%nat ∧ batch_digests t' !! id = Some ds.
Proof.
  intros Ht Hs Hb Hrem t2 t'. destruct (remember_new _ _ id (accepted_status ds) (tw_table _ _ Ht) Hs)
    as (? & ? & ? & Hr & Hni & Hin & Hy & Hoth). rewrite Hrem in Hr. injection Hr as <- <- <-.
  set (t1 := mkTracker _ _ _ _ _ _) in t2.
  assert (∀ id', id' ∉ expired → kept id' t1 t2) as Hk.
  { intros id' Hn. apply forget_expired_kept; [done|]. cbn. intros d ds' Hd Hdin. unfold watch_batch.
    rewrite watch_loop_spec, (tw_watch _ _ Ht). apply lookup_insert_Some in Hd as [[<- <-]|[? ?]]; [right|left; by exists ds'].
    set_solver. }
  assert (status_order t' = order) as -> by apply forget_expired_order.
  destruct (Hk id Hni) as [Kd Kw _]. split_and!; [|..|done|done|].
  - intros id' [Hl1 Hl2]. by apply Hoth.
  - intros id' Hne. destruct (decide (id' ∈ expired)) as [He|He].
    + right. split; [apply forget_expired_gone; by left|]. intros [Hl1 Hl2]. by apply (Hoth id').
    + left. destruct (Hk id' He) as [Ed Ew Eo]. cbn in Ed. rewrite lookup_insert_ne in Ed by done. constructor; [done| |].
      * unfold waiters at 1. cbn. rewrite waiters_push, decide_False, app_nil_r by done. by rewrite Ew.
      * intros ds' d Hd Hdin. apply (Eo ds' d); [|done]. cbn. by rewrite lookup_insert_ne.
  - unfold waiters at 1. cbn. rewrite waiters_push, decide_True by done. by rewrite Kw.
  - change (batch_digests t2 !! id = Some ds). rewrite Kd. cbn. by rewrite lookup_insert_eq.
Qed.

Lemma kept_refl id t : kept id t t.
Proof. by constructor. Qed.

Lemma handle_submit_cases cfg a id ds txs bytes result ingest :
  tracker_inv (tracker a) →
  let '(a', es) := handle_submit cfg a id ds txs bytes result ingest in submitted a id ds txs result a' es.
Proof.
  intros Ht. unfold handle_submit. destruct (statuses (tracker a) !! id) as [st|] eqn:Est.
  { assert (id ∈ status_order (tracker a)) as Hord.
    { destruct (tw_table _ _ Ht) as (_ & Hd & _). apply (elem_of_list_to_set (C := gset string)). rewrite <- Hd. apply elem_of_dom. by eexists. }
    destruct (tx_status_from_batch st) as [s|] eqn:Etx.
    - constructor; cbn; [done|exists []; by rewrite app_nil_r|done|intros ? [? ?]; split; [done|lia]|left; apply kept_refl|].
      left. split; [done|]. intros w ->. exists s. apply elem_of_app. right. by left.
    - constructor; cbn; [done|exists []; by rewrite app_nil_r|done|intros ? [? ?]; split; [done|lia]| |right].
      + intros id' Hne. left. constructor; [done| |done]. unfold waiters at 1. cbn.
        by rewrite waiters_push, decide_False, app_nil_r.
      + unfold waiters at 1. cbn. rewrite waiters_push, decide_True by done. split_and!; [done..|]. left.
        split; [|done]. destruct st; try done. by eapply (tw_accepted _ _ Ht). }
  assert (batch_digests (tracker a) !! id = None) as Hnone.
  { destruct (batch_digests (tracker a) !! id) as [ds'|] eqn:E; [|done].
    rewrite (tw_digests _ _ Ht id ds' E) in Est; [done|set_solver]. }
  unfold new_transactions. destruct (new_loop_spec [] (known_digests a) txs) as (fresh & -> & _ & _ & Hfr & Hall).
  cbn [app]. destruct (_ && _).
  { constructor; cbn; [done|exists []; by rewrite app_nil_r| |intros ? [? ?]; split; [done|lia]|left; apply kept_refl|].
    - rewrite remove_known_spec. intros d. specialize (Hfr d). set_solver.
    - left. split; [done|]. intros w ->. exists TxDropped. by left. }
  destruct (remember_status _ _ _ _) as [[sts order] expired] eqn:Er.
  destruct (track_new id ds result _ _ _ _ Ht Est Hnone Er) as (J1 & J2 & J3 & J4 & J5 & J6).
  destruct fresh as [|x fr] eqn:Efr; (constructor; cbn [proposed pool known_digests tracker];
    [done|eexists; first [done|symmetry; apply app_nil_r]|set_solver|
     intros id' Hl; destruct (J1 id' Hl) as [? ->]; split; [done|lia]|exact J2|
     right; split_and!; [exact J3|exact J4|rewrite J5; lia|right; by split_and!]]).
Qed.

(** The batches tracked before are kept or evicted. *)
Lemma submitted_kept a id' ds txs result a' es L id :
  submitted a id' ds txs result a' es → followed L id (tracker a) →
  is_Some (batch_digests (tracker a') !! id) ∨ lasting id (tracker a) →
  followed L id (tracker a') ∧ ∃ ws, waiters id (tracker a') = waiters id (tracker a) ++ ws.
Proof.
  intros [_ _ _ _ Hoth Hself] Hf Hin. destruct (decide (id = id')) as [->|Hne].
  - destruct Hself as [[-> _]|(Ew & _ & _ & Hcase)]; [split; [done|exists []; by rewrite app_nil_r]|]. split; [|by eexists].
    destruct Hf as (bds & Hd & Hfo). destruct Hcase as [(_ & Ed & Eo)|(Hn & _)]; [|congruence].
    exists bds. rewrite Ed. unfold follows. by rewrite Eo.
  - destruct (Hoth id Hne) as [Hk|[Hn Hl]]; [|destruct Hin as [[? ?]|?]; [congruence|done]].
    split; [by eapply kept_followed|]. rewrite (kp_waiters _ _ _ Hk). exists []. by rewrite app_nil_r.
Qed.

(** Submissions and proposals of a run. *)
Definition is_submit (m : Message) : bool := match m with Submit _ _ _ _ _ _ => true | _ => false end.
Definition is_propose (m : Message) : bool := match m with Propose _ _ => true | _ => false end.
Definition count (p : Message → bool) (ms : list Message) : nat := length (filter (λ m, p m = true) ms).

Lemma count_app p ms ms' : count p (ms ++ ms') = (count p ms + count p ms')%nat.
Proof. unfold count. by rewrite filter_app, length_app. Qed.
Lemma count_cons p m ms : count p (m :: ms) = ((if p m then 1 else 0) + count p ms)%nat.
Proof. unfold count. rewrite filter_cons. by destruct (p m); [rewrite decide_True by done|rewrite decide_False by done]. Qed.

Lemma status_table_size sts order : status_table sts order → size sts = length order.
Proof. intros (Hn & Hd & _). rewrite <- size_dom, Hd. by apply size_list_to_set. Qed.

Lemma resolve_order id t : tracker_inv t → status_order (resolve_batch_if_terminal id t).1 = status_order t.
Proof. intros Ht. by destruct (resolve_cases id t Ht) as [[-> _]|(t' & x & -> & Eo & _)]. Qed.

Lemma resolve_all_order ids t : tracker_inv t → status_order (resolve_all ids t).1 = status_order t.
Proof.
  revert t. induction ids as [|id ids IH]; intros t Ht; cbn [resolve_all]; [done|].
  pose proof (resolve_wf id t Ht) as Hw. pose proof (resolve_order id t Ht) as Ho.
  destruct (resolve_batch_if_terminal id t) as [t1 es]. specialize (IH t1 Hw). destruct (resolve_all ids t1).
  cbn in *. congruence.
Qed.

Lemma report_loop_order cfg h fin rem t known bs :
  tracker_inv t → status_order (report_loop cfg h fin rem t known bs).1.1.2 = status_order t.
Proof.
  revert rem t known. induction bs as [|b bs IH]; intros rem t known Ht; [done|].
  rewrite report_loop_cons. destruct (settles cfg h fin b); [|by apply IH]. cbn zeta. set (f := if existsb _ _ then _ else _).
  pose proof (record_outcomes_wf f (pb_digests b) t known Ht) as Ht1.
  destruct (record_outcomes_frame f (pb_digests b) t known) as (_ & Eo & _). rewrite <- Eo.
  destruct (record_outcomes _ _ _ _) as [t1 k1]. cbn [fst] in *. set (ids := elements _).
  pose proof (resolve_all_order ids t1 Ht1) as E2. pose proof (resolve_all_wf ids t1 Ht1) as Ht2.
  destruct (resolve_all ids t1) as [t2 es]. specialize (IH rem t2 k1 Ht2).
  destruct (report_loop _ _ _ _ _ _ _) as [[[r t3] k] es']. cbn in *. congruence.
Qed.

(** ** Runs *)

(** A submission as the handler sends it: the digests are those of its
    transactions, of which there is one at least. *)
Definition aligned (m : Message) : Prop :=
  match m with Submit _ ds txs _ _ _ => ds = message_digest <$> txs ∧ txs ≠ [] | _ => True end.

(** Every tracked batch follows the known digests. *)
Record attentive (cfg : Config) (a : Actor) : Prop := {
  at_pool : pool_inv cfg a;
  at_tracker : tracker_inv (tracker a);
  at_followed id : is_Some (batch_digests (tracker a) !! id) → followed (known_digests a) id (tracker a) }.

Lemma submit_attentive cfg a id ds txs bytes result ingest :
  cfg_wf cfg → 0 ≤ bytes < 2 ^ 63 → ds = message_digest <$> txs → txs ≠ [] →
  attentive cfg a → attentive cfg (handle_submit cfg a id ds txs bytes result ingest).1.
Proof.
  intros Hcfg Hb -> Hne Ha. pose proof (handle_submit_pool cfg a id (message_digest <$> txs) txs bytes result ingest Hcfg Hb
    (at_pool _ _ Ha)) as Hp.
  pose proof (handle_tracker_inv cfg a (Submit id (message_digest <$> txs) txs bytes result ingest) (at_tracker _ _ Ha)) as Ht.
  pose proof (handle_submit_cases cfg a id (message_digest <$> txs) txs bytes result ingest (at_tracker _ _ Ha)) as Hs.
  cbn [handle] in Ht. destruct (handle_submit _ _ _ _ _ _ _ _) as [a' es]. cbn [fst] in *.
  destruct Ha as [_ _ Hf]. constructor; [done|done|]. intros id' Htr.
  assert (is_Some (batch_digests (tracker a) !! id') → followed (known_digests a') id' (tracker a')) as Hold.
  { intros Hin. apply (followed_mono (known_digests a)); [by eapply sb_known|].
    eapply submitted_kept; [exact Hs|by apply Hf|by left]. }
  destruct (decide (id' = id)) as [->|Hne'].
  - destruct (sb_self _ _ _ _ _ _ _ Hs) as [[E _]|(_ & _ & _ & [[Hin _]|(_ & E & Hall)])]; [rewrite E in Htr; auto|auto|].
    exists (message_digest <$> txs). rewrite E. split; [done|]. split.
    + intros d (x & -> & Hx)%list_elem_of_fmap. right. by apply Hall.
    + destruct txs as [|x txs]; [done|]. exists (message_digest x). split; [by left|]. apply Hall. by left.
  - destruct (sb_others _ _ _ _ _ _ _ Hs id' Hne') as [Hk|[Hn _]]; [|rewrite Hn in Htr; by destruct Htr].
    apply Hold. by rewrite <- (kp_digests _ _ _ Hk).
Qed.

Lemma handle_report_order cfg a b :
  tracker_inv (tracker a) → status_order (tracker (handle_report cfg a b).1) = status_order (tracker a).
Proof.
  intros Ht. unfold handle_report. pose proof (report_loop_order cfg (height (header (inner b))) (finalized_digests b) []
    (tracker a) (known_digests a) (proposed a) Ht) as E. by destruct (report_loop _ _ _ _ _ _ _) as [[[r t] k] es].
Qed.

Lemma report_attentive cfg a b : attentive cfg a → attentive cfg (handle_report cfg a b).1.
Proof.
  intros [Hp Ht Hf]. pose proof (handle_report_pool cfg a b Hp) as Hp'.
  pose proof (handle_tracker_inv cfg a (ReportBlock b) Ht) as Ht'. cbn [handle] in Ht'.
  constructor; [done|done|].
  intros id Htr. unfold handle_report in *. set (h := height _) in *. set (fin := finalized_digests b) in *.
  destruct (report_loop_batches cfg h fin [] (tracker a) (known_digests a) (proposed a)) as [_ Ek].
  pose proof (report_loop_untracked cfg h fin [] (tracker a) (known_digests a) (proposed a) id Ht) as Hu.
  assert (is_Some (batch_digests (tracker a) !! id)) as Hin.
  { destruct (batch_digests (tracker a) !! id) as [ds|]; [by eexists|]. specialize (Hu eq_refl).
    destruct (report_loop _ _ _ _ _ _ _) as [[[r t] k] es]. cbn in *. rewrite Hu in Htr. by destruct Htr. }
  pose proof (report_loop_served cfg h fin [] (tracker a) (known_digests a) (proposed a) (known_digests a) id Ht (Hf id Hin)) as Hs.
  destruct (report_loop _ _ _ _ _ _ _) as [[[r t] k] es]. cbn in *. subst k.
  destruct Hs as [[Hs _]|[Hn _]]; [exact Hs|]. rewrite Hn in Htr. by destruct Htr.
Qed.

Lemma handle_attentive cfg a m :
  cfg_wf cfg → message_wf m → aligned m → attentive cfg a → attentive cfg (handle cfg a m).1.
Proof.
  intros Hcfg Hm Hal Ha. pose proof (handle_pool_inv cfg a m Hcfg Hm (at_pool _ _ Ha)) as Hp.
  destruct m as [id ds txs bytes result ingest| | |h w|b|]; cbn [handle] in *; try done.
  - destruct Hal as [Hds Hne]. by apply submit_attentive.
  - pose proof Ha as [_ Ht Hf]. unfold handle_propose in *.
    destruct (drain_loop _ _ _ _ _ _ _) as [[[? ?] ?] ?]. by constructor.
  - by apply report_attentive.
  - destruct Ha as [_ Ht Hf]. by constructor.
Qed.

Lemma run_attentive cfg ms a :
  cfg_wf cfg → Forall message_wf ms → Forall aligned ms → attentive cfg a → attentive cfg (run_actor cfg a ms).1.
Proof.
  intros Hcfg Hwf Hal. revert a. induction ms as [|m ms IH]; intros a Ha; [done|].
  inversion_clear Hwf. inversion_clear Hal. cbn [run_actor].
  pose proof (handle_attentive cfg a m) as Hh. destruct (handle cfg a m) as [a1 es]. cbn [fst] in Hh.
  specialize (IH ltac:(done) ltac:(done) a1). destruct (run_actor cfg a1 ms). by apply IH, Hh.
Qed.

Lemma actor_new_attentive cfg : cfg_wf cfg → attentive cfg actor_new.
Proof.
  intros Hcfg. constructor; [by apply actor_new_pool|apply tracker_new_inv|].
  intros id. cbn. rewrite lookup_empty. by intros [? ?].
Qed.

(** ** Waiting *)

(** Proposals for heights up to [hi]. *)
Definition proposes_upto (hi : Z) (m : Message) : Prop :=
  match m with Propose h _ => 0 ≤ h ≤ hi | _ => True end.
Definition proposed_upto (hi : Z) (bs : list ProposedBatch) : Prop := Forall (λ b, 0 ≤ pb_height b ≤ hi) bs.

Lemma handle_submit_proposed cfg a id ds txs bytes result ingest :
  proposed (handle_submit cfg a id ds txs bytes result ingest).1 = proposed a.
Proof.
  unfold handle_submit. destruct (statuses (tracker a) !! id) as [st|]; [by destruct (tx_status_from_batch st)|].
  destruct (new_transactions _ _) as [fresh known]. case_match; [done|].
  destruct (remember_status _ _ _ _) as [[? ?] ?]. by destruct fresh.
Qed.

Lemma handle_report_fields cfg a b :
  let a' := (handle_report cfg a b).1 in
  pool a' = pool a ∧
  proposed a' = filter (λ p, settles cfg (height (header (inner b))) (finalized_digests b) p = false) (proposed a).
Proof.
  cbn zeta. unfold handle_report.
  destruct (report_loop_batches cfg (height (header (inner b))) (finalized_digests b) [] (tracker a) (known_digests a)
    (proposed a)) as [Hr _]. by destruct (report_loop _ _ _ _ _ _ _) as [[[r t] k] es].
Qed.

Lemma handle_proposed_upto hi cfg a m :
  proposes_upto hi m → proposed_upto hi (proposed a) → proposed_upto hi (proposed (handle cfg a m).1).
Proof.
  intros Hm Ha. destruct m as [id ds txs bytes result ingest| | |h w|b|]; cbn [handle]; try done.
  - by rewrite handle_submit_proposed.
  - unfold handle_propose. destruct (drain_loop_spec cfg h (pool a) (pool_bytes a) (proposed a) [] 0) as (taken & rest & _ & -> & _).
    apply Forall_app. split; [done|]. apply Forall_fmap. by apply Forall_true.
  - destruct (handle_report_fields cfg a b) as [_ ->]. unfold proposed_upto in *. rewrite Forall_forall in *.
    intros p [_ Hp]%list_elem_of_filter. by apply Ha.
Qed.

Lemma run_proposed_upto hi cfg ms a :
  Forall (proposes_upto hi) ms → proposed_upto hi (proposed a) → proposed_upto hi (proposed (run_actor cfg a ms).1).
Proof.
  revert a. induction ms as [|m ms IH]; intros a Hms Ha; [done|]. inversion_clear Hms. cbn [run_actor].
  pose proof (handle_proposed_upto hi cfg a m) as Hh. destruct (handle cfg a m) as [a1 es].
  specialize (IH a1). destruct (run_actor cfg a1 ms). auto.
Qed.

Definition entries_digests (es : list PoolEntry) : gset digest := list_to_set (concat (entry_digests <$> es)).

(** A request waiting on the front [P1] of the pool, at most [n] entries, and on
    the batches [Q1] proposed from what was in front of it; everything behind
    came later. *)
Definition waiting (hi : Z) (n : nat) (w : waiter) (id : string) (a : Actor) : Prop :=
  ∃ P1 P2 Q1 Q2, pool a = P1 ++ P2 ∧ proposed a = Q1 ++ Q2 ∧ (P1 = [] ∨ Q2 = []) ∧ (length P1 ≤ n)%nat ∧
    proposed_upto hi Q1 ∧ followed (entries_digests P1 ∪ batches_digests Q1) id (tracker a) ∧
    w ∈ waiters id (tracker a).

Definition answered (w : waiter) (es : list Event) : Prop := ∃ s, SendTxStatus w s ∈ es.

Lemma submitted_waiting hi n w id a id' ds txs result a' es :
  submitted a id' ds txs result a' es → lasting id (tracker a) → waiting hi n w id a → waiting hi n w id a'.
Proof.
  intros Hs Hl (P1 & P2 & Q1 & Q2 & Hp & Hq & Hor & Hlen & Hup & Hf & Hw). pose proof Hs as [Eq (more & Ep) _ _ _ _].
  destruct (submitted_kept _ _ _ _ _ _ _ _ _ Hs Hf (or_intror Hl)) as [Hf' (ws & Ew)].
  exists P1, (P2 ++ more), Q1, Q2. rewrite Ep, Hp, Eq, <- app_assoc, Ew. split_and!; [done..|]. set_solver.
Qed.

(** A proposal takes at least one entry of the front. *)
Lemma propose_waiting hi n w id cfg a h r :
  0 ≤ h ≤ hi → waiting hi n w id a → waiting hi (n - 1) w id (handle_propose cfg a h r).1.
Proof.
  intros Hh (P1 & P2 & Q1 & Q2 & Hp & Hq & Hor & Hlen & Hup & Hf & Hw). unfold handle_propose.
  destruct (drain_loop_spec cfg h (pool a) (pool_bytes a) (proposed a) [] 0) as (taken & rest & Hsplit & -> & Hne).
  cbn [fst]. unfold waiting. cbn [pool proposed tracker]. set (prop := λ e, mkProposed h (entry_digests e)).
  assert (∀ l, proposed_upto hi (prop <$> l)) as Hprop by (intros l; apply Forall_fmap; by apply Forall_true).
  assert (∀ l, batches_digests (prop <$> l) = entries_digests l) as Hdig
    by (intros l; unfold batches_digests, entries_digests; by rewrite <- list_fmap_compose).
  destruct (decide (P1 = [])) as [->|HP].
  { exists [], rest, Q1, (Q2 ++ (prop <$> taken)). rewrite Hq, <- app_assoc. split_and!; try done; [by left|cbn; lia]. }
  destruct Hor as [-> | ->]; [done|]. rewrite app_nil_r in Hq.
  assert (taken ≠ []) as Htk by (apply Hne; [done|rewrite Hp; by destruct P1]).
  rewrite Hp in Hsplit. apply app_eq_inv in Hsplit as [(k & -> & ->)|(k & -> & ->)].
  - exists k, P2, (Q1 ++ (prop <$> taken)), []. rewrite Hq, app_nil_r. split_and!; [done|done|by right| |apply Forall_app; split; [done|apply Hprop]| |done].
    + rewrite length_app in Hlen. destruct taken; [done|]. cbn in Hlen. lia.
    + eapply followed_mono; [|exact Hf]. unfold entries_digests, batches_digests in *.
      rewrite !fmap_app, !concat_app, !list_to_set_app_L, Hdig. set_solver.
  - exists [], rest, (Q1 ++ (prop <$> P1)), (prop <$> k). rewrite Hq, fmap_app, app_assoc.
    split_and!; [done|done|by left|cbn; lia|apply Forall_app; split; [done|apply Hprop]| |done].
    eapply followed_mono; [|exact Hf]. unfold entries_digests, batches_digests in *.
    rewrite fmap_app, concat_app, list_to_set_app_L, Hdig. set_solver.
Qed.

(** A report answers the request, or leaves it waiting on the same front and on
    the batches it does not settle. *)
Lemma report_front cfg a b P1 Q1 Q2 w id :
  tracker_inv (tracker a) → proposed a = Q1 ++ Q2 →
  followed (entries_digests P1 ∪ batches_digests Q1) id (tracker a) → w ∈ waiters id (tracker a) →
  let '(a', es) := handle_report cfg a b in
  answered w es ∨
  (followed (entries_digests P1 ∪ batches_digests
     (filter (λ p, settles cfg (height (header (inner b))) (finalized_digests b) p = false) Q1)) id (tracker a') ∧
   w ∈ waiters id (tracker a')).
Proof.
  intros Ht Hq Hf Hw. unfold handle_report. set (h := height _). set (fin := finalized_digests b).
  pose proof (report_loop_served cfg h fin [] (tracker a) (known_digests a) (proposed a) _ id Ht Hf) as Hs.
  destruct (report_loop _ _ _ _ _ _ _) as [[[r t] k] es]. cbn [tracker].
  destruct Hs as [[Hs Ew]|[_ (s & Hs)]]; [right|left; exists s; apply elem_of_app; left; by apply Hs].
  split; [|by rewrite Ew]. eapply followed_mono; [|exact Hs]. intros d. rewrite elem_of_difference, !elem_of_union.
  intros [[Hd|Hd] Hns]; [by left|right]. unfold settled, batches_digests in *. rewrite elem_of_list_to_set in *.
  apply list_elem_of_In, in_concat in Hd as (ds & Hin%list_elem_of_In & Hd%list_elem_of_In).
  apply list_elem_of_fmap in Hin as (p & -> & Hp).
  apply list_elem_of_In, in_concat. exists (pb_digests p). split; [|by apply list_elem_of_In].
  apply list_elem_of_In, list_elem_of_fmap. exists p. split; [done|]. apply list_elem_of_filter. split; [|done].
  destruct (settles cfg h fin p) eqn:E; [exfalso; apply Hns|done].
  apply list_elem_of_In, in_concat. exists (pb_digests p). split; [|by apply list_elem_of_In].
  apply list_elem_of_In, list_elem_of_fmap. exists p. split; [done|]. apply list_elem_of_filter. split; [done|].
  rewrite Hq. apply elem_of_app. by left.
Qed.

Lemma report_waiting hi n w id cfg a b :
  tracker_inv (tracker a) → waiting hi n w id a →
  waiting hi n w id (handle_report cfg a b).1 ∨ answered w (handle_report cfg a b).2.
Proof.
  intros Ht (P1 & P2 & Q1 & Q2 & Hp & Hq & Hor & Hlen & Hup & Hf & Hw).
  pose proof (report_front cfg a b P1 Q1 Q2 w id Ht Hq Hf Hw) as Hr.
  destruct (handle_report_fields cfg a b) as [Ep Eq]. destruct (handle_report cfg a b) as [a' es]. cbn [fst snd] in *.
  destruct Hr as [Hr|[Hf' Hw']]; [by right|left]. set (keep := filter _) in *.
  exists P1, P2, (keep Q1), (keep Q2). rewrite Ep, Eq, Hp, Hq. unfold keep. rewrite filter_app.
  split_and!; [done|done| |done| |done|done].
  - destruct Hor as [->| ->]; [by left|by right].
  - unfold proposed_upto in *. rewrite Forall_forall in *. intros p [_ ?]%list_elem_of_filter. by apply Hup.
Qed.

(** A block past the grace period of every batch in front answers it. *)
Lemma report_answers hi w id cfg a b :
  tracker_inv (tracker a) → waiting hi 0 w id a → 0 ≤ drop_grace_blocks cfg →
  hi + drop_grace_blocks cfg ≤ u64_max → hi + drop_grace_blocks cfg ≤ height (header (inner b)) →
  answered w (handle_report cfg a b).2.
Proof.
  intros Ht (P1 & P2 & Q1 & Q2 & Hp & Hq & Hor & Hlen & Hup & Hf & Hw) Hg Hmax Hb.
  pose proof (report_front cfg a b P1 Q1 Q2 w id Ht Hq Hf Hw) as Hr.
  destruct (handle_report cfg a b) as [a' es]. cbn [snd]. destruct Hr as [Hr|[(ds & _ & _ & d & _ & Hd) _]]; [done|exfalso].
  destruct P1; [|cbn in Hlen; lia]. destruct (filter _ Q1) as [|p ps] eqn:Ekeep; [set_solver|].
  assert (p ∈ p :: ps) as Hp' by by left. rewrite <- Ekeep in Hp'. apply list_elem_of_filter in Hp' as [Hs Hin].
  unfold proposed_upto in Hup. rewrite Forall_forall in Hup. specialize (Hup p Hin).
  apply orb_false_iff in Hs as [_ Hs]. zbool. rewrite wrap64_id in Hs by (unfold is_u64; lia). lia.
Qed.

(** A batch with at most [k] younger statuses. *)
Definition recent (k : nat) (id : string) (t : Tracker) : Prop :=
  id ∈ status_order t ∧ (younger id (status_order t) ≤ k)%nat.

Lemma recent_lasting k id t : recent k id t → Z.of_nat (S k) < MAX_STATUS_ENTRIES → lasting id t.
Proof. intros [Hin Hy] Hk. split; [done|lia]. Qed.

Lemma handle_recent cfg k id a m :
  tracker_inv (tracker a) → Z.of_nat (k + if is_submit m then 1 else 0) < MAX_STATUS_ENTRIES → recent k id (tracker a) →
  recent (k + if is_submit m then 1 else 0) id (tracker (handle cfg a m).1).
Proof.
  intros Ht Hk Hr. destruct m as [id' ds txs bytes result ingest| | |h r|b|]; cbn [handle is_submit] in *;
    rewrite ?Nat.add_0_r; try done.
  - pose proof (handle_submit_cases cfg a id' ds txs bytes result ingest Ht) as Hs.
    destruct (handle_submit _ _ _ _ _ _ _ _) as [a' es].
    destruct (sb_younger _ _ _ _ _ _ _ Hs id) as [Hin Hy]; [by apply (recent_lasting k); [|lia]|].
    destruct Hr. split; [done|cbn; lia].
  - unfold handle_propose. by destruct (drain_loop _ _ _ _ _ _ _) as [[[? ?] ?] ?].
  - unfold recent. by rewrite handle_report_order.
Qed.

Lemma handle_waiting hi n k w id cfg a m :
  tracker_inv (tracker a) → Z.of_nat (k + if is_submit m then 1 else 0) < MAX_STATUS_ENTRIES → recent k id (tracker a) →
  proposes_upto hi m → waiting hi n w id a →
  waiting hi (n - if is_propose m then 1 else 0) w id (handle cfg a m).1 ∨ answered w (handle cfg a m).2.
Proof.
  intros Ht Hk Hr Hm Hw. destruct m as [id' ds txs bytes result ingest| | |h r|b|]; cbn [handle is_submit is_propose] in *;
    rewrite ?Nat.sub_0_r; try by left.
  - pose proof (handle_submit_cases cfg a id' ds txs bytes result ingest Ht) as Hs. left.
    destruct (handle_submit _ _ _ _ _ _ _ _) as [a' es]. eapply submitted_waiting; [exact Hs| |done].
    apply (recent_lasting k); [done|lia].
  - left. by apply propose_waiting.
  - by apply report_waiting.
Qed.

Lemma run_waiting hi w id cfg ms n k a :
  cfg_wf cfg → Forall message_wf ms → Forall aligned ms → Forall (proposes_upto hi) ms →
  Z.of_nat (k + count is_submit ms) < MAX_STATUS_ENTRIES → attentive cfg a → recent k id (tracker a) →
  waiting hi n w id a →
  waiting hi (n - count is_propose ms) w id (run_actor cfg a ms).1 ∨ answered w (run_actor cfg a ms).2.
Proof.
  intros Hcfg Hwf Hal Hup. revert n k a. induction ms as [|m ms IH]; intros n k a Hk Ha Hr Hw; [left; by rewrite Nat.sub_0_r|].
  rewrite count_cons, Nat.add_assoc in *. inversion_clear Hwf. inversion_clear Hal. inversion_clear Hup. cbn [run_actor].
  assert (Z.of_nat (k + if is_submit m then 1 else 0) < MAX_STATUS_ENTRIES) as Hk1 by lia.
  pose proof (handle_attentive cfg a m Hcfg ltac:(done) ltac:(done) Ha) as Ha1.
  pose proof (handle_recent cfg k id a m (at_tracker _ _ Ha) Hk1 Hr) as Hr1.
  destruct (handle_waiting hi n k w id cfg a m (at_tracker _ _ Ha) Hk1 Hr ltac:(done) Hw) as [Hw1|Hans];
    destruct (handle cfg a m) as [a1 es]; cbn [fst snd] in *.
  - rewrite Nat.sub_add_distr. specialize (IH ltac:(done) ltac:(done) ltac:(done) _ _ _ Hk Ha1 Hr1 Hw1).
    destruct (run_actor cfg a1 ms) as [a2 es']. cbn [fst snd] in *. destruct IH as [?|(s & Hs)]; [by left|right].
    exists s. apply elem_of_app. by right.
  - destruct Hans as (s & Hs). destruct (run_actor cfg a1 ms) as [a2 es']. right. exists s. apply elem_of_app. by left.
Qed.

(** After its submission a request is answered or waits on the pool as it is. *)
Lemma submit_waits hi cfg a id ds txs bytes w ingest :
  attentive cfg a → proposed_upto hi (proposed a) →
  attentive cfg (handle_submit cfg a id ds txs bytes (Some w) ingest).1 →
  let '(a', es) := handle_submit cfg a id ds txs bytes (Some w) ingest in
  (waiting hi (length (pool a')) w id a' ∧ recent (younger id (status_order (tracker a))) id (tracker a')) ∨ answered w es.
Proof.
  intros Ha Hup Ha'.
  pose proof (handle_submit_cases cfg a id ds txs bytes (Some w) ingest (at_tracker _ _ Ha)) as Hs.
  destruct (handle_submit _ _ _ _ _ _ _ _) as [a' es]. cbn [fst] in Ha'.
  destruct Hs as [Eq _ _ _ _ [[_ Hans]|(Ew & Hin & Hy & Hb)]]; [right; by apply Hans|left]. split; [|done].
  exists (pool a'), [], (proposed a'), []. rewrite !app_nil_r. split_and!; [done|done|by right|done|by rewrite Eq| |].
  - pose proof (pi_known _ _ (at_pool _ _ Ha')) as Hk. unfold live_digests in Hk. rewrite list_to_set_app_L in Hk.
    unfold entries_digests, batches_digests. rewrite <- Hk. apply (at_followed _ _ Ha').
    destruct Hb as [(Htr & -> & _)|(_ & -> & _)]; [done|by eexists].
  - rewrite Ew. apply elem_of_app. right. by left.
Qed.

Lemma run_actor_app cfg a ms ms' :
  run_actor cfg a (ms ++ ms') =
    let '(a1, es) := run_actor cfg a ms in let '(a2, es') := run_actor cfg a1 ms' in (a2, es ++ es').
Proof.
  revert a. induction ms as [|m ms IH]; intros a; cbn [app run_actor]; [by destruct (run_actor cfg a ms')|].
  destruct (handle cfg a m) as [a1 es]. rewrite IH. destruct (run_actor cfg a1 ms) as [a2 es1].
  destruct (run_actor cfg a2 ms') as [a3 es2]. by rewrite app_assoc.
Qed.

(** No request starves.  Whatever was submitted, proposed and reported
    before, and whatever follows, a request that waits for its batch is
    answered: at once if the batch is refused or settled; otherwise at the
    latest when as many proposals were made as entries were in the pool, the one
    of the batch included, and a block is reported that is past the grace period
    of those proposals.  Batches may share transactions and batch ids may repeat.
    The one way to lose it is that the table evicts the status of the batch,
    which takes as many younger ones as the table has entries: those written
    before a batch is submitted again, and those of the submissions that follow,
    are fewer. *)
Theorem mempool_answers cfg ms id txs bytes w ingest ms' b hi :
  cfg_wf cfg → 0 ≤ drop_grace_blocks cfg → hi + drop_grace_blocks cfg ≤ u64_max →
  let m := Submit id (message_digest <$> txs) txs bytes (Some w) ingest in
  Forall message_wf (ms ++ m :: ms') → Forall aligned (ms ++ m :: ms') →
  Forall (proposes_upto hi) (ms ++ ms') →
  let a := (run_actor cfg actor_new ms).1 in
  Z.of_nat (younger id (status_order (tracker a)) + count is_submit ms') < MAX_STATUS_ENTRIES →
  (length (pool (handle cfg a m).1) ≤ count is_propose ms')%nat →
  hi + drop_grace_blocks cfg ≤ height (header (inner b)) →
  answered w (run_actor cfg a (m :: ms' ++ [ReportBlock b])).2.
Proof.
  intros Hcfg Hg Hmax m Hwf Hal Hup a Hcount Hprop Hb.
  apply Forall_app in Hwf as [Hwf1 [Hwm Hwf2]%Forall_cons], Hal as [Hal1 [Halm Hal2]%Forall_cons], Hup as [Hup1 Hup2].
  assert (attentive cfg a) as Ha by (apply run_attentive; [done..|by apply actor_new_attentive]).
  pose proof (handle_attentive cfg a m Hcfg Hwm Halm Ha) as Ha1.
  pose proof (submit_waits hi cfg a id (message_digest <$> txs) txs bytes w ingest Ha
    (run_proposed_upto hi cfg ms actor_new Hup1 (Forall_nil_2 _)) Ha1) as Hw.
  cbn [run_actor]. change (handle_submit cfg a id _ txs bytes (Some w) ingest) with (handle cfg a m) in Hw.
  destruct (handle cfg a m) as [a1 es]. cbn [fst] in *. rewrite run_actor_app.
  destruct Hw as [[Hw Hr]|(s & Hs)].
  2: { destruct (run_actor cfg a1 ms') as [a2 es2]. cbn [run_actor]. destruct (handle cfg a2 _) as [a3 es3].
       exists s. apply elem_of_app. by left. }
  pose proof (run_attentive cfg ms' a1 Hcfg Hwf2 Hal2 Ha1) as Ha2.
  destruct (run_waiting hi w id cfg ms' _ _ a1 Hcfg Hwf2 Hal2 Hup2 Hcount Ha1 Hr Hw) as [Hw2|(s & Hs)];
    destruct (run_actor cfg a1 ms') as [a2 es2]; cbn [run_actor fst snd] in *.
  - replace (_ - _)%nat with 0%nat in Hw2 by lia.
    destruct (report_answers hi w id cfg a2 b (at_tracker _ _ Ha2) Hw2 Hg Hmax Hb) as (s & Hs).
    cbn [handle]. destruct (handle_report cfg a2 b) as [a3 es3]. cbn [snd] in *. exists s. rewrite app_nil_r. set_solver.
  - destruct (handle cfg a2 _) as [a3 es3]. exists s. set_solver.
Qed.

(** A submission whose new transactions do not fit in the pool: its request is
    not kept waiting, the actor answers that the batch is dropped. *)
Definition overflows cfg a (m : Message) : Prop :=
  match m with
  | Submit id _ txs bytes _ _ =>
      let fresh := (new_transactions txs (known_digests a)).1 in
      statuses (tracker a) !! id = None ∧ fresh ≠ [] ∧
      max_pool_bytes cfg < wrap64 (pool_bytes a + Z.min (total_bytes_for fresh) bytes)
  | _ => False
  end.

Lemma overflow_dropped cfg a id ds txs bytes w ingest :
  overflows cfg a (Submit id ds txs bytes (Some w) ingest) →
  let '(a', es) := handle cfg a (Submit id ds txs bytes (Some w) ingest) in
  es = SendTxStatus w TxDropped :: send_opt ingest (λ w, SendIngest w false) ∧
  pool a' = pool a ∧ tracker a' = tracker a.
Proof.
  cbn [overflows handle]. unfold handle_submit. destruct (new_transactions _ _) as [fresh known]. cbn [fst].
  intros (-> & Hf & Hmax). by rewrite bool_decide_eq_true_2, (proj2 (Z.ltb_lt _ _)).
Qed.

End answers.

(** ** The order of a report's loop *)

Section order.
Context `{LazyKey} `{ConsensusLib}.
Implicit Types (t : Tracker).

(** What [forget_batch] leaves of the watchers of one of its digests. *)
Definition unwatch (id : string) (ids : list string) : option (list string) :=
  match filter (λ known, known ≠ id) ids with [] => None | ids' => Some ids' end.

Lemma unwatch_comm x y ids : (unwatch x ids ≫= unwatch y) = (unwatch y ids ≫= unwatch x).
Proof.
  assert (∀ a b, (unwatch a ids ≫= unwatch b) = match filter (λ i, i ≠ b) (filter (λ i, i ≠ a) ids) with
    [] => None | l => Some l end) as Hgen.
  { intros a b. unfold unwatch. by destruct (filter (λ known, known ≠ a) ids). }
  rewrite !Hgen, !list_filter_filter.
  by rewrite (list_filter_iff (λ i, i ≠ y ∧ i ≠ x) (λ i, i ≠ x ∧ i ≠ y)) by tauto.
Qed.

(** What it leaves of the outcome, given the watchers. *)
Definition outlives (id : string) (ws : option (list string)) (o : option DigestOutcome) : option DigestOutcome :=
  match ws with
  | Some ids => match unwatch id ids with Some _ => o | None => None end
  | None => o
  end.

Lemma forget_loop_at id seen ws os ds d :
  (forget_loop id seen ws os ds).1 !! d = (if decide (d ∈ ds ∧ d ∉ seen) then ws !! d ≫= unwatch id else ws !! d) ∧
  (forget_loop id seen ws os ds).2 !! d = (if decide (d ∈ ds ∧ d ∉ seen) then outlives id (ws !! d) (os !! d) else os !! d).
Proof.
  revert seen ws os. induction ds as [|d0 ds IH]; intros seen ws os; cbn [forget_loop].
  { rewrite !decide_False by set_solver. done. }
  destruct (decide (d0 ∈ seen)) as [Hs|Hs].
  { destruct (IH seen ws os) as [-> ->]. split; apply decide_ext; set_solver. }
  set (seen' := {[d0]} ∪ seen). destruct (decide (d = d0)) as [->|Hne].
  - assert (∀ ws' os', (forget_loop id seen' ws' os' ds).1 !! d0 = ws' !! d0 ∧
      (forget_loop id seen' ws' os' ds).2 !! d0 = os' !! d0) as Hskip.
    { intros ws' os'. destruct (IH seen' ws' os') as [-> ->]. rewrite !decide_False by set_solver. done. }
    rewrite !(decide_True (P := d0 ∈ d0 :: ds ∧ d0 ∉ seen)) by (split; [by left|done]).
    destruct (ws !! d0) as [ids|] eqn:Ew; cbn [mbind option_bind outlives]; unfold unwatch.
    + destruct (filter (λ known, known ≠ id) ids) as [|i l] eqn:Ef;
        match goal with |- context [forget_loop id _ ?w ?o ds] => destruct (Hskip w o) as [-> ->] end;
        by rewrite ?lookup_delete_eq, ?lookup_insert_eq.
    + destruct (Hskip ws os) as [-> ->]. by rewrite Ew.
  - assert (∀ ws' os', ws' !! d = ws !! d → os' !! d = os !! d →
      (forget_loop id seen' ws' os' ds).1 !! d
      = (if decide (d ∈ d0 :: ds ∧ d ∉ seen) then ws !! d ≫= unwatch id else ws !! d) ∧
      (forget_loop id seen' ws' os' ds).2 !! d
      = (if decide (d ∈ d0 :: ds ∧ d ∉ seen) then outlives id (ws !! d) (os !! d) else os !! d)) as Hstep.
    { intros ws' os' E1 E2. destruct (IH seen' ws' os') as [-> ->]. rewrite E1, E2. split; apply decide_ext; set_solver. }
    destruct (ws !! d0) as [ids|]; [|by apply Hstep].
    destruct (filter _ ids); apply Hstep; by rewrite ?lookup_delete_ne, ?lookup_insert_ne.
Qed.

Lemma forget_batch_at id t d :
  digest_watchers (forget_batch id t) !! d
  = (if decide (d ∈ default [] (batch_digests t !! id)) then digest_watchers t !! d ≫= unwatch id else digest_watchers t !! d) ∧
  digest_outcomes (forget_batch id t) !! d
  = (if decide (d ∈ default [] (batch_digests t !! id)) then outlives id (digest_watchers t !! d) (digest_outcomes t !! d)
     else digest_outcomes t !! d).
Proof.
  unfold forget_batch. destruct (batch_digests t !! id) as [ds|].
  - destruct (forget_loop_at id ∅ (digest_watchers t) (digest_outcomes t) ds d) as [E1 E2].
    destruct (forget_loop _ _ _ _ _) as [ws os]. cbn in *. rewrite E1, E2. split; apply decide_ext; set_solver.
  - cbn. rewrite !decide_False by set_solver. done.
Qed.

Lemma outlives_comm x y w o :
  outlives y (w ≫= unwatch x) (outlives x w o) = outlives x (w ≫= unwatch y) (outlives y w o).
Proof.
  destruct w as [ids|]; [|done]. cbn. pose proof (unwatch_comm x y ids) as Hc. cbn in Hc.
  destruct (unwatch x ids), (unwatch y ids); cbn in *; try done.
  - by destruct (unwatch y l), (unwatch x l0).
  - by rewrite Hc.
  - by rewrite <- Hc.
Qed.

Lemma tracker_eq t t' :
  statuses t = statuses t' → status_order t = status_order t' → batch_digests t = batch_digests t' →
  digest_watchers t = digest_watchers t' → digest_outcomes t = digest_outcomes t' →
  pending_waiters t = pending_waiters t' → t = t'.
Proof. destruct t, t'. cbn. by intros -> -> -> -> -> ->. Qed.

(** Forgetting two batches takes either order. *)
Lemma forget_batch_comm x y t : x ≠ y → forget_batch y (forget_batch x t) = forget_batch x (forget_batch y t).
Proof.
  intros Hne. destruct (forget_batch_fields x t) as (S1 & O1 & B1 & P1 & _), (forget_batch_fields y t) as (S2 & O2 & B2 & P2 & _).
  destruct (forget_batch_fields y (forget_batch x t)) as (S3 & O3 & B3 & P3 & _),
    (forget_batch_fields x (forget_batch y t)) as (S4 & O4 & B4 & P4 & _).
  apply tracker_eq; [congruence..|by rewrite B3, B4, B1, B2, delete_delete| | |by rewrite P3, P4, P1, P2, delete_delete].
  all: apply map_eq; intros d.
  all: destruct (forget_batch_at y (forget_batch x t) d) as [W1 D1], (forget_batch_at x (forget_batch y t) d) as [W2 D2],
    (forget_batch_at x t d) as [W3 D3], (forget_batch_at y t d) as [W4 D4].
  all: rewrite B1, lookup_delete_ne in W1, D1 by done; rewrite B2, lookup_delete_ne in W2, D2 by done.
  - rewrite W1, W2, W3, W4. do 2 case_decide; try done. destruct (digest_watchers t !! d); [cbn; apply unwatch_comm|done].
  - rewrite D1, D2, D3, D4, W3, W4. do 2 case_decide; try done. apply outlives_comm.
Qed.

(** What resolving a batch with a status does before it is forgotten. *)
Definition settle_status (id : string) (s : BatchStatus) t : Tracker :=
  mkTracker (<[id:=s]> (statuses t)) (status_order t) (batch_digests t) (digest_watchers t) (digest_outcomes t)
    (delete id (pending_waiters t)).

Lemma settle_forget x y s t : settle_status x s (forget_batch y t) = forget_batch y (settle_status x s t).
Proof.
  unfold settle_status, forget_batch. cbn. destruct (batch_digests t !! y); [|cbn; f_equal; apply delete_delete].
  destruct (forget_loop _ _ _ _ _). cbn. f_equal. apply delete_delete.
Qed.

(** The status a batch resolves with, and resolving it as a function of it. *)
Definition verdict (id : string) t : option BatchStatus :=
  ds ← batch_digests t !! id; batch_status_from_outcomes ds (digest_outcomes t).
Definition answers (id : string) (s : BatchStatus) t : list Event :=
  match tx_status_from_batch s with Some x => (λ w, SendTxStatus w x) <$> waiters id t | None => [] end.

Lemma resolve_verdict id t :
  tracker_inv t →
  resolve_batch_if_terminal id t = match verdict id t with
                                   | Some s => (forget_batch id (settle_status id s t), answers id s t)
                                   | None => (t, [])
                                   end.
Proof.
  intros Ht. unfold verdict. destruct (batch_digests t !! id) as [ds|] eqn:Ed; cbn [mbind option_bind].
  2: { unfold resolve_batch_if_terminal. by rewrite Ed. }
  destruct (batch_status_from_outcomes ds (digest_outcomes t)) as [s|] eqn:Es.
  2: { unfold resolve_batch_if_terminal. by rewrite Ed, Es. }
  destruct (resolve_terminal id t ds s Ht Ed Es) as (x & Hx & -> & _). unfold answers. by rewrite Hx.
Qed.

Lemma collect_outcomes_ext os os' inc fil h ds :
  (∀ d, d ∈ ds → os !! d = os' !! d) → collect_outcomes os inc fil h ds = collect_outcomes os' inc fil h ds.
Proof.
  revert inc fil h. induction ds as [|d ds IH]; intros inc fil h He; cbn [collect_outcomes]; [done|].
  rewrite <- (He d) by by left. destruct (os !! d) as [[]|]; try apply IH; try done; intros; apply He; by right.
Qed.

Lemma verdict_stable x y t :
  tracker_inv t → x ≠ y →
  let t1 := (resolve_batch_if_terminal x t).1 in verdict y t1 = verdict y t ∧ waiters y t1 = waiters y t.
Proof.
  intros Ht Hne t1. subst t1. destruct (resolve_cases x t Ht) as [[-> _]|(t1 & s & -> & _ & Eb & Ep & Eo)]; [done|].
  cbn [fst]. unfold verdict, waiters. rewrite Eb, Ep, !lookup_delete_ne by done. split; [|done].
  destruct (batch_digests t !! y) as [ds|] eqn:Ed; [|done]. cbn. unfold batch_status_from_outcomes.
  rewrite (collect_outcomes_ext _ (digest_outcomes t)); [done|]. intros d Hd. apply (Eo y); [done|].
  apply (tw_watch _ _ Ht). by exists ds.
Qed.

(** Resolving two batches takes either order. *)
Lemma resolve_comm x y t :
  tracker_inv t → x ≠ y →
  let rx := resolve_batch_if_terminal x t in
  let ry := resolve_batch_if_terminal y t in
  resolve_batch_if_terminal y rx.1 = ((resolve_batch_if_terminal x ry.1).1, ry.2) ∧
  (resolve_batch_if_terminal x ry.1).2 = rx.2.
Proof.
  intros Ht Hne rx ry. subst rx ry. pose proof (resolve_wf x t Ht) as Hx. pose proof (resolve_wf y t Ht) as Hy.
  destruct (verdict_stable x y t Ht Hne) as [V1 W1], (verdict_stable y x t Ht (not_eq_sym Hne)) as [V2 W2].
  rewrite (resolve_verdict y _ Hx), (resolve_verdict x _ Hy), V1, V2. unfold answers in *. rewrite W1, W2.
  rewrite (resolve_verdict x t Ht), (resolve_verdict y t Ht).
  destruct (verdict x t) as [sx|], (verdict y t) as [sy|]; cbn [fst snd]; try done.
  split; [|done]. f_equal. rewrite !settle_forget. rewrite forget_batch_comm by done. do 2 f_equal.
  unfold settle_status. cbn. f_equal; [by apply insert_insert_ne|by apply delete_delete].
Qed.

(** A report resolves the watched batches in whatever order its set has: the
    tables come out the same, and the same answers are sent. *)
Lemma resolve_all_perm ids ids' t :
  tracker_inv t → ids ≡ₚ ids' →
  (resolve_all ids t).1 = (resolve_all ids' t).1 ∧ (resolve_all ids t).2 ≡ₚ (resolve_all ids' t).2.
Proof.
  intros Ht Hp. revert t Ht. induction Hp as [|x ids ids' _ IH|x y ids|ids1 ids2 ids3 _ IH1 _ IH2]; intros t Ht; [done|..].
  - cbn [resolve_all]. pose proof (resolve_wf x t Ht) as Hx. destruct (resolve_batch_if_terminal x t) as [t1 es].
    destruct (IH t1 Hx) as [E1 E2]. destruct (resolve_all ids t1), (resolve_all ids' t1). cbn in *. by rewrite E1, E2.
  - destruct (decide (x = y)) as [->|Hne]; [done|]. cbn [resolve_all].
    destruct (resolve_comm x y t Ht Hne) as [E1 E2].
    destruct (resolve_batch_if_terminal x t) as [t1 ex], (resolve_batch_if_terminal y t) as [t2 ey]. cbn [fst snd] in *.
    rewrite E1. destruct (resolve_batch_if_terminal x t2) as [t3 ex']. cbn [fst snd] in *. subst ex'.
    destruct (resolve_all ids t3) as [t4 es]. cbn [fst snd]. split; [done|]. by rewrite !app_assoc, (Permutation_app_comm ex ey).
  - destruct (IH1 t Ht), (IH2 t Ht). split; [congruence|]. by etrans.
Qed.
End order.

(** ** Outcomes that are overwritten *)

Section overwritten.
Context `{LazyKey} `{ConsensusLib}.
Implicit Types (t : Tracker).

(** The digests a status names as not finalized. *)
Definition status_filtered (s : BatchStatus) : list string :=
  match s with Dropped f | PartiallyFinalized _ _ f => f | _ => [] end.

(** A tracked batch one of whose digests counts as dropped, and a batch whose
    requests were told so. *)
Definition counted_dropped (id : string) (ds : list digest) (d : digest) t : Prop :=
  batch_digests t !! id = Some ds ∧ digest_outcomes t !! d = Some DigestDropped.
Definition told_dropped (id : string) (d : digest) (ws : list waiter) t (es : list Event) : Prop :=
  batch_digests t !! id = None ∧
  ∃ s x, statuses t !! id = Some s ∧ digest_to_string d ∈ status_filtered s ∧
    tx_status_from_batch s = Some x ∧ ∀ w, w ∈ ws → SendTxStatus w x ∈ es.

(** One or the other, with the same requests waiting. *)
Definition dropping (id : string) (ds : list digest) (d : digest) t t' (es : list Event) : Prop :=
  (counted_dropped id ds d t' ∧ waiters id t' = waiters id t) ∨ told_dropped id d (waiters id t) t' es.

Lemma status_filtered_dropped ds os s d :
  batch_status_from_outcomes ds os = Some s → d ∈ ds → os !! d = Some DigestDropped →
  digest_to_string d ∈ status_filtered s.
Proof.
  rewrite batch_status_partition. destruct (forallb _ ds); [|done]. cbv zeta. intros [= <-] Hd Ho.
  assert (digest_to_string d ∈ digest_to_string <$> filter (λ d, was_finalized os d = false) ds) as Hin.
  { apply list_elem_of_fmap. exists d. split; [done|]. apply list_elem_of_filter. split; [|done].
    unfold was_finalized, finalized_at. by rewrite Ho. }
  case_decide; [exact Hin|]. case_decide as E; [|exact Hin]. rewrite E in Hin. by apply not_elem_of_nil in Hin.
Qed.

(** Another batch's resolution leaves the status alone. *)
Lemma resolve_status_other id id' t :
  tracker_inv t → id' ≠ id → statuses (resolve_batch_if_terminal id' t).1 !! id = statuses t !! id.
Proof.
  intros Ht Hne. destruct (batch_digests t !! id') as [ds|] eqn:Ed.
  2: { unfold resolve_batch_if_terminal. by rewrite Ed. }
  destruct (batch_status_from_outcomes ds (digest_outcomes t)) as [s|] eqn:Es.
  2: { unfold resolve_batch_if_terminal. by rewrite Ed, Es. }
  destruct (resolve_terminal id' t ds s Ht Ed Es) as (x & _ & -> & _). cbn [fst].
  destruct (forget_batch_fields id' (mkTracker (<[id':=s]> (statuses t)) (status_order t) (batch_digests t)
    (digest_watchers t) (digest_outcomes t) (delete id' (pending_waiters t)))) as (-> & _). cbn. by rewrite lookup_insert_ne.
Qed.

Lemma resolve_all_status id ids t :
  tracker_inv t → batch_digests t !! id = None → statuses (resolve_all ids t).1 !! id = statuses t !! id.
Proof.
  revert t. induction ids as [|id' ids IH]; intros t Ht Hn; cbn [resolve_all]; [done|].
  pose proof (resolve_wf id' t Ht) as Hw. pose proof (resolve_untracked id id' t Ht Hn) as Hn'.
  assert (statuses (resolve_batch_if_terminal id' t).1 !! id = statuses t !! id) as Hs.
  { destruct (decide (id' = id)) as [->|Hne]; [|by apply resolve_status_other].
    unfold resolve_batch_if_terminal. by rewrite Hn. }
  destruct (resolve_batch_if_terminal id' t) as [t1 es]. cbn [fst] in *. specialize (IH t1 Hw Hn').
  destruct (resolve_all ids t1). cbn [fst] in *. congruence.
Qed.

Lemma resolve_dropping id id' ds d t :
  tracker_inv t → d ∈ ds → counted_dropped id ds d t →
  dropping id ds d t (resolve_batch_if_terminal id' t).1 (resolve_batch_if_terminal id' t).2.
Proof.
  intros Ht Hd [Hb Ho]. destruct (decide (id' = id)) as [->|Hne].
  - destruct (batch_status_from_outcomes ds (digest_outcomes t)) as [s|] eqn:Es.
    2: { unfold resolve_batch_if_terminal. rewrite Hb, Es. by left. }
    right. destruct (resolve_terminal id t ds s Ht Hb Es) as (x & Hx & -> & _). cbn [fst snd].
    set (t1 := mkTracker _ _ _ _ _ _). destruct (forget_batch_fields id t1) as (Est & _ & Eb & _).
    split; [rewrite Eb; cbn; by rewrite lookup_delete_eq|]. exists s, x. rewrite Est. cbn. rewrite lookup_insert_eq.
    split_and!; [done|by eapply status_filtered_dropped|done|]. intros w Hw. apply list_elem_of_fmap. by exists w.
  - left. destruct (resolve_keeps id id' t ds Ht Hne Hb) as (Hb' & Ho' & Hw'). split; [|done].
    split; [done|]. by rewrite Ho'.
Qed.

Lemma dropping_step id ds d t t1 t2 es es' :
  dropping id ds d t t1 es → (counted_dropped id ds d t1 → dropping id ds d t1 t2 es') →
  (batch_digests t1 !! id = None → batch_digests t2 !! id = None ∧ statuses t2 !! id = statuses t1 !! id) →
  dropping id ds d t t2 (es ++ es').
Proof.
  intros [[Hc Hw]|(Hn & s & x & Hs & Hf & Hx & Hws)] Hthen Hkeep.
  - destruct (Hthen Hc) as [[Hc' Hw']|(Hn & s & x & Hs & Hf & Hx & Hws)]; [left; split; [done|congruence]|right].
    split; [done|]. exists s, x. split_and!; [done..|]. intros w Hin. rewrite <- Hw in Hin. apply elem_of_app. right. by apply Hws.
  - right. destruct (Hkeep Hn) as [Hn' E]. split; [done|]. exists s, x. rewrite E. split_and!; [done..|].
    intros w Hin. apply elem_of_app. left. by apply Hws.
Qed.

Lemma resolve_all_dropping id ids ds d t :
  tracker_inv t → d ∈ ds → counted_dropped id ds d t →
  dropping id ds d t (resolve_all ids t).1 (resolve_all ids t).2.
Proof.
  intros Ht Hd. revert t Ht. induction ids as [|id' ids IH]; intros t Ht Hc; cbn [resolve_all]; [by left|].
  pose proof (resolve_wf id' t Ht) as Hw. pose proof (resolve_dropping id id' ds d t Ht Hd Hc) as Hone.
  destruct (resolve_batch_if_terminal id' t) as [t1 es]. cbn [fst snd] in *.
  pose proof (resolve_all_untracked id ids t1 Hw) as Hu. pose proof (resolve_all_status id ids t1 Hw) as Hst.
  specialize (IH t1 Hw). destruct (resolve_all ids t1) as [t2 es']. cbn [fst snd] in *.
  eapply dropping_step; [exact Hone|exact IH|auto].
Qed.

Lemma record_outcomes_at f ds t known d :
  digest_outcomes (record_outcomes f ds t known).1 !! d = if decide (d ∈ ds) then Some (f d) else digest_outcomes t !! d.
Proof.
  revert t known. induction ds as [|d0 ds IH]; intros t known; cbn [record_outcomes].
  { by rewrite decide_False by apply not_elem_of_nil. }
  rewrite IH. destruct (decide (d ∈ ds)) as [Hin|Hin]; [by rewrite decide_True by (by right)|]. cbn.
  destruct (decide (d = d0)) as [->|Hne]; [rewrite lookup_insert_eq, decide_True by (by left); done|].
  rewrite lookup_insert_ne by done. by rewrite decide_False by (by intros [?|?]%elem_of_cons).
Qed.

(** The digests of a batch that settles and the block does not have. *)
Definition settled_outcome (h : Z) (fin : gset digest) (ds : list digest) : digest → DigestOutcome :=
  if existsb (λ d, bool_decide (d ∈ fin)) ds
  then λ d, if decide (d ∈ fin) then DigestFinalized h else DigestDropped else λ _, DigestDropped.

Lemma settled_outcome_missing h fin ds d : d ∉ fin → settled_outcome h fin ds d = DigestDropped.
Proof. intros Hd. unfold settled_outcome. case_match; [by rewrite decide_False|done]. Qed.

Lemma report_loop_settles cfg h fin rem t known b bs :
  settles cfg h fin b = true →
  let t1 := (record_outcomes (settled_outcome h fin (pb_digests b)) (pb_digests b) t known).1 in
  let r := resolve_all (elements (watched_batches_for (pb_digests b) (digest_watchers t))) t1 in
  ∃ known1, let l := report_loop cfg h fin rem r.1 known1 bs in
    (report_loop cfg h fin rem t known (b :: bs)).1.1.2 = l.1.1.2 ∧
    (report_loop cfg h fin rem t known (b :: bs)).2 = r.2 ++ l.2.
Proof.
  intros Hb. rewrite report_loop_cons, Hb. cbv zeta. fold (settled_outcome h fin (pb_digests b)).
  destruct (record_outcomes _ _ _ _) as [t1 k1]. cbn [fst]. exists k1.
  destruct (resolve_all _ t1) as [t2 es]. cbn [fst snd]. by destruct (report_loop _ _ _ _ _ _ _) as [[[r t3] k] es'].
Qed.

(** A batch that is no longer tracked keeps its status. *)
Lemma report_loop_status cfg h fin rem t known bs id :
  tracker_inv t → batch_digests t !! id = None →
  statuses (report_loop cfg h fin rem t known bs).1.1.2 !! id = statuses t !! id.
Proof.
  revert rem t known. induction bs as [|b bs IH]; intros rem t known Ht Hn; [done|].
  destruct (settles cfg h fin b) eqn:Hb; [|by rewrite report_loop_cons, Hb; apply IH].
  destruct (report_loop_settles cfg h fin rem t known b bs Hb) as (k1 & -> & _).
  destruct (record_outcomes_frame (settled_outcome h fin (pb_digests b)) (pb_digests b) t known) as (Es & _ & Eb & _).
  pose proof (record_outcomes_wf (settled_outcome h fin (pb_digests b)) (pb_digests b) t known Ht) as Ht1.
  set (ids := elements _). rewrite <- Eb in Hn.
  rewrite IH; [|by apply resolve_all_wf|by apply resolve_all_untracked]. by rewrite resolve_all_status, Es.
Qed.

(** The outcome of a digest the block does not have is not brought back. *)
Lemma settle_dropping h fin t known ds0 ids id ds d :
  tracker_inv t → d ∈ ds → d ∉ fin → batch_digests t !! id = Some ds →
  d ∈ ds0 ∨ digest_outcomes t !! d = Some DigestDropped →
  let t1 := (record_outcomes (settled_outcome h fin ds0) ds0 t known).1 in
  dropping id ds d t (resolve_all ids t1).1 (resolve_all ids t1).2.
Proof.
  intros Ht Hd Hfin Hb Ho t1.
  destruct (record_outcomes_frame (settled_outcome h fin ds0) ds0 t known) as (_ & _ & Eb & _ & Ep & _).
  pose proof (record_outcomes_wf (settled_outcome h fin ds0) ds0 t known Ht) as Ht1. fold t1 in Eb, Ep, Ht1.
  assert (counted_dropped id ds d t1) as Hc.
  { split; [by rewrite Eb|]. unfold t1. rewrite record_outcomes_at. case_decide as E; [by rewrite settled_outcome_missing|].
    by destruct Ho. }
  pose proof (resolve_all_dropping id ids ds d t1 Ht1 Hd Hc) as Hr. unfold dropping in *.
  assert (waiters id t1 = waiters id t) as Hw by (unfold waiters; by rewrite Ep). by rewrite Hw in Hr.
Qed.

(** The batch at the head settles, with [d] or after it counted as dropped. *)
Lemma report_loop_head cfg h fin rem t known b bs id ds d :
  tracker_inv t → d ∈ ds → d ∉ fin → batch_digests t !! id = Some ds → settles cfg h fin b = true →
  d ∈ pb_digests b ∨ digest_outcomes t !! d = Some DigestDropped →
  (∀ t known, tracker_inv t → counted_dropped id ds d t →
    dropping id ds d t (report_loop cfg h fin rem t known bs).1.1.2 (report_loop cfg h fin rem t known bs).2) →
  dropping id ds d t (report_loop cfg h fin rem t known (b :: bs)).1.1.2 (report_loop cfg h fin rem t known (b :: bs)).2.
Proof.
  intros Ht Hd Hfin Hb Hset Ho Hthen. destruct (report_loop_settles cfg h fin rem t known b bs Hset) as (k1 & -> & ->).
  set (t1 := (record_outcomes _ _ _ _).1). set (ids := elements _).
  assert (tracker_inv (resolve_all ids t1).1) as Hw by (apply resolve_all_wf, record_outcomes_wf, Ht).
  eapply dropping_step; [by apply settle_dropping|by apply Hthen|].
  intros Hn. split; [by apply report_loop_untracked|by apply report_loop_status].
Qed.

Lemma report_loop_dropping cfg h fin rem t known bs id ds d :
  tracker_inv t → d ∈ ds → d ∉ fin → counted_dropped id ds d t →
  dropping id ds d t (report_loop cfg h fin rem t known bs).1.1.2 (report_loop cfg h fin rem t known bs).2.
Proof.
  intros Ht Hd Hfin. revert rem t known Ht. induction bs as [|b bs IH]; intros rem t known Ht Hc; [by left|].
  destruct (settles cfg h fin b) eqn:Hb; [|by rewrite report_loop_cons, Hb; apply IH].
  pose proof Hc as [Hid Ho]. apply report_loop_head; [done..|by right|]. intros. by apply IH.
Qed.

Lemma resolve_all_keeps id ids t ds :
  tracker_inv t → id ∉ ids → batch_digests t !! id = Some ds →
  let t' := (resolve_all ids t).1 in batch_digests t' !! id = Some ds ∧ waiters id t' = waiters id t.
Proof.
  cbn zeta. revert t. induction ids as [|id' ids IH]; intros t Ht Hn Hb; cbn [resolve_all]; [done|].
  apply not_elem_of_cons in Hn as [Hne Hn]. pose proof (resolve_wf id' t Ht) as Hw.
  destruct (resolve_keeps id id' t ds Ht (not_eq_sym Hne) Hb) as (Hb' & _ & Hw').
  destruct (resolve_batch_if_terminal id' t) as [t1 es]. cbn [fst] in *. specialize (IH t1 Hw Hn Hb').
  destruct (resolve_all ids t1). cbn [fst] in *. destruct IH. split; congruence.
Qed.

(** The first batch that settles and shares a digest with [ds] has [d]. *)
Lemma report_loop_overwrites cfg h fin rem t known before b after id ds d :
  tracker_inv t → d ∈ ds → d ∉ fin → batch_digests t !! id = Some ds →
  settles cfg h fin b = true → d ∈ pb_digests b →
  (∀ b', b' ∈ before → settles cfg h fin b' = true → ∀ d', d' ∈ ds → d' ∉ pb_digests b') →
  let l := report_loop cfg h fin rem t known (before ++ b :: after) in dropping id ds d t l.1.1.2 l.2.
Proof.
  intros Ht Hd Hfin Hb Hset Hin Hbef. cbv zeta. revert rem t known Ht Hb.
  induction before as [|b0 before IH]; intros rem t known Ht Hb; cbn [app].
  { apply report_loop_head; [done..|by left|]. intros. by apply report_loop_dropping. }
  assert (∀ b', b' ∈ before → settles cfg h fin b' = true → ∀ d', d' ∈ ds → d' ∉ pb_digests b') as Hbef'
    by (intros b' Hb'; apply Hbef; by right).
  destruct (settles cfg h fin b0) eqn:Hs0; [|rewrite report_loop_cons, Hs0; by apply IH].
  destruct (report_loop_settles cfg h fin rem t known b0 (before ++ b :: after) Hs0) as (k1 & -> & ->).
  destruct (record_outcomes_frame (settled_outcome h fin (pb_digests b0)) (pb_digests b0) t known)
    as (_ & _ & Eb & _ & Ep & _).
  set (t1 := (record_outcomes _ _ _ _).1) in *. set (ids := elements _).
  assert (tracker_inv t1) as Ht1 by by apply record_outcomes_wf.
  assert (id ∉ ids) as Hni.
  { unfold ids. rewrite elem_of_elements, watched_batches_spec. intros (d' & Hd' & Hwat).
    apply (tw_watch _ _ Ht) in Hwat as (ds' & Hds' & Hd''). rewrite Hb in Hds'. injection Hds' as <-.
    by apply (Hbef b0 ltac:(left) Hs0 d' Hd''). }
  destruct (resolve_all_keeps id ids t1 ds Ht1 Hni) as [Hb1 Hw1]; [by rewrite Eb|].
  assert (waiters id (resolve_all ids t1).1 = waiters id t) as Hw by (rewrite Hw1; unfold waiters; by rewrite Ep).
  pose proof (resolve_all_wf ids t1 Ht1) as Ht2.
  destruct (IH Hbef' rem _ k1 Ht2 Hb1) as [[Hc Hwt]|(Hn & s & x & Hst & Hf & Hx & Hws)].
  - left. split; [done|congruence].
  - right. split; [done|]. exists s, x. split_and!; [done..|]. intros w Hwi. rewrite <- Hw in Hwi.
    apply elem_of_app. right. by apply Hws.
Qed.

(** C39. A finalized outcome is overwritten.  A batch waits; one of its digests
    was finalized, and is proposed again with another batch.  A report settles
    that second batch, being the first it settles that shares a digest with the
    waiting one, and its block does not have the digest.  Then the digest counts
    as dropped: the batch goes on waiting with that outcome, or it is settled
    now, its status names the digest among those not finalized, and every
    request for it is told so. *)
Theorem resubmission_overwrites_outcome cfg a b id ds d h0 before pb after :
  let h := height (header (inner b)) in
  let fin := finalized_digests b in
  tracker_inv (tracker a) → batch_digests (tracker a) !! id = Some ds → d ∈ ds →
  digest_outcomes (tracker a) !! d = Some (DigestFinalized h0) →
  proposed a = before ++ pb :: after → d ∈ pb_digests pb → settles cfg h fin pb = true → d ∉ fin →
  (∀ b', b' ∈ before → settles cfg h fin b' = true → ∀ d', d' ∈ ds → d' ∉ pb_digests b') →
  let '(a', es) := handle_report cfg a b in
  (batch_digests (tracker a') !! id = Some ds ∧ digest_outcomes (tracker a') !! d = Some DigestDropped) ∨
  (batch_digests (tracker a') !! id = None ∧
   ∃ s x, statuses (tracker a') !! id = Some s ∧ digest_to_string d ∈ status_filtered s ∧
     tx_status_from_batch s = Some x ∧ ∀ w, w ∈ waiters id (tracker a) → SendTxStatus w x ∈ es).
Proof.
  intros h fin Ht Hb Hd _ Hprop Hin Hset Hfin Hbef. unfold handle_report. fold h fin. rewrite Hprop.
  pose proof (report_loop_overwrites cfg h fin [] (tracker a) (known_digests a) before pb after id ds d
    Ht Hd Hfin Hb Hset Hin Hbef) as Hl. cbv zeta in Hl.
  destruct (report_loop _ _ _ _ _ _ _) as [[[r t] k] es]. cbn [fst snd tracker] in *.
  destruct Hl as [[[Hc Hc'] _]|(Hn & s & x & Hs & Hf & Hx & Hws)]; [by left|right].
  split; [done|]. exists s, x. split_and!; [done..|]. intros w Hw. apply elem_of_app. left. by apply Hws.
Qed.
End overwritten.

(** ** Witness *)

(** Batch B shares a transaction with batch A, which is in front of it; C comes
    behind.  Two proposals take A and B, and block 4 is past their grace
    period. *)
Definition crowd_before : list Message := [submit "A" [tx_d]].
Definition crowd_after : list Message := [Propose 1 2%nat; submit "C" [tx_e; tx_f]; sample_report 1 [tx_f]; Propose 2 2%nat].
Definition crowd_block : SealedBlock := seal_block (block_new (sample_header 4 1004 0 1) []).
Definition crowd_request : Message := Submit "B" (message_digest <$> [tx_d; tx_e]) [tx_d; tx_e] 294 (Some 9%nat) None.

Lemma crowd_wf : Forall message_wf (crowd_before ++ crowd_request :: crowd_after).
Proof. repeat constructor; vm_compute; done. Qed.
Lemma crowd_aligned : Forall aligned (crowd_before ++ crowd_request :: crowd_after).
Proof. repeat constructor; done. Qed.
Lemma crowd_pool :
  length (pool (handle sample_cfg (run_actor sample_cfg actor_new crowd_before).1 crowd_request).1) = 2%nat.
Proof. vm_compute. reflexivity. Qed.

Lemma mempool_answers_witness :
  answered 9%nat (run_actor sample_cfg (run_actor sample_cfg actor_new crowd_before).1
    (crowd_request :: crowd_after ++ [ReportBlock crowd_block])).2.
Proof.
  apply (mempool_answers sample_cfg crowd_before "B" [tx_d; tx_e] 294 9%nat None crowd_after crowd_block 2).
  - exact sample_cfg_wf.
  - cbn. lia.
  - cbn. unfold u64_max. lia.
  - exact crowd_wf.
  - exact crowd_aligned.
  - repeat constructor; cbn; lia.
  - apply Z.ltb_lt. vm_compute. reflexivity.
  - fold crowd_request. rewrite crowd_pool. apply Nat.leb_le. vm_compute. reflexivity.
  - apply Z.leb_le. vm_compute. reflexivity.
Defined.

(** Batch B waits for [tx_d] and [tx_e].  Block 1 finalizes [tx_d], which is
    then pooled and proposed again with batch C; block 2 finalizes the other
    transaction of C. *)
Definition resubmission : list Message :=
  [submit "A" [tx_d]; submit "B" [tx_d; tx_e]; Propose 1 2%nat; sample_report 1 [tx_d];
   submit "C" [tx_d; tx_f]; Propose 2 2%nat].
Definition resubmitted : Actor := (run_actor sample_cfg actor_new resubmission).1.
Definition resubmitted_block : SealedBlock := seal_block (block_new (sample_header 2 1002 0 1) [tx_f]).

(** The state before block 2: the digest is finalized, batch B waits, and of the
    two proposed batches the report settles the second. *)
Definition resubmitted_checks : bool :=
  let d := message_digest tx_d in
  let fin := finalized_digests resubmitted_block in
  bool_decide (batch_digests (tracker resubmitted) !! "B"%string = Some [d; message_digest tx_e]) &&
  match digest_outcomes (tracker resubmitted) !! d with Some (DigestFinalized h) => h =? 1 | _ => false end &&
  bool_decide (d ∉ fin) &&
  match proposed resubmitted with
  | [p1; p2] => negb (settles sample_cfg 2 fin p1) && settles sample_cfg 2 fin p2 && bool_decide (d ∈ pb_digests p2)
  | _ => false
  end.
Lemma resubmitted_ok : resubmitted_checks = true.
Proof. vm_compute. reflexivity. Qed.

Lemma resubmission_overwrites_outcome_witness :
  digest_outcomes (tracker resubmitted) !! message_digest tx_d = Some (DigestFinalized 1) ∧
  let '(a', es) := handle_report sample_cfg resubmitted resubmitted_block in
  (batch_digests (tracker a') !! "B" = Some [message_digest tx_d; message_digest tx_e] ∧
   digest_outcomes (tracker a') !! message_digest tx_d = Some DigestDropped) ∨
  (batch_digests (tracker a') !! "B" = None ∧
   ∃ s x, statuses (tracker a') !! "B" = Some s ∧ digest_to_string (message_digest tx_d) ∈ status_filtered s ∧
     tx_status_from_batch s = Some x ∧ ∀ w, w ∈ waiters "B" (tracker resubmitted) → SendTxStatus w x ∈ es).
Proof.
  pose proof resubmitted_ok as Hok. unfold resubmitted_checks in Hok. cbv zeta in Hok.
  apply andb_true_iff in Hok as [[[Hb%bool_decide_eq_true Ho]%andb_true_iff Hf%bool_decide_eq_true]%andb_true_iff Hp].
  destruct (proposed resubmitted) as [|p1 [|p2 []]] eqn:E; try discriminate Hp.
  apply andb_true_iff in Hp as [[Hs1%negb_true_iff Hs2]%andb_true_iff Hin%bool_decide_eq_true].
  destruct (digest_outcomes (tracker resubmitted) !! message_digest tx_d) as [[h|]|] eqn:Eo; try discriminate Ho.
  apply Z.eqb_eq in Ho as ->. split; [reflexivity|].
  apply (resubmission_overwrites_outcome sample_cfg resubmitted resubmitted_block "B"
    [message_digest tx_d; message_digest tx_e] (message_digest tx_d) 1 [p1] p2 []);
    [apply run_tracker_inv|exact Hb|by left|exact Eo|exact E|exact Hin|exact Hs2|exact Hf|].
  intros b' ->%list_elem_of_singleton Hs. exfalso. change (settles sample_cfg 2 (finalized_digests resubmitted_block) p1 = true) in Hs.
  congruence.
Defined.

(** The end of that run: block 3 is past the grace period of [tx_e], and batch B
    is reported as dropped although block 1 has [tx_d]. *)
Lemma resubmitted_reported_dropped :
  let t := tracker (run_actor sample_cfg actor_new (resubmission ++ [sample_report 2 [tx_f]; sample_report 3 []])).1 in
  statuses t !! "A" = Some (Finalized 1 [digest_to_string (message_digest tx_d)]) ∧
  statuses t !! "B" = Some (Dropped [digest_to_string (message_digest tx_d); digest_to_string (message_digest tx_e)]).
Proof. split; vm_compute; reflexivity. Qed.
