(* ===== verification/Webserver.v ===== *)
(** * The mempool's HTTP interface (crates/mempool/src/webserver/{http,mailbox}.rs)

    Request bodies are decoded, size-checked and signature-checked before they
    reach the actor through a bounded mailbox.  The theorems show that exactly
    the well-formed, correctly signed batches within the byte limit pass, and
    that the transaction-count bound computed from the body length never
    refuses one of them. *)

From stdpp Require Import prelude gmap list strings.
From S2P Require Import Prelude Interfaces Concrete Account Auth Transaction Block Mempool.

(** ** Definitions *)

Definition MAX_BATCH_LENGTH_PREFIX_BYTES : Z := 5.
Definition MIN_BATCH_LENGTH_PREFIX_BYTES : Z := 1.
Definition MIN_U64_VARINT_BYTES : Z := 1.

Definition max_request_bytes (max_batch_bytes : Z) : Z :=
  saturating_add max_batch_bytes MAX_BATCH_LENGTH_PREFIX_BYTES.

Definition min_signed_transaction_bytes : Z :=
  Z.of_nat TransactionPublicKey_SIZE + Z.of_nat TransactionPublicKey_SIZE
  + MIN_U64_VARINT_BYTES + MIN_U64_VARINT_BYTES + MIN_SIZE.

Definition max_transaction_count (body_len : Z) : option Z :=
  let payload_len := saturating_sub body_len MIN_BATCH_LENGTH_PREFIX_BYTES in
  let max_transactions := payload_len / min_signed_transaction_bytes in
  if 0 <? max_transactions then Some max_transactions else None.

(** The status codes the handlers answer with. *)
Inductive StatusCode : Type :=
| OK | ACCEPTED | BAD_REQUEST | NOT_FOUND | PAYLOAD_TOO_LARGE | INTERNAL_SERVER_ERROR
| SERVICE_UNAVAILABLE.

Section http.
Context `{LazyKey} `{Json} `{ConsensusLib}.

(** The parts of [struct AppState] that [verify_body] reads. *)
Record AppState := mkAppState {
  namespace : bytes;
  max_batch_bytes : Z;
  http_signature_strategy : Strategy;
  http_hash_strategy : Strategy
}.

(** [struct VerifiedBatch]. *)
Record VerifiedBatch := mkVerified {
  vb_transactions : list SignedTransaction;
  vb_digests : list digest;
  vb_total_bytes : Z
}.

(** [verify_body]: [task_alive] tells whether the blocking task finished,
    [rng] is the randomness of the batch check. *)
Definition verify_body (st : AppState) (task_alive : bool) (rng : Z) (body : bytes)
    : result StatusCode VerifiedBatch :=
  if max_request_bytes (max_batch_bytes st) <? zlen body then Err PAYLOAD_TOO_LARGE
  else
    match max_transaction_count (zlen body) with
    | None => Err BAD_REQUEST
    | Some max_transactions =>
        signed ← map_err (λ _, BAD_REQUEST) (decode (read_vec read_signed 1 max_transactions) body);
        let total := total_bytes_for signed in
        if max_batch_bytes st <? total then Err PAYLOAD_TOO_LARGE
        else if negb task_alive then Err INTERNAL_SERVER_ERROR
        else
          txs ← ok_or (verify_transaction_chunks (http_signature_strategy st) (http_hash_strategy st)
                         (namespace st) rng (lst_new <$> signed)) BAD_REQUEST;
          Ok (mkVerified txs (message_digest <$> txs) total)
    end.

(** [Mailbox::try_submit] and [try_ingest]: [None] when the channel is full
    or closed, otherwise the message queued for the actor. *)
Definition try_send (capacity : nat) (open : bool) (queue : list Message) (m : Message)
    : option (list Message) :=
  if open && bool_decide (length queue < capacity)%nat then Some (queue ++ [m]) else None.

Definition try_submit (capacity : nat) (open : bool) (queue : list Message) (batch_id : string)
    (b : VerifiedBatch) (w : waiter) : option (list Message) :=
  try_send capacity open queue
    (Submit batch_id (vb_digests b) (vb_transactions b) (vb_total_bytes b) (Some w) None).

Definition try_ingest (capacity : nat) (open : bool) (queue : list Message) (batch_id : string)
    (b : VerifiedBatch) (w : waiter) : option (list Message) :=
  try_send capacity open queue
    (Submit batch_id (vb_digests b) (vb_transactions b) (vb_total_bytes b) None (Some w)).

(** [Reporter::report]: a full channel is retried in the background. *)
Inductive Feedback : Type := FeedbackOk | Backoff | Closed.
Definition report (capacity : nat) (open : bool) (queue : list Message) (m : Message)
    : Feedback * list Message * list Message :=
  if negb open then (Closed, queue, [])
  else if bool_decide (length queue < capacity)%nat then (FeedbackOk, queue ++ [m], [])
  else (Backoff, queue, [m]).

(** [TransactionSource::propose]. *)
Definition propose_message (parent : Header) (w : waiter) : Message :=
  Propose (wrap64 (height parent + 1)) w.

(** The handlers up to the message they queue; the answer of the actor is
    [submit_answer] and [ingest_answer]. *)
Definition submit_batch (st : AppState) (task_alive : bool) (rng : Z) (capacity : nat) (open : bool)
    (queue : list Message) (w : waiter) (body : bytes) : result StatusCode (list Message) :=
  let batch_id := digest_to_string (hash body) in
  batch ← verify_body st task_alive rng body;
  ok_or (try_submit capacity open queue batch_id batch w) SERVICE_UNAVAILABLE.

Definition ingest_batch (st : AppState) (task_alive : bool) (rng : Z) (capacity : nat) (open : bool)
    (queue : list Message) (w : waiter) (body : bytes)
    : result StatusCode (list Message * list string) :=
  let batch_id := digest_to_string (hash body) in
  batch ← verify_body st task_alive rng body;
  let digests := digest_to_string <$> vb_digests batch in
  queue' ← ok_or (try_ingest capacity open queue batch_id batch w) SERVICE_UNAVAILABLE;
  Ok (queue', digests).

(** [None] is a closed response channel. *)
Definition submit_answer (r : option TxStatus) : StatusCode * option TxStatus :=
  match r with None => (INTERNAL_SERVER_ERROR, None) | Some s => (OK, Some s) end.
Definition ingest_answer (digests : list string) (r : option bool) : StatusCode * list string :=
  match r with
  | Some true => (ACCEPTED, digests)
  | Some false => (SERVICE_UNAVAILABLE, [])
  | None => (INTERNAL_SERVER_ERROR, [])
  end.

(** [fetch_status] and [fetch_consensus_round]. *)
Definition fetch_status (r : option BatchStatus) : StatusCode * option BatchStatus :=
  match r with None => (NOT_FOUND, None) | Some s => (OK, Some s) end.
Definition fetch_consensus_round (r : option Z) : StatusCode * option Z :=
  match r with None => (SERVICE_UNAVAILABLE, None) | Some x => (OK, Some x) end.

(** [fetch_account]: [from_hex] is the library's, [reader] the attached state
    database, if any. *)
Definition fetch_account (from_hex : string → option bytes)
    (reader : option (TransactionPublicKey → option Account)) (public_key : string)
    : StatusCode * option Account :=
  match from_hex public_key with
  | None => (BAD_REQUEST, None)
  | Some b =>
      if negb (zlen b =? Z.of_nat TransactionPublicKey_SIZE) then (BAD_REQUEST, None)
      else
        match decode read_tpk b with
        | Err _ => (BAD_REQUEST, None)
        | Ok pk =>
            match reader with
            | None => (SERVICE_UNAVAILABLE, None)
            | Some get =>
                match get pk with
                | None => (NOT_FOUND, None)
                | Some a => (OK, Some a)
                end
            end
        end
  end.

End http.

(** ** Lemmas *)

Section lemmas.
Context `{LazyKey} `{Json} `{ConsensusLib}.

Definition batch_bytes (txs : list SignedTransaction) : Z := sumZ (signed_encode_size <$> txs).

Lemma total_bytes_for_sum txs :
  Forall signed_wf txs → batch_bytes txs ≤ u64_max → total_bytes_for txs = batch_bytes txs.
Proof.
  unfold total_bytes_for, batch_bytes. intros Hwf Hs.
  assert (∀ z, 0 ≤ z → z + sumZ (signed_encode_size <$> txs) ≤ u64_max →
    fold_left (λ acc t, wrap64 (acc + signed_encode_size t)) txs z = z + sumZ (signed_encode_size <$> txs)) as Hg.
  { clear Hs. induction Hwf as [|t txs Ht Hwf IH]; intros z Hz Hs; cbn in *; [lia|].
    assert (0 ≤ sumZ (signed_encode_size <$> txs)).
    { apply sumZ_nonneg, Forall_fmap. eapply Forall_impl; [done|]. intros t' Ht'. cbn.
      rewrite signed_encode_size_spec by done. apply zlen_nonneg. }
    assert (0 ≤ signed_encode_size t) by (rewrite signed_encode_size_spec by done; apply zlen_nonneg).
    rewrite wrap64_id by (unfold is_u64; lia). rewrite IH by lia. lia. }
  rewrite Hg by lia. lia.
Qed.

(** The encoding of a batch: a length of one to five bytes, then the
    transactions. *)
Lemma batch_encoding_length txs :
  Forall signed_wf txs → zlen txs < 2 ^ 32 →
  zlen (write_vec write_signed txs) = zlen (write_len (zlen txs)) + batch_bytes txs ∧
  1 ≤ zlen (write_len (zlen txs)) ≤ 5 ∧
  147 * zlen txs ≤ batch_bytes txs.
Proof.
  intros Hwf Hn. pose proof (zlen_nonneg txs). rewrite write_vec_spec, zlen_app.
  pose proof (write_len_size (zlen txs) ltac:(lia)) as Hl. unfold zlen in *.
  split_and!; [|lia..|].
  - f_equal. unfold batch_bytes. clear Hn Hl H5. induction Hwf as [|t txs Ht Hwf IH]; cbn; [done|].
    rewrite length_app, signed_encode_size_spec by done. unfold zlen. lia.
  - clear Hn Hl H5. unfold batch_bytes. induction Hwf as [|t txs Ht Hwf IH]; [done|].
    pose proof (signed_size_bounds t Ht). change (Z.of_nat Transaction_SIZE + MIN_SIZE) with 147 in *.
    cbn [length fmap list_fmap sumZ]. rewrite signed_encode_size_spec by done. lia.
Qed.

(** The bound on the number of transactions admits every encodable batch:
    it divides by 135 bytes, and a signed transaction takes at least 147. *)
Lemma max_transaction_count_admits n len :
  1 ≤ n → 147 * n + 1 ≤ len → ∃ mt, max_transaction_count len = Some mt ∧ n ≤ mt.
Proof.
  intros Hn Hl. unfold max_transaction_count, saturating_sub.
  change MIN_BATCH_LENGTH_PREFIX_BYTES with 1. change min_signed_transaction_bytes with 135.
  rewrite Z.max_l by lia.
  assert (n ≤ (len - 1) / 135) as Hd by (apply Z.div_le_lower_bound; lia).
  exists ((len - 1) / 135). split; [|done]. by rewrite (proj2 (Z.ltb_lt _ _)) by lia.
Qed.

(** Equivalent transactions pass the same checks. *)
Lemma signature_ok_equiv ns (t t' : SignedTransaction) :
  t ≡ t' → lst_signature_ok ns (lst_new t) = lst_signature_ok ns (lst_new t').
Proof.
  intros ([[_ Hg] _] & Hd & Hs). unfold lst_signature_ok. cbn [lst_get lst_get_or_init lst_new cell].
  by rewrite Hg, Hd, Hs.
Qed.

Definition decoded_as (t t' : SignedTransaction) : Prop := t ≡ t' ∧ signed_wf t'.

Lemma decoded_batch txs txs' :
  Forall2 decoded_as txs txs' →
  Forall signed_wf txs' ∧ batch_bytes txs' = batch_bytes txs ∧
  message_digest <$> txs' = message_digest <$> txs ∧ txs ≡ txs' ∧
  ∀ ns, forallb (lst_signature_ok ns) (lst_new <$> txs') = forallb (lst_signature_ok ns) (lst_new <$> txs).
Proof.
  unfold batch_bytes. induction 1 as [|t t' txs txs' [Heq Hwf] _ (IH1 & IH2 & IH3 & IH4 & IH5)]; [done|].
  pose proof Heq as (_ & Hd & Hs). cbn [fmap list_fmap forallb sumZ] in *. split_and!.
  - by constructor.
  - rewrite IH2. unfold signed_encode_size. by rewrite Hs.
  - by rewrite IH3, Hd.
  - by constructor.
  - intros ns. by rewrite IH5, (signature_ok_equiv ns t t').
Qed.

Lemma mapM_lst_new txs : mapM lst_get (lst_new <$> txs) = Some txs.
Proof. induction txs as [|t txs IH]; cbn; [done|]. by rewrite IH. Qed.

(** A valid batch passes every check. *)
Lemma verify_body_valid st rng txs :
  txs ≠ [] → Forall signed_wf txs → zlen txs < 2 ^ 32 →
  forallb (lst_signature_ok (namespace st)) (lst_new <$> txs) = true →
  batch_bytes txs ≤ max_batch_bytes st → max_batch_bytes st + 5 ≤ u64_max →
  ∃ txs', txs ≡ txs' ∧
    verify_body st true rng (write_vec write_signed txs)
    = Ok (mkVerified txs' (message_digest <$> txs) (batch_bytes txs)).
Proof.
  intros Hne Hwf Hn Hsig Hmax Hcap.
  destruct (batch_encoding_length txs Hwf Hn) as (Hlen & Hpre & Hmin).
  assert (1 ≤ zlen txs) by (unfold zlen; destruct txs; [done|]; cbn; lia).
  destruct (max_transaction_count_admits (zlen txs) (zlen (write_vec write_signed txs)))
    as (mt & Hmt & Hle); [done|lia|].
  destruct (read_write_vec read_signed write_signed decoded_as 1 mt txs [])
    as (txs' & Hread & Hdec); [lia|done| |].
  { intros t b Ht. rewrite Forall_forall in Hwf.
    destruct (read_write_signed t b (Hwf _ Ht)) as (t' & ? & ? & ?). by exists t'. }
  rewrite app_nil_r in Hread.
  destruct (decoded_batch _ _ Hdec) as (Hwf' & Hb' & Hd' & Heq & Hs').
  exists txs'. split; [done|]. unfold verify_body, max_request_bytes, saturating_add.
  change MAX_BATCH_LENGTH_PREFIX_BYTES with 5.
  rewrite Z.min_l, (proj2 (Z.ltb_ge _ _)) by lia. rewrite Hmt, (decode_exact _ _ _ Hread).
  cbn [map_err mbind result_bind].
  rewrite total_bytes_for_sum by (done || (rewrite Hb'; lia)). rewrite Hb', (proj2 (Z.ltb_ge _ _)) by lia.
  cbn [negb]. rewrite verify_chunks_spec, Hs', Hsig, mapM_lst_new. cbn. by rewrite Hd'.
Qed.

End lemmas.

(** ** Properties *)

Section properties.
Context `{LazyKey} `{Json} `{ConsensusLib}.

(** Every valid batch is admitted: a non-empty batch of well-formed,
    correctly signed transactions within the byte limit, encoded as a vector,
    is never refused by the request-size or transaction-count bounds and is
    handed on with its transactions, their digests in order and its exact size. *)
Theorem valid_batch_admitted st rng txs :
  txs ≠ [] → Forall signed_wf txs → zlen txs < 2 ^ 32 →
  forallb (lst_signature_ok (namespace st)) (lst_new <$> txs) = true →
  batch_bytes txs ≤ max_batch_bytes st → max_batch_bytes st + 5 ≤ u64_max →
  ∃ txs', txs ≡ txs' ∧
    verify_body st true rng (write_vec write_signed txs)
    = Ok (mkVerified txs' (message_digest <$> txs) (batch_bytes txs)).
Proof. apply verify_body_valid. Qed.

(** What passes the checks. *)
Lemma verify_body_sound st alive rng body vb :
  zlen body ≤ u64_max → verify_body st alive rng body = Ok vb →
  body = write_vec write_signed (vb_transactions vb) ∧
  1 ≤ zlen (vb_transactions vb) ∧ Forall signed_wf (vb_transactions vb) ∧
  forallb (lst_signature_ok (namespace st)) (lst_new <$> vb_transactions vb) = true ∧
  vb_digests vb = hash_slow ∘ st_value <$> vb_transactions vb ∧
  vb_total_bytes vb = batch_bytes (vb_transactions vb) ∧ vb_total_bytes vb ≤ max_batch_bytes st.
Proof.
  intros Hbody. unfold verify_body. case_match; [done|].
  destruct (max_transaction_count _) as [mt|]; [|done].
  intros (signed & Hdec & Hk)%bind_Ok.
  destruct (decode _ body) as [s|] eqn:Ed; cbn in Hdec; simplify_eq.
  apply decode_Ok, (read_vec_canonical _ write_signed signed_wf) in Ed as (Hc & Hn & Hwf & ->);
    [|apply read_signed_canonical].
  rewrite app_nil_r in *. destruct (batch_encoding_length signed Hwf Hn) as (Hlen & Hpre & _).
  rewrite total_bytes_for_sum in Hk by (done || lia).
  destruct (Z.ltb_spec (max_batch_bytes st) (batch_bytes signed)); [done|].
  destruct alive; cbn [negb] in Hk; [|done]. rewrite verify_chunks_spec, mapM_lst_new in Hk.
  destruct (forallb _ _) eqn:Es; cbn in Hk; [|done]. injection Hk as <-. cbn.
  split_and!; try done; [lia|].
  apply list_fmap_ext. intros i t Ht. apply list_elem_of_lookup_2 in Ht.
  rewrite Forall_forall in Hwf. by destruct (Hwf _ Ht).
Qed.

(** C22. Only valid batches pass: whatever [verify_body] lets through is the
    canonical encoding of at least one well-formed transaction, every one
    signed by its sender in the configured namespace, with the digests of the
    transactions and a total size within the limit. *)
Theorem admitted_batch_valid st alive rng body vb :
  zlen body ≤ u64_max → verify_body st alive rng body = Ok vb →
  body = write_vec write_signed (vb_transactions vb) ∧
  1 ≤ zlen (vb_transactions vb) ∧ Forall signed_wf (vb_transactions vb) ∧
  forallb (lst_signature_ok (namespace st)) (lst_new <$> vb_transactions vb) = true ∧
  vb_digests vb = hash_slow ∘ st_value <$> vb_transactions vb ∧
  vb_total_bytes vb = batch_bytes (vb_transactions vb) ∧ vb_total_bytes vb ≤ max_batch_bytes st.
Proof. apply verify_body_sound. Qed.

End properties.

(** ** Witnesses *)

Definition sample_app_state : AppState := mkAppState sample_ns 1000 halves sequential.
Definition sample_batch : list SignedTransaction := [sample_signed 1 2 5 0; sample_signed 2 1 7 0].

Lemma sample_batch_wf : Forall signed_wf sample_batch.
Proof. repeat constructor; try done; apply lazy_new_wf; done. Qed.

Lemma valid_batch_admitted_witness :
  ∃ txs', sample_batch ≡ txs' ∧
    verify_body sample_app_state true 1 (write_vec write_signed sample_batch)
    = Ok (mkVerified txs' (message_digest <$> sample_batch) (batch_bytes sample_batch)).
Proof.
  apply (valid_batch_admitted sample_app_state 1 sample_batch).
  - done.
  - exact sample_batch_wf.
  - done.
  - vm_compute. reflexivity.
  - vm_compute. discriminate.
  - vm_compute. discriminate.
Defined.

Lemma sample_body_accepted :
  ∃ vb, verify_body sample_app_state true 1 (write_vec write_signed sample_batch) = Ok vb.
Proof.
  assert ((match verify_body sample_app_state true 1 (write_vec write_signed sample_batch) with
           | Ok _ => true | Err _ => false end) = true) as Hb by (vm_compute; reflexivity).
  destruct (verify_body _ _ _ _) as [vb|]; [by exists vb|done].
Qed.

Lemma admitted_batch_valid_witness :
  ∃ vb, verify_body sample_app_state true 1 (write_vec write_signed sample_batch) = Ok vb ∧
    write_vec write_signed sample_batch = write_vec write_signed (vb_transactions vb).
Proof.
  destruct sample_body_accepted as [vb Hv]. exists vb. split; [exact Hv|].
  assert (zlen (write_vec write_signed sample_batch) ≤ u64_max) as Hl
    by (clear Hv; vm_compute; discriminate).
  exact (proj1 (admitted_batch_valid sample_app_state true 1 _ vb Hl Hv)).
Defined.
