(* ===== verification/Sources.v ===== *)
(** * Transaction sources (crates/mempool/src/lib.rs, mocks.rs, webserver/mailbox.rs)

    The application takes the transactions of a proposal from a
    [TransactionSource] and reports finalized blocks to it.  The trait is a
    class here, with what the application relies on as its laws; the mailbox of
    the mempool actor and the static source of the tests implement it.  A
    proposal is a relation: tasks that run beside it may reach the actor first.
    The theorem about proposals is proved against the interface. *)

From stdpp Require Import prelude gmap list strings.
From S2P Require Import Prelude Interfaces Concrete Account Auth Transaction Executor Block Database Execution Application Mempool Answers Webserver.

(** ** The interface *)

Section interface.
Context `{LazyKey} `{Json} `{ConsensusLib}.

(** [enum Update]: a new tip or a finalized block, with its acknowledgement. *)
Inductive Update : Type := UpdateTip (r : round) | UpdateBlock (blk : SealedBlock).

(** [trait TransactionSource]: the outcomes a proposal may have, which can depend
    on what runs beside it; a report says whether it acknowledged the update at
    once. *)
Class TransactionSource (S : Type) : Type := {
  source_propose : S → Header → Context → run (list SignedTransaction * S) → Prop;
  source_report : S → Update → S * Feedback * bool }.

Definition signed_in (ns : bytes) (t : SignedTransaction) : Prop := lst_signature_ok ns (lst_new t) = true.

(** A source of a chain hands out transactions signed in its namespace, in
    numbers the header can count. *)
Class SourceLaws (S : Type) `{!TransactionSource S} (ns : bytes) : Type := {
  source_ok : S → Prop;
  propose_ok s parent ctx txs s' :
    source_ok s → source_propose s parent ctx (Ret (txs, s')) →
    source_ok s' ∧ Forall (signed_in ns) txs ∧ zlen txs * 2 ≤ u64_max;
  report_ok s u : source_ok s → source_ok (source_report s u).1.1 }.

End interface.

(** ** The static source (mocks.rs) *)

Section static.
Context `{LazyKey} `{Json} `{ConsensusLib}.

(** [struct StaticTransactionSource] with its queue of proposals. *)
Record StaticTransactionSource := mkStatic { proposals : list (list SignedTransaction) }.

Definition static_new (batches : list (list SignedTransaction)) : StaticTransactionSource := mkStatic batches.
Definition static_push (s : StaticTransactionSource) (txs : list SignedTransaction) : StaticTransactionSource :=
  mkStatic (proposals s ++ [txs]).
Definition static_propose (s : StaticTransactionSource) (_ : Header) (_ : Context)
    : run (list SignedTransaction * StaticTransactionSource) :=
  match proposals s with
  | [] => Ret ([], s)
  | txs :: rest => Ret (txs, mkStatic rest)
  end.
Definition static_report (s : StaticTransactionSource) (u : Update) : StaticTransactionSource * Feedback * bool :=
  (s, FeedbackOk, match u with UpdateBlock _ => true | UpdateTip _ => false end).

#[export] Instance static_source : TransactionSource StaticTransactionSource :=
  {| source_propose s parent ctx o := o = static_propose s parent ctx; source_report := static_report |}.

#[export] Program Instance static_laws (ns : bytes) : SourceLaws StaticTransactionSource ns :=
  {| source_ok s := Forall (λ txs, Forall (signed_in ns) txs ∧ zlen txs * 2 ≤ u64_max) (proposals s) |}.
Next Obligation.
  intros ns s parent ctx txs s' Hok Hp. cbn in Hp, Hok. symmetry in Hp. unfold static_propose in Hp.
  destruct (proposals s) as [|b rest] eqn:E; injection Hp as <- <-.
  - cbn. rewrite E. split_and!; [constructor|constructor|done].
  - inversion Hok. tauto.
Qed.
Next Obligation. done. Qed.

(** [n] proposals in a row. *)
Fixpoint drain_static (n : nat) (s : StaticTransactionSource) (parent : Header) (ctx : Context)
    : run (list (list SignedTransaction) * StaticTransactionSource) :=
  match n with
  | O => Ret ([], s)
  | Datatypes.S n' =>
      '(txs, s') ← static_propose s parent ctx;
      '(rest, s'') ← drain_static n' s' parent ctx;
      Ret (txs :: rest, s'')
  end.

(** The batches come out once, in the order they were pushed, and then nothing. *)
Lemma static_source_drains batches more extra parent ctx :
  drain_static (length batches + length more + extra) (fold_left static_push more (static_new batches)) parent ctx
  = Ret (batches ++ more ++ replicate extra [], mkStatic []).
Proof.
  assert (∀ s, fold_left static_push more s = mkStatic (proposals s ++ more)) as ->.
  { induction more as [|b more IH]; intros [ps]; cbn; [by rewrite app_nil_r|]. rewrite IH. cbn. by rewrite <- app_assoc. }
  rewrite <- length_app, app_assoc. cbn [static_new proposals]. generalize (batches ++ more) as l. clear.
  induction l as [|b l IH]; cbn [length Nat.add app]; [|cbn; by rewrite IH].
  induction extra as [|n IH]; [done|]. cbn. by rewrite IH.
Qed.

End static.

(** ** The mailbox of the mempool *)

Section mailbox.
Context `{LazyKey} `{Json} `{ConsensusLib}.
Variables (cfg : Config) (capacity : nat).

(** The actor behind the mailbox with the messages queued for it, and the
    reports that wait for room in the background. *)
Record MailboxSource := mkMailbox {
  mb_actor : Actor; mb_queue : list Message; mb_waiting : list Message; mb_open : bool }.

Definition update_message (u : Update) : Message :=
  match u with UpdateTip r => ReportTip r | UpdateBlock blk => ReportBlock blk end.

(** Each report that waits is sent by a task of its own: by the time the actor
    comes to a request, [before] have arrived, in any order, behind what was
    queued, and [after] have not. *)
Definition arrivals (s : MailboxSource) (before after : list Message) : Prop := mb_waiting s ≡ₚ before ++ after.

(** [propose]: the request is served after everything queued and the reports
    that arrived. *)
Definition mailbox_propose (s : MailboxSource) (before after : list Message) (parent : Header) (_ : Context)
    : run (list SignedTransaction * MailboxSource) :=
  if negb (mb_open s) then Panic "mempool actor mailbox closed"
  else
    let a := (run_actor cfg (mb_actor s) (mb_queue s ++ before)).1 in
    let '(a', es) := handle cfg a (propose_message parent 0) in
    match es with
    | [SendProposal _ txs] => Ret (txs, mkMailbox a' [] after true)
    | _ => Panic "mempool actor mailbox closed"
    end.
Definition mailbox_proposes (s : MailboxSource) (parent : Header) (ctx : Context)
    (o : run (list SignedTransaction * MailboxSource)) : Prop :=
  ∃ before after, arrivals s before after ∧ o = mailbox_propose s before after parent ctx.

(** [report]: the acknowledgement is left to the actor. *)
Definition mailbox_report (s : MailboxSource) (u : Update) : MailboxSource * Feedback * bool :=
  let '(feedback, queue, later) := report capacity (mb_open s) (mb_queue s) (update_message u) in
  (mkMailbox (mb_actor s) queue (mb_waiting s ++ later) (mb_open s), feedback, false).

(** [query_status] and [query_consensus_round]: [None] once the actor is gone. *)
Definition mailbox_drain (s : MailboxSource) (before after : list Message) : MailboxSource :=
  mkMailbox (run_actor cfg (mb_actor s) (mb_queue s ++ before)).1 [] after (mb_open s).
Definition query_status (s : MailboxSource) (before after : list Message) (batch_id : string)
    : option BatchStatus * MailboxSource :=
  if negb (mb_open s) then (None, s)
  else
    let s := mailbox_drain s before after in
    match (handle cfg (mb_actor s) (QueryStatus batch_id 0)).2 with
    | [SendBatchStatus _ status] => (status, s)
    | _ => (None, s)
    end.
Definition query_consensus_round (s : MailboxSource) (before after : list Message) : option Z * MailboxSource :=
  if negb (mb_open s) then (None, s)
  else
    let s := mailbox_drain s before after in
    match (handle cfg (mb_actor s) (QueryConsensusRound 0)).2 with
    | [SendRound _ r] => (Some r, s)
    | _ => (None, s)
    end.

Definition mailbox_source : TransactionSource MailboxSource :=
  {| source_propose := mailbox_proposes; source_report := mailbox_report |}.

(** A proposal after a query has an outcome it may have without the query. *)
Lemma drain_then_propose s before after parent ctx o :
  arrivals s before after → mailbox_proposes (mailbox_drain s before after) parent ctx o →
  mailbox_proposes s parent ctx o.
Proof.
  intros Hw (before' & after' & Hw' & ->). unfold arrivals in *. cbn in Hw'. exists (before ++ before'), after'. split.
  { unfold arrivals. by rewrite Hw, Hw', app_assoc. }
  unfold mailbox_propose, mailbox_drain. cbn [mb_open mb_actor mb_queue app]. destruct (mb_open s); [|done]. cbn [negb].
  assert ((run_actor cfg (mb_actor s) (mb_queue s ++ before ++ before')).1
    = (run_actor cfg (run_actor cfg (mb_actor s) (mb_queue s ++ before)).1 before').1) as ->; [|done].
  rewrite app_assoc, run_actor_app. destruct (run_actor cfg (mb_actor s) (mb_queue s ++ before)) as [a1 es1]. cbn [fst].
  by destruct (run_actor cfg a1 before').
Qed.

Lemma query_then_propose s before after id parent ctx o :
  arrivals s before after →
  mailbox_proposes (query_status s before after id).2 parent ctx o ∨
  mailbox_proposes (query_consensus_round s before after).2 parent ctx o → mailbox_proposes s parent ctx o.
Proof.
  intros Hw Hp. unfold query_status, query_consensus_round in Hp. destruct (mb_open s) eqn:E; cbn in Hp; [|tauto].
  destruct Hp as [Hp|Hp]; by eapply drain_then_propose.
Qed.

(** *** What it holds *)

Variable ns : bytes.

(** A batch as the handlers queue it. *)
Definition checked_message (m : Message) : Prop :=
  match m with
  | Submit _ ds txs total _ _ =>
      Forall (signed_in ns) txs ∧ Forall signed_wf txs ∧ total = batch_bytes txs ∧ total < 2 ^ 63
  | _ => True
  end.

Definition entry_ok (e : PoolEntry) : Prop :=
  Forall (signed_in ns) (transactions e) ∧ zlen (transactions e) ≤ total_bytes e.

Record mailbox_ok (s : MailboxSource) : Prop := {
  mo_pool : pool_inv cfg (mb_actor s);
  mo_entries : Forall entry_ok (pool (mb_actor s));
  mo_queue : Forall checked_message (mb_queue s ++ mb_waiting s) }.

Lemma batch_bytes_length txs : zlen txs ≤ batch_bytes txs.
Proof.
  unfold batch_bytes. induction txs as [|t txs IH]; [done|]. unfold zlen in *. cbn [length fmap list_fmap sumZ].
  assert (1 ≤ signed_encode_size t); [|lia]. unfold signed_encode_size, sig_encode_size.
  pose proof (zlen_nonneg (sig_as_ref (st_signature t))). unfold Transaction_SIZE. lia.
Qed.

Lemma batch_bytes_sublist txs txs' : txs `sublist_of` txs' → batch_bytes txs ≤ batch_bytes txs'.
Proof.
  unfold batch_bytes. induction 1 as [|t txs txs' _ IH|t txs txs' _ IH]; cbn; [lia|lia|].
  assert (0 ≤ signed_encode_size t); [|lia]. unfold signed_encode_size, sig_encode_size.
  pose proof (zlen_nonneg (sig_as_ref (st_signature t))). lia.
Qed.

Lemma submit_entries a id ds txs total result ingest :
  checked_message (Submit id ds txs total result ingest) → Forall entry_ok (pool a) →
  Forall entry_ok (pool (handle_submit cfg a id ds txs total result ingest).1).
Proof.
  intros (Hs & Hwf & -> & Hmax) Ha. unfold handle_submit. destruct (statuses (tracker a) !! id) as [st|].
  { by destruct (tx_status_from_batch st). }
  unfold new_transactions. destruct (new_loop_spec [] (known_digests a) txs) as (fresh & -> & Hsub & _). cbn [app].
  case_match; [done|]. destruct (remember_status _ _ _ _) as [[? ?] ?].
  destruct fresh as [|x fr] eqn:Efr; [done|]. rewrite <- Efr in *. clear Efr. apply Forall_app. split; [done|].
  constructor; [|constructor].
  assert (Forall (signed_in ns) fresh ∧ Forall signed_wf fresh) as [Hs' Hwf'] by 
    (rewrite !Forall_forall in *; split; intros t Ht; [apply Hs|apply Hwf]; by eapply elem_of_sublist).
  split; [done|]. cbn [transactions total_bytes].
  pose proof (batch_bytes_sublist _ _ Hsub). pose proof (batch_bytes_length fresh).
  rewrite total_bytes_for_sum by (done || (unfold u64_max; lia)). lia.
Qed.

Lemma handle_entries a m :
  checked_message m → Forall entry_ok (pool a) → Forall entry_ok (pool (handle cfg a m).1).
Proof.
  intros Hm Ha. destruct m as [id ds txs total result ingest| | |h w|b|]; cbn [handle]; try done.
  - by apply submit_entries.
  - unfold handle_propose. destruct (drain_loop_spec cfg h (pool a) (pool_bytes a) (proposed a) [] 0) as (taken & rest & E & -> & _).
    rewrite E in Ha. by apply Forall_app in Ha as [_ ?].
  - unfold handle_report. by destruct (report_loop _ _ _ _ _ _ _) as [[[? ?] ?] ?].
Qed.

Lemma checked_wf m : checked_message m → message_wf m.
Proof.
  destruct m as [id ds txs total result ingest| | | | |]; cbn; try done. intros (_ & _ & -> & Hm).
  pose proof (batch_bytes_length txs). pose proof (zlen_nonneg txs). lia.
Qed.

Lemma run_mailbox a ms :
  cfg_wf cfg → pool_inv cfg a → Forall entry_ok (pool a) → Forall checked_message ms →
  pool_inv cfg (run_actor cfg a ms).1 ∧ Forall entry_ok (pool (run_actor cfg a ms).1).
Proof.
  intros Hcfg Hp He Hms. revert a Hp He. induction Hms as [|m ms Hm _ IH]; intros a Hp He; [done|]. cbn [run_actor].
  pose proof (handle_pool_inv cfg a m Hcfg (checked_wf m Hm) Hp) as Hp'. pose proof (handle_entries a m Hm He) as He'.
  destruct (handle cfg a m) as [a1 es]. specialize (IH a1 Hp' He'). by destruct (run_actor cfg a1 ms).
Qed.

Lemma mailbox_propose_ok s parent ctx txs s' :
  cfg_wf cfg → mailbox_ok s → mailbox_proposes s parent ctx (Ret (txs, s')) →
  mailbox_ok s' ∧ Forall (signed_in ns) txs ∧ zlen txs * 2 ≤ u64_max.
Proof.
  intros Hcfg [Hp He Hq] (before & after & Hw & Ho). symmetry in Ho. revert Ho. unfold mailbox_propose.
  destruct (mb_open s); cbn [negb]; [|done]. unfold arrivals in Hw. rewrite Hw, app_assoc in Hq.
  apply Forall_app in Hq as [Hq Hafter]. destruct (run_mailbox _ _ Hcfg Hp He Hq) as [Hp1 He1]. set (a := (run_actor _ _ _).1) in *.
  unfold propose_message. cbn [handle].
  destruct (handle_propose_fits cfg a (wrap64 (height parent + 1)) 0 Hcfg Hp1) as (taken & rest & Hsplit & Hh & _).
  pose proof (handle_propose_pool cfg a (wrap64 (height parent + 1)) 0 Hcfg Hp1) as Hp2. rewrite Hh in *.
  intros [= <- <-]. destruct Hp1 as [Hb _ Hmax _ _]. rewrite Hsplit in He1, Hb. apply Forall_app in He1 as [Ht Hr].
  split; [by constructor|]. rewrite fmap_app, sumZ_app in Hb.
  assert (∀ l, Forall entry_ok l → Forall (signed_in ns) (concat (transactions <$> l)) ∧
    zlen (concat (transactions <$> l)) ≤ sumZ (total_bytes <$> l)) as Hgen.
  { intros l. induction 1 as [|e l [Hs Hl] _ [IH1 IH2]]; [done|]. cbn. rewrite zlen_app. split; [by apply Forall_app|lia]. }
  destruct (Hgen taken Ht) as [Hs Hlen]. destruct (Hgen rest Hr) as [_ Hlen'].
  pose proof (zlen_nonneg (concat (transactions <$> rest))). unfold cfg_wf, u64_max in *. split; [done|lia].
Qed.

Lemma mailbox_report_ok s u : mailbox_ok s → mailbox_ok (mailbox_report s u).1.1.
Proof.
  intros [Hp He Hq]. unfold mailbox_report, report.
  assert (checked_message (update_message u)) as Hu by by destruct u.
  destruct (mb_open s); cbn [negb]; [case_bool_decide|]; (constructor; [done|done|]); cbn [mb_queue mb_waiting fst].
  - rewrite app_nil_r, <- app_assoc. apply Forall_app in Hq as [? ?]. apply Forall_app. split; [done|]. by constructor.
  - rewrite app_assoc. apply Forall_app. split; [done|]. by repeat constructor.
  - by rewrite app_nil_r.
Qed.

Definition mailbox_laws (Hcfg : cfg_wf cfg) : @SourceLaws _ _ _ _ _ _ MailboxSource mailbox_source ns :=
  @Build_SourceLaws _ _ _ _ _ _ MailboxSource mailbox_source ns mailbox_ok
    (λ s parent ctx txs s', mailbox_propose_ok s parent ctx txs s' Hcfg) mailbox_report_ok.

(** The handlers of the web server only queue checked batches. *)
Lemma submit_mailbox_ok st alive rng s w body queue :
  namespace st = ns → max_batch_bytes st < 2 ^ 63 → zlen body ≤ u64_max → mailbox_ok s →
  submit_batch st alive rng capacity (mb_open s) (mb_queue s) w body = Ok queue →
  mailbox_ok (mkMailbox (mb_actor s) queue (mb_waiting s) (mb_open s)).
Proof.
  intros Hns Hmax Hbody [Hp He Hq] Hsub. unfold submit_batch in Hsub. apply bind_Ok in Hsub as (vb & Hv & Hsub).
  destruct (verify_body_sound _ _ _ _ _ Hbody Hv) as (_ & _ & Hwf & Hsig & _ & Htot & Hle).
  unfold try_submit, try_send in Hsub. destruct (mb_open s && _); [|done]. injection Hsub as <-.
  constructor; [done|done|]. cbn [mb_queue mb_waiting]. apply Forall_app in Hq as [Hq Hw].
  apply Forall_app. split; [|done]. apply Forall_app. split; [done|]. constructor; [|constructor].
  split_and!; [|done|done|lia]. rewrite forallb_forall in Hsig. apply Forall_forall. intros t Ht.
  unfold signed_in. rewrite <- Hns. apply Hsig, list_elem_of_In, list_elem_of_fmap. by exists t.
Qed.

End mailbox.

(** ** Proposing from a source *)

Section proposing.
Context `{LazyKey} `{Json} `{ConsensusLib} `{!StateDb} `{!HistoryDb}.

(** [propose_child] on what the source answers, and with the source it takes
    its transactions from. *)
Definition propose_taken {S} (app : Application) (now : Z) (ctx : Context) (parent : SealedBlock)
    (batches : sbatch * tbatch) (o : run (list SignedTransaction * S))
    : run (Application * (SealedBlock * (smerkle * tmerkle)) * S) :=
  '(txs, s') ← o;
  r ← propose_child app now ctx parent batches txs;
  Ret (r, s').
Definition propose_sourced {S} `{!TransactionSource S} (app : Application) (now : Z) (ctx : Context) (parent : SealedBlock)
    (batches : sbatch * tbatch) (s : S) (r : run (Application * (SealedBlock * (smerkle * tmerkle)) * S)) : Prop :=
  ∃ o, source_propose s (header (inner parent)) ctx o ∧ r = propose_taken app now ctx parent batches o.

(** C4. Whatever source a proposer uses, as long as it hands out transactions
    signed in the chain's namespace, the block it builds is accepted by every
    validator of the namespace whose databases are equivalent to the
    proposer's, with the same resulting databases, whatever else reaches the
    source while it answers, and the source stays one
    that does so after the finalized block is reported to it. *)
Theorem sourced_block_verifies {S} `{!TransactionSource S} (ns : bytes) (L : SourceLaws S ns) s
    app vapp clock_max sf rng now ctx parent sb tb sb' tb' app' blk m s' :
  source_ok s → propose_sourced app now ctx parent (sb, tb) s (Ret (app', (blk, m), s')) →
  transaction_namespace vapp = ns → sb ≡ sb' → tb ≡ tb' → sb_healthy sb' → tb_healthy tb' →
  timestamp (header (inner parent)) < now ≤ MAX_BLOCK_TIMESTAMP_MS → MAX_BLOCK_TIMESTAMP_MS ≤ clock_max →
  (∃ m', verify_child vapp clock_max true sf rng blk parent (sb', tb') = Ret (Some m') ∧ same_databases m m') ∧
  source_ok s' ∧ source_ok (source_report s' (UpdateBlock blk)).1.1.
Proof.
  intros Hok Hp <- Hsb Htb Hsh Hth Hnow Hmax. destruct Hp as (o & Hsrc & Hp). symmetry in Hp. unfold propose_taken in Hp.
  apply bind_Ret in Hp as ([txs s1] & -> & Hp). apply bind_Ret in Hp as (r & Hp & [= -> ->]).
  destruct (propose_ok _ _ _ _ _ Hok Hsrc) as (Hok' & Hsig & Hlen).
  split; [|split; [done|by apply report_ok]]. eapply (proposal_verifies app); [exact Hp|done..|exact Hsig|done|done|done].
Qed.

End proposing.

(** ** Witness *)

(** A batch queued for an actor that has just started, and two reports that wait
    in the background: one arrives before the proposal. *)
Definition sample_tip : Message := ReportTip round_zero.
Definition sample_mailbox : MailboxSource :=
  mkMailbox actor_new [Submit "A" (message_digest <$> sample_txs) sample_txs (batch_bytes sample_txs) None None]
    [ReportBlock sample_parent; sample_tip] true.

Lemma sample_mailbox_ok : mailbox_ok sample_cfg (transaction_namespace sample_app) sample_mailbox.
Proof.
  constructor; [by apply actor_new_pool|constructor|]. constructor; [|by repeat constructor].
  split; [exact sample_txs_signed|]. split; [exact sample_txs_wf|].
  split; [reflexivity|apply Z.ltb_lt; vm_compute; reflexivity].
Qed.

Definition sample_taken : run (Application * (SealedBlock * (smerkle * tmerkle)) * MailboxSource) :=
  propose_taken sample_app 1000 sample_ctx sample_parent (sample_sb, sample_tb)
    (mailbox_propose sample_cfg sample_mailbox [sample_tip] [ReportBlock sample_parent]
       (header (inner sample_parent)) sample_ctx).

Lemma sample_taken_ret : is_ret sample_taken = true.
Proof. vm_compute. reflexivity. Qed.

Lemma sourced_block_verifies_witness :
  ∃ app' blk m s', sample_taken = Ret (app', (blk, m), s') ∧
    ∃ m', verify_child sample_app (2 ^ 63) true false 1 blk sample_parent (sample_sb, sample_tb) = Ret (Some m') ∧
      same_databases m m'.
Proof.
  destruct (is_ret_inv sample_taken sample_taken_ret) as [[[app' [blk m]] s'] Hp].
  exists app', blk, m, s'. split; [exact Hp|].
  refine (proj1 (sourced_block_verifies (TransactionSource0 := mailbox_source sample_cfg 4)
    (transaction_namespace sample_app)
    (mailbox_laws sample_cfg 4 (transaction_namespace sample_app) sample_cfg_wf) sample_mailbox
    sample_app sample_app (2 ^ 63) false 1 1000 sample_ctx sample_parent sample_sb sample_tb sample_sb sample_tb
    app' blk m s' sample_mailbox_ok _ _ _ _ _ _ _ _)).
  - eexists. split; [exists [sample_tip], [ReportBlock sample_parent]; split; [apply Permutation_swap|reflexivity]|].
    symmetry. exact Hp.
  - reflexivity.
  - reflexivity.
  - reflexivity.
  - exact I.
  - exact I.
  - exact sample_parent_time.
  - apply Z.leb_le; reflexivity.
Defined.
