(* ===== verification/Relayer.v ===== *)
(** * The transaction relayer (bin/validator/src/relayer.rs)

    A relayer follows the consensus view, forwards batches to the leaders of
    the next two views, polls the validators it has sent them to, and answers
    its client with the best status it learned.  The network is a parameter:
    [post] and [get] give the answer to each request by its position, [views]
    the view numbers observed after each change.  The theorems show that the
    answer asserts no more than the validators reported, that every retry is a
    batch a leader admits, and that the relayer's checks are the leader's. *)

From stdpp Require Import prelude gmap list strings.
From S2P Require Import Prelude Interfaces Concrete Account Auth Transaction Block Mempool Webserver.

(** ** Definitions *)

Definition DEFAULT_MAX_BATCH_BYTES : Z := 8 * 1024 * 1024.
Definition MAX_BATCH_LENGTH_PREFIX_BYTES : Z := 5.
Definition MIN_BATCH_LENGTH_PREFIX_BYTES : Z := 1.
Definition TARGET_LEADER_HEADER : string := "x-constantinople-relayer-target-leader".
Definition LEADER_FANOUT_HEADER : string := "x-constantinople-relayer-leader-fanout".
Definition PINNED_SUBMIT_RETRIES : Z := 3.

(** [Observer::report]: the view the clock shows, and whether waiters wake. *)
Definition observe (current view : Z) : Z * bool :=
  if view <=? current then (current, false) else (view, true).

(** [struct Leader]. *)
Record Leader := mkLeader { public_key : string; sort_key : bytes; url : string }.

#[export] Instance Leader_eq_dec : EqDecision Leader.
Proof. solve_decision. Defined.

(** Numeric codes of the statuses the relayer compares with. *)
Definition code (s : StatusCode) : Z :=
  match s with
  | OK => 200 | ACCEPTED => 202 | BAD_REQUEST => 400 | NOT_FOUND => 404
  | PAYLOAD_TOO_LARGE => 413 | INTERNAL_SERVER_ERROR => 500 | SERVICE_UNAVAILABLE => 503
  end.
Definition is_server_error (status : Z) : bool := (500 <=? status) && (status <? 600).

(** The answer to an HTTP request: none, or a status with a body, whose
    transfer may fail. *)
Inductive Response : Type :=
| NoResponse
| Responded (status : Z) (payload : option bytes).

(** [enum ForwardResult] and [struct ForwardSummary]. *)
Inductive ForwardResult : Type :=
| AcceptedBy (leader : Leader)
| Deterministic (status : Z)
| Transient (leader : Leader).
Record ForwardSummary := mkSummary { fs_accepted : bool; fs_deterministic : option Z }.

(** What a handler answers: a status code and a body. *)
Inductive AnswerBody : Type :=
| NoBody
| JsonBody (s : TxStatus)
| RawBody (b : bytes).
Abbreviation Answer := (Z * AnswerBody)%type.

Definition json_response (s : TxStatus) : Answer := (code OK, JsonBody s).

(** ASCII [to_lowercase], on keys whose hex decoding rejects everything else,
    and [trim_end_matches('/')]. *)
Definition lower_byte (b : byte) : byte :=
  if (65 <=? byte_val b) && (byte_val b <=? 90) then byte_of (byte_val b + 32) else b.
Definition to_lowercase (s : string) : string :=
  string_of_bytes (lower_byte <$> bytes_of_string s).
Fixpoint drop_slashes (l : bytes) : bytes :=
  match l with
  | [] => []
  | b :: l' => if byte_val b =? 47 then drop_slashes l' else l
  end.
Definition trim_end_slashes (s : string) : string :=
  string_of_bytes (reverse (drop_slashes (reverse (bytes_of_string s)))).

(** The order of [normalize_leaders] and a stable sort by it. *)
Definition leader_leb (a b : Leader) : bool :=
  if bool_decide (sort_key a = sort_key b)
  then bytes_leb (bytes_of_string (public_key a)) (bytes_of_string (public_key b))
  else bytes_leb (sort_key a) (sort_key b).
Fixpoint insert_leader (x : Leader) (l : list Leader) : list Leader :=
  match l with
  | [] => [x]
  | y :: l' => if leader_leb x y then x :: l else y :: insert_leader x l'
  end.
Definition sort_leaders (l : list Leader) : list Leader := foldr insert_leader [] l.

(** [normalize_leaders]; [from_hex] is the library's. *)
Definition normalize_leader (from_hex : string → option bytes) (config : string * string) : run Leader :=
  let key := to_lowercase config.1 in
  k ← expect (from_hex key) ("leader public_key must be hex: " +:+ key);
  Ret (mkLeader key k (trim_end_slashes config.2)).
Definition normalize_leaders (from_hex : string → option bytes) (configs : list (string * string))
    : run (list Leader) :=
  leaders ← mapM (normalize_leader from_hex) configs; Ret (sort_leaders leaders).

(** [leaders[i].clone()]; both indices are remainders by the length. *)
Definition leader_at (leaders : list Leader) (i : Z) : list Leader :=
  option_list (leaders !! Z.to_nat i).

Definition next_two_leaders (leaders : list Leader) (observed_view : Z) : list Leader :=
  match leaders with
  | [] => []
  | _ =>
      let first := wrap64 (observed_view + 1) mod zlen leaders in
      let second := wrap64 (observed_view + 2) mod zlen leaders in
      if first =? second then leader_at leaders first
      else leader_at leaders first ++ leader_at leaders second
  end.

Definition leader_by_id (leaders : list Leader) (key : string) : option Leader :=
  snd <$> list_find (λ l, public_key l = key) leaders.

(** [wait_for_view_advance]: [views] are the values read after each change,
    ended by the loss of the clock. *)
Fixpoint wait_for_view_advance (views : list Z) (current : Z) : Z * list Z :=
  match views with
  | [] => (current, [])
  | next :: views' =>
      if current <? next then (next, views') else wait_for_view_advance views' current
  end.

(** [best_effort_status]. *)
Definition best_effort_status (digests : list string) (included : gset string) (height : Z) : TxStatus :=
  if decide (included = ∅) then TxDropped
  else
    let filtered := filter (λ d, d ∉ included) digests in
    match filtered with
    | [] => TxFinalized height
    | _ => TxPartiallyFinalized height (filter (λ d, d ∈ included) digests) filtered
    end.

Definition should_retry_pinned_submit (status : Z) : bool :=
  (status =? code SERVICE_UNAVAILABLE) || is_server_error status.

(** [submit_blocking_to_leader]: the answer and the pauses in milliseconds;
    [left] counts the rounds of the loop, [post] answers each attempt. *)
Fixpoint pinned_loop (left : nat) (post : Z → Response) (attempt backoff : Z) : Answer * list Z :=
  match left with
  | O => ((code SERVICE_UNAVAILABLE, NoBody), [])
  | S left' =>
      match post attempt with
      | Responded status payload =>
          if should_retry_pinned_submit status && (attempt + 1 <? PINNED_SUBMIT_RETRIES) then
            let '(a, pauses) := pinned_loop left' post (attempt + 1) (backoff * 2) in
            (a, backoff :: pauses)
          else ((status, RawBody (default [] payload)), [])
      | NoResponse =>
          if attempt + 1 <? PINNED_SUBMIT_RETRIES then
            let '(a, pauses) := pinned_loop left' post (attempt + 1) (backoff * 2) in
            (a, backoff :: pauses)
          else ((code SERVICE_UNAVAILABLE, NoBody), [])
      end
  end.
Definition submit_blocking_to_leader (post : Z → Response) : Answer * list Z :=
  pinned_loop (Z.to_nat PINNED_SUBMIT_RETRIES) post 0 50.

(** [str::parse::<usize>]: decimal digits after an optional plus sign. *)
Fixpoint parse_digits (acc : Z) (l : bytes) : option Z :=
  match l with
  | [] => Some acc
  | b :: l' =>
      if (48 <=? byte_val b) && (byte_val b <=? 57) then
        let acc' := acc * 10 + (byte_val b - 48) in
        if acc' <=? u64_max then parse_digits acc' l' else None
      else None
  end.
Definition parse_usize (s : string) : option Z :=
  let l := bytes_of_string s in
  let l := match l with b :: (_ :: _) as l' => if byte_val b =? 43 then tail l else l | _ => l end in
  match l with [] => None | _ => parse_digits 0 l end.

(** Headers by name, as text: [HeaderMap::get] followed by [to_str]. *)
Definition requested_target_leader (headers : string → option string) : option string :=
  to_lowercase <$> headers TARGET_LEADER_HEADER.
Definition requested_leader_fanout (headers : string → option string) : option Z :=
  headers LEADER_FANOUT_HEADER ≫= parse_usize.

(** serde_json decoding of the two documents a relayer reads. *)
Class RelayerJson := {
  parse_ingest_response : bytes → option (list string);
  parse_batch_status : bytes → option BatchStatus
}.

Section relayer.
Context `{LazyKey} `{RelayerJson}.

(** The parts of [struct AppState] the handlers read. *)
Record RelayerState := mkRelayer {
  rs_leaders : list Leader;
  rs_max_retry_views : Z;
  rs_max_batch_bytes : Z
}.

(** [struct DecodedBatch]. *)
Record DecodedBatch := mkDecoded {
  db_transactions : list SignedTransaction;
  db_digests : list string
}.

Definition max_request_bytes (max_batch_bytes : Z) : Z :=
  saturating_add max_batch_bytes MAX_BATCH_LENGTH_PREFIX_BYTES.
Definition min_signed_transaction_bytes : Z :=
  Z.of_nat TransactionPublicKey_SIZE + Z.of_nat TransactionPublicKey_SIZE + 1 + 1 + MIN_SIZE.
Definition max_transaction_count (body_len : Z) : option Z :=
  let payload_len := saturating_sub body_len MIN_BATCH_LENGTH_PREFIX_BYTES in
  let max_transactions := payload_len / min_signed_transaction_bytes in
  if 0 <? max_transactions then Some max_transactions else None.

Definition decode_batch (body : bytes) (max_batch_bytes : Z) : result StatusCode DecodedBatch :=
  if max_request_bytes max_batch_bytes <? zlen body then Err PAYLOAD_TOO_LARGE
  else
    match max_transaction_count (zlen body) with
    | None => Err BAD_REQUEST
    | Some max_transactions =>
        txs ← map_err (λ _, BAD_REQUEST) (decode (read_vec read_signed 1 max_transactions) body);
        if max_batch_bytes <? total_bytes_for txs then Err PAYLOAD_TOO_LARGE
        else Ok (mkDecoded txs (digest_to_string ∘ message_digest <$> txs))
    end.

Definition encode_pending (batch : DecodedBatch) (pending : gset string) : bytes :=
  write_vec write_signed
    (filter (λ t, digest_to_string (message_digest t) ∈ pending) (db_transactions batch)).

Definition batch_id (body : bytes) : string := digest_to_string (hash body).

(** [forward_to_leader] and [fetch_status_from_leader] on the answer received. *)
Definition forward_to_leader (r : Response) (leader : Leader) : ForwardResult :=
  match r with
  | NoResponse => Transient leader
  | Responded status payload =>
      if status =? code ACCEPTED then
        match payload ≫= parse_ingest_response with
        | None | Some [] => Transient leader
        | Some _ => AcceptedBy leader
        end
      else if (status =? code BAD_REQUEST) || (status =? code PAYLOAD_TOO_LARGE)
      then Deterministic status
      else Transient leader
  end.

Definition fetch_status_from_leader (r : Response) : option BatchStatus :=
  match r with
  | NoResponse => None
  | Responded status payload =>
      if status =? code OK then payload ≫= parse_batch_status else None
  end.

(** [forward_to_targets]: [join_all] keeps the order of the targets. *)
Definition summarize (s : ForwardSummary) (r : ForwardResult) : ForwardSummary :=
  match r with
  | AcceptedBy _ => mkSummary true (fs_deterministic s)
  | Deterministic status => mkSummary (fs_accepted s) (Some status)
  | Transient _ => s
  end.
Definition forward_to_targets (post : nat → Leader → bytes → Response) (targets : list Leader)
    (body : bytes) : ForwardSummary :=
  fold_left summarize (imap (λ i l, forward_to_leader (post i l body) l) targets)
    (mkSummary false None).

(** [merge_statuses]. *)
Definition merge_status (acc : gset string * Z) (s : option BatchStatus) : gset string * Z :=
  match s with
  | Some (Finalized h leader_included) | Some (PartiallyFinalized h leader_included _) =>
      (acc.1 ∪ list_to_set leader_included, Z.max acc.2 h)
  | Some (Accepted _) | Some (Dropped _) | None => acc
  end.
Definition merge_statuses (get : nat → Leader → string → Response)
    (attempts : list (string * Leader)) (included : gset string) (height : Z) : gset string * Z :=
  fold_left merge_status
    (imap (λ i a, fetch_status_from_leader (get i a.2 a.1)) attempts) (included, height).

(** A request of one round: its targets and its body. *)
Record Sent := mkSent { sent_targets : list Leader; sent_body : bytes }.

Section network.
Variables (post : nat → nat → Leader → bytes → Response)
  (get : nat → nat → Leader → string → Response).

(** The loop of [submit_with_retries]: [left] retries after this one; the
    round returns on its last retry, so the loop never runs out. *)
Fixpoint retry_loop (left retry : nat) (leaders : list Leader) (batch : DecodedBatch)
    (pending included : gset string) (height : Z) (accepted_any : bool)
    (attempts : list (string * Leader)) (view : Z) (views : list Z) : Answer * list Sent :=
  let body := encode_pending batch pending in
  let sent_batch_id := batch_id body in
  let attempts := attempts ++ ((λ l, (sent_batch_id, l)) <$> next_two_leaders leaders view) in
  let targets := snd <$> filter (λ a, a.1 = sent_batch_id) attempts in
  let result := forward_to_targets (post retry) targets body in
  match fs_deterministic result with
  | Some status => ((status, NoBody), [mkSent targets body])
  | None =>
      let accepted_any := accepted_any || fs_accepted result in
      let '(included, height) := merge_statuses (get retry) attempts included height in
      let pending := pending ∖ included in
      if decide (pending = ∅) then (json_response (TxFinalized height), [mkSent targets body])
      else
        match left with
        | O =>
            (if accepted_any then json_response (best_effort_status (db_digests batch) included height)
             else (code SERVICE_UNAVAILABLE, NoBody), [mkSent targets body])
        | S left' =>
            let '(view, views) := wait_for_view_advance views view in
            let '(a, sent) := retry_loop left' (S retry) leaders batch pending included height
                                accepted_any attempts view views in
            (a, mkSent targets body :: sent)
        end
  end.

Definition submit_with_retries (st : RelayerState) (batch : DecodedBatch) (view : Z)
    (views : list Z) : Answer * list Sent :=
  match rs_leaders st with
  | [] => ((code SERVICE_UNAVAILABLE, NoBody), [])
  | _ =>
      retry_loop (Z.to_nat (rs_max_retry_views st)) 0 (rs_leaders st) batch
        (list_to_set (db_digests batch)) ∅ 0 false [] view views
  end.

(** [submit_to_pinned_leader] and [submit_transactions]; [pinned] answers the
    blocking submissions to a leader. *)
Definition submit_to_pinned_leader (st : RelayerState) (pinned : Leader → bytes → Z → Response)
    (body : bytes) (target : string) : Answer :=
  match leader_by_id (rs_leaders st) target with
  | None => (code BAD_REQUEST, NoBody)
  | Some leader => (submit_blocking_to_leader (pinned leader body)).1
  end.

Definition submit_transactions (st : RelayerState) (headers : string → option string)
    (pinned : Leader → bytes → Z → Response) (view : Z) (views : list Z) (body : bytes) : Answer :=
  match requested_target_leader headers with
  | Some target =>
      if max_request_bytes (rs_max_batch_bytes st) <? zlen body then (code PAYLOAD_TOO_LARGE, NoBody)
      else
        match requested_leader_fanout headers with
        | Some fanout =>
            if fanout =? 1 then submit_to_pinned_leader st pinned body target
            else (code BAD_REQUEST, NoBody)
        | None => submit_to_pinned_leader st pinned body target
        end
  | None =>
      match decode_batch body (rs_max_batch_bytes st) with
      | Err status => (code status, NoBody)
      | Ok batch => (submit_with_retries st batch view views).1
      end
  end.

(** [ready]. *)
Definition ready (st : RelayerState) : Z :=
  match rs_leaders st with [] => code SERVICE_UNAVAILABLE | _ => code OK end.
End network.

End relayer.

(** ** Lemmas *)

Section lemmas.
Context `{LazyKey} `{RelayerJson}.

(** What a status asserts about a digest string. *)
Definition reported (F : string → Z → Prop) (h : Z) (d : string) : Prop := ∃ h', F d h' ∧ h' ≤ h.
Definition status_true (F : string → Z → Prop) (s : BatchStatus) : Prop :=
  match s with
  | Accepted _ | Dropped _ => True
  | Finalized h included | PartiallyFinalized h included _ => Forall (reported F h) included
  end.

Lemma reported_mono F h h' d : h ≤ h' → reported F h d → reported F h' d.
Proof. intros Hh (x & ? & ?). exists x. split; [done|lia]. Qed.

Lemma merge_list_spec F (ss : list (option BatchStatus)) inc h :
  (∀ s, Some s ∈ ss → status_true F s) →
  set_Forall (reported F h) inc →
  let '(inc', h') := fold_left merge_status ss (inc, h) in
  h ≤ h' ∧ inc ⊆ inc' ∧ set_Forall (reported F h') inc'.
Proof.
  revert inc h. induction ss as [|s ss IH]; intros inc h Hs Hinc; cbn [fold_left]; [done|].
  assert (∀ h' l, Forall (reported F h') l →
    let '(inc', h'') := fold_left merge_status ss (inc ∪ list_to_set l, Z.max h h') in
    h ≤ h'' ∧ inc ⊆ inc' ∧ set_Forall (reported F h'') inc') as Hstep.
  { intros h' l Hl. specialize (IH (inc ∪ list_to_set l) (Z.max h h')).
    destruct (fold_left _ _ _) as [inc' h'']. destruct IH as (? & ? & ?).
    - intros s' Hin. apply Hs. by right.
    - apply set_Forall_union; [|apply set_Forall_list_to_set].
      + intros d Hd. eapply reported_mono; [|by apply Hinc]. lia.
      + eapply Forall_impl; [done|]. intros d. apply reported_mono. lia.
    - split_and!; [lia|set_solver|done]. }
  assert (∀ s', Some s' ∈ ss → status_true F s') as Hs' by (intros; apply Hs; by right).
  specialize (IH inc h Hs' Hinc).
  destruct s as [[| | |]|]; cbn [merge_status fst snd]; try exact IH.
  - apply Hstep. apply (Hs (Finalized height included)). left.
  - apply Hstep. apply (Hs (PartiallyFinalized height included filtered)). left.
Qed.

Lemma merge_statuses_spec F (get : nat → Leader → string → Response) attempts inc h :
  (∀ i l id s, fetch_status_from_leader (get i l id) = Some s → status_true F s) →
  set_Forall (reported F h) inc →
  let '(inc', h') := merge_statuses get attempts inc h in
  h ≤ h' ∧ inc ⊆ inc' ∧ set_Forall (reported F h') inc'.
Proof.
  intros Hget Hinc. apply merge_list_spec; [|done].
  intros s Hs. apply elem_of_lookup_imap_1 in Hs as (i & [id l] & Heq & _). by eapply Hget.
Qed.

(** A client answer claims no more than [F]. *)
Definition answer_true (F : string → Z → Prop) (digests : list string) (a : Answer) : Prop :=
  match a.2 with
  | JsonBody (TxFinalized h) => a.1 = code OK ∧ Forall (reported F h) digests
  | JsonBody (TxPartiallyFinalized h included filtered) =>
      a.1 = code OK ∧ included ++ filtered ≡ₚ digests ∧ included `sublist_of` digests ∧
      filtered `sublist_of` digests ∧ Forall (reported F h) included ∧ filtered ≠ []
  | _ => True
  end.

Lemma best_effort_true F digests inc h :
  set_Forall (reported F h) inc →
  answer_true F digests (json_response (best_effort_status digests inc h)).
Proof.
  intros Hinc. unfold best_effort_status. case_decide; [done|].
  destruct (filter (λ d, d ∉ inc) digests) as [|x l] eqn:E.
  - split; [done|]. apply Forall_forall. intros d Hd. apply Hinc.
    destruct (decide (d ∈ inc)); [done|]. exfalso.
    assert (d ∈ filter (λ d, d ∉ inc) digests) as Hf by by apply list_elem_of_filter.
    rewrite E in Hf. by apply elem_of_nil in Hf.
  - cbn. rewrite <- E. split_and!; try done.
    + rewrite Permutation_app_comm. clear E x l. induction digests as [|d l IH]; [done|].
      rewrite !filter_cons. repeat case_decide; try done; cbn; [by rewrite IH|].
      by rewrite <- Permutation_middle, IH.
    + apply sublist_filter.
    + apply sublist_filter.
    + apply Forall_forall. intros d [Hd _]%list_elem_of_filter. by apply Hinc.
    + by rewrite E.
Qed.

(** One round of the loop, whatever the number of retries left. *)
Lemma retry_loop_step post get left retry leaders batch pending inc h acc attempts view views :
  retry_loop post get left retry leaders batch pending inc h acc attempts view views =
  let body := encode_pending batch pending in
  let attempts := attempts ++ ((λ l, (batch_id body, l)) <$> next_two_leaders leaders view) in
  let targets := snd <$> filter (λ a, a.1 = batch_id body) attempts in
  let result := forward_to_targets (post retry) targets body in
  match fs_deterministic result with
  | Some status => ((status, NoBody), [mkSent targets body])
  | None =>
      let acc := acc || fs_accepted result in
      let '(inc, h) := merge_statuses (get retry) attempts inc h in
      if decide (pending ∖ inc = ∅) then (json_response (TxFinalized h), [mkSent targets body])
      else
        match left with
        | O => (if acc then json_response (best_effort_status (db_digests batch) inc h)
                else (code SERVICE_UNAVAILABLE, NoBody), [mkSent targets body])
        | S left' =>
            let '(view, views) := wait_for_view_advance views view in
            let '(a, sent) := retry_loop post get left' (S retry) leaders batch (pending ∖ inc) inc h
                                acc attempts view views in
            (a, mkSent targets body :: sent)
        end
  end.
Proof. by destruct left. Qed.

(** The loop keeps every digest pending or included. *)
Lemma retry_loop_true F post get left retry leaders batch pending inc h acc attempts view views :
  (∀ r i l id s, fetch_status_from_leader (get r i l id) = Some s → status_true F s) →
  set_Forall (reported F h) inc →
  (∀ d, d ∈ db_digests batch → d ∈ pending ∨ d ∈ inc) →
  answer_true F (db_digests batch)
    (retry_loop post get left retry leaders batch pending inc h acc attempts view views).1.
Proof.
  intros Hget. revert retry pending inc h acc attempts view views.
  induction left as [left IH] using lt_wf_ind.
  intros retry pending inc h acc attempts view views Hinc Hall. rewrite retry_loop_step. cbv zeta.
  destruct (fs_deterministic _); [done|].
  match goal with |- context [merge_statuses ?g ?a inc h] =>
    pose proof (merge_statuses_spec F g a inc h (Hget _) Hinc) as Hm;
    destruct (merge_statuses g a inc h) as [inc' h'] end.
  destruct Hm as (Hh & Hsub & Hinc'). case_decide as Hp.
  { split; [done|]. apply Forall_forall. intros d Hd. apply Hinc'. destruct (Hall d Hd); set_solver. }
  destruct left as [|left]; [case_match; [by apply best_effort_true|done]|].
  destruct (wait_for_view_advance views view) as [view' views'].
  match goal with |- context [retry_loop post get left ?r leaders batch ?p inc' h' ?b ?a view' views'] =>
    specialize (IH left ltac:(lia) r p inc' h' b a view' views' Hinc') end.
  destruct (retry_loop post get left _ _ _ _ _ _ _ _ _ _) as [ans sent]. apply IH.
  intros d Hd. destruct (Hall d Hd); [destruct (decide (d ∈ inc'))|]; set_solver.
Qed.

(** ** What is sent *)

Lemma next_two_leaders_subset leaders view l : l ∈ next_two_leaders leaders view → l ∈ leaders.
Proof.
  unfold next_two_leaders. destruct leaders as [|x ls]; [by intros ?%elem_of_nil|].
  assert (∀ i, l ∈ leader_at (x :: ls) i → l ∈ x :: ls) as Hat.
  { intros i. unfold leader_at. destruct (_ !! _) eqn:E; cbn; [|by intros ?%elem_of_nil].
    intros ->%list_elem_of_singleton. by eapply list_elem_of_lookup_2. }
  case_match; [apply Hat|]. intros [?|?]%elem_of_app; by eapply Hat.
Qed.

(** A request of the loop: some pending transactions of the batch, to leaders. *)
Record sent_ok (leaders : list Leader) (batch : DecodedBatch) (s : Sent) : Prop := {
  so_targets : ∀ l, l ∈ sent_targets s → l ∈ leaders;
  so_body : ∃ pending, pending ≠ ∅ ∧ pending ⊆ list_to_set (db_digests batch) ∧
                       sent_body s = encode_pending batch pending
}.

Lemma retry_loop_sent post get left retry leaders batch pending inc h acc attempts view views :
  pending ≠ ∅ → pending ⊆ list_to_set (db_digests batch) →
  (∀ a, a ∈ attempts → a.2 ∈ leaders) →
  ∃ s ss, (retry_loop post get left retry leaders batch pending inc h acc attempts view views).2 = s :: ss ∧
    sent_body s = encode_pending batch pending ∧ Forall (sent_ok leaders batch) (s :: ss) ∧
    (length (s :: ss) ≤ S left)%nat.
Proof.
  revert retry pending inc h acc attempts view views.
  induction left as [left IH] using lt_wf_ind.
  intros retry pending inc h acc attempts view views Hne Hp Hatt. rewrite retry_loop_step. cbv zeta.
  set (id := batch_id _). set (atts := attempts ++ _). set (targets := snd <$> _).
  assert (∀ a, a ∈ atts → a.2 ∈ leaders) as Hatts.
  { intros a [?|(l & -> & ?)%list_elem_of_fmap]%elem_of_app;
      [by apply Hatt | by eapply next_two_leaders_subset]. }
  assert (sent_ok leaders batch (mkSent targets (encode_pending batch pending))) as Hok.
  { split; [|by exists pending].
    intros l (a & -> & [_ ?]%list_elem_of_filter)%list_elem_of_fmap. by apply Hatts. }
  assert (∀ a : Answer, ∃ s ss, (a, [mkSent targets (encode_pending batch pending)]).2 = s :: ss ∧
    sent_body s = encode_pending batch pending ∧ Forall (sent_ok leaders batch) (s :: ss) ∧
    (length (s :: ss) ≤ S left)%nat) as Hlast.
  { intros a. eexists _, []. split_and!; [reflexivity|done|by apply Forall_singleton|cbn; lia]. }
  destruct (fs_deterministic _); [apply Hlast|]. destruct (merge_statuses _ _ _ _) as [inc' h'].
  case_decide; [apply Hlast|]. destruct left as [|left]; [apply Hlast|].
  destruct (wait_for_view_advance views view) as [view' views'].
  match goal with |- context [retry_loop post get left ?r leaders batch ?p inc' h' ?b ?a view' views'] =>
    destruct (IH left ltac:(lia) r p inc' h' b a view' views') as (s & ss & Hs & _ & Hf & Hl);
      [done|set_solver|done|] end.
  destruct (retry_loop post get left _ _ _ _ _ _ _ _ _ _) as [ans sent].
  cbn [snd] in *. subst sent. eexists _, _. split_and!; [reflexivity|done|by constructor|cbn in *; lia].
Qed.

Lemma filter_all_id {A} (P : A → Prop) `{!∀ x, Decision (P x)} (l : list A) :
  Forall P l → filter P l = l.
Proof. induction 1; [done|]. rewrite filter_cons_True by done. by f_equal. Qed.

End lemmas.

(** ** What the decoder accepts *)

Section decoding.
Context `{LazyKey} `{RelayerJson}.

Lemma decode_batch_Ok body max batch :
  zlen body ≤ u64_max → decode_batch body max = Ok batch →
  body = write_vec write_signed (db_transactions batch) ∧ Forall signed_wf (db_transactions batch) ∧
  1 ≤ zlen (db_transactions batch) < 2 ^ 32 ∧ batch_bytes (db_transactions batch) ≤ max ∧
  db_digests batch = digest_to_string ∘ message_digest <$> db_transactions batch.
Proof.
  intros Hbody. unfold decode_batch. case_match; [done|].
  destruct (max_transaction_count _) as [mt|]; [|done].
  intros (txs & Hdec & Hk)%bind_Ok.
  destruct (decode _ body) as [s|] eqn:Ed; cbn in Hdec; simplify_eq.
  apply decode_Ok, (read_vec_canonical _ write_signed signed_wf) in Ed as (Hc & Hn & Hwf & ->);
    [|apply read_signed_canonical].
  rewrite app_nil_r in *. destruct (batch_encoding_length txs Hwf Hn) as (Hlen & Hpre & _).
  rewrite total_bytes_for_sum in Hk by (done || lia).
  destruct (Z.ltb_spec max (batch_bytes txs)); [done|]. injection Hk as <-. cbn.
  split_and!; try done; lia.
Qed.

Lemma batch_bytes_filter (P : SignedTransaction → Prop) `{!∀ t, Decision (P t)} txs :
  Forall signed_wf txs → batch_bytes (filter P txs) ≤ batch_bytes txs.
Proof.
  unfold batch_bytes. induction 1 as [|t txs Ht _ IH]; [done|]. rewrite filter_cons.
  assert (0 ≤ signed_encode_size t) by (rewrite signed_encode_size_spec by done; apply zlen_nonneg).
  case_decide; cbn [fmap list_fmap sumZ] in *; lia.
Qed.

Lemma sublist_fmap {A B} (f : A → B) l1 l2 : l1 `sublist_of` l2 → f <$> l1 `sublist_of` (f <$> l2).
Proof. induction 1; cbn; by constructor. Qed.

(** The transactions of a request body. *)
Definition pending_transactions (batch : DecodedBatch) (pending : gset string) : list SignedTransaction :=
  filter (λ t, digest_to_string (message_digest t) ∈ pending) (db_transactions batch).

Lemma pending_transactions_ne batch pending :
  db_digests batch = digest_to_string ∘ message_digest <$> db_transactions batch →
  pending ≠ ∅ → pending ⊆ list_to_set (db_digests batch) → pending_transactions batch pending ≠ [].
Proof.
  intros Hd Hne Hsub Heq. apply set_choose_L in Hne as [d Hin].
  pose proof (Hsub d Hin) as Hm. rewrite elem_of_list_to_set, Hd in Hm.
  apply list_elem_of_fmap in Hm as (t & -> & Ht).
  assert (t ∈ pending_transactions batch pending) as Hf by by apply list_elem_of_filter.
  rewrite Heq in Hf. by apply elem_of_nil in Hf.
Qed.

(** The whole batch is the body it was decoded from. *)
Lemma encode_all batch :
  db_digests batch = digest_to_string ∘ message_digest <$> db_transactions batch →
  encode_pending batch (list_to_set (db_digests batch)) = write_vec write_signed (db_transactions batch).
Proof.
  intros Hd. unfold encode_pending. f_equal. apply filter_all_id. apply Forall_forall. intros t Ht.
  rewrite elem_of_list_to_set, Hd. apply list_elem_of_fmap. by exists t.
Qed.

Lemma pending_admitted `{Json} `{ConsensusLib} st rng batch pending :
  Forall signed_wf (db_transactions batch) → zlen (db_transactions batch) < 2 ^ 32 →
  batch_bytes (db_transactions batch) ≤ Webserver.max_batch_bytes st →
  Webserver.max_batch_bytes st + 5 ≤ u64_max →
  forallb (lst_signature_ok (namespace st)) (lst_new <$> db_transactions batch) = true →
  pending_transactions batch pending ≠ [] →
  ∃ vb, verify_body st true rng (encode_pending batch pending) = Ok vb ∧
    vb_digests vb = message_digest <$> pending_transactions batch pending.
Proof.
  intros Hwf Hn Hb Hmax Hsig Hne.
  assert (pending_transactions batch pending `sublist_of` db_transactions batch) as Hsub
    by apply sublist_filter.
  destruct (verify_body_valid st rng (pending_transactions batch pending)) as (txs' & _ & Hv).
  - done.
  - rewrite Forall_forall in *. intros t Ht. apply Hwf. by eapply elem_of_sublist.
  - apply sublist_length in Hsub. unfold zlen in *. lia.
  - rewrite forallb_forall in *. intros l (t & -> & Ht)%list_elem_of_In%list_elem_of_fmap. apply Hsig.
    apply list_elem_of_In, list_elem_of_fmap. exists t. split; [done|].
    by eapply elem_of_sublist.
  - transitivity (batch_bytes (db_transactions batch)); [by apply batch_bytes_filter|done].
  - done.
  - by eexists.
Qed.

End decoding.

(** ** Rotation of leaders *)

Lemma leader_at_Some leaders i :
  0 ≤ i < zlen leaders → ∃ l, leaders !! Z.to_nat i = Some l ∧ leader_at leaders i = [l].
Proof.
  intros Hi. destruct (lookup_lt_is_Some_2 leaders (Z.to_nat i)) as [l Hl]; [unfold zlen in Hi; lia|].
  exists l. split; [done|]. unfold leader_at. by rewrite Hl.
Qed.

Lemma next_two_leaders_spec leaders v :
  2 ≤ zlen leaders → 0 ≤ v → v + 2 ≤ u64_max →
  ∃ a b, next_two_leaders leaders v = [a; b] ∧
    leaders !! Z.to_nat ((v + 1) mod zlen leaders) = Some a ∧
    leaders !! Z.to_nat ((v + 2) mod zlen leaders) = Some b ∧
    (v + 1) mod zlen leaders ≠ (v + 2) mod zlen leaders.
Proof.
  intros Hn Hv Hmax. set (n := zlen leaders) in *.
  assert ((v + 1) mod n ≠ (v + 2) mod n) as Hne.
  { intros Heq. assert (((v + 2) - (v + 1)) mod n = 0) as H0.
    { rewrite Zminus_mod, Heq, Z.sub_diag. by apply Z.mod_0_l; lia. }
    replace (v + 2 - (v + 1)) with 1 in H0 by lia. rewrite Z.mod_1_l in H0; lia. }
  destruct (leader_at_Some leaders ((v + 1) mod n)) as (a & Ha & Ha'); [apply Z.mod_pos_bound; lia|].
  destruct (leader_at_Some leaders ((v + 2) mod n)) as (b & Hb & Hb'); [apply Z.mod_pos_bound; lia|].
  exists a, b. split_and!; try done. unfold next_two_leaders.
  rewrite !wrap64_id by (unfold is_u64; lia). fold n.
  rewrite (proj2 (Z.eqb_neq _ _) Hne), Ha', Hb'. subst n. destruct leaders; [done|]. done.
Qed.

(** ** Properties *)

Section properties.
Context `{LazyKey} `{RelayerJson}.

(** C24. Clients are told no more than validators reported: if every status a
    leader serves lists as included only digests finalized (in the sense of
    [F]) at or below its height, then whatever the network loses, delays or
    reorders and whichever views are observed, a [Finalized] answer covers
    every transaction of the batch, a [PartiallyFinalized] answer splits the
    batch in order into finalized transactions and a non-empty rest, and no
    claim is made otherwise. *)
Theorem relayer_status_sound F post get st batch view views :
  (∀ r i l id s, fetch_status_from_leader (get r i l id) = Some s → status_true F s) →
  answer_true F (db_digests batch) (submit_with_retries post get st batch view views).1.
Proof.
  intros Hget. unfold submit_with_retries. destruct (rs_leaders st) as [|l ls]; [done|].
  apply retry_loop_true; [done|apply set_Forall_empty|]. intros d Hd. left.
  by apply elem_of_list_to_set.
Qed.

(** Retries are admissible: for a decoded batch with valid signatures, a
    relayer with leaders sends at most one request more than the retries
    configured, the first one carrying the client's body byte for byte, and
    every one goes to configured leaders only and carries a non-empty
    sub-batch that a leader with the same byte limit accepts, whatever was
    finalized in between. *)
Theorem relayer_retries_admitted `{Json} `{ConsensusLib} post get st hst rng body batch view views :
  zlen body ≤ u64_max → decode_batch body (rs_max_batch_bytes st) = Ok batch →
  rs_leaders st ≠ [] →
  rs_max_batch_bytes st ≤ Webserver.max_batch_bytes hst → Webserver.max_batch_bytes hst + 5 ≤ u64_max →
  forallb (lst_signature_ok (namespace hst)) (lst_new <$> db_transactions batch) = true →
  let sent := (submit_with_retries post get st batch view views).2 in
  sent_body <$> head sent = Some body ∧
  (length sent ≤ S (Z.to_nat (rs_max_retry_views st)))%nat ∧
  Forall (λ s, (∀ l, l ∈ sent_targets s → l ∈ rs_leaders st) ∧
    ∃ vb, verify_body hst true rng (sent_body s) = Ok vb ∧
      vb_digests vb `sublist_of` (message_digest <$> db_transactions batch)) sent.
Proof.
  intros Hlen Hdec Hld Hmax Hcap Hsig.
  apply decode_batch_Ok in Hdec as (Hb & Hwf & Hn & Hbytes & Hdig); [|done].
  cbv zeta. unfold submit_with_retries. destruct (rs_leaders st) as [|l0 ls] eqn:El; [done|].
  assert (db_digests batch ≠ []) as Hne.
  { rewrite Hdig. destruct (db_transactions batch); [unfold zlen in Hn; cbn in Hn; lia|done]. }
  edestruct (retry_loop_sent post get (Z.to_nat (rs_max_retry_views st)) 0 (l0 :: ls) batch
    (list_to_set (db_digests batch)) ∅ 0 false [] view views) as (s & ss & -> & Hs & Hf & Hl).
  - destruct (db_digests batch); [done|set_solver].
  - done.
  - intros a Ha. by apply elem_of_nil in Ha.
  - cbn [head]. split_and!; [cbn; by rewrite Hs, encode_all, <- Hb|done|].
    eapply Forall_impl; [done|]. intros s' [Ht (p & Hp & Hsub & ->)]. split; [done|].
    destruct (pending_admitted hst rng batch p) as (vb & Hv & Hvd); try done; [lia|lia| |].
    + by apply pending_transactions_ne.
    + exists vb. split; [done|]. rewrite Hvd. apply sublist_fmap, sublist_filter.
Qed.

(** The relayer's checks are the leader's: on every body, the validation of
    a validator with the same byte limit is the relayer's own decoding, with
    the same rejection codes, followed by the signature check only. *)
Theorem relayer_prechecks_as_leader `{Json} `{ConsensusLib} hst rng body :
  verify_body hst true rng body =
    match decode_batch body (Webserver.max_batch_bytes hst) with
    | Err e => Err e
    | Ok b =>
        if forallb (lst_signature_ok (namespace hst)) (lst_new <$> db_transactions b)
        then Ok (mkVerified (db_transactions b) (message_digest <$> db_transactions b)
                   (total_bytes_for (db_transactions b)))
        else Err BAD_REQUEST
    end.
Proof.
  unfold verify_body, decode_batch.
  change (Webserver.max_request_bytes (Webserver.max_batch_bytes hst))
    with (max_request_bytes (Webserver.max_batch_bytes hst)).
  case_match; [done|].
  change (Webserver.max_transaction_count (zlen body)) with (max_transaction_count (zlen body)).
  destruct (max_transaction_count _) as [mt|]; [|done].
  destruct (decode _ body) as [txs|]; cbn [map_err mbind result_bind]; [|done].
  case_match; [done|]. cbn [negb db_transactions]. rewrite verify_chunks_spec, mapM_lst_new.
  by destruct (forallb _ _).
Qed.


(** Leader rotation: with two leaders or more and away from the end of the
    [u64] range, view [v] targets exactly the round-robin leaders of views
    [v + 1] and [v + 2], which differ, and any [n] consecutive views of [n]
    leaders reach every one of them. *)
Theorem next_two_leaders_rotation leaders v :
  2 ≤ zlen leaders → 0 ≤ v → v + zlen leaders + 1 ≤ u64_max →
  (∃ a b, next_two_leaders leaders v = [a; b] ∧
     leaders !! Z.to_nat ((v + 1) mod zlen leaders) = Some a ∧
     leaders !! Z.to_nat ((v + 2) mod zlen leaders) = Some b ∧
     (v + 1) mod zlen leaders ≠ (v + 2) mod zlen leaders) ∧
  (∀ l, l ∈ leaders → ∃ i, 0 ≤ i < zlen leaders ∧ l ∈ next_two_leaders leaders (v + i)).
Proof.
  intros Hn Hv Hmax. split; [apply next_two_leaders_spec; lia|].
  intros l [j Hj]%list_elem_of_lookup. apply lookup_lt_Some in Hj as Hlt.
  set (i := (Z.of_nat j - (v + 1)) mod zlen leaders).
  assert (0 ≤ i < zlen leaders) as Hi by (apply Z.mod_pos_bound; lia).
  exists i. split; [done|].
  destruct (next_two_leaders_spec leaders (v + i)) as (a & b & -> & Ha & _); [lia..|].
  assert ((v + i + 1) mod zlen leaders = Z.of_nat j) as Hm.
  { replace (v + i + 1) with (v + 1 + i) by lia. unfold i.
    rewrite Zplus_mod_idemp_r. replace (v + 1 + (Z.of_nat j - (v + 1))) with (Z.of_nat j) by lia.
    apply Z.mod_small. unfold zlen. lia. }
  rewrite Hm, Nat2Z.id, Hj in Ha. injection Ha as ->. left.
Qed.

End properties.

(** ** Witnesses *)

(** Ingest answers list one digest; a status document is a height and a digest. *)
#[export] Instance conc_relayer_json : RelayerJson := {|
  parse_ingest_response b := Some [string_of_bytes b];
  parse_batch_status b :=
    match b with [] => None | k :: d => Some (Finalized (byte_val k) [string_of_bytes d]) end |}.

Definition sample_leaders : list Leader :=
  [mkLeader "00" [x00] "a"; mkLeader "01" [x01] "b"; mkLeader "02" [x02] "c"].
Definition sample_relayer : RelayerState := mkRelayer sample_leaders 2 1000.
Definition sample_digest : digest := message_digest (sample_signed 1 2 5 0).
Definition sample_decoded : DecodedBatch :=
  mkDecoded sample_batch (digest_to_string ∘ message_digest <$> sample_batch).

(** Leader "01" accepts every forward; from round 1 on, statuses report the
    first transaction of the batch as finalized at height 9. *)
Definition sample_post (r i : nat) (l : Leader) (b : bytes) : Response :=
  if bool_decide (public_key l = "01") then Responded 202 (Some [x61]) else NoResponse.
Definition sample_get (r i : nat) (l : Leader) (id : string) : Response :=
  if (1 <=? r)%nat then Responded 200 (Some (x09 :: proj1_sig sample_digest)) else NoResponse.
Definition sample_F (d : string) (h : Z) : Prop := d = digest_to_string sample_digest ∧ h = 9.

Lemma sample_get_true r i l id s :
  fetch_status_from_leader (sample_get r i l id) = Some s → status_true sample_F s.
Proof.
  unfold sample_get. case_match; [|done]. cbn -[sample_digest]. intros [= <-].
  apply Forall_singleton. exists 9. split; [by split|done].
Qed.

Abbreviation sample_submission :=
  (submit_with_retries sample_post sample_get sample_relayer sample_decoded 4 [5; 5; 7]).

Lemma relayer_status_sound_witness :
  sample_submission.1 = json_response (TxPartiallyFinalized 9
    [digest_to_string sample_digest] [digest_to_string (message_digest (sample_signed 2 1 7 0))]) ∧
  answer_true sample_F (db_digests sample_decoded) sample_submission.1.
Proof.
  split; [vm_compute; reflexivity|].
  apply (relayer_status_sound sample_F sample_post sample_get sample_relayer sample_decoded 4 [5; 5; 7]
           sample_get_true).
Defined.

Lemma sample_body_decodes :
  ∃ b, decode_batch (write_vec write_signed sample_batch) 1000 = Ok b ∧
    forallb (lst_signature_ok sample_ns) (lst_new <$> db_transactions b) = true.
Proof.
  assert ((match decode_batch (write_vec write_signed sample_batch) 1000 with
           | Ok b => forallb (lst_signature_ok sample_ns) (lst_new <$> db_transactions b)
           | Err _ => false end) = true) as Hb by (vm_compute; reflexivity).
  destruct (decode_batch _ _) as [b|]; [by exists b|done].
Qed.

Lemma relayer_retries_admitted_witness :
  ∃ b, decode_batch (write_vec write_signed sample_batch) 1000 = Ok b ∧
    sent_body <$> head (submit_with_retries sample_post sample_get sample_relayer b 4 [5; 5; 7]).2
    = Some (write_vec write_signed sample_batch).
Proof.
  destruct sample_body_decodes as (b & Hb & Hs). exists b. split; [exact Hb|].
  assert (zlen (write_vec write_signed sample_batch) ≤ u64_max) as Hl
    by (clear Hb Hs; vm_compute; discriminate).
  assert (Webserver.max_batch_bytes sample_app_state + 5 ≤ u64_max) as Hc by (vm_compute; discriminate).
  exact (proj1 (relayer_retries_admitted sample_post sample_get sample_relayer sample_app_state 1
    (write_vec write_signed sample_batch) b 4 [5; 5; 7] Hl Hb ltac:(discriminate) (Z.le_refl 1000) Hc Hs)).
Defined.

Lemma next_two_leaders_rotation_witness :
  ∃ i, 0 ≤ i < 3 ∧ mkLeader "02" [x02] "c" ∈ next_two_leaders sample_leaders (7 + i).
Proof.
  apply (proj2 (next_two_leaders_rotation sample_leaders 7 ltac:(done) ltac:(done) ltac:(done))).
  do 2 right. left.
Defined.
