(* ===== verification/Indexer.v ===== *)
(** * The indexer (crates/indexer/src/publisher/{block,qmdb,sql}.rs)

    Finalized blocks are expanded into SQL rows and operations of a remote
    copy of the two QMDB logs, and uploaded in order behind two cursors.  The
    theorems show that an accepted block expands to exactly the operations and
    locations the application committed, and that the cursors leave no gap
    and no overlap whatever is replayed. *)

From stdpp Require Import prelude gmap list strings.
From S2P Require Import Prelude Hex Interfaces Concrete Account Auth Transaction Executor Database Block Execution Application.

(** ** SQL rows *)

Definition BLOCK_META_TABLE : string := "block_meta".
Definition TX_META_TABLE : string := "tx_meta".
Definition TX_ACTIVITY_TABLE : string := "tx_activity".
Definition ACCOUNT_META_TABLE : string := "account_meta".

(** The cells of [exoware_sql::CellValue] the rows use, and [struct SqlRow]. *)
Inductive CellValue : Type :=
| UInt64 (x : Z)
| FixedBinary (b : bytes)
| Utf8 (s : string)
| Timestamp (micros : Z).
Record SqlRow := mkRow { table : string; values : list CellValue }.

(** [BlockMetaRow], [TxMetaRow], [TxActivityRow] and [AccountMetaRow]. *)
Record BlockMetaRow := mkBlockMeta {
  bm_height : Z; bm_digest : bytes; bm_tx_count : Z; bm_transactions_root : bytes;
  bm_transactions_tip : Z; bm_view : Z; bm_finalized_ts_micros : Z }.
Record TxMetaRow := mkTxMeta { tm_digest : bytes; tm_qmdb_location : Z; tm_body : bytes }.
Inductive TxActivityRole : Type := Sender | Receiver.
Record TxActivityRow := mkTxActivity {
  ta_account : bytes; ta_role : TxActivityRole; ta_height : Z; ta_index : Z;
  ta_digest : bytes; ta_counterparty : bytes; ta_value : Z; ta_nonce : Z }.
Record AccountMetaRow := mkAccountMeta {
  am_account : bytes; am_balance : Z; am_nonce_base : Z; am_nonce_bitmap : Z; am_qmdb_location : Z }.

Definition role_as_u64 (r : TxActivityRole) : Z := match r with Sender => 0 | Receiver => 1 end.

Definition encode_block_meta_row (r : BlockMetaRow) : SqlRow :=
  mkRow BLOCK_META_TABLE
    [UInt64 (bm_height r); FixedBinary (bm_digest r); UInt64 (bm_tx_count r);
     FixedBinary (bm_transactions_root r); UInt64 (bm_transactions_tip r); UInt64 (bm_view r);
     Timestamp (bm_finalized_ts_micros r)].
Definition encode_tx_meta_row (r : TxMetaRow) : SqlRow :=
  mkRow TX_META_TABLE
    [FixedBinary (tm_digest r); UInt64 (tm_qmdb_location r); Utf8 (hex_lower (tm_body r))].
Definition encode_tx_activity_row (r : TxActivityRow) : SqlRow :=
  mkRow TX_ACTIVITY_TABLE
    [FixedBinary (ta_account r); UInt64 (ta_height r); UInt64 (ta_index r);
     UInt64 (role_as_u64 (ta_role r)); FixedBinary (ta_digest r); FixedBinary (ta_counterparty r);
     UInt64 (ta_value r); UInt64 (ta_nonce r)].
Definition encode_account_meta_row (r : AccountMetaRow) : SqlRow :=
  mkRow ACCOUNT_META_TABLE
    [FixedBinary (am_account r); UInt64 (am_balance r); UInt64 (am_nonce_base r);
     UInt64 (am_nonce_bitmap r); UInt64 (am_qmdb_location r)].

(** ** Upload errors, operations and cursors *)

(** [enum PublishError]: the variants the sources raise, [Qmdb] as an error a
    library returned or as one of the two errors of [exoware_qmdb] they build. *)
Inductive PublishError : Type :=
| Prefix
| Qmdb (error : string)
| SqlSchema (error : string)
| CheckpointTooLarge (locations : Z)
| StoreEmptyPastGenesis (height : Z)
| WriterOutOfSync (writer_next block_start : Z)
| CommitterStopped (height : Z)
| EmptyBatch
| CorruptData.

(** [AnyOperation] over the value type [V], and [keyless::Operation]. *)
Inductive AnyOperation (V : Type) : Type :=
| Delete (key : AccountKey)
| Update (key : AccountKey) (value : V)
| CommitFloor (metadata : option V) (floor : Z).
Arguments Delete {V} key.
Arguments Update {V} key value.
Arguments CommitFloor {V} metadata floor.
Inductive KeylessOperation (D : Type) : Type :=
| Append (d : D)
| Commit (floor : Z).
Arguments Append {D} d.
Arguments Commit {D} floor.

(** [next_writer_location]; [watermark] is a location below [u64::MAX]. *)
Definition next_writer_location (watermark : option Z) : Z :=
  match watermark with Some location => wrap64 (location + 1) | None => 0 end.

(** [recover_writer_state] up to the fetch: how many locations it asks for. *)
Definition recover_checkpoint_size (watermark : Z) : result PublishError Z :=
  locations ← ok_or (checked_add watermark 1) (CheckpointTooLarge u64_max);
  if locations <? 2 ^ 32 then Ok locations else Err (CheckpointTooLarge locations).

Definition validate_writer_range (writer_next block_end height : Z) : result PublishError unit :=
  if (writer_next =? 0) && (1 <? height) then Err (StoreEmptyPastGenesis height)
  else if block_end <? writer_next then Err (WriterOutOfSync writer_next block_end)
  else Ok ().

(** [retry_backoff], in milliseconds; [attempt] is a [u32]. *)
Definition retry_backoff (attempt : Z) : Z :=
  Z.min (100 * Z.shiftl 1 (Z.min attempt 5)) 2000.

Section indexer.
Context `{LazyKey} `{ConsensusLib}.

(** ** Block rows *)

(** [struct IndexedBlockRows] and [struct IndexedTransaction]. *)
Record IndexedBlockRows := mkRows { sql : list SqlRow; transaction_digests : list digest }.
Record IndexedTransaction := mkIndexed {
  block_index : Z; ix_digest : digest; ix_bytes : bytes; ix_sender : bytes; ix_to : bytes;
  ix_value : Z; ix_nonce : Z }.

Definition slice (lo hi : nat) (b : bytes) : bytes := take (hi - lo) (drop lo b).

Definition index_transaction (idx : nat) (l : LazySignedTransaction) : run (option IndexedTransaction) :=
  signed_bytes ← encoded_signed_transaction l;
  if decide (length signed_bytes < Transaction_SIZE)%nat then Ret None
  else
    let transaction_bytes := take Transaction_SIZE signed_bytes in
    match from_public_key_bytes (take TransactionPublicKey_SIZE transaction_bytes) with
    | None => Ret None
    | Some s =>
        let to_start := TransactionPublicKey_SIZE in
        let to_end := (to_start + AccountKey_SIZE)%nat in
        let value_start := to_end in
        let value_end := (value_start + 8)%nat in
        let nonce_start := value_end in
        let nonce_end := (nonce_start + 8)%nat in
        let v := from_be (slice value_start value_end transaction_bytes) in
        if v =? 0 then Ret None
        else
          let n := from_be (slice nonce_start nonce_end transaction_bytes) in
          let t := slice to_start to_end transaction_bytes in
          Ret (Some (mkIndexed (Z.of_nat idx) (hash transaction_bytes) signed_bytes s t v n))
    end.

(** One round of the row loop of [encode_indexed_block_rows_at]. *)
Definition transaction_rows (h append_start : Z) (materialized_idx : nat) (tx : IndexedTransaction)
    : run (list SqlRow) :=
  idx ← (if block_index tx <? 2 ^ 32 then Ret (block_index tx) else Panic "transaction index fits u32");
  let qmdb_location := wrap64 (append_start + Z.of_nat materialized_idx) in
  let digest := fwrite (ix_digest tx) in
  Ret ([encode_tx_meta_row (mkTxMeta digest qmdb_location (ix_bytes tx));
        encode_tx_activity_row
          (mkTxActivity (ix_sender tx) Sender h idx digest (ix_to tx) (ix_value tx) (ix_nonce tx))]
       ++ if decide (ix_to tx = ix_sender tx) then []
          else [encode_tx_activity_row
                  (mkTxActivity (ix_to tx) Receiver h idx digest (ix_sender tx) (ix_value tx) (ix_nonce tx))]).

Definition encode_indexed_block_rows_at (blk : SealedBlock) (finalized_ts_micros : Z) : run IndexedBlockRows :=
  let hdr := header (inner blk) in
  found ← mapM (λ r, r) (imap index_transaction (body (inner blk)));
  let indexed_txs := omap (λ o, o) found in
  let tx_count := zlen indexed_txs in
  append_start ← expect (checked_sub (range_end (transactions_range hdr)) (wrap64 (tx_count + 1)))
                   "transaction range includes appends plus commit";
  rows ← mapM (λ r, r) (imap (transaction_rows (height hdr) append_start) indexed_txs);
  let meta := encode_block_meta_row
    (mkBlockMeta (height hdr) (fwrite (seal blk)) tx_count (fwrite (transactions_root hdr))
       (wrap64 (range_end (transactions_range hdr) - 1)) 0 finalized_ts_micros) in
  Ret (mkRows (meta :: concat rows) (ix_digest <$> indexed_txs)).

(** ** Uploads *)

(** [transaction_upload_end]. *)
Definition transaction_upload_end (writer_next : Z) (blk : SealedBlock) : run (result PublishError Z) :=
  let hdr := header (inner blk) in
  if (writer_next =? 0) && (1 <? height hdr) then Ret (Err (StoreEmptyPastGenesis (height hdr)))
  else
    op_count ← expect (checked_add (zlen (body (inner blk))) 1)
                 "transaction operation count does not overflow";
    op_count ← (if writer_next =? 0
                then expect (checked_add op_count 1) "genesis transaction operation count does not overflow"
                else Ret op_count);
    block_start ← expect (checked_sub (range_end (transactions_range hdr)) op_count)
                    "block transaction range must include this batch";
    if negb (writer_next =? block_start) then Ret (Err (WriterOutOfSync writer_next block_start))
    else
      e ← expect (checked_add writer_next op_count) "transaction writer reservation does not overflow";
      Ret (Ok e).

(** [transaction_ops_from_digests] and [build_transaction_upload_from_digests]. *)
Definition transaction_ops_from_digests (blk : SealedBlock) (writer_next : Z) (ds : list digest)
    : run (result PublishError (list (KeylessOperation digest))) :=
  let hdr := header (inner blk) in
  let ops := (if writer_next =? 0 then [Commit 0] else []) ++ (Append <$> ds)
             ++ [Commit (range_start (transactions_range hdr))] in
  block_start ← expect (checked_sub (range_end (transactions_range hdr)) (zlen ops))
                  "block transaction range must include this batch";
  if negb (writer_next =? block_start) then Ret (Err (WriterOutOfSync writer_next block_start))
  else Ret (Ok ops).

Definition build_transaction_upload_from_digests (blk : SealedBlock) (writer_next : Z) (ds : list digest)
    : run (result PublishError (list (KeylessOperation digest))) :=
  if (writer_next =? 0) && (1 <? height (header (inner blk)))
  then Ret (Err (StoreEmptyPastGenesis (height (header (inner blk)))))
  else transaction_ops_from_digests blk writer_next ds.

(** [encode_account_operation], and [account_rows] over the encoded values. *)
Definition encode_account_operation (op : AnyOperation Account) : AnyOperation bytes :=
  match op with
  | Delete key => Delete key
  | Update key account => Update key (write_account account)
  | CommitFloor account floor => CommitFloor (write_account <$> account) floor
  end.

Definition account_row (start_location : Z) (offset : nat) (op : AnyOperation bytes) : list SqlRow :=
  match op with
  | Update key account =>
      [encode_account_meta_row
         (mkAccountMeta key (from_be (slice 0 8 account)) (from_be (slice 8 16 account))
            (from_be (slice 16 24 account)) (wrap64 (start_location + Z.of_nat offset)))]
  | Delete _ | CommitFloor _ _ => []
  end.
Definition account_rows (delta : list (AnyOperation bytes)) (start_location : Z) : list SqlRow :=
  concat (imap (account_row start_location) delta).

(** [load_state_ops] and [build_state_delta]; [historical_proof] is the local
    database's answer for the operations from [start] as of [end]. *)
Definition load_state_ops (historical_proof : Z → Z → Z → option (list (AnyOperation Account)))
    (start end_ : Z) : result PublishError (list (AnyOperation bytes)) :=
  let non_zero c := if c =? 0 then None else Some c in
  match checked_sub end_ start ≫= non_zero with
  | None => Err EmptyBatch
  | Some count =>
      match historical_proof end_ start count with
      | None => Err CorruptData
      | Some ops => Ok (encode_account_operation <$> ops)
      end
  end.
Definition build_state_delta (writer_next : Z) (blk : SealedBlock)
    (historical_proof : Z → Z → Z → option (list (AnyOperation Account)))
    : result PublishError (list (AnyOperation bytes)) :=
  let hdr := header (inner blk) in
  if (writer_next =? 0) && (1 <? height hdr) then Err (StoreEmptyPastGenesis (height hdr))
  else load_state_ops historical_proof writer_next (range_end (state_range hdr)).

(** [struct QueuedFinalizedUpload] and its accessors. *)
Record QueuedFinalizedUpload := mkQueued {
  q_block : SealedBlock;
  q_finalized_ts_micros : Z;
  q_state_start : Z;
  q_transaction_start : Z;
  q_state_delta : list (AnyOperation bytes)
}.
Definition state_end (u : QueuedFinalizedUpload) : Z :=
  range_end (state_range (header (inner (q_block u)))).
Definition transaction_end (u : QueuedFinalizedUpload) : run Z :=
  r ← transaction_upload_end (q_transaction_start u) (q_block u);
  expect (ok r) "queued finalized upload stores a validated transaction cursor".

(** [build_queued_finalized_upload_with_context]. *)
Definition build_queued_finalized_upload (state_writer_next transaction_writer_next : Z)
    (blk : SealedBlock) (historical_proof : Z → Z → Z → option (list (AnyOperation Account)))
    (now_micros : Z) : run (result PublishError QueuedFinalizedUpload) :=
  let hdr := header (inner blk) in
  match validate_writer_range state_writer_next (range_end (state_range hdr)) (height hdr) with
  | Err e => Ret (Err e)
  | Ok _ =>
      r ← transaction_upload_end transaction_writer_next blk;
      match r with
      | Err e => Ret (Err e)
      | Ok _ =>
          Ret (mkQueued blk now_micros state_writer_next transaction_writer_next
               <$> build_state_delta state_writer_next blk historical_proof)
      end
  end.

(** [struct PendingPreparedQmdbUpload] and [expand_queued_finalized_upload]. *)
Record PendingPreparedQmdbUpload := mkPrepared {
  pp_block_rows : IndexedBlockRows;
  pp_state_delta : list (AnyOperation bytes);
  pp_account_rows : list SqlRow;
  pp_transaction_ops : list (KeylessOperation digest)
}.
Definition expand_queued_finalized_upload (u : QueuedFinalizedUpload)
    : run (result PublishError PendingPreparedQmdbUpload) :=
  block_rows ← encode_indexed_block_rows_at (q_block u) (q_finalized_ts_micros u);
  r ← build_transaction_upload_from_digests (q_block u) (q_transaction_start u)
        (transaction_digests block_rows);
  match r with
  | Err e => Ret (Err e)
  | Ok ops =>
      Ret (Ok (mkPrepared block_rows (q_state_delta u)
                 (account_rows (q_state_delta u) (q_state_start u)) ops))
  end.

(** ** The publisher's cursors *)

(** [struct Publisher]: the two cursors and the channel to the preparer. *)
Record Publisher := mkPublisher {
  state_next_location : Z;
  transaction_next_location : Z;
  prepare_queue : list QueuedFinalizedUpload
}.
Inductive UploadCompletion : Type := Completed | Queued.

(** [enqueue_queued_finalized]; [channel_open] tells whether the preparer
    still receives. *)
Definition enqueue_queued_finalized (channel_open : bool) (pub : Publisher) (u : QueuedFinalizedUpload)
    : run (result PublishError UploadCompletion * Publisher) :=
  let s_end := state_end u in
  t_end ← transaction_end u;
  if (s_end <=? state_next_location pub) && (t_end <=? transaction_next_location pub)
  then Ret (Ok Completed, pub)
  else if negb (state_next_location pub =? q_state_start u)
  then Ret (Err (WriterOutOfSync (state_next_location pub) (q_state_start u)), pub)
  else if negb (transaction_next_location pub =? q_transaction_start u)
  then Ret (Err (WriterOutOfSync (transaction_next_location pub) (q_transaction_start u)), pub)
  else if negb channel_open then Ret (Err (CommitterStopped (height (header (inner (q_block u))))), pub)
  else Ret (Ok Queued, mkPublisher s_end t_end (prepare_queue pub ++ [u])).

(** A sequence of enqueue calls, errors included. *)
Fixpoint enqueue_all (pub : Publisher) (us : list (bool * QueuedFinalizedUpload)) : run Publisher :=
  match us with
  | [] => Ret pub
  | (o, u) :: us' => r ← enqueue_queued_finalized o pub u; enqueue_all r.2 us'
  end.

(** [struct PendingUploadCompletion] and [complete_published_uploads]: the
    completed senders and the retained uploads. *)
Record PendingUploadCompletion := mkCompletion { state_latest : Z; transaction_latest : Z; completion : nat }.
Definition upload_ready (st tx : option Z) (u : PendingUploadCompletion) : bool :=
  match st, tx with
  | Some s, Some t => (state_latest u <=? s) && (transaction_latest u <=? t)
  | _, _ => false
  end.
Definition complete_published_uploads (pending : list PendingUploadCompletion) (st tx : option Z)
    : list nat * list PendingUploadCompletion :=
  (completion <$> filter (λ u, upload_ready st tx u = true) pending,
   filter (λ u, upload_ready st tx u = false) pending).

End indexer.

(** ** Lemmas *)

Section lemmas.
Context `{LazyKey} `{ConsensusLib}.

Lemma slice_mid (a b c : bytes) lo hi :
  length a = lo → (lo + length b = hi)%nat → slice lo hi (a ++ b ++ c) = b.
Proof.
  intros Ha Hb. unfold slice. rewrite drop_app_length' by done. apply take_app_length'. lia.
Qed.

Lemma encoded_signed_bytes l t :
  lst_wf l → lst_get l = Some t → encoded_signed_transaction l = Ret (lst_bytes l).
Proof.
  intros Hwf Hg. pose proof (lst_get_wf l t Hwf Hg) as [_ Hb].
  unfold encoded_signed_transaction. rewrite Hg, Hb. unfold lst_bytes in Hb.
  destruct (pending l); cbn; [by rewrite Hb|done].
Qed.

(** The fields of a transaction at their offsets. *)
Lemma write_tx_fields tx :
  tx_wf tx →
  take TransactionPublicKey_SIZE (write_tx tx) = lazy_write (sender tx) ∧
  slice 34 66 (write_tx tx) = to tx ∧
  from_be (slice 66 74 (write_tx tx)) = value tx ∧
  from_be (slice 74 82 (write_tx tx)) = tx_nonce tx.
Proof.
  intros [[Hs _] Ht Hv Hn]. unfold write_tx, write_account_key.
  change TransactionPublicKey_SIZE with 34%nat in *. change AccountKey_SIZE with 32%nat in *.
  split_and!.
  - by apply take_app_length'.
  - apply slice_mid; [done|lia].
  - rewrite (app_assoc (lazy_write _)), slice_mid by (rewrite ?length_app, ?write_uint_length; lia).
    rewrite write_uint_be. apply from_be_to_be_small. change (256 ^ Z.of_nat 8) with (2 ^ 64).
    unfold u64_max in Hv. lia.
  - rewrite !(app_assoc (lazy_write _)), (app_assoc _ (write_uint 8 (value tx))).
    rewrite <- (app_nil_r (write_uint 8 (tx_nonce tx))).
    rewrite slice_mid by (rewrite ?length_app, ?write_uint_length; lia).
    rewrite write_uint_be. apply from_be_to_be_small. by apply is_u64_pow.
Qed.

(** What the indexer extracts from the bytes is what the executor prepared. *)
Lemma index_transaction_spec i l t tr :
  lst_wf l → lst_get l = Some t → prepare_transfer t = Some tr →
  index_transaction i l = Ret (Some (mkIndexed (Z.of_nat i) (pt_digest tr) (lst_bytes l)
    (pt_sender tr) (pt_recipient tr) (pt_value tr) (pt_nonce tr))).
Proof.
  intros Hwf Hg Hp. pose proof (lst_get_wf l t Hwf Hg) as [[Htx Hd _] Hb].
  unfold index_transaction. rewrite (encoded_signed_bytes l t) by done. cbn [mbind run_bind].
  pose proof (write_tx_length _ Htx) as Hl.
  assert (take Transaction_SIZE (lst_bytes l) = write_tx (st_value t)) as ->.
  { rewrite Hb. unfold write_signed, write_sealed_tx. by apply take_app_length'. }
  rewrite decide_False.
  2: { rewrite Hb. unfold write_signed, write_sealed_tx. rewrite length_app.
       change (inner (st_inner t)) with (st_value t). lia. }
  destruct (write_tx_fields _ Htx) as (-> & Hto & Hv & Hn).
  unfold prepare_transfer, account_key_from_sender in Hp.
  destruct (from_public_key_bytes _) as [s|]; [|done]. cbn in Hp. injection Hp as <-.
  change (TransactionPublicKey_SIZE + AccountKey_SIZE)%nat with 66%nat.
  change (66 + 8)%nat with 74%nat. change (74 + 8)%nat with 82%nat.
  change TransactionPublicKey_SIZE with 34%nat.
  rewrite Hto, Hv, Hn. destruct Htx as [_ _ Hval _].
  rewrite (proj2 (Z.eqb_neq _ _)) by lia. cbn. by rewrite Hd.
Qed.

(** The rows of one transfer of a block at height [h] whose first append is
    operation [start] of the history. *)
Definition transfer_rows (h start : Z) (i : nat) (p : LazySignedTransaction * PreparedTransfer)
    : list SqlRow :=
  let '(l, tr) := p in
  let d := fwrite (pt_digest tr) in
  let activity account role counterparty :=
    encode_tx_activity_row (mkTxActivity account role h (Z.of_nat i) d counterparty
                              (pt_value tr) (pt_nonce tr)) in
  [encode_tx_meta_row (mkTxMeta d (start + Z.of_nat i) (lst_bytes l));
   activity (pt_sender tr) Sender (pt_recipient tr)]
  ++ (if decide (pt_recipient tr = pt_sender tr) then []
      else [activity (pt_recipient tr) Receiver (pt_sender tr)]).

Definition indexed_of (i : nat) (p : LazySignedTransaction * PreparedTransfer) : IndexedTransaction :=
  mkIndexed (Z.of_nat i) (pt_digest p.2) (lst_bytes p.1) (pt_sender p.2) (pt_recipient p.2)
    (pt_value p.2) (pt_nonce p.2).

Lemma mapM_id_Ret {A B} (f : A → B) (l : list A) : mapM (λ r : run B, r) ((λ a, Ret (f a)) <$> l) = Ret (f <$> l).
Proof. induction l as [|a l IH]; cbn; [done|]. by rewrite IH. Qed.

Lemma mapM_imap_Ret {A B} (f : nat → A → run B) (g : nat → A → B) (l : list A) :
  (∀ i a, l !! i = Some a → f i a = Ret (g i a)) → mapM (λ r, r) (imap f l) = Ret (imap g l).
Proof.
  revert f g. induction l as [|a l IH]; intros f g Hfg; cbn; [done|].
  rewrite (Hfg 0%nat a) by done. cbn.
  rewrite (IH (f ∘ S) (g ∘ S)); [done|]. intros i b Hb. by apply (Hfg (S i)).
Qed.

Lemma imap_zip_fst {A B C} (f : nat → A → C) (l : list A) (k : list B) :
  length l = length k → imap f l = imap (λ i p, f i p.1) (zip l k).
Proof.
  revert f k. induction l as [|a l IH]; intros f [|b k] Hl; simplify_eq/=; [done|]. f_equal. by apply IH.
Qed.

Lemma omap_imap_Some {A B} (f : nat → A → B) (l : list A) :
  omap (λ o, o) (imap (λ i a, Some (f i a)) l) = imap f l.
Proof. revert f. induction l as [|a l IH]; intros f; cbn; [done|]. f_equal. apply (IH (f ∘ S)). Qed.

Lemma imap_imap {A B C} (f : nat → A → B) (g : nat → B → C) (l : list A) :
  imap g (imap f l) = imap (λ i a, g i (f i a)) l.
Proof. revert f g. induction l as [|a l IH]; intros f g; cbn; [done|]. f_equal. apply (IH (f ∘ S) (g ∘ S)). Qed.

Lemma fmap_imap_zip_snd {A B} (ls : list A) (ts : list B) {C} (f : B → C) :
  length ls = length ts → imap (λ _ p, f p.2) (zip ls ts) = f <$> ts.
Proof.
  revert ts. induction ls as [|a ls IH]; intros [|b ts] Hl; simplify_eq/=; [done|]. f_equal. by apply IH.
Qed.

(** A body and its transfers, position by position. *)
Lemma body_transfers_lookup ls ts i p :
  body_transfers ls = Some ts → zip ls ts !! i = Some p →
  ls !! i = Some p.1 ∧ ∃ t, lst_get p.1 = Some t ∧ prepare_transfer t = Some p.2.
Proof.
  destruct p as [l tr]. unfold body_transfers. intros Hm%mapM_Some [Hl Ht]%lookup_zip_Some.
  split; [done|]. pose proof (Forall2_lookup_lr _ _ _ _ _ _ Hm Hl Ht) as Hp. cbn in Hp.
  cbn. destruct (lst_get l) as [t|]; [|done]. by exists t.
Qed.

(** The row of a block that carries [n] transactions. *)
Definition block_row (blk : SealedBlock) (n micros : Z) : SqlRow :=
  let h := header (inner blk) in
  encode_block_meta_row (mkBlockMeta (height h) (fwrite (seal blk)) n (fwrite (transactions_root h))
    (range_end (transactions_range h) - 1) 0 micros).

Lemma block_rows_spec blk ts start micros :
  Forall lst_wf (body (inner blk)) → body_transfers (body (inner blk)) = Some ts →
  zlen (body (inner blk)) < 2 ^ 32 → 0 ≤ start →
  range_end (transactions_range (header (inner blk))) = start + zlen (body (inner blk)) + 1 →
  start + zlen (body (inner blk)) + 1 ≤ u64_max →
  encode_indexed_block_rows_at blk micros =
    Ret (mkRows (block_row blk (zlen ts) micros ::
                 concat (imap (transfer_rows (height (header (inner blk))) start)
                           (zip (body (inner blk)) ts)))
           (transfer_digests ts)).
Proof.
  intros Hwf Hts Hn Hs He Hmax. apply body_transfers_length in Hts as Hlen.
  assert (zlen ts = zlen (body (inner blk))) as Hz by (unfold zlen; lia).
  pose proof (zlen_nonneg (body (inner blk))) as H0n.
  unfold encode_indexed_block_rows_at.
  rewrite (imap_zip_fst index_transaction _ ts) by done.
  rewrite (mapM_imap_Ret _ (λ i p, Some (indexed_of i p))).
  2: { intros i p Hp. destruct (body_transfers_lookup _ _ _ _ Hts Hp) as (Hl & t & Hg & Hpr).
       apply (index_transaction_spec i p.1 t p.2); [|done..].
       rewrite Forall_forall in Hwf. by eapply Hwf, list_elem_of_lookup_2. }
  cbn [mbind run_bind]. rewrite omap_imap_Some.
  assert (zlen (imap indexed_of (zip (body (inner blk)) ts)) = zlen ts) as Hzi.
  { unfold zlen. rewrite length_imap, length_zip. lia. }
  rewrite Hzi, (wrap64_id (zlen ts + 1)) by (unfold is_u64; lia).
  rewrite (proj2 (checked_sub_Some _ _ start)) by lia. cbn [expect mbind run_bind].
  rewrite imap_imap, (mapM_imap_Ret _ (transfer_rows (height (header (inner blk))) start)).
  2: { intros i [l tr] Hp. apply lookup_zip_Some in Hp as [Hl _]. apply lookup_lt_Some in Hl.
       assert (0 ≤ Z.of_nat i < zlen (body (inner blk))) as Hi by (unfold zlen; lia).
       unfold transaction_rows. cbn [indexed_of block_index].
       rewrite (proj2 (Z.ltb_lt _ _)) by lia. cbn [mbind run_bind].
       rewrite wrap64_id by (unfold is_u64; lia). done. }
  cbn [mbind run_bind]. do 3 f_equal.
  - unfold block_row. do 2 f_equal. apply wrap64_id. unfold is_u64. lia.
  - rewrite fmap_imap. by apply (fmap_imap_zip_snd _ _ pt_digest).
Qed.

(** ** Operations and cursors *)

(** The history operations of a block. *)
Definition block_operations (writer_next : Z) (ts : list PreparedTransfer) (floor : Z)
    : list (KeylessOperation digest) :=
  (if writer_next =? 0 then [Commit 0] else []) ++ (Append <$> transfer_digests ts) ++ [Commit floor].

(** The uploader's cursor stands where the parent's history ended, or at zero
    before the first block when the history holds only the genesis commit. *)
Definition cursor_at (writer_next h start : Z) : Prop :=
  (writer_next ≠ 0 ∧ writer_next = start) ∨ (writer_next = 0 ∧ h ≤ 1 ∧ start = 1).

Lemma block_operations_length w h start ts floor :
  cursor_at w h start → zlen (block_operations w ts floor) = start + zlen ts + 1 - w.
Proof.
  unfold cursor_at, block_operations, transfer_digests, zlen. intros Hc.
  rewrite !length_app, !length_fmap.
  destruct (Z.eqb_spec w 0); cbn [length]; lia.
Qed.

Lemma upload_end_spec blk w start :
  let c := transactions_range (header (inner blk)) in
  cursor_at w (height (header (inner blk))) start → 0 ≤ w →
  range_end c = start + zlen (body (inner blk)) + 1 → range_end c ≤ u64_max →
  transaction_upload_end w blk = Ret (Ok (range_end c)).
Proof.
  intros c Hc Hw He Hmax. pose proof (zlen_nonneg (body (inner blk))).
  unfold transaction_upload_end. fold c.
  assert ((w =? 0) && (1 <? height (header (inner blk))) = false) as ->.
  { apply andb_false_iff. unfold cursor_at in Hc.
    destruct (Z.eqb_spec w 0); [right; apply Z.ltb_ge; lia|by left]. }
  rewrite (proj2 (checked_add_Some _ _ _)) by (split; [reflexivity|unfold cursor_at in Hc; lia]).
  cbn [expect mbind run_bind].
  destruct (Z.eqb_spec w 0) as [->|Hne].
  - destruct Hc as [[? _]|(_ & _ & ->)]; [done|].
    rewrite (proj2 (checked_add_Some _ _ _)) by (split; [reflexivity|lia]). cbn [expect mbind run_bind].
    rewrite (proj2 (checked_sub_Some _ _ 0)) by lia. cbn [expect mbind run_bind negb Z.eqb].
    rewrite (proj2 (checked_add_Some 0 _ (range_end c))) by lia. done.
  - destruct Hc as [[_ ->]|(? & _ & _)]; [|done]. cbn [mbind run_bind].
    rewrite (proj2 (checked_sub_Some _ _ start)) by lia. cbn [expect mbind run_bind].
    rewrite Z.eqb_refl. cbn [negb].
    rewrite (proj2 (checked_add_Some _ _ (range_end c))) by lia. done.
Qed.

Lemma upload_ops_spec blk w start ts :
  let c := transactions_range (header (inner blk)) in
  cursor_at w (height (header (inner blk))) start → 0 ≤ w →
  range_end c = start + zlen ts + 1 →
  build_transaction_upload_from_digests blk w (transfer_digests ts)
  = Ret (Ok (block_operations w ts (range_start c))).
Proof.
  intros c Hc Hw He. unfold build_transaction_upload_from_digests, transaction_ops_from_digests. fold c.
  assert ((w =? 0) && (1 <? height (header (inner blk))) = false) as ->.
  { apply andb_false_iff. unfold cursor_at in Hc.
    destruct (Z.eqb_spec w 0); [right; apply Z.ltb_ge; lia|by left]. }
  fold (block_operations w ts (range_start c)).
  rewrite (block_operations_length w (height (header (inner blk))) start) by done.
  rewrite (proj2 (checked_sub_Some _ _ w)) by lia. cbn [expect mbind run_bind].
  by rewrite Z.eqb_refl.
Qed.

End lemmas.

(** ** Chains of uploads *)

Section cursors.
Context `{LazyKey} `{ConsensusLib}.

(** Uploads that follow each other without gap or overlap on both logs. *)
Inductive contiguous : Z → Z → list QueuedFinalizedUpload → Z → Z → Prop :=
| contiguous_nil s t : contiguous s t [] s t
| contiguous_cons u us t1 s' t' :
    transaction_end u = Ret t1 → contiguous (state_end u) t1 us s' t' →
    contiguous (q_state_start u) (q_transaction_start u) (u :: us) s' t'.

(** The state range of an upload does not go backwards; the builder checks it. *)
Definition upload_forward (u : QueuedFinalizedUpload) : Prop := q_state_start u ≤ state_end u.

Lemma contiguous_snoc s t us s1 t1 u t2 :
  contiguous s t us s1 t1 → q_state_start u = s1 → q_transaction_start u = t1 →
  transaction_end u = Ret t2 → contiguous s t (us ++ [u]) (state_end u) t2.
Proof.
  induction 1 as [s t|u' us t1' s1 t1 Hu _ IH]; cbn; intros Hs Ht Hu'; subst.
  - eapply contiguous_cons; [done|constructor].
  - eapply contiguous_cons; [done|]. by apply IH.
Qed.

Lemma transaction_end_gt u t : transaction_end u = Ret t → q_transaction_start u < t.
Proof.
  unfold transaction_end. intros ([e|er] & Hu & Hk)%bind_Ret; [|done]. cbn in Hk. injection Hk as ->.
  unfold transaction_upload_end in Hu. destruct (_ && _); [done|].
  apply bind_Ret in Hu as (n & [Hn _]%expect_Ret%checked_add_Some & Hu).
  apply bind_Ret in Hu as (n' & Hn' & Hu).
  apply bind_Ret in Hu as (b & _ & Hu). destruct (negb _); [done|].
  apply bind_Ret in Hu as (e' & [He _]%expect_Ret%checked_add_Some & [= ->]).
  pose proof (zlen_nonneg (body (inner (q_block u)))).
  assert (n ≤ n').
  { case_match; [apply expect_Ret, checked_add_Some in Hn'; lia|by injection Hn' as ->]. }
  lia.
Qed.

Lemma contiguous_bounds s t us s' t' :
  contiguous s t us s' t' → Forall upload_forward us →
  s ≤ s' ∧ t ≤ t' ∧ ∀ u, u ∈ us → state_end u ≤ s' ∧ ∃ e, transaction_end u = Ret e ∧ e ≤ t'.
Proof.
  induction 1 as [s t|u us t1 s' t' Hu Hc IH]; intros Hf.
  { split_and!; [lia..|]. intros u Hu. by apply elem_of_nil in Hu. }
  apply Forall_cons in Hf as [Hfu Hf]. destruct (IH Hf) as (Hs & Ht & Hin).
  apply transaction_end_gt in Hu as Hgt. unfold upload_forward in Hfu. split_and!; [lia..|].
  intros u' [->|Hu']%elem_of_cons; [|by apply Hin]. split; [done|]. by exists t1.
Qed.

(** The invariant of the publisher. *)
Lemma enqueue_all_chain s t pub us pub' :
  contiguous s t (prepare_queue pub) (state_next_location pub) (transaction_next_location pub) →
  enqueue_all pub us = Ret pub' →
  contiguous s t (prepare_queue pub') (state_next_location pub') (transaction_next_location pub') ∧
  ∃ q, prepare_queue pub' = prepare_queue pub ++ q ∧ q `sublist_of` us.*2.
Proof.
  revert pub. induction us as [|[o u] us IH]; intros pub Hc; cbn [enqueue_all].
  { intros [= <-]. split; [done|]. exists []. by rewrite app_nil_r. }
  intros ([r p1] & He & Hk)%bind_Ret. cbn [snd] in Hk.
  unfold enqueue_queued_finalized in He. apply bind_Ret in He as (te & Hte & He).
  assert (p1 = pub → contiguous s t (prepare_queue pub') (state_next_location pub')
      (transaction_next_location pub') ∧
    ∃ q, prepare_queue pub' = prepare_queue pub ++ q ∧ q `sublist_of` ((o, u) :: us).*2) as Hsame.
  { intros ->. destruct (IH pub Hc Hk) as (? & q & ? & ?). split; [done|]. exists q. split; [done|].
    by constructor. }
  destruct (_ && _); [injection He as _ <-; by apply Hsame|].
  destruct (Z.eqb_spec (state_next_location pub) (q_state_start u)) as [Hs|];
    cbn [negb] in He; [|injection He as _ <-; by apply Hsame].
  destruct (Z.eqb_spec (transaction_next_location pub) (q_transaction_start u)) as [Ht|];
    cbn [negb] in He; [|injection He as _ <-; by apply Hsame].
  destruct o; cbn [negb] in He; [|injection He as _ <-; by apply Hsame].
  injection He as _ <-.
  destruct (IH (mkPublisher (state_end u) te (prepare_queue pub ++ [u]))) as (? & q & Hq & Hsub).
  - cbn. by eapply contiguous_snoc.
  - done.
  - split; [done|]. exists (u :: q). cbn in *. rewrite Hq, <- app_assoc. split; [done|]. by constructor.
Qed.

(** A chain offered in order is taken in full. *)
Lemma enqueue_chain s t us s' t' q :
  contiguous s t us s' t' →
  enqueue_all (mkPublisher s t q) ((λ u, (true, u)) <$> us) = Ret (mkPublisher s' t' (q ++ us)).
Proof.
  intros Hc. revert q. induction Hc as [s t|u us t1 s' t' Hu _ IH]; intros q; cbn.
  { by rewrite app_nil_r. }
  apply transaction_end_gt in Hu as Hgt. unfold enqueue_queued_finalized. rewrite Hu.
  cbn [mbind run_bind state_next_location transaction_next_location prepare_queue].
  rewrite (proj2 (Z.leb_gt t1 _)) by lia. rewrite andb_false_r, !Z.eqb_refl. cbn. rewrite IH.
  by rewrite <- app_assoc.
Qed.

(** Uploads already covered are no-ops. *)
Lemma enqueue_covered pub us :
  (∀ u, u ∈ us → state_end u ≤ state_next_location pub ∧
     ∃ e, transaction_end u = Ret e ∧ e ≤ transaction_next_location pub) →
  enqueue_all pub ((λ u, (true, u)) <$> us) = Ret pub.
Proof.
  induction us as [|u us IH]; intros Hin; cbn; [done|].
  destruct (Hin u) as (Hs & e & He & Hle); [left|]. unfold enqueue_queued_finalized. rewrite He.
  cbn [mbind run_bind]. rewrite (proj2 (Z.leb_le _ _) Hs), (proj2 (Z.leb_le _ _) Hle). cbn.
  apply IH. intros u' Hu. apply Hin. by right.
Qed.

End cursors.

(** ** Properties *)

Section properties.
Context `{LazyKey} `{Json} `{ConsensusLib} `{!StateDb} `{!HistoryDb}.

(** C27. The index mirrors the chain: for a block that [verify_child] accepted
    on a parent whose history ends at the uploader's cursor, the queued upload
    expands without panic or error.  Its history operations are the
    genesis commit if the cursor is at zero, one append per executed transfer
    in the order in which the application appended them, and the commit with
    the floor of the header, so they end where the committed history ends;
    and its SQL rows are the block's row and, for the i-th transfer, a
    transaction row at the location of its i-th append and one activity row
    per distinct party with the executed amounts. *)
Theorem indexed_block_mirrors_chain app clock_max alive sf rng blk parent sb tb m w micros s_start delta :
  let h := height (header (inner blk)) in
  let c := transactions_range (header (inner blk)) in
  let txs := body (inner blk) in
  zlen txs < 2 ^ 32 → Forall lst_wf txs →
  verify_child app clock_max alive sf rng blk parent (sb, tb) = Ret (Some m) →
  cursor_at w h (tb_size tb) → 0 ≤ w →
  ∃ ts, body_transfers txs = Some ts ∧
    tb_merkleize (with_inactivity_floor (apply_transaction_digests tb (transfer_digests ts)) (range_start c))
      = Ok m.2 ∧
    transaction_upload_end w blk = Ret (Ok (range_end c)) ∧
    zlen (block_operations w ts (range_start c)) = range_end c - w ∧
    expand_queued_finalized_upload (mkQueued blk micros s_start w delta) =
      Ret (Ok (mkPrepared
        (mkRows (block_row blk (zlen ts) micros ::
                 concat (imap (transfer_rows h (tb_size tb)) (zip txs ts)))
           (transfer_digests ts))
        delta (account_rows delta s_start) (block_operations w ts (range_start c)))).
Proof.
  intros h c txs Hn Hwf Hv Hc Hw.
  apply verify_child_Some in Hv as (_ & _ & ts & cs & e & Ht & _ & Hf & Hm & ->);
    [|unfold u64_max; pose proof (zlen_nonneg txs); subst txs; lia].
  apply finalize_child_Ret in Hf as (floor & [_ _ Htx _ [Ht1 Ht2] Hle Hmax] & _).
  apply commitments_match_true in Hm as (_ & _ & _ & Hr4). rewrite Hr4 in Ht1, Ht2. fold c in Ht1, Ht2.
  cbn [executed fst snd] in *. rewrite (proj1 (apply_digests_size _ _)) in Ht2, Hmax, Hle.
  apply body_transfers_length in Ht as Hl.
  assert (zlen (transfer_digests ts) = zlen txs) as Hzd
    by (unfold transfer_digests, zlen; rewrite length_fmap; subst txs; lia).
  assert (zlen ts = zlen txs) as Hz by (unfold zlen; subst txs; lia).
  assert (0 ≤ tb_size tb) as Hs by (unfold cursor_at in Hc; lia).
  rewrite Hzd in *. exists ts. split_and!; [done|by rewrite Ht1| | |].
  - apply (upload_end_spec blk w (tb_size tb)); fold h c txs; [done|done|lia|lia].
  - rewrite (block_operations_length w h (tb_size tb)) by done. lia.
  - unfold expand_queued_finalized_upload. cbn [q_block q_finalized_ts_micros q_transaction_start].
    rewrite (block_rows_spec blk ts (tb_size tb)); [|done|done|done|done|fold c txs; lia|fold txs; lia].
    cbn [mbind run_bind transaction_digests].
    rewrite (upload_ops_spec blk w (tb_size tb) ts); [done|done|done|fold c; lia].
Qed.

(** Upload cursors leave no hole: whatever sequence of uploads is offered,
    replayed, reordered or refused because the preparer has stopped, the
    queued ones are a subsequence of it whose ranges follow each other exactly
    on both logs, from the recovered cursors to the current ones; a chain of
    uploads offered in order is queued in full, and offering again everything
    that was queued changes nothing. *)
Theorem publisher_no_gaps s t us pub :
  enqueue_all (mkPublisher s t []) us = Ret pub → Forall upload_forward us.*2 →
  contiguous s t (prepare_queue pub) (state_next_location pub) (transaction_next_location pub) ∧
  prepare_queue pub `sublist_of` us.*2 ∧
  enqueue_all (mkPublisher s t []) ((λ u, (true, u)) <$> prepare_queue pub) = Ret pub ∧
  enqueue_all pub ((λ u, (true, u)) <$> prepare_queue pub) = Ret pub.
Proof.
  intros He Hf. destruct (enqueue_all_chain s t (mkPublisher s t []) us pub) as (Hc & q & Hq & Hsub);
    [constructor|done|]. cbn in Hq. subst q.
  assert (Forall upload_forward (prepare_queue pub)) as Hfq.
  { rewrite Forall_forall in *. intros u Hu. apply Hf. by eapply elem_of_sublist. }
  split_and!; [done|done| |].
  - rewrite (enqueue_chain _ _ _ _ _ [] Hc). by destruct pub.
  - apply enqueue_covered. intros u Hu. by apply (contiguous_bounds _ _ _ _ _ Hc Hfq).
Qed.

End properties.

(** ** Witnesses *)

Lemma sample_child_cursor : cursor_at 0 (height (header (inner sample_child))) (tb_size sample_tb).
Proof. right. split_and!; [done|apply Z.leb_le; vm_compute; reflexivity|vm_compute; reflexivity]. Qed.

Lemma indexed_block_mirrors_chain_witness :
  ∃ m ts, sample_verify = Ret (Some m) ∧ body_transfers (body (inner sample_child)) = Some ts ∧
    zlen (block_operations 0 ts (range_start (transactions_range (header (inner sample_child))))) = 4.
Proof.
  destruct sample_verify_accepts as [m Hv].
  assert (zlen (body (inner sample_child)) < 2 ^ 32) as Hn by (apply Z.ltb_lt; vm_compute; reflexivity).
  destruct (indexed_block_mirrors_chain sample_app (2 ^ 63) true false 1 sample_child sample_parent
    sample_sb sample_tb m 0 17 0 [] Hn sample_child_body_wf Hv sample_child_cursor ltac:(done))
    as (ts & Hts & _ & _ & Hl & _).
  exists m, ts. split; [exact Hv|]. split; [exact Hts|]. rewrite Hl. vm_compute. reflexivity.
Defined.

(** Two uploads that follow each other from the genesis cursors. *)
Definition sample_upload (h s_start s_end t_start : Z) : QueuedFinalizedUpload :=
  mkQueued (seal_block (mkBlock
      (mkHeader sample_ctx EMPTY h (1000 + h) EMPTY
         (default unit_range (range_of 0 s_end)) EMPTY
         (default unit_range (range_of 0 (if t_start =? 0 then 2 else t_start + 1)))) []))
    0 s_start t_start [].
Definition sample_uploads : list (bool * QueuedFinalizedUpload) :=
  [(true, sample_upload 2 5 9 2); (true, sample_upload 1 0 5 0); (false, sample_upload 2 5 9 2);
   (true, sample_upload 1 0 5 0); (true, sample_upload 2 5 9 2)].
Definition sample_publisher : Publisher :=
  match enqueue_all (mkPublisher 0 0 []) sample_uploads with Ret p => p | Panic _ => mkPublisher 0 0 [] end.

Lemma publisher_no_gaps_witness :
  (state_next_location sample_publisher, transaction_next_location sample_publisher,
   length (prepare_queue sample_publisher)) = (9, 3, 2%nat) ∧
  contiguous 0 0 (prepare_queue sample_publisher) (state_next_location sample_publisher)
    (transaction_next_location sample_publisher).
Proof.
  split; [vm_compute; reflexivity|].
  apply (publisher_no_gaps 0 0 sample_uploads sample_publisher).
  - unfold sample_publisher. destruct (is_ret_inv (enqueue_all (mkPublisher 0 0 []) sample_uploads))
      as [p Hp]; [vm_compute; reflexivity|]. by rewrite Hp.
  - repeat constructor; apply Z.leb_le; vm_compute; reflexivity.
Defined.
