(* ===== verification/Certificate.v ===== *)
(** * Certificate pairing (crates/indexer/src/publisher/certificate.rs)

    The certificate reporter stores every finalized block by digest and pairs
    it with the notarization and the finalization of its commitment, in
    whatever order the three arrive.  [uploader_step] is one round of its loop;
    a committed store batch is an effect, since the code retries each batch
    until the store takes it. *)

From stdpp Require Import prelude gmap list strings.
From S2P Require Import Prelude Interfaces Concrete Auth Transaction Block.

(** Simplex certificates, the block digest a marshal commitment embeds, and
    the constructors of [exoware_simplex], which accept a certified header
    whose digest is the payload of the certificate. *)
Class CertificateLib `{LazyKey} `{ConsensusLib} := {
  commitment_eq_dec :: EqDecision commitment;
  commitment_codec :: VarCodec commitment;
  commitment_block : commitment → digest;
  Notarization : Type;
  n_payload : Notarization → commitment;
  Finalization : Type;
  f_payload : Finalization → commitment;
  notarized_new : Notarization → commitment → bool;
  finalized_new : Finalization → commitment → bool;
  notarized_new_ok n : notarized_new n (n_payload n) = true;
  finalized_new_ok f : finalized_new f (f_payload f) = true
}.

(** ** Definitions *)

Section certificate.
Context `{CertificateLib}.

(** [struct CertifiedHeader], whose digest is its commitment. *)
Record CertifiedHeader := mkCertified { ch_commitment : commitment; ch_header : Sealed Header }.

Definition certified_new (c : commitment) (blk : SealedBlock) : CertifiedHeader :=
  mkCertified c (mkSealed (header (inner blk)) (seal blk)).

Definition write_certified (h : CertifiedHeader) : bytes :=
  vwrite (ch_commitment h) ++ write_header (inner (ch_header h)).

Definition read_certified : reader CertifiedHeader := fun buf =>
  '(c, buf) ← vread buf;
  '(h, buf) ← read_header buf;
  if decide (commitment_block c = seal (seal_header h)) then Ok (mkCertified c (seal_header h), buf)
  else Err (Invalid "CertifiedHeader" "commitment block digest does not match header").

(** [enum SimplexInput] and [struct PendingBlockCertificates]. *)
Inductive SimplexInput : Type :=
| InBlock (b : SealedBlock)
| InNotarization (n : Notarization)
| InFinalization (f : Finalization).
Record PendingBlockCertificates := mkPending {
  pc_block : option SealedBlock;
  pc_notarization : option Notarization;
  pc_finalization : option Finalization
}.
Definition pending_default : PendingBlockCertificates := mkPending None None None.

(** [block_digest_key]. *)
Definition commitment_key (c : commitment) : bytes := fwrite (commitment_block c).
Definition input_key (i : SimplexInput) : bytes :=
  match i with
  | InBlock b => fwrite (seal b)
  | InNotarization n => commitment_key (n_payload n)
  | InFinalization f => commitment_key (f_payload f)
  end.

(** [simplex_block.rs]: a stored block is its sealed header and its body. *)
Definition encode_simplex_block_parts (blk : SealedBlock) : run (Sealed Header * bytes) :=
  items ← mapM write_lst (body (inner blk));
  Ret (mkSealed (header (inner blk)) (seal blk), write_vec (λ i, i) items).
Definition decode_simplex_block_parts (hdr : Sealed Header) (bdy : bytes) (cfg : BlockCfg)
    : result CodecError SealedBlock :=
  txs ← decode (read_vec read_lst (cfg_lo cfg) (cfg_hi cfg)) bdy;
  Ok (mkSealed (mkBlock (inner hdr) txs) (seal hdr)).

(** Store batches. *)
Inductive StoreEffect : Type :=
| UploadBlock (b : SealedBlock)
| UploadCertificates (n : option (Notarization * CertifiedHeader))
    (f : option (Finalization * CertifiedHeader)).

(** [prepare_ready_upload]: whether a finalization was uploaded, the entry
    with its certificates taken, and the batch. *)
Definition prepare_ready_upload (e : PendingBlockCertificates)
    : run (bool * PendingBlockCertificates * list StoreEffect) :=
  match pc_block e with
  | None => Ret (false, e, [])
  | Some b =>
      n ← match pc_notarization e with
          | None => Ret None
          | Some n =>
              let certified := certified_new (n_payload n) b in
              if notarized_new n (ch_commitment certified) then Ret (Some (n, certified))
              else Panic "notarization matches certified header"
          end;
      f ← match pc_finalization e with
          | None => Ret None
          | Some f =>
              let certified := certified_new (f_payload f) b in
              if finalized_new f (ch_commitment certified) then Ret (Some (f, certified))
              else Panic "finalization matches certified header"
          end;
      let e' := mkPending (pc_block e) None None in
      match n, f with
      | None, None => Ret (false, e', [])
      | _, _ => Ret (bool_decide (is_Some f), e', [UploadCertificates n f])
      end
  end.

(** [upload_block_by_digest] encodes the parts of the block. *)
Definition upload_block_by_digest (b : SealedBlock) : run (list StoreEffect) :=
  _ ← encode_simplex_block_parts b;
  Ret [UploadBlock b].

(** One round of [run_uploader]. *)
Definition uploader_step (pending : gmap bytes PendingBlockCertificates) (i : SimplexInput)
    : run (gmap bytes PendingBlockCertificates * list StoreEffect) :=
  let key := input_key i in
  let e := default pending_default (pending !! key) in
  '(e, es) ←
    match i with
    | InBlock b =>
        es ← upload_block_by_digest b;
        Ret (mkPending (Some b) (pc_notarization e) (pc_finalization e), es)
    | InNotarization n => Ret (mkPending (pc_block e) (Some n) (pc_finalization e), [])
    | InFinalization f => Ret (mkPending (pc_block e) (pc_notarization e) (Some f), [])
    end;
  '(ready, e, es') ← prepare_ready_upload e;
  Ret (if ready : bool then delete key pending else <[key:=e]> pending, es ++ es').

Fixpoint run_uploader (pending : gmap bytes PendingBlockCertificates) (ins : list SimplexInput)
    : run (gmap bytes PendingBlockCertificates * list StoreEffect) :=
  match ins with
  | [] => Ret (pending, [])
  | i :: ins' =>
      '(p1, es) ← uploader_step pending i;
      '(p2, es') ← run_uploader p1 ins';
      Ret (p2, es ++ es')
  end.

End certificate.

(** ** Lemmas *)

Section lemmas.
Context `{CertificateLib}.

Lemma read_write_certified h rest :
  header_wf (inner (ch_header h)) → ch_header h = seal_header (inner (ch_header h)) →
  commitment_block (ch_commitment h) = seal (ch_header h) → vvalid (ch_commitment h) →
  read_certified (write_certified h ++ rest) = Ok (h, rest).
Proof.
  intros Hwf Hs Hc Hv. unfold read_certified, write_certified. rewrite <- app_assoc.
  rewrite vread_vwrite by done. cbn [mbind result_bind]. rewrite read_write_header by done.
  cbn [mbind result_bind]. rewrite <- Hs, decide_True by done. by destruct h.
Qed.

(** A block split for the store is put together again. *)
Lemma simplex_block_parts_roundtrip cfg (blk : SealedBlock) :
  Forall lst_wf (body (inner blk)) →
  cfg_lo cfg ≤ zlen (body (inner blk)) ≤ cfg_hi cfg → zlen (body (inner blk)) < 2 ^ 32 →
  ∃ hdr bdy blk', encode_simplex_block_parts blk = Ret (hdr, bdy) ∧
    decode_simplex_block_parts hdr bdy cfg = Ok blk' ∧
    header (inner blk') = header (inner blk) ∧ seal blk' = seal blk ∧
    Forall2 lst_same (body (inner blk)) (body (inner blk')).
Proof.
  intros Hb Hc Hn. unfold encode_simplex_block_parts.
  destruct (write_body_items _ Hb) as [-> _]. cbn [mbind run_bind]. rewrite write_vec_items.
  destruct (read_write_body cfg _ [] Hb Hc Hn) as (txs & Hr & Hs). rewrite app_nil_r in Hr.
  do 3 eexists. split; [done|]. unfold decode_simplex_block_parts.
  apply decode_exact in Hr as ->. by cbn.
Qed.

Lemma fwrite_digest_inj (a b : digest) : fwrite a = fwrite b → a = b.
Proof.
  intros Heq. pose proof (fread_fwrite a [] (digest_valid a)) as Ha.
  rewrite Heq, fread_fwrite in Ha by apply digest_valid. congruence.
Qed.

(** The batch a ready entry uploads. *)
Definition ready_effects (b : SealedBlock) (n : option Notarization) (f : option Finalization)
    : list StoreEffect :=
  let cn := (λ x, (x, certified_new (n_payload x) b)) <$> n in
  let cf := (λ x, (x, certified_new (f_payload x) b)) <$> f in
  match n, f with None, None => [] | _, _ => [UploadCertificates cn cf] end.

Lemma prepare_ready_upload_spec e :
  prepare_ready_upload e = Ret
    match pc_block e with
    | None => (false, e, [])
    | Some b => (bool_decide (is_Some (pc_finalization e)), mkPending (Some b) None None,
                 ready_effects b (pc_notarization e) (pc_finalization e))
    end.
Proof.
  unfold prepare_ready_upload, ready_effects. destruct e as [[b|] [n|] [f|]]; cbn; try done;
    rewrite ?notarized_new_ok; cbn; rewrite ?finalized_new_ok; done.
Qed.

Definition blocks_of (es : list StoreEffect) : list SealedBlock :=
  omap (λ e, match e with UploadBlock b => Some b | _ => None end) es.
Definition uploaded (es : list StoreEffect) : list Finalization :=
  omap (λ e, match e with UploadCertificates _ (Some (f, _)) => Some f | _ => None end) es.
Definition finalizations (ins : list SimplexInput) : list Finalization :=
  omap (λ i, match i with InFinalization f => Some f | _ => None end) ins.

(** The certificates of a batch were received and belong to an uploaded block. *)
Definition certs_ok (ins : list SimplexInput) (blocks : list SealedBlock)
    (n : option (Notarization * CertifiedHeader)) (f : option (Finalization * CertifiedHeader)) : Prop :=
  (∀ x c, n = Some (x, c) → InNotarization x ∈ ins ∧
     ∃ b, b ∈ blocks ∧ c = certified_new (n_payload x) b ∧ commitment_block (n_payload x) = seal b) ∧
  (∀ x c, f = Some (x, c) → InFinalization x ∈ ins ∧
     ∃ b, b ∈ blocks ∧ c = certified_new (f_payload x) b ∧ commitment_block (f_payload x) = seal b).

(** Every batch of certificates comes after the block it certifies. *)
Fixpoint effects_ok (ins : list SimplexInput) (blocks : list SealedBlock) (es : list StoreEffect) : Prop :=
  match es with
  | [] => True
  | UploadBlock b :: es' => effects_ok ins (blocks ++ [b]) es'
  | UploadCertificates n f :: es' => certs_ok ins blocks n f ∧ effects_ok ins blocks es'
  end.

Lemma effects_ok_app ins B es es' :
  effects_ok ins B (es ++ es') ↔ effects_ok ins B es ∧ effects_ok ins (B ++ blocks_of es) es'.
Proof.
  revert B. induction es as [|[b|n f] es IH]; intros B; cbn.
  - rewrite app_nil_r. naive_solver.
  - rewrite IH, <- app_assoc. done.
  - rewrite IH. naive_solver.
Qed.

Lemma certs_ok_mono ins ins' B n f : ins ⊆ ins' → certs_ok ins B n f → certs_ok ins' B n f.
Proof.
  intros Hsub [Hn Hf]. split; intros x c Hx; [destruct (Hn x c Hx)|destruct (Hf x c Hx)]; split; auto.
Qed.

Lemma effects_ok_mono ins ins' B es : ins ⊆ ins' → effects_ok ins B es → effects_ok ins' B es.
Proof.
  intros Hsub. revert B. induction es as [|[b|n f] es IH]; intros B; cbn; [done|apply IH|].
  intros [? ?]. split; [by eapply certs_ok_mono|by apply IH].
Qed.

(** An entry of the table: its key, and that a stored block has no
    certificate left to upload. *)
Record entry_ok (ins : list SimplexInput) (es : list StoreEffect) (k : bytes)
    (e : PendingBlockCertificates) : Prop := {
  eo_block b : pc_block e = Some b → b ∈ blocks_of es ∧ fwrite (seal b) = k ∧
                 pc_notarization e = None ∧ pc_finalization e = None;
  eo_notarization n : pc_notarization e = Some n → InNotarization n ∈ ins ∧ commitment_key (n_payload n) = k;
  eo_finalization f : pc_finalization e = Some f → InFinalization f ∈ ins ∧
                        commitment_key (f_payload f) = k ∧ f ∉ uploaded es
}.

Record uploader_inv (ins : list SimplexInput) (es : list StoreEffect)
    (p : gmap bytes PendingBlockCertificates) : Prop := {
  ui_entry k e : p !! k = Some e → entry_ok ins es k e;
  ui_effects : effects_ok ins [] es;
  ui_once : NoDup (uploaded es);
  ui_received f : f ∈ uploaded es → f ∈ finalizations ins;
  ui_kept f : f ∈ finalizations ins →
    f ∈ uploaded es ∨ ∃ e, p !! commitment_key (f_payload f) = Some e ∧ pc_finalization e = Some f
}.

Lemma elem_of_finalizations f ins : f ∈ finalizations ins ↔ InFinalization f ∈ ins.
Proof.
  unfold finalizations. rewrite list_elem_of_omap. split.
  - intros ([b|n|f'] & Hin & Heq); simplify_eq. done.
  - intros Hin. by exists (InFinalization f).
Qed.

End lemmas.

(** ** The uploader keeps its invariant *)

Section uploader.
Context `{CertificateLib}.

Definition receive (e : PendingBlockCertificates) (i : SimplexInput)
    : PendingBlockCertificates * list StoreEffect :=
  match i with
  | InBlock b => (mkPending (Some b) (pc_notarization e) (pc_finalization e), [UploadBlock b])
  | InNotarization n => (mkPending (pc_block e) (Some n) (pc_finalization e), [])
  | InFinalization f => (mkPending (pc_block e) (pc_notarization e) (Some f), [])
  end.

(** The transactions of a block that is published can be encoded. *)
Definition input_wf (i : SimplexInput) : Prop :=
  match i with InBlock b => Forall lst_wf (body (inner b)) | _ => True end.

Lemma upload_block_by_digest_ok b : input_wf (InBlock b) → upload_block_by_digest b = Ret [UploadBlock b].
Proof.
  intros Hb. unfold upload_block_by_digest, encode_simplex_block_parts.
  by destruct (write_body_items _ Hb) as [-> _].
Qed.

Lemma uploader_step_spec p i : input_wf i →
  uploader_step p i =
    let k := input_key i in
    let '(e, es) := receive (default pending_default (p !! k)) i in
    Ret match pc_block e with
        | None => (<[k:=e]> p, es)
        | Some b =>
            (if decide (is_Some (pc_finalization e)) then delete k p
             else <[k:=mkPending (Some b) None None]> p,
             es ++ ready_effects b (pc_notarization e) (pc_finalization e))
        end.
Proof.
  intros Hwf. unfold uploader_step, receive. cbv zeta. set (e0 := default _ _).
  destruct i; rewrite ?upload_block_by_digest_ok by done; cbn [mbind run_bind];
    rewrite prepare_ready_upload_spec; cbn [mbind run_bind];
    destruct e0 as [[b0|] n0 [f0|]]; cbn [pc_block pc_notarization pc_finalization];
    rewrite ?app_nil_r; done.
Qed.

Lemma uploaded_app es es' : uploaded (es ++ es') = uploaded es ++ uploaded es'.
Proof. apply omap_app. Qed.
Lemma blocks_of_app es es' : blocks_of (es ++ es') = blocks_of es ++ blocks_of es'.
Proof. apply omap_app. Qed.
Lemma finalizations_app ins ins' : finalizations (ins ++ ins') = finalizations ins ++ finalizations ins'.
Proof. apply omap_app. Qed.

Lemma uploaded_receive e i : uploaded (receive e i).2 = [].
Proof. by destruct i. Qed.
Lemma uploaded_ready b n f : uploaded (ready_effects b n f) = option_list f.
Proof. by destruct n, f. Qed.
Lemma blocks_ready b n f : blocks_of (ready_effects b n f) = [].
Proof. by destruct n, f. Qed.

(** Keys of the finalizations received. *)
Abbreviation final_keys ins := (commitment_key ∘ f_payload <$> finalizations ins).

(** The entry after receiving an input. *)
Record received_ok (ins : list SimplexInput) (es : list StoreEffect) (i : SimplexInput)
    (e : PendingBlockCertificates) (new : list StoreEffect) : Prop := {
  ro_block b : pc_block e = Some b → b ∈ blocks_of (es ++ new) ∧ fwrite (seal b) = input_key i;
  ro_notarization n : pc_notarization e = Some n →
    InNotarization n ∈ ins ++ [i] ∧ commitment_key (n_payload n) = input_key i;
  ro_finalization f : pc_finalization e = Some f →
    InFinalization f ∈ ins ++ [i] ∧ commitment_key (f_payload f) = input_key i ∧ f ∉ uploaded es
}.

Lemma receive_ok ins es p i :
  uploader_inv ins es p → NoDup (final_keys (ins ++ [i])) →
  let '(e, new) := receive (default pending_default (p !! input_key i)) i in
  received_ok ins es i e new.
Proof.
  intros Hinv Hnd. set (e0 := default _ _).
  assert (entry_ok ins es (input_key i) e0) as [Hb Hn Hf].
  { subst e0. destruct (p !! input_key i) as [e|] eqn:E; cbn; [by eapply ui_entry|by split]. }
  assert (∀ x, x ∈ ins → x ∈ ins ++ [i]) as Hin by (intros; apply elem_of_app; by left).
  assert (i ∈ ins ++ [i]) as Hi by (apply elem_of_app; right; left).
  destruct i as [b|n|f]; cbn [receive]; split; cbn [pc_block pc_notarization pc_finalization];
    try (intros x Hx; rewrite ?app_nil_r; first [destruct (Hb x Hx) | destruct (Hn x Hx) | destruct (Hf x Hx)];
         naive_solver).
  - intros b' [= <-]. rewrite blocks_of_app. split; [|done]. apply elem_of_app. right. left.
  - intros n' [= <-]. done.
  - intros f' [= <-]. split_and!; [done..|]. intros Hu. apply (ui_received _ _ _ Hinv) in Hu.
    rewrite finalizations_app, fmap_app, NoDup_app in Hnd. destruct Hnd as (_ & Hnd & _).
    apply (Hnd (commitment_key (f_payload f))); [|left].
    apply list_elem_of_fmap. by exists f.
Qed.

Lemma finalizations_snoc f ins i :
  f ∈ finalizations (ins ++ [i]) → f ∈ finalizations ins ∨ i = InFinalization f.
Proof. rewrite !elem_of_finalizations, elem_of_app, list_elem_of_singleton. naive_solver. Qed.

(** A finalization not uploaded before is in the entry of its key afterwards. *)
Lemma receive_keeps ins es p i f :
  uploader_inv ins es p → NoDup (final_keys (ins ++ [i])) →
  f ∈ finalizations (ins ++ [i]) → f ∉ uploaded es → commitment_key (f_payload f) = input_key i →
  pc_finalization (receive (default pending_default (p !! input_key i)) i).1 = Some f.
Proof.
  intros Hinv Hnd Hf Hu Hk. apply finalizations_snoc in Hf as [Hf| ->]; [|done].
  destruct (ui_kept _ _ _ Hinv f Hf) as [?|(e & He & Hfe)]; [done|]. rewrite Hk in He. rewrite He. cbn.
  destruct i as [b|n|f']; cbn; [done..|]. exfalso. cbn in Hk.
  rewrite finalizations_app, fmap_app, NoDup_app in Hnd. destruct Hnd as (_ & Hnd & _).
  apply (Hnd (commitment_key (f_payload f))).
  - apply list_elem_of_fmap. by exists f.
  - cbn. rewrite Hk. left.
Qed.

Lemma entry_ok_mono ins ins' es es' k e :
  ins ⊆ ins' → blocks_of es ⊆ blocks_of es' →
  (∀ f, pc_finalization e = Some f → f ∉ uploaded es → f ∉ uploaded es') →
  entry_ok ins es k e → entry_ok ins' es' k e.
Proof.
  intros Hi Hb Hu [He Hn Hf]. split.
  - intros b Hx. destruct (He b Hx) as (? & ? & ? & ?). auto.
  - intros n Hx. destruct (Hn n Hx). auto.
  - intros f Hx. destruct (Hf f Hx) as (? & ? & ?). auto.
Qed.

End uploader.

Section steps.
Context `{CertificateLib}.

Abbreviation final_keys ins := (commitment_key ∘ f_payload <$> finalizations ins).

Lemma kept_cases ins es p i f :
  uploader_inv ins es p → NoDup (final_keys (ins ++ [i])) → f ∈ finalizations (ins ++ [i]) →
  f ∈ uploaded es ∨
  (commitment_key (f_payload f) = input_key i ∧
   pc_finalization (receive (default pending_default (p !! input_key i)) i).1 = Some f) ∨
  (commitment_key (f_payload f) ≠ input_key i ∧
   ∃ e, p !! commitment_key (f_payload f) = Some e ∧ pc_finalization e = Some f).
Proof.
  intros Hinv Hnd Hf. pose proof Hf as [Hold| ->]%finalizations_snoc; [|right; left; by split].
  destruct (ui_kept _ _ _ Hinv f Hold) as [?|(e & He & Hfe)]; [by left|right].
  destruct (decide (commitment_key (f_payload f) = input_key i)) as [Hk|Hk]; [left|right; eauto].
  destruct (eo_finalization _ _ _ _ (ui_entry _ _ _ Hinv _ _ He) f Hfe) as (_ & _ & Hnu).
  split; [done|]. by apply (receive_keeps ins es p i f).
Qed.

Lemma receive_effects ins B e i : effects_ok ins B (receive e i).2.
Proof. by destruct i. Qed.

Lemma ready_effects_ok ins es i e new b :
  received_ok ins es i e new → pc_block e = Some b →
  effects_ok (ins ++ [i]) (blocks_of (es ++ new)) (ready_effects b (pc_notarization e) (pc_finalization e)).
Proof.
  intros [Hb Hn Hf] Hbe. destruct (Hb b Hbe) as [Hin Hk].
  enough (certs_ok (ins ++ [i]) (blocks_of (es ++ new))
    ((λ x, (x, certified_new (n_payload x) b)) <$> pc_notarization e)
    ((λ x, (x, certified_new (f_payload x) b)) <$> pc_finalization e)) as Hc.
  { unfold ready_effects. by destruct (pc_notarization e), (pc_finalization e). }
  split.
  - intros x c Hx. destruct (pc_notarization e) as [n|]; [|done]. cbn in Hx. injection Hx as <- <-.
    destruct (Hn n) as [? Hkn]; [done|]. split; [done|]. exists b. split_and!; [done..|].
    apply fwrite_digest_inj. rewrite Hk. done.
  - intros x c Hx. destruct (pc_finalization e) as [f|]; [|done]. cbn in Hx. injection Hx as <- <-.
    destruct (Hf f) as (? & Hkf & _); [done|]. split; [done|]. exists b. split_and!; [done..|].
    apply fwrite_digest_inj. rewrite Hk. done.
Qed.

(** Entries under other keys survive a step that uploads the finalization of
    this key, if any. *)
Lemma other_entry ins es p i new k' e' :
  uploader_inv ins es p → p !! k' = Some e' → k' ≠ input_key i →
  (∀ f, f ∈ uploaded new → commitment_key (f_payload f) = input_key i) →
  entry_ok (ins ++ [i]) (es ++ new) k' e'.
Proof.
  intros Hinv He Hk Hnew. pose proof (ui_entry _ _ _ Hinv k' e' He) as Hok.
  apply (entry_ok_mono ins _ es); [| |intros f Hf|done].
  - intros x Hx. apply elem_of_app. by left.
  - intros x Hx. rewrite blocks_of_app. apply elem_of_app. by left.
  - destruct (eo_finalization _ _ _ _ Hok f Hf) as (_ & Hkf & _).
    rewrite uploaded_app, not_elem_of_app. intros ?. split; [done|]. intros Hin.
    apply Hk. rewrite <- Hkf. by apply Hnew.
Qed.

Lemma step_waiting ins es p i e new :
  uploader_inv ins es p → NoDup (final_keys (ins ++ [i])) →
  receive (default pending_default (p !! input_key i)) i = (e, new) → pc_block e = None →
  uploader_inv (ins ++ [i]) (es ++ new) (<[input_key i:=e]> p).
Proof.
  intros Hinv Hnd Hr Hb. pose proof (receive_ok ins es p i Hinv Hnd) as Hok. rewrite Hr in Hok.
  pose proof (uploaded_receive (default pending_default (p !! input_key i)) i) as Hu. rewrite Hr in Hu.
  pose proof (receive_effects (ins ++ [i]) (blocks_of es) (default pending_default (p !! input_key i)) i) as He.
  rewrite Hr in He. cbn [snd] in Hu, He. pose proof Hinv as [H1' H2' H3' H4' H5']. split.
  - intros k e' [[<- <-]|[Hk Hl]]%lookup_insert_Some.
    + destruct Hok as [_ Hn Hf]. split; [by rewrite Hb|apply Hn|].
      intros f Hfe. destruct (Hf f Hfe) as (? & ? & ?). rewrite uploaded_app, Hu, app_nil_r. done.
    + apply (other_entry ins es p i); [done|done|done|]. intros f. rewrite Hu. by intros ?%elem_of_nil.
  - apply effects_ok_app. split; [|done]. eapply effects_ok_mono; [|done].
    intros x Hx. apply elem_of_app. by left.
  - by rewrite uploaded_app, Hu, app_nil_r.
  - intros f. rewrite uploaded_app, Hu, app_nil_r, finalizations_app. intros ?%H4'. apply elem_of_app. by left.
  - intros f Hf. rewrite uploaded_app, Hu, app_nil_r.
    destruct (kept_cases ins es p i f) as [?|[[Hk Hfe]|[Hk (e' & Hl & Hfe)]]]; [done..|by left| |].
    + right. exists e. rewrite Hk, lookup_insert_eq. rewrite Hr in Hfe. done.
    + right. exists e'. rewrite lookup_insert_ne by done. done.
Qed.

Lemma step_ready ins es p i e new b :
  uploader_inv ins es p → NoDup (final_keys (ins ++ [i])) →
  receive (default pending_default (p !! input_key i)) i = (e, new) → pc_block e = Some b →
  uploader_inv (ins ++ [i]) (es ++ new ++ ready_effects b (pc_notarization e) (pc_finalization e))
    (if decide (is_Some (pc_finalization e)) then delete (input_key i) p
     else <[input_key i:=mkPending (Some b) None None]> p).
Proof.
  intros Hinv Hnd Hr Hb. pose proof (receive_ok ins es p i Hinv Hnd) as Hok. rewrite Hr in Hok.
  pose proof (uploaded_receive (default pending_default (p !! input_key i)) i) as Hu. rewrite Hr in Hu.
  pose proof (receive_effects (ins ++ [i]) (blocks_of es) (default pending_default (p !! input_key i)) i) as He.
  rewrite Hr in He. cbn [snd] in Hu, He. pose proof (ready_effects_ok _ _ _ _ _ _ Hok Hb) as Hrd.
  set (rd := ready_effects b _ _) in *.
  assert (uploaded (new ++ rd) = option_list (pc_finalization e)) as Hup.
  { unfold rd. by rewrite uploaded_app, Hu, uploaded_ready. }
  assert (∀ f, f ∈ uploaded (new ++ rd) → pc_finalization e = Some f) as Hfin.
  { intros f. rewrite Hup. destruct (pc_finalization e); cbn; [|by intros ?%elem_of_nil].
    by intros ->%list_elem_of_singleton. }
  destruct Hok as [Rb Rn Rf]. pose proof Hinv as [H1' H2' H3' H4' H5'].
  set (p' := if decide _ then _ else _).
  assert (∀ k e', p' !! k = Some e' → (k = input_key i ∧ e' = mkPending (Some b) None None) ∨
    (k ≠ input_key i ∧ p !! k = Some e')) as Hp'.
  { intros k e'. unfold p'. case_decide; rewrite ?lookup_delete_Some, ?lookup_insert_Some; naive_solver. }
  assert (∀ k, k ≠ input_key i → p' !! k = p !! k) as Hother.
  { intros k Hk. unfold p'. case_decide; [by rewrite lookup_delete_ne|by rewrite lookup_insert_ne]. }
  split.
  - intros k e' [[-> ->]|[Hk Hl]]%Hp'.
    + split; cbn; [|done|done]. intros b' [= <-]. destruct (Rb b Hb) as [Hin Hkb].
      split_and!; [|done..]. rewrite (app_assoc es), blocks_of_app. apply elem_of_app. by left.
    + apply (other_entry ins es p i); [done..|]. intros f Hf%Hfin. by destruct (Rf f Hf) as (_ & ? & _).
  - rewrite (app_assoc es). apply effects_ok_app. split; [|done].
    apply effects_ok_app. split; [|done]. eapply effects_ok_mono; [|done].
    intros x Hx. apply elem_of_app. by left.
  - rewrite uploaded_app. apply NoDup_app. split_and!; [done| |].
    + intros f Hf Hin%Hfin. by destruct (Rf f Hin) as (_ & _ & ?).
    + rewrite Hup. destruct (pc_finalization e); cbn; [apply NoDup_singleton|constructor].
  - intros f. rewrite uploaded_app, elem_of_app. intros [?%H4'|Hf%Hfin].
    + rewrite finalizations_app. apply elem_of_app. by left.
    + rewrite elem_of_finalizations. by destruct (Rf f Hf) as (? & _).
  - intros f Hf. rewrite uploaded_app, Hup, elem_of_app.
    destruct (kept_cases ins es p i f) as [?|[[Hk Hfe]|[Hk (e' & Hl & Hfe)]]]; [done..|by do 2 left| |].
    + left. right. rewrite Hr in Hfe. cbn in Hfe. rewrite Hfe. left.
    + right. exists e'. by rewrite Hother.
Qed.

Lemma uploader_step_inv ins es p i :
  input_wf i → uploader_inv ins es p → NoDup (final_keys (ins ++ [i])) →
  ∃ p' es', uploader_step p i = Ret (p', es') ∧ uploader_inv (ins ++ [i]) (es ++ es') p'.
Proof.
  intros Hwf Hinv Hnd. rewrite uploader_step_spec by done. cbv zeta.
  destruct (receive _ i) as [e new] eqn:Hr. destruct (pc_block e) as [b|] eqn:Hb.
  - eexists _, _. split; [reflexivity|]. by apply step_ready.
  - eexists _, _. split; [reflexivity|]. by apply step_waiting.
Qed.

Lemma run_uploader_inv ins done es p :
  Forall input_wf ins → uploader_inv done es p → NoDup (final_keys (done ++ ins)) →
  ∃ p' es', run_uploader p ins = Ret (p', es') ∧ uploader_inv (done ++ ins) (es ++ es') p'.
Proof.
  revert done es p. induction ins as [|i ins IH]; intros done es p Hwf Hinv Hnd; cbn.
  { exists p, []. by rewrite !app_nil_r. }
  rewrite (app_assoc done [i] ins : done ++ i :: ins = _) in Hnd. apply Forall_cons in Hwf as [Hi Hwf].
  destruct (uploader_step_inv done es p i) as (p1 & es1 & -> & Hinv1); [done|done| |].
  { rewrite finalizations_app, fmap_app, NoDup_app in Hnd. by destruct Hnd. }
  destruct (IH (done ++ [i]) (es ++ es1) p1 Hwf Hinv1 Hnd) as (p2 & es2 & Hr & Hinv2).
  cbn. rewrite Hr. exists p2, (es1 ++ es2). split; [done|]. by rewrite app_assoc, <- (app_assoc done) in *.
Qed.

Lemma uploader_inv_start : uploader_inv [] [] ∅.
Proof.
  split; [by intros k e ?%lookup_empty_Some|done|constructor|by intros f ?%elem_of_nil|by intros f ?%elem_of_nil].
Qed.

End steps.

(** ** Properties *)

Section properties.
Context `{CertificateLib}.

(** C34. Certificates are paired safely: for blocks, notarizations and
    finalizations arriving in any order, with encodable blocks and one finalization
    per block, the
    uploader never panics; every batch of certificates holds certificates it
    was sent, tagged with the header of a block stored before them whose
    digest their commitment embeds; each finalization is uploaded at most
    once; and one that has not been uploaded is kept and its block has not
    arrived since. *)
Theorem certificates_paired ins :
  Forall input_wf ins → NoDup (commitment_key ∘ f_payload <$> finalizations ins) →
  ∃ p es, run_uploader ∅ ins = Ret (p, es) ∧
    effects_ok ins [] es ∧ NoDup (uploaded es) ∧
    (∀ f, f ∈ uploaded es → InFinalization f ∈ ins) ∧
    (∀ f, InFinalization f ∈ ins → f ∈ uploaded es ∨
       ∃ e, p !! commitment_key (f_payload f) = Some e ∧ pc_finalization e = Some f ∧ pc_block e = None).
Proof.
  intros Hwf Hnd. destruct (run_uploader_inv ins [] [] ∅ Hwf uploader_inv_start Hnd) as (p & es & Hr & Hinv).
  exists p, es. cbn in Hinv. destruct Hinv as [H1' H2' H3' H4' H5']. split_and!; [done..| |].
  - intros f Hf. by apply elem_of_finalizations, H4'.
  - intros f Hf. apply elem_of_finalizations in Hf. destruct (H5' f Hf) as [?|(e & He & Hfe)]; [by left|right].
    exists e. split_and!; [done..|]. destruct (pc_block e) as [b|] eqn:Hb; [|done].
    destruct (eo_block _ _ _ _ (H1' _ _ He) b Hb) as (_ & _ & _ & ?). congruence.
Qed.

End properties.

(** A notarization that arrives after its block and finalization waits in a
    fresh entry whose block will not come again. *)
Lemma late_notarization_stranded `{CertificateLib} b f n :
  Forall lst_wf (body (inner b)) →
  commitment_block (f_payload f) = seal b → commitment_block (n_payload n) = seal b →
  run_uploader ∅ [InBlock b; InFinalization f; InNotarization n] =
    Ret ({[fwrite (seal b) := mkPending None (Some n) None]},
         [UploadBlock b; UploadCertificates None (Some (f, certified_new (f_payload f) b))]).
Proof.
  intros Hwf Hf Hn. set (k := fwrite (seal b)).
  assert (uploader_step ∅ (InBlock b) = Ret ({[k := mkPending (Some b) None None]}, [UploadBlock b])) as H1s.
  { rewrite uploader_step_spec by done. cbn [input_key]. rewrite lookup_empty. done. }
  assert (uploader_step {[k := mkPending (Some b) None None]} (InFinalization f)
          = Ret (∅, [UploadCertificates None (Some (f, certified_new (f_payload f) b))])) as H2s.
  { rewrite uploader_step_spec by done. cbn [input_key]. unfold commitment_key. rewrite Hf. fold k.
    rewrite lookup_singleton_eq. cbn. by rewrite delete_singleton_eq. }
  assert (uploader_step ∅ (InNotarization n) = Ret ({[k := mkPending None (Some n) None]}, [])) as H3s.
  { rewrite uploader_step_spec by done. cbn [input_key]. unfold commitment_key. rewrite Hn, lookup_empty. done. }
  cbn [run_uploader]. rewrite H1s. cbn [mbind run_bind]. rewrite H2s. cbn [mbind run_bind].
  by rewrite H3s.
Qed.

(** ** A concrete certificate library and witness *)

(** A commitment is the digest it embeds, and a certificate its payload. *)
#[export] Program Instance conc_certificate : CertificateLib := {|
  commitment_block c := c;
  Notarization := commitment; n_payload n := n;
  Finalization := commitment; f_payload f := f;
  notarized_new n c := bool_decide (n = c);
  finalized_new f c := bool_decide (f = c) |}.
Next Obligation. intros. by apply bool_decide_eq_true. Qed.
Next Obligation. intros. by apply bool_decide_eq_true. Qed.

Definition sample_inputs : list SimplexInput :=
  [InFinalization (seal (seal_block sample_block)); InBlock (seal_block sample_block);
   InNotarization (seal (seal_block sample_block))].

Lemma sample_block_wf : input_wf (InBlock (seal_block sample_block)).
Proof. apply (block_new_wf (sample_header 3 1000 4 2)). repeat constructor; try done; apply lazy_new_wf; done. Qed.
Lemma sample_inputs_wf : Forall input_wf sample_inputs.
Proof. unfold sample_inputs. rewrite !Forall_cons, Forall_nil. split_and!; [done|apply sample_block_wf|done|done]. Qed.

Lemma certificates_paired_witness :
  ∃ p es, run_uploader ∅ sample_inputs = Ret (p, es) ∧ effects_ok sample_inputs [] es ∧
    NoDup (uploaded es).
Proof.
  destruct (certificates_paired sample_inputs) as (p & es & Hr & He & Hu & _).
  - exact sample_inputs_wf.
  - apply NoDup_singleton.
  - exists p, es. split; [exact Hr|]. split; [exact He|exact Hu].
Defined.
