(* ===== verification/Client.v ===== *)
(** * The mempool's HTTP client (crates/mempool/src/webserver/client.rs, bin/validator/src/state_reader.rs)

    The client posts encoded batches, asks for accounts and maps the status
    codes back to values.  The theorem composes it with the handlers of
    Webserver.v: what the client returns is what the actor and the state
    database answered, and every refusal arrives as the error that names it. *)

From stdpp Require Import prelude gmap list strings.
From S2P Require Import Prelude Hex Interfaces Concrete Account Auth Transaction Block Mempool Webserver Relayer.

(** ** Definitions *)

(** [enum SubmitError]; the payloads are the libraries'. *)
Inductive SubmitError : Type :=
| BadRequest
| PayloadTooLarge
| ServiceUnavailable
| InternalServerError
| HttpError
| InvalidResponse
| Unexpected (status : Z).

(** [struct NonceView], [AccountView] and [IngestView]. *)
Record NonceView := mkNonceView { nv_base : Z; nv_bitmap : Z }.
Record AccountView := mkAccountView { av_balance : Z; av_nonce : NonceView }.
Record IngestView := mkIngestView { iv_digests : list string }.

Definition account_view (a : Account) : AccountView :=
  mkAccountView (balance a) (mkNonceView (base (nonce a)) (bitmap (nonce a))).

(** The documents the server writes and the client reads (serde_json), and
    the hexadecimal reader of the server (commonware-utils). *)
Class ClientJson := {
  status_to_json : TxStatus → bytes;
  status_from_json : bytes → option TxStatus;
  ingest_to_json : list string → bytes;
  ingest_from_json : bytes → option IngestView;
  account_to_json : Account → bytes;
  account_from_json : bytes → option AccountView;
  from_hex : string → option bytes;
  status_json_law s : status_from_json (status_to_json s) = Some s;
  ingest_json_law ds : ingest_from_json (ingest_to_json ds) = Some (mkIngestView ds);
  account_json_law a : account_from_json (account_to_json a) = Some (account_view a);
  from_hex_law b : from_hex (hex_lower b) = Some b
}.

Section client.
Context `{LazyKey} `{Json} `{ConsensusLib} `{ClientJson}.

(** [Client]: the base URL; [post] and [get] are the HTTP library. *)
Record Client := mkClient { client_url : string }.

(** The success branch of each call: the body may fail to arrive or to parse. *)
Definition read_response {A} (payload : option bytes) (parse : bytes → option A)
    : result SubmitError A :=
  match payload with
  | None => Err HttpError
  | Some b => ok_or (parse b) InvalidResponse
  end.

(** The arms the [match]es on the status share. *)
Definition submit_error (status : Z) : SubmitError :=
  if status =? 400 then BadRequest
  else if status =? 413 then PayloadTooLarge
  else if status =? 500 then InternalServerError
  else if status =? 503 then ServiceUnavailable
  else Unexpected status.

Definition client_submit (self : Client) (post : string → bytes → Response)
    (transactions : list SignedTransaction) : result SubmitError TxStatus :=
  match post (client_url self +:+ "/transactions") (write_vec write_signed transactions) with
  | NoResponse => Err HttpError
  | Responded status payload =>
      if status =? 200 then read_response payload status_from_json else Err (submit_error status)
  end.

Definition ingest_encoded (self : Client) (post : string → bytes → Response) (body : bytes)
    : result SubmitError IngestView :=
  match post (client_url self +:+ "/transactions/ingest") body with
  | NoResponse => Err HttpError
  | Responded status payload =>
      if status =? 202 then read_response payload ingest_from_json else Err (submit_error status)
  end.

Definition client_ingest (self : Client) (post : string → bytes → Response)
    (transactions : list SignedTransaction) : result SubmitError IngestView :=
  ingest_encoded self post (write_vec write_signed transactions).

(** [Display] of a public key. *)
Definition tpk_display (pk : TransactionPublicKey) : string := hex_lower (tpk_as_ref pk).

(** [Client::fetch_account] has no arm for 413. *)
Definition client_fetch_account (self : Client) (get : string → Response) (pk : TransactionPublicKey)
    : result SubmitError (option AccountView) :=
  match get (client_url self +:+ "/account/" +:+ tpk_display pk) with
  | NoResponse => Err HttpError
  | Responded status payload =>
      if status =? 200 then Some <$> read_response payload account_from_json
      else if status =? 404 then Ok None
      else if status =? 400 then Err BadRequest
      else if status =? 500 then Err InternalServerError
      else if status =? 503 then Err ServiceUnavailable
      else Err (Unexpected status)
  end.

(** [StateDbReader::get] on the attached database: [db_get] may fail. *)
Definition state_reader_get (db_get : AccountKey → option (option Account))
    (pk : TransactionPublicKey) : run (option Account) :=
  key ← from_public_key pk;
  Ret (match db_get key with Some o => o | None => None end).

(** ** The handlers as the client sees them *)

(** A handler's status code and body on the wire; [actor] is the answer on
    the batch's channel, [None] when it was closed. *)
Definition serve_submit (st : AppState) (alive : bool) (rng : Z) (capacity : nat) (open : bool)
    (queue : list Message) (w : waiter) (actor : option TxStatus) (body : bytes) : Response :=
  match submit_batch st alive rng capacity open queue w body with
  | Err s => Responded (code s) (Some [])
  | Ok _ =>
      let '(s, answer) := submit_answer actor in
      Responded (code s) (Some (match answer with Some x => status_to_json x | None => [] end))
  end.

Definition serve_ingest (st : AppState) (alive : bool) (rng : Z) (capacity : nat) (open : bool)
    (queue : list Message) (w : waiter) (actor : option bool) (body : bytes) : Response :=
  match ingest_batch st alive rng capacity open queue w body with
  | Err s => Responded (code s) (Some [])
  | Ok (_, digests) =>
      let '(s, answer) := ingest_answer digests actor in
      Responded (code s) (Some (match s with ACCEPTED => ingest_to_json answer | _ => [] end))
  end.

Definition serve_account (reader : option (TransactionPublicKey → option Account)) (key : string)
    : Response :=
  let '(s, answer) := fetch_account from_hex reader key in
  Responded (code s) (Some (match answer with Some a => account_to_json a | None => [] end)).

End client.

(** ** Lemmas *)

Section lemmas.
Context `{LazyKey} `{Json} `{ConsensusLib} `{ClientJson}.

(** The error that names a refusal. *)
Definition refusal (s : StatusCode) : SubmitError :=
  match s with
  | BAD_REQUEST => BadRequest
  | PAYLOAD_TOO_LARGE => PayloadTooLarge
  | INTERNAL_SERVER_ERROR => InternalServerError
  | SERVICE_UNAVAILABLE => ServiceUnavailable
  | OK | ACCEPTED | NOT_FOUND => Unexpected (code s)
  end.
Definition refuses (s : StatusCode) : Prop := s ≠ OK ∧ s ≠ ACCEPTED ∧ s ≠ NOT_FOUND.

Lemma verify_body_refuses st alive rng body s : verify_body st alive rng body = Err s → refuses s.
Proof.
  unfold verify_body. intros E. case_match; [by simplify_eq|]. case_match; [|by simplify_eq].
  destruct (decode _ body) as [txs|]; cbn in E; [|by simplify_eq].
  case_match; [by simplify_eq|]. destruct alive; cbn in E; [|by simplify_eq].
  destruct (verify_transaction_chunks _ _ _ _ _); cbn in E; by simplify_eq.
Qed.

Lemma submit_batch_refuses st alive rng capacity open queue w body s :
  submit_batch st alive rng capacity open queue w body = Err s → refuses s.
Proof.
  unfold submit_batch. destruct (verify_body _ _ _ _) eqn:E; cbn; [|naive_solver eauto using verify_body_refuses].
  destruct (try_submit _ _ _ _ _ _); cbn; intros; by simplify_eq.
Qed.

Lemma ingest_batch_refuses st alive rng capacity open queue w body s :
  ingest_batch st alive rng capacity open queue w body = Err s → refuses s.
Proof.
  unfold ingest_batch. destruct (verify_body _ _ _ _) eqn:E; cbn; [|naive_solver eauto using verify_body_refuses].
  destruct (try_ingest _ _ _ _ _ _); cbn; intros; by simplify_eq.
Qed.

Lemma client_submit_served st alive rng capacity open queue w actor txs self post :
  post (client_url self +:+ "/transactions") (write_vec write_signed txs)
  = serve_submit st alive rng capacity open queue w actor (write_vec write_signed txs) →
  client_submit self post txs =
    match submit_batch st alive rng capacity open queue w (write_vec write_signed txs) with
    | Err s => Err (refusal s)
    | Ok _ => ok_or actor InternalServerError
    end.
Proof.
  intros Hpost. unfold client_submit. rewrite Hpost. unfold serve_submit.
  destruct (submit_batch _ _ _ _ _ _ _ _) as [q|s] eqn:E.
  - destruct actor as [x|]; cbn; [by rewrite status_json_law|done].
  - apply submit_batch_refuses in E as (? & ? & ?). by destruct s.
Qed.

Lemma client_ingest_served st alive rng capacity open queue w actor txs self post :
  post (client_url self +:+ "/transactions/ingest") (write_vec write_signed txs)
  = serve_ingest st alive rng capacity open queue w actor (write_vec write_signed txs) →
  client_ingest self post txs =
    match ingest_batch st alive rng capacity open queue w (write_vec write_signed txs) with
    | Err s => Err (refusal s)
    | Ok (_, digests) =>
        match actor with
        | Some true => Ok (mkIngestView digests)
        | Some false => Err ServiceUnavailable
        | None => Err InternalServerError
        end
    end.
Proof.
  intros Hpost. unfold client_ingest, ingest_encoded. rewrite Hpost. unfold serve_ingest.
  destruct (ingest_batch _ _ _ _ _ _ _ _) as [[q ds]|s] eqn:E.
  - destruct actor as [[]|]; cbn; [by rewrite ingest_json_law|done..].
  - apply ingest_batch_refuses in E as (? & ? & ?). by destruct s.
Qed.

Lemma client_fetch_served reader self get pk :
  tpk_wf pk →
  get (client_url self +:+ "/account/" +:+ tpk_display pk) = serve_account reader (tpk_display pk) →
  client_fetch_account self get pk =
    match reader with None => Err ServiceUnavailable | Some read => Ok (account_view <$> read pk) end.
Proof.
  intros Hwf Hget. unfold client_fetch_account. rewrite Hget. unfold serve_account, fetch_account, tpk_display.
  rewrite from_hex_law. unfold zlen. rewrite tpk_as_ref_length, Z.eqb_refl by done. cbn [negb].
  pose proof (read_write_tpk pk [] Hwf) as Hr. unfold write_tpk in Hr. rewrite app_nil_r in Hr.
  rewrite (decode_exact _ _ _ Hr).
  destruct reader as [read|]; [|done]. destruct (read pk); cbn; [by rewrite account_json_law|done].
Qed.

Lemma state_reader_get_ok db_get pk :
  tpk_wf pk → ∃ key, from_public_key pk = Ret key ∧
    state_reader_get db_get pk = Ret (default None (db_get key)).
Proof.
  intros Hwf. destruct (from_public_key_total pk Hwf) as (key & Hk & _). exists key.
  split; [done|]. unfold state_reader_get. rewrite Hk. cbn. by destruct (db_get key).
Qed.

(** Client and validator agree.  The answer of a submission is the status
    the actor sent on the batch's channel, an ingestion returns the digests of
    the batch in order once the actor took it, a refused request becomes the
    error named after the status code; the batch a valid client sends is never
    refused by the checks, only by a full or closed mailbox.  Asking for the
    account of a key gives the balance and nonce window the state database
    holds for it, none when it has no record, and unavailability while no
    database is attached. *)
Theorem client_server_agree st rng capacity open queue w txs self post get :
  txs ≠ [] → Forall signed_wf txs → zlen txs < 2 ^ 32 →
  forallb (lst_signature_ok (namespace st)) (lst_new <$> txs) = true →
  batch_bytes txs ≤ max_batch_bytes st → max_batch_bytes st + 5 ≤ u64_max →
  let room := open && bool_decide (length queue < capacity)%nat in
  (∀ actor,
    post (client_url self +:+ "/transactions") (write_vec write_signed txs)
    = serve_submit st true rng capacity open queue w actor (write_vec write_signed txs) →
    client_submit self post txs
    = if room then ok_or actor InternalServerError else Err ServiceUnavailable) ∧
  (∀ actor,
    post (client_url self +:+ "/transactions/ingest") (write_vec write_signed txs)
    = serve_ingest st true rng capacity open queue w actor (write_vec write_signed txs) →
    client_ingest self post txs
    = if room then match actor with
        | Some true => Ok (mkIngestView (digest_to_string ∘ message_digest <$> txs))
        | Some false => Err ServiceUnavailable
        | None => Err InternalServerError
        end
      else Err ServiceUnavailable) ∧
  (∀ pk db_get,
    tpk_wf pk →
    get (client_url self +:+ "/account/" +:+ tpk_display pk)
    = serve_account (Some (λ k, match state_reader_get db_get k with
                                | Ret o => o | Panic _ => None end)) (tpk_display pk) →
    ∃ key, from_public_key pk = Ret key ∧
      client_fetch_account self get pk = Ok (account_view <$> default None (db_get key))).
Proof.
  intros Hne Hwf Hn Hsig Hmax Hcap room.
  destruct (verify_body_valid st rng txs) as (txs' & _ & Hv); [done..|].
  split_and!.
  - intros actor Hpost. rewrite (client_submit_served _ _ _ _ _ _ _ _ _ _ _ Hpost).
    unfold submit_batch, try_submit, try_send. rewrite Hv. cbn [mbind result_bind vb_digests].
    subst room. by destruct (open && _).
  - intros actor Hpost. rewrite (client_ingest_served _ _ _ _ _ _ _ _ _ _ _ Hpost).
    unfold ingest_batch, try_ingest, try_send. rewrite Hv. cbn [mbind result_bind vb_digests].
    subst room. destruct (open && _); cbn; [|done]. by rewrite <- list_fmap_compose.
  - intros pk db_get Hpk Hget. destruct (state_reader_get_ok db_get pk Hpk) as (key & Hk & Hs).
    exists key. split; [done|]. rewrite (client_fetch_served _ _ _ _ Hpk Hget). by rewrite Hs.
Qed.

End lemmas.

(** ** A concrete JSON codec *)

(** Any countable type written as the bits of its code. *)
Fixpoint pos_bytes (p : positive) : bytes :=
  match p with xH => [] | xO p => x00 :: pos_bytes p | xI p => x01 :: pos_bytes p end.
Fixpoint bytes_pos (l : bytes) : positive :=
  match l with [] => xH | b :: l => if decide (b = x00) then xO (bytes_pos l) else xI (bytes_pos l) end.

Lemma bytes_pos_bytes p : bytes_pos (pos_bytes p) = p.
Proof. induction p as [p IH|p IH|]; cbn; by rewrite ?IH. Qed.

Definition to_bits `{Countable A} (a : A) : bytes := pos_bytes (encode a).
Definition of_bits `{Countable A} (l : bytes) : option A := countable.decode (bytes_pos l).

Lemma of_to_bits `{Countable A} (a : A) : of_bits (to_bits a) = Some a.
Proof. unfold of_bits, to_bits. rewrite bytes_pos_bytes. apply decode_encode. Qed.

#[export] Instance TxStatus_eq_dec : EqDecision TxStatus.
Proof. solve_decision. Defined.
#[export] Program Instance TxStatus_countable : Countable TxStatus :=
  inj_countable
    (λ s, match s with
          | TxFinalized h => inl h
          | TxPartiallyFinalized h i f => inr (Some (h, i, f))
          | TxDropped => inr None
          end)
    (λ c, Some match c with
          | inl h => TxFinalized h
          | inr (Some (h, i, f)) => TxPartiallyFinalized h i f
          | inr None => TxDropped
          end) _.
Next Obligation. by intros []. Qed.

#[export] Program Instance conc_client_json : ClientJson := {|
  status_to_json := to_bits;
  status_from_json := of_bits;
  ingest_to_json := to_bits;
  ingest_from_json b := mkIngestView <$> of_bits b;
  account_to_json a := to_bits (balance a, base (nonce a), bitmap (nonce a));
  account_from_json b :=
    (λ t : Z * Z * Z, mkAccountView t.1.1 (mkNonceView t.1.2 t.2)) <$> of_bits b;
  from_hex s := ok (decode_hex s) |}.
Next Obligation. intros s. apply of_to_bits. Qed.
Next Obligation. intros ds. cbv beta. by rewrite of_to_bits. Qed.
Next Obligation. intros [x [y z]]. cbv beta. by rewrite of_to_bits. Qed.
Next Obligation. intros b. cbv beta. by rewrite decode_hex_lower. Qed.

(** ** Witness *)

Lemma client_server_agree_witness :
  client_submit (mkClient "http://v") (λ _ b, serve_submit sample_app_state true 1 4 true [] 0 (Some (TxFinalized 7)) b)
    sample_batch = Ok (TxFinalized 7).
Proof.
  apply (proj1 (client_server_agree sample_app_state 1 4 true [] 0 sample_batch (mkClient "http://v")
    (λ _ b, serve_submit sample_app_state true 1 4 true [] 0 (Some (TxFinalized 7)) b) (λ _, NoResponse)
    ltac:(done) sample_batch_wf ltac:(done) ltac:(vm_compute; reflexivity)
    ltac:(vm_compute; discriminate) ltac:(vm_compute; discriminate)) (Some (TxFinalized 7))).
  reflexivity.
Defined.
