(* ===== verification/Lifecycle.v ===== *)
(** * From a client's request to finality (crates/mempool, crates/application)

    One batch through the whole program: the client's request, the checks of
    the HTTP handler, the actor's pool, a proposal, the block built from it, its
    verification by the other validators, and the report of the finalized block
    that answers the client.  Each step is the definition of the component's
    file; the theorem composes them. *)

From stdpp Require Import prelude gmap list strings.
From S2P Require Import Prelude Hex Interfaces Concrete Account Auth Transaction Executor Database Block Execution Application Mempool Answers Webserver Relayer Client.

(** ** A proposal keeps a list that executes *)

Section proposal.
Context `{LazyKey}.

Lemma prepare_loop_all cands inv txs ts :
  mapM prepare_transfer txs = Some ts →
  prepare_loop cands inv txs = mkInput (cands ++ zip_with mkPrepared txs ts) inv.
Proof.
  rewrite mapM_Some. intros Hts. revert cands.
  induction Hts as [|t tr txs ts Ht _ IH]; intros cands; cbn; [by rewrite app_nil_r|].
  by rewrite Ht, IH, <- app_assoc.
Qed.

Lemma propose_loop_all ov v inv trs cands ov' :
  execute_loop ov (p_transfer <$> cands) = Some ov' →
  propose_loop ov v inv trs cands
  = mkOutput (v ++ (p_transaction <$> cands)) inv (into_changeset ov') (trs ++ (p_transfer <$> cands)).
Proof.
  revert ov v trs. induction cands as [|c cands IH]; intros ov v trs; cbn.
  { intros [= ->]. by rewrite !app_nil_r. }
  destruct (apply_transfer ov (p_transfer c)) as [[] ov1]; [|done]. intros Hl. by rewrite (IH _ _ _ Hl), <- !app_assoc.
Qed.

Lemma propose_all st txs ts cs :
  mapM prepare_transfer txs = Some ts → execute st ts = Some cs → propose st txs = mkOutput txs [] cs ts.
Proof.
  intros Hp (ov & Hov & ->)%fmap_Some. apply mapM_Some in Hp as Hl. apply Forall2_length in Hl.
  unfold propose, propose_prepared, prepare_proposal. rewrite (prepare_loop_all [] [] txs ts Hp). cbn [app in_invalid candidates].
  assert (p_transfer <$> zip_with mkPrepared txs ts = ts) as Ht by (rewrite fmap_zip_with_r; [done|done|lia]).
  assert (p_transaction <$> zip_with mkPrepared txs ts = txs) as Hx by (rewrite fmap_zip_with_l; [done|done|lia]).
  rewrite (propose_loop_all _ _ _ _ _ ov) by by rewrite Ht. by rewrite Ht, Hx.
Qed.
End proposal.

(** ** A block is built from it *)

Section block.
Context `{LazyKey} `{Json} `{ConsensusLib} `{!StateDb} `{!HistoryDb}.

Lemma finalize_child_total sb tb parent floor n why :
  sb_healthy sb → tb_healthy tb → parent_transactions_inactivity_floor parent = Ret floor →
  floor ≤ tb_size tb → tb_size tb + 1 ≤ u64_max → ∃ e, finalize_child sb tb parent n why = Ret e.
Proof.
  intros Hs Ht Hf Hle Hmax. unfold finalize_child. rewrite Hf. cbn [mbind run_bind].
  apply parent_floor_Ret in Hf as [_ Hf0].
  destruct (sb_healthy_merkleize _ Hs) as [sm Hsm].
  destruct (tb_healthy_merkleize _ (tb_healthy_floor _ floor Ht ltac:(lia))) as [tm Htm].
  rewrite (proj2 (finalize_execution_Ok _ _ _ _) (conj Hsm Htm)). cbn [expect_ok ok expect mbind run_bind].
  pose proof (sm_bounds_range _ _ Hsm) as [Hb1 Hb2].
  pose proof (tm_bounds_commit _ _ Htm) as Hb. rewrite tb_floor_floor, tb_size_floor in Hb.
  destruct (range_new_ok (sm_bounds sm).1 (sm_bounds sm).2) as [sr Hsr]; [unfold is_u64; lia..|].
  destruct (range_new_ok floor (tb_size tb + 1)) as [tr Htr]; [unfold is_u64; lia..|].
  unfold range_from_bounds, non_empty_range. rewrite Hb. cbn [fst snd]. rewrite Hsr, Htr. cbn. by eexists.
Qed.

(** A batch that executes on the parent's databases is proposed whole. *)
Lemma propose_child_all app now ctx parent sb tb txs ts cs floor :
  mapM prepare_transfer txs = Some ts → batch_execute sb ts = Some cs →
  sb_healthy sb → tb_healthy tb → parent_transactions_inactivity_floor parent = Ret floor →
  floor ≤ tb_size tb → tb_size tb + zlen ts + 1 ≤ u64_max → is_u64 now →
  ∃ app' h m, propose_child app now ctx parent (sb, tb) txs = Ret (app', (seal_block (block_new h txs), m)) ∧
    height h = wrap64 (height (header (inner parent)) + 1).
Proof.
  intros Hp He Hsh Hth Hf Hle Hmax Hnow. unfold propose_child, execute_proposal. cbn [fst snd].
  assert (p_transfer <$> candidates (prepare_proposal txs) = ts) as Hc.
  { unfold prepare_proposal. rewrite (prepare_loop_all [] [] txs ts Hp). cbn.
    rewrite fmap_zip_with_r; [done|done|]. apply mapM_Some, Forall2_length in Hp. lia. }
  rewrite Hc. assert (load_state sb ts = Ok (accounts_of sb (touched ts))) as ->.
  { unfold load_state. destruct ts; [done|]. by apply load_accounts_healthy. }
  cbn [expect_ok ok expect mbind run_bind]. fold (propose (accounts_of sb (touched ts)) txs).
  rewrite (propose_all _ txs ts cs) by done. cbn [changeset transfers valid].
  destruct (apply_digests_size tb (transfer_digests ts)) as [Hsz _].
  assert (zlen (transfer_digests ts) = zlen ts) as Hz by (unfold transfer_digests, zlen; by rewrite length_fmap).
  pose proof (zlen_nonneg ts).
  destruct (finalize_child_total (apply_changeset sb cs) (apply_transaction_digests tb (transfer_digests ts)) parent floor
    (zlen txs) "database merkleization must succeed") as [e Hfc];
    [by apply apply_changeset_healthy|by apply apply_digests_healthy|done|lia|lia|].
  rewrite Hfc. cbn [mbind run_bind pe_block pe_body]. unfold timestamp_ms.
  destruct Hnow as [? ?]. rewrite !(proj2 (Z.ltb_ge _ _)) by lia. cbn [mbind run_bind].
  eexists _, _, _. by split.
Qed.
End block.

(** ** The actor follows it *)

Section actor.
Context `{LazyKey} `{ConsensusLib}.

(** An actor with nothing in flight that has room for the batch and does not
    know it. *)
Record idle_for (cfg : Config) (a : Actor) (id : string) (ds : list digest) : Prop := {
  if_pool : pool a = [];
  if_bytes : pool_bytes a = 0;
  if_proposed : proposed a = [];
  if_tracker : tracker_inv (tracker a);
  if_status : statuses (tracker a) !! id = None;
  if_room : Z.of_nat (size (statuses (tracker a))) < MAX_STATUS_ENTRIES;
  if_known d : d ∈ ds → d ∉ known_digests a;
  if_watch d : d ∈ ds → watching (digest_watchers (tracker a)) d = []
}.

Lemma new_loop_all acc known txs :
  NoDup (message_digest <$> txs) → (∀ d, d ∈ message_digest <$> txs → d ∉ known) →
  (new_loop acc known txs).1 = acc ++ txs.
Proof.
  revert acc known. induction txs as [|t txs IH]; intros acc known Hnd Hk; cbn; [by rewrite app_nil_r|].
  cbn in Hnd. apply NoDup_cons in Hnd as [Hn Hnd]. rewrite decide_False by (apply Hk; left).
  rewrite IH; [by rewrite <- app_assoc|done|]. intros d Hd. apply not_elem_of_union. split; [set_solver|].
  apply Hk. by right.
Qed.

(** What the actor has after taking the batch. *)
Definition taken_tracker (t : Tracker) (id : string) (ds : list digest) (w : waiter) : Tracker :=
  mkTracker (<[id:=accepted_status ds]> (statuses t)) (status_order t ++ [id]) (<[id:=ds]> (batch_digests t))
    (watch_batch id ds (digest_watchers t)) (digest_outcomes t) (<[id:=[w]]> (pending_waiters t)).

Lemma idle_submit cfg a id txs bytes w :
  let ds := message_digest <$> txs in
  let total := Z.min (total_bytes_for txs) bytes in
  idle_for cfg a id ds → txs ≠ [] → NoDup ds → 0 ≤ total ≤ max_pool_bytes cfg → total ≤ u64_max →
  ∃ known, handle cfg a (Submit id ds txs bytes (Some w) None)
  = (mkActor [mkEntry txs total] total [] (taken_tracker (tracker a) id ds w) known (highest_consensus_round a), []).
Proof.
  intros ds total [Hpool Hbytes Hprop Ht Hst Hroom Hk _] Hne Hnd Hmax Hu. cbn [handle]. unfold handle_submit.
  rewrite Hst. pose proof (new_loop_all [] (known_digests a) txs Hnd Hk) as Hfresh.
  unfold new_transactions. destruct (new_loop [] (known_digests a) txs) as [fresh known]. cbn in Hfresh. subst fresh.
  fold total. rewrite Hbytes, Z.add_0_l, (wrap64_id total) by (unfold is_u64; lia).
  rewrite (proj2 (Z.ltb_ge _ _)), andb_false_r by lia.
  destruct (remember_room _ _ id (accepted_status ds) (tw_table _ _ Ht) Hst Hroom) as [-> _].
  assert (pending_waiters (tracker a) !! id = None) as Hpend.
  { apply not_elem_of_dom. intros Hin%(tw_pending _ _ Ht). apply elem_of_dom in Hin as [ds' Hds].
    rewrite (tw_digests _ _ Ht _ _ Hds) in Hst; [done|set_solver]. }
  cbn [forget_expired_batches fold_left]. unfold push_waiter. cbn [pending_waiters statuses status_order batch_digests
    digest_watchers digest_outcomes]. rewrite Hpend. cbn [default app]. destruct txs as [|t txs]; [done|].
  exists known. rewrite Hpool, Hprop. done.
Qed.

Lemma idle_propose cfg a txs total h w :
  pool a = [mkEntry txs total] → pool_bytes a = total → proposed a = [] →
  handle cfg a (Propose h w)
  = (mkActor [] 0 [mkProposed h (message_digest <$> txs)] (tracker a) (known_digests a) (highest_consensus_round a),
     [SendProposal w txs]).
Proof.
  intros Hp Hb Hpr. cbn [handle]. unfold handle_propose. rewrite Hp, Hb, Hpr. cbn [drain_loop].
  rewrite bool_decide_eq_false_2 by naive_solver. rewrite andb_false_r. cbn [total_bytes transactions app].
  by rewrite Z.sub_diag.
Qed.

Lemma record_outcomes_fields f ds t known :
  let t' := (record_outcomes f ds t known).1 in
  statuses t' = statuses t ∧ batch_digests t' = batch_digests t ∧ pending_waiters t' = pending_waiters t ∧
  ∀ d, digest_outcomes t' !! d = if decide (d ∈ ds) then Some (f d) else digest_outcomes t !! d.
Proof.
  revert t known. induction ds as [|d0 ds IH]; intros t known; cbn [record_outcomes]; [done|].
  destruct (IH (set_outcome d0 (f d0) t) (known ∖ {[d0]})) as (-> & -> & -> & Ho). split_and!; [done..|].
  intros d. rewrite Ho. cbn. destruct (decide (d ∈ ds)); [by rewrite decide_True by by right|].
  destruct (decide (d = d0)) as [->|].
  - rewrite lookup_insert_eq, decide_True by left. done.
  - rewrite lookup_insert_ne, decide_False by set_solver. done.
Qed.

Lemma watched_batches_elem ds ws id : id ∈ watched_batches_for ds ws ↔ ∃ d, d ∈ ds ∧ id ∈ watching ws d.
Proof.
  unfold watched_batches_for.
  assert (∀ acc : gset string, id ∈ fold_left (λ acc d, acc ∪ list_to_set (default [] (ws !! d))) ds acc ↔
    id ∈ acc ∨ ∃ d, d ∈ ds ∧ id ∈ watching ws d) as Hg; [|rewrite Hg; set_solver].
  induction ds as [|d ds IH]; intros acc; cbn [fold_left]; [set_solver|].
  rewrite IH, elem_of_union, elem_of_list_to_set. unfold watching. set_solver.
Qed.

Lemma filter_none {A} (P : A → Prop) `{∀ x, Decision (P x)} l : Forall (λ x, ¬ P x) l → filter P l = [].
Proof. induction 1; [done|]. by rewrite filter_cons_False. Qed.

Lemma all_finalized_status ds h os : ds ≠ [] → 0 ≤ h →
  (∀ d, d ∈ ds → os !! d = Some (DigestFinalized h)) →
  ∃ included, batch_status_from_outcomes ds os = Some (Finalized h included).
Proof.
  intros Hne Hh Hos. rewrite batch_status_partition. cbv zeta.
  assert (∀ d, d ∈ ds → was_finalized os d = true ∧ finalized_at os d = Some h) as Hf.
  { intros d Hd. unfold was_finalized, finalized_at. by rewrite (Hos d Hd). }
  assert (forallb (λ d, bool_decide (is_Some (os !! d))) ds = true) as ->.
  { apply forallb_forall. intros d Hd%list_elem_of_In. apply bool_decide_eq_true. by rewrite Hos. }
  assert (filter (λ d, was_finalized os d = false) ds = []) as ->.
  { apply filter_none. apply Forall_forall. intros d Hd. destruct (Hf d Hd) as [-> _]. done. }
  assert (filter (λ d, was_finalized os d = true) ds = ds) as ->.
  { apply filter_all_id. apply Forall_forall. intros d Hd. by destruct (Hf d Hd). }
  assert (omap (finalized_at os) ds = (λ _, h) <$> ds) as ->.
  { clear Hne. induction ds as [|d ds IH]; [done|]. cbn. destruct (Hf d ltac:(left)) as [_ ->].
    f_equal. apply IH; intros; [apply Hos|apply Hf]; by right. }
  eexists. destruct ds as [|d ds]; [done|]. rewrite decide_False by done. rewrite decide_True by done.
  do 2 f_equal. cbn [fmap list_fmap fold_left]. rewrite Z.max_r by lia. clear. induction ds as [|? ds IH]; cbn; [done|].
  by rewrite Z.max_id.
Qed.
End actor.

Section report.
Context `{LazyKey} `{ConsensusLib}.

(** The finalized block answers the batch's waiter. *)
Lemma idle_report cfg a id txs t w h known round (blk : SealedBlock) :
  let ds := message_digest <$> txs in
  idle_for cfg a id ds → txs ≠ [] → t = taken_tracker (tracker a) id ds w → tracker_inv t →
  (∀ d, d ∈ ds → d ∈ finalized_digests blk) → 0 ≤ height (header (inner blk)) →
  (handle cfg (mkActor [] 0 [mkProposed h ds] t known round) (ReportBlock blk)).2
  = [SendTxStatus w (TxFinalized (height (header (inner blk)))); Acknowledge].
Proof.
  intros ds Hidle Hne -> Hinv Hfin Hh. cbn [handle]. unfold handle_report. cbn [pool pool_bytes proposed tracker
    known_digests highest_consensus_round report_loop pb_digests].
  assert (existsb (λ d, bool_decide (d ∈ finalized_digests blk)) ds = true) as ->.
  { destruct txs as [|t txs]; [done|]. cbn. rewrite bool_decide_eq_true_2; [done|]. apply Hfin. left. }
  assert (elements (watched_batches_for ds (digest_watchers (taken_tracker (tracker a) id ds w))) = [id]) as ->.
  { rewrite <- (elements_singleton (C := gset string) id). f_equal. apply set_eq. intros id'. rewrite watched_batches_elem.
    cbn [taken_tracker digest_watchers]. unfold watch_batch. split.
    - intros (d & Hd & [Hw|[-> _]]%watch_loop_spec); [|set_solver]. rewrite (if_watch _ _ _ _ Hidle d Hd) in Hw. set_solver.
    - intros ->%elem_of_singleton. destruct txs as [|tx txs]; [done|]. exists (message_digest tx).
      split; [left|]. apply watch_loop_spec. right. split; [done|]. split; [left|set_solver]. }
  set (f := λ d, if decide (d ∈ finalized_digests blk) then _ else _).
  destruct (record_outcomes_fields f ds (taken_tracker (tracker a) id ds w) known) as (_ & Hbd & Hpw & Hos).
  pose proof (record_outcomes_wf f ds (taken_tracker (tracker a) id ds w) known Hinv) as Hinv1.
  destruct (record_outcomes f ds _ known) as [t1 known1]. cbn [fst] in *. cbn [resolve_all].
  destruct (all_finalized_status ds (height (header (inner blk))) (digest_outcomes t1)) as [included Hs].
  { destruct txs; done. }
  { done. }
  { intros d Hd. rewrite Hos, decide_True by done. unfold f. by rewrite decide_True by by apply Hfin. }
  assert (batch_digests t1 !! id = Some ds) as Hd1 by (rewrite Hbd; apply lookup_insert_eq).
  pose proof (mempool_batch_resolution id t1 ds Hinv1 Hd1) as Hres.
  destruct (resolve_batch_if_terminal id t1) as [t2 es]. rewrite Hs in Hres.
  destruct Hres as (x & [= <-] & _ & -> & _). rewrite Hpw. cbn [taken_tracker pending_waiters].
  rewrite lookup_insert_eq. done.
Qed.
(** Submission, proposal and report of one batch. *)
Lemma idle_round cfg a id txs bytes w hp w2 (blk : SealedBlock) :
  let ds := message_digest <$> txs in
  let total := Z.min (total_bytes_for txs) bytes in
  idle_for cfg a id ds → txs ≠ [] → NoDup ds → 0 ≤ total ≤ max_pool_bytes cfg → total ≤ u64_max →
  (∀ d, d ∈ ds → d ∈ finalized_digests blk) → 0 ≤ height (header (inner blk)) →
  (run_actor cfg a [Submit id ds txs bytes (Some w) None; Propose hp w2; ReportBlock blk]).2
  = [SendProposal w2 txs; SendTxStatus w (TxFinalized (height (header (inner blk)))); Acknowledge].
Proof.
  intros ds total Hidle Hne Hnd Htot Hu Hfin Hh.
  destruct (idle_submit cfg a id txs bytes w Hidle Hne Hnd Htot Hu) as [known Hs].
  pose proof (handle_tracker_inv cfg a (Submit id ds txs bytes (Some w) None) (if_tracker _ _ _ _ Hidle)) as Hinv.
  unfold ds in Hinv |- *. rewrite Hs in Hinv. cbn [fst tracker] in Hinv.
  cbn [run_actor]. rewrite Hs. rewrite (idle_propose _ _ txs total) by done. cbn [tracker known_digests highest_consensus_round].
  pose proof (idle_report cfg a id txs _ w hp known (highest_consensus_round a) blk Hidle Hne eq_refl Hinv Hfin Hh) as Hr.
  destruct (handle cfg _ (ReportBlock blk)) as [a3 es3]. cbn [snd] in Hr. subst es3. done.
Qed.
End report.

(** ** The whole way *)

Section lifecycle.
Context `{LazyKey} `{Json} `{ConsensusLib} `{!ClientJson} `{!StateDb} `{!HistoryDb}.

(** A batch a correct client sends: distinct, well-formed, signed transactions
    within the limit of the server. *)
Record valid_batch (st : AppState) (txs : list SignedTransaction) : Prop := {
  vb_nonempty : txs ≠ [];
  vb_wf : Forall signed_wf txs;
  vb_count : zlen txs < 2 ^ 32;
  vb_signed : forallb (lst_signature_ok (namespace st)) (lst_new <$> txs) = true;
  vb_size : batch_bytes txs ≤ max_batch_bytes st;
  vb_limit : max_batch_bytes st + 5 ≤ u64_max;
  vb_distinct : NoDup (message_digest <$> txs)
}.

(** Databases on which the batch can be executed after [parent]. *)
Record executable (parent : SealedBlock) (sb : sbatch) (tb : tbatch) (txs : list SignedTransaction) : Prop := {
  xb_run : ∃ ts cs, mapM prepare_transfer txs = Some ts ∧ batch_execute sb ts = Some cs;
  xb_floor : ∃ floor, parent_transactions_inactivity_floor parent = Ret floor ∧ floor ≤ tb_size tb;
  xb_size : tb_size tb + zlen txs + 1 ≤ u64_max;
  xb_state : sb_healthy sb;
  xb_history : tb_healthy tb;
  xb_height : 0 ≤ height (header (inner parent)) < u64_max
}.

(** The first status sent to a waiter. *)
Definition told (w : waiter) (es : list Event) : option TxStatus :=
  head (omap (λ e, match e with SendTxStatus w' s => if decide (w' = w) then Some s else None | _ => None end) es).

Lemma told_waiter w w2 txs s : told w [SendProposal w2 txs; SendTxStatus w s; Acknowledge] = Some s.
Proof. unfold told. cbn [omap list_omap]. by destruct (decide (w = w)). Qed.

Lemma prepare_transfer_equiv (t t' : SignedTransaction) : t ≡ t' → prepare_transfer t = prepare_transfer t'.
Proof.
  intros ([[Hw _] (Ht & Hv & Hn)] & Hd & _). unfold prepare_transfer, account_key_from_sender. by rewrite Hw, Ht, Hv, Hn, Hd.
Qed.

(** Decoding a batch changes none of what the later steps look at. *)
Lemma equiv_batch (txs txs' : list SignedTransaction) : txs ≡ txs' →
  message_digest <$> txs' = message_digest <$> txs ∧ mapM prepare_transfer txs' = mapM prepare_transfer txs ∧
  length txs' = length txs ∧
  ∀ ns, forallb (lst_signature_ok ns) (lst_new <$> txs') = forallb (lst_signature_ok ns) (lst_new <$> txs).
Proof.
  rewrite list_equiv_Forall2. induction 1 as [|t t' txs txs' Ht _ (IH1 & IH2 & IH3 & IH4)]; [done|].
  pose proof Ht as (_ & Hd & _). rewrite !fmap_cons. split_and!.
  - by rewrite IH1, Hd.
  - cbn. by rewrite IH2, (prepare_transfer_equiv t t' Ht).
  - cbn. by rewrite IH3.
  - intros ns. cbn [fmap list_fmap forallb]. by rewrite (signature_ok_equiv ns t t' Ht), (IH4 ns).
Qed.

Lemma finalized_digests_new h txs :
  finalized_digests (seal_block (block_new h txs)) = list_to_set (message_digest <$> txs).
Proof.
  unfold finalized_digests. cbn [seal_block inner block_new body]. f_equal.
  induction txs as [|t txs IH]; cbn; [done|]. f_equal. apply IH.
Qed.

(** C2. A submission reaches finality.  A valid batch that executes on the
    parent's databases, posted to a validator whose mempool is idle: the
    handler queues it, the actor keeps it and hands exactly its transactions to
    the next proposal, the block built from them contains all of them and is
    accepted by every validator in the same namespace with equivalent
    databases, and when that block is reported finalized the waiting request is
    answered once, so the client returns finality at the block's height. *)
Theorem submission_finalizes st rng capacity queue w cfg a app now ctx parent sb tb txs w2 :
  valid_batch st txs → executable parent sb tb txs → (length queue < capacity)%nat →
  batch_bytes txs ≤ max_pool_bytes cfg →
  idle_for cfg a (digest_to_string (hash (write_vec write_signed txs))) (message_digest <$> txs) →
  timestamp (header (inner parent)) < now ≤ MAX_BLOCK_TIMESTAMP_MS → 0 ≤ now →
  let body := write_vec write_signed txs in
  let h := height (header (inner parent)) + 1 in
  ∃ msg txs' app' blk m,
    submit_batch st true rng capacity true queue w body = Ok (queue ++ [msg]) ∧ txs ≡ txs' ∧
    propose_child app now ctx parent (sb, tb) txs' = Ret (app', (blk, m)) ∧
    finalized_digests blk = list_to_set (message_digest <$> txs) ∧
    (∀ vapp clock_max sf vrng sb' tb',
       transaction_namespace vapp = namespace st → MAX_BLOCK_TIMESTAMP_MS ≤ clock_max →
       sb ≡ sb' → tb ≡ tb' → sb_healthy sb' → tb_healthy tb' →
       ∃ m', verify_child vapp clock_max true sf vrng blk parent (sb', tb') = Ret (Some m') ∧ same_databases m m') ∧
    let es := (run_actor cfg a [msg; propose_message (header (inner parent)) w2; ReportBlock blk]).2 in
    es = [SendProposal w2 txs'; SendTxStatus w (TxFinalized h); Acknowledge] ∧
    ∀ self post,
      post (client_url self +:+ "/transactions") body = serve_submit st true rng capacity true queue w (told w es) body →
      client_submit self post txs = Ok (TxFinalized h).
Proof.
  intros [Hne Hwf Hn Hsig Hmax Hcap Hnd] [(ts & cs & Hts & Hcs) (floor & Hfl & Hfle) Hsz Hsh Hth Hht] Hroom Hpool Hidle Hnow Hnow0 body h.
  destruct (verify_body_valid st rng txs) as (txs' & Heq & Hv); [done..|].
  destruct (equiv_batch _ _ Heq) as (Hd & Hp & Hl & Hs). rewrite <- Hp in Hts.
  set (id := digest_to_string (hash (write_vec write_signed txs))) in *. rewrite <- Hd in Hidle, Hnd.
  set (msg := Submit id (message_digest <$> txs) txs' (batch_bytes txs) (Some w) None).
  assert (submit_batch st true rng capacity true queue w body = Ok (queue ++ [msg])) as Hsub.
  { unfold submit_batch, try_submit, try_send. unfold body. rewrite Hv. cbn [mbind result_bind].
    by rewrite bool_decide_eq_true_2. }
  assert (length ts = length txs') as Hlt by (apply mapM_Some, Forall2_length in Hts; lia).
  destruct (propose_child_all app now ctx parent sb tb txs' ts cs floor) as (app' & hd & m & Hprop & Hheight);
    [done..|unfold zlen in *; lia|unfold is_u64, MAX_BLOCK_TIMESTAMP_MS, u64_max in *; lia|].
  rewrite wrap64_id in Hheight by (unfold is_u64; lia). fold h in Hheight.
  set (blk := seal_block (block_new hd txs')) in *.
  exists msg, txs', app', blk, m. split_and!; [done..| | |].
  - unfold blk. by rewrite <- Hd, finalized_digests_new.
  - intros vapp clock_max sf vrng sb' tb' Hns Hcm Hsb Htb Hsh' Hth'.
    eapply (proposal_verifies app); [exact Hprop|done..| | |done|done].
    + rewrite Hns, Forall_forall. intros t Ht. rewrite <- Hs, forallb_forall in Hsig. apply Hsig, list_elem_of_In, list_elem_of_fmap. eauto.
    + unfold zlen, u64_max in *. lia.
  - pose proof (total_bytes_for_bound txs') as [Ht0 _]. pose proof (zlen_nonneg txs).
    destruct (batch_encoding_length txs Hwf Hn) as (_ & _ & Hb0).
    assert ((run_actor cfg a [msg; propose_message (header (inner parent)) w2; ReportBlock blk]).2
      = [SendProposal w2 txs'; SendTxStatus w (TxFinalized h); Acknowledge]) as Hrun.
    { unfold msg, propose_message. rewrite <- Hd, <- Hheight.
      apply (idle_round cfg a id txs' (batch_bytes txs) w _ w2 blk Hidle); [by intros ->; destruct txs|done|lia|lia| |].
      - intros d Hdd. unfold blk. by rewrite finalized_digests_new, elem_of_list_to_set.
      - change (height (header (inner blk))) with (height hd). lia. }
    cbv zeta. rewrite Hrun. split; [done|].
    intros self post Hpost. rewrite told_waiter in Hpost.
    rewrite (client_submit_served _ _ _ _ _ _ _ _ _ _ _ Hpost). fold body. by rewrite Hsub.
Qed.
(** ** A busy validator *)

Lemma told_answered w es : answered w es → ∃ s, told w es = Some s.
Proof.
  intros (s & Hs). unfold told. induction es as [|e es IH]; [by apply not_elem_of_nil in Hs|].
  apply elem_of_cons in Hs as [<-|Hs].
  - exists s. cbn. by rewrite decide_True.
  - destruct (IH Hs) as [s' Hs']. destruct e as [w' x| | | | |]; cbn in *; try by exists s'.
    case_decide; [by exists x|by exists s'].
Qed.

(** A submission adds one entry at most. *)
Lemma submit_pool_length cfg a id ds txs total result ingest :
  (length (pool (handle cfg a (Submit id ds txs total result ingest)).1) ≤ S (length (pool a)))%nat.
Proof.
  cbn [handle]. unfold handle_submit. destruct (statuses (tracker a) !! id) as [st|]; [destruct (tx_status_from_batch st); cbn; lia|].
  destruct (new_transactions _ _) as [fresh known]. case_match; [cbn; lia|].
  destruct (remember_status _ _ _ _) as [[? ?] ?]. destruct fresh; cbn; [lia|]. rewrite length_app. cbn. lia.
Qed.

Lemma overflow_told cfg a id ds txs bytes w ingest ms :
  overflows cfg a (Submit id ds txs bytes (Some w) ingest) →
  told w (run_actor cfg a (Submit id ds txs bytes (Some w) ingest :: ms)).2 = Some TxDropped.
Proof.
  intros Hover. pose proof (overflow_dropped cfg a id ds txs bytes w ingest Hover) as Hd. cbn [run_actor].
  destruct (handle cfg a _) as [a1 es1]. destruct Hd as (-> & _). destruct (run_actor cfg a1 ms) as [a2 es2].
  unfold told. cbn. by rewrite decide_True.
Qed.

(** What reached the actor up to now and what will: batches as the handlers
    queue them, and proposals up to a height. *)
Record traffic (hi : Z) (ms : list Message) : Prop := {
  tr_sizes : Forall message_wf ms;
  tr_digests : Forall aligned ms;
  tr_proposals : Forall (proposes_upto hi) ms }.

(** C3. A busy validator answers.  A valid batch is posted to a validator whose
    mailbox has room and whose mempool has seen any traffic, of batches as the
    handlers queue them and of proposals for heights up to [hi].  The handler
    queues it.  Whatever traffic follows, once the actor has made one proposal
    more than its pool held entries and a block past the grace period of those
    proposals is reported, the client's call returns a status, provided the
    status of the batch is not evicted meanwhile: fewer statuses than the table
    has entries are younger than it, counting a status for each batch submitted
    after it.  If the pool has no room for its new transactions the status it
    returns is that the batch is dropped. *)
Theorem busy_submission_answered st rng capacity queue w cfg ms ms' txs blk hi :
  cfg_wf cfg → 0 ≤ drop_grace_blocks cfg → hi + drop_grace_blocks cfg ≤ u64_max →
  valid_batch st txs → max_batch_bytes st < 2 ^ 63 → (length queue < capacity)%nat →
  traffic hi ((ms ++ queue) ++ ms') →
  let a := (run_actor cfg actor_new (ms ++ queue)).1 in
  let body := write_vec write_signed txs in
  Z.of_nat (younger (digest_to_string (hash body)) (status_order (tracker a)) + count is_submit ms')
    < MAX_STATUS_ENTRIES →
  (length (pool a) < count is_propose ms')%nat →
  hi + drop_grace_blocks cfg ≤ height (header (inner blk)) →
  ∃ msg, submit_batch st true rng capacity true queue w body = Ok (queue ++ [msg]) ∧
    let es := (run_actor cfg a (msg :: ms' ++ [ReportBlock blk])).2 in
    ∃ s, told w es = Some s ∧ (overflows cfg a msg → s = TxDropped) ∧
      ∀ self post,
        post (client_url self +:+ "/transactions") body = serve_submit st true rng capacity true queue w (told w es) body →
        client_submit self post txs = Ok s.
Proof.
  intros Hcfg Hg Hmax [Hne Hwf Hn Hsig Hsz Hcap _] Hb63 Hroom [Hw Hal Hup] a body Hcount Hprop Hblk.
  destruct (verify_body_valid st rng txs) as (txs' & Heq & Hv); [done..|]. destruct (equiv_batch _ _ Heq) as (Hd & _ & Hl & _).
  set (id := digest_to_string (hash body)) in *.
  set (msg := Submit id (message_digest <$> txs') txs' (batch_bytes txs) (Some w) None).
  assert (submit_batch st true rng capacity true queue w body = Ok (queue ++ [msg])) as Hsub.
  { unfold submit_batch, try_submit, try_send, body. rewrite Hv. cbn [mbind result_bind].
    rewrite bool_decide_eq_true_2 by done. unfold msg. by rewrite Hd. }
  exists msg. split; [done|]. apply Forall_app in Hw as [Hw1 Hw2], Hal as [Hal1 Hal2].
  destruct (batch_encoding_length txs Hwf Hn) as (_ & _ & Hb0). pose proof (zlen_nonneg txs).
  assert (answered w (run_actor cfg a (msg :: ms' ++ [ReportBlock blk])).2) as Hans.
  { apply (mempool_answers cfg (ms ++ queue) id txs' (batch_bytes txs) w None ms' blk hi); [done..| | |done|done| |done].
    - apply Forall_app. split; [done|]. constructor; [|done]. cbn. lia.
    - apply Forall_app. split; [done|]. constructor; [|done]. split; [done|]. intros ->. by destruct txs.
    - etrans; [apply submit_pool_length|]. fold a. lia. }
  cbv zeta. destruct (told_answered _ _ Hans) as [s Hs]. exists s. split_and!; [done| |].
  - intros Hover. rewrite (overflow_told cfg a _ _ _ _ w None _ Hover) in Hs. congruence.
  - intros self post Hpost. rewrite Hs in Hpost.
    rewrite (client_submit_served _ _ _ _ _ _ _ _ _ _ _ Hpost). fold body. by rewrite Hsub.
Qed.

(** A full pool answers the request with a status, not with a refusal: the
    handler responds [200 OK] and the status that the batch is dropped. *)
Lemma full_pool_answers_dropped st rng capacity queue w cfg a txs ms :
  valid_batch st txs → (length queue < capacity)%nat →
  let body := write_vec write_signed txs in
  ∃ msg, submit_batch st true rng capacity true queue w body = Ok (queue ++ [msg]) ∧
    (overflows cfg a msg →
     serve_submit st true rng capacity true queue w (told w (run_actor cfg a (msg :: ms)).2) body
     = Responded 200 (Some (status_to_json TxDropped))).
Proof.
  intros [Hne Hwf Hn Hsig Hsz Hcap _] Hroom body. destruct (verify_body_valid st rng txs) as (txs' & _ & Hv); [done..|].
  assert (∃ msg, submit_batch st true rng capacity true queue w body = Ok (queue ++ [msg]) ∧
    ∃ id ds bytes, msg = Submit id ds txs' bytes (Some w) None) as (msg & Hsub & id & ds & bytes & ->).
  { unfold submit_batch, try_submit, try_send, body. rewrite Hv. cbn [mbind result_bind].
    rewrite bool_decide_eq_true_2 by done. by repeat econstructor. }
  eexists. split; [exact Hsub|]. intros Hover. unfold serve_submit. rewrite Hsub.
  by rewrite (overflow_told cfg a id ds txs' bytes w None ms Hover).
Qed.

End lifecycle.

(** ** Witness *)

Definition sample_fresh : list SignedTransaction := [sample_signed 1 2 5 0; sample_signed 2 3 7 0].
Definition sample_fresh_id : string := digest_to_string (hash (write_vec write_signed sample_fresh)).

Lemma sample_fresh_valid : valid_batch sample_app_state sample_fresh.
Proof.
  split.
  - done.
  - repeat constructor; try done; apply lazy_new_wf; done.
  - done.
  - vm_compute. reflexivity.
  - vm_compute. discriminate.
  - vm_compute. discriminate.
  - apply (bool_decide_unpack _). vm_compute. exact I.
Qed.

Lemma sample_fresh_executable : executable sample_parent sample_sb sample_tb sample_fresh.
Proof.
  split.
  - assert (match (ts ← mapM prepare_transfer sample_fresh; batch_execute sample_sb ts) with
            | Some _ => true | None => false end = true) as Hr by (vm_compute; reflexivity).
    destruct (mapM prepare_transfer sample_fresh) as [ts|]; [|discriminate Hr]. cbn [mbind option_bind] in Hr.
    destruct (batch_execute sample_sb ts) as [cs|] eqn:E; [|discriminate Hr]. by exists ts, cs.
  - exists 0. split; [vm_compute; reflexivity|vm_compute; discriminate].
  - apply Z.leb_le. vm_compute. reflexivity.
  - exact I.
  - exact I.
  - split; vm_compute; [discriminate|reflexivity].
Qed.

Lemma actor_new_idle cfg id ds : idle_for cfg actor_new id ds.
Proof.
  split; try done. apply tracker_new_inv.
Qed.

Lemma submission_finalizes_witness :
  ∃ msg txs' app' blk m,
    submit_batch sample_app_state true 1 4 true [] 0 (write_vec write_signed sample_fresh) = Ok [msg] ∧
    propose_child sample_app 1000 sample_ctx sample_parent (sample_sb, sample_tb) txs' = Ret (app', (blk, m)) ∧
    (run_actor sample_cfg actor_new [msg; propose_message (header (inner sample_parent)) 1; ReportBlock blk]).2
    = [SendProposal 1 txs'; SendTxStatus 0 (TxFinalized 1); Acknowledge].
Proof.
  destruct (submission_finalizes sample_app_state 1 4 [] 0 sample_cfg actor_new sample_app 1000 sample_ctx sample_parent
    sample_sb sample_tb sample_fresh 1 sample_fresh_valid sample_fresh_executable ltac:(cbn; lia)
    ltac:(vm_compute; discriminate) (actor_new_idle _ _ _) sample_parent_time ltac:(lia))
    as (msg & txs' & app' & blk & m & Hsub & _ & Hprop & _ & _ & Hes & _).
  exists msg, txs', app', blk, m. split; [exact Hsub|]. split; [exact Hprop|exact Hes].
Defined.

(** A batch in front of it in the mailbox, two proposals, and block 4. *)
Definition busy_queue : list Message := [submit "A" [tx_f]].
Definition busy_after : list Message := [Propose 1 2%nat; submit "C" [tx_e]; Propose 2 2%nat].

Lemma busy_traffic : traffic 2 (([] ++ busy_queue) ++ busy_after).
Proof.
  constructor.
  - repeat constructor; vm_compute; done.
  - repeat constructor; done.
  - repeat constructor; cbn; lia.
Qed.

Lemma busy_pool : length (pool (run_actor sample_cfg actor_new ([] ++ busy_queue)).1) = 1%nat.
Proof. vm_compute. reflexivity. Qed.

Lemma busy_submission_answered_witness :
  ∃ msg s, submit_batch sample_app_state true 1 4 true busy_queue 9 (write_vec write_signed sample_fresh)
           = Ok (busy_queue ++ [msg]) ∧
    told 9 (run_actor sample_cfg (run_actor sample_cfg actor_new ([] ++ busy_queue)).1
      (msg :: busy_after ++ [ReportBlock crowd_block])).2 = Some s.
Proof.
  destruct (busy_submission_answered sample_app_state 1 4 busy_queue 9 sample_cfg [] busy_after sample_fresh crowd_block 2
    sample_cfg_wf ltac:(cbn; lia) ltac:(apply Z.leb_le; vm_compute; reflexivity) sample_fresh_valid
    ltac:(apply Z.ltb_lt; vm_compute; reflexivity) ltac:(cbn; lia) busy_traffic
    ltac:(apply Z.ltb_lt; vm_compute; reflexivity)
    ltac:(rewrite busy_pool; apply Nat.ltb_lt; vm_compute; reflexivity) ltac:(apply Z.leb_le; vm_compute; reflexivity))
    as (msg & Hsub & s & Hs & _ & _).
  exists msg, s. split; [exact Hsub|exact Hs].
Defined.

(** The checks of the handler and the pool bound are separate: with a pool of
    100 bytes the same batch is queued and dropped. *)
Definition small_cfg : Config := mkConfig 100 (max_propose_bytes sample_cfg) (drop_grace_blocks sample_cfg).
Lemma small_pool_overflows :
  overflows small_cfg actor_new
    (Submit sample_fresh_id (message_digest <$> sample_fresh) sample_fresh (batch_bytes sample_fresh) (Some 9%nat) None).
Proof.
  cbn [overflows]. split; [vm_compute; reflexivity|]. split.
  - intros E%(f_equal length). vm_compute in E. discriminate E.
  - apply Z.ltb_lt. vm_compute. reflexivity.
Qed.
