(* ===== verification/Spammer.v ===== *)
(** * The load generator (bin/spammer)

    The spammer derives a ring of accounts from consecutive seeds, signs
    transfers around the ring with per-account nonces, cuts the stream into
    batches of slightly varying size and posts them to a relayer.  The
    theorems show that the stream never panics, that each of its batches is
    one a validator admits, and that the whole stream executes on accounts
    that start with the default balance. *)

From Stdlib Require Import Floats.SpecFloat.
From stdpp Require Import prelude gmap list strings pretty.
From S2P Require Import Prelude Hex Interfaces Concrete Account Auth Transaction Executor Block Mempool Webserver Relayer Client.

(** ** Jitter *)

(** [f64] is binary64: a precision of 53 bits and exponents below 1024. *)
Abbreviation f64 := spec_float.
Definition f64_of_usize (n : Z) : f64 := binary_normalize 53 1024 n 0 false.
Definition f64_mul (a b : f64) : f64 := SFmul 53 1024 a b.
Definition f64_le (a b : f64) : bool := SFleb a b.

(** [x.floor() as usize]: the cast saturates and sends NaN to zero. *)
Definition floor_as_usize (x : f64) : Z :=
  match x with
  | S754_finite false m e => Z.min (Z.shiftl (Zpos m) e) u64_max
  | S754_infinity false => u64_max
  | _ => 0
  end.

(** [struct JitterRng]. *)
Record JitterRng := mkRng { rng_state : Z }.

Definition rng_new (seed : Z) : JitterRng := mkRng (if seed =? 0 then 0x9E3779B97F4A7C15 else seed).

Definition next_u64 (self : JitterRng) : Z * JitterRng :=
  let x := rng_state self in
  let x := Z.lxor x (wrap64 (Z.shiftl x 13)) in
  let x := Z.lxor x (Z.shiftr x 7) in
  let x := Z.lxor x (wrap64 (Z.shiftl x 17)) in
  (x, mkRng x).

Definition rng_range (self : JitterRng) (lo hi : Z) : run (Z * JitterRng) :=
  let span := wrap64 (wrap64 (hi - lo) + 1) in
  let '(x, self) := next_u64 self in
  if span =? 0 then Panic "attempt to calculate the remainder with a divisor of zero"
  else Ret (wrap64 (lo + x mod span), self).

Definition max_extra_accounts (accounts : Z) (accounts_jitter : f64) : Z :=
  floor_as_usize (f64_mul (f64_of_usize accounts) accounts_jitter).

Definition jittered_batch_size (accounts : Z) (accounts_jitter : f64) (rng : JitterRng)
    : run (Z * JitterRng) :=
  let extra := max_extra_accounts accounts accounts_jitter in
  if extra =? 0 then Ret (accounts, rng)
  else '(x, rng) ← rng_range rng 0 extra; Ret (saturating_add accounts x, rng).

(** ** Accounts and signing *)

Definition TRANSACTION_NAMESPACE : bytes := bytes_of_string "constantinople-tx".

Definition relayer_target_for (targets : list string) (index : Z) : option string :=
  match targets with [] => None | _ => targets !! Z.to_nat (index mod zlen targets) end.

Section spammer.
Context `{LazyKey} `{Json}.

(** [struct SpamAccount]. *)
Record SpamAccount := mkSpamAccount { private_key : ed_sk; spam_key : ed_pk }.

Definition generate_account (seed_offset : Z) (i : Z) : SpamAccount :=
  let private_key := ed_from_seed (wrap64 (seed_offset + i)) in
  mkSpamAccount private_key (ed_public_key private_key).
Definition generate_accounts (count seed_offset : Z) : list SpamAccount :=
  generate_account seed_offset <$> seqZ 0 count.

Definition sign_one (sender : SpamAccount) (recipient : ed_pk) (value nonce : Z)
    : run SignedTransaction :=
  tx ← transaction_new (tpk_ed25519 (spam_key sender)) (tpk_ed25519 recipient) value nonce;
  Ret (seal_and_sign tx (private_key sender) TRANSACTION_NAMESPACE).

(** The loop of [sign_batch] that assigns senders and nonces. *)
Fixpoint assign_work (n : Z) (count : nat) (nonces : list Z) (cursor : Z) (work : list (Z * Z))
    : run (list (Z * Z) * list Z * Z) :=
  match count with
  | O => Ret (work, nonces, cursor)
  | S count' =>
      nonce ← expect (nonces !! Z.to_nat cursor) "index out of bounds";
      assign_work n count' (<[Z.to_nat cursor := wrap64 (nonce + 1)]> nonces)
        (wrap64 (cursor + 1) mod n) (work ++ [(cursor, nonce)])
  end.

(** The closure [sign_batch] maps over the work. *)
Definition sign_item (accounts : list SpamAccount) (value : Z) (item : Z * Z) : run SignedTransaction :=
  let '(i, nonce) := item in
  sender ← expect (accounts !! Z.to_nat i) "index out of bounds";
  recipient ← expect (accounts !! Z.to_nat (wrap64 (i + 1) mod zlen accounts)) "index out of bounds";
  sign_one sender (spam_key recipient) value nonce.

Definition sign_batch (st : Strategy) (accounts : list SpamAccount) (value : Z) (nonces : list Z)
    (cursor count : Z) : run (list SignedTransaction * list Z * Z) :=
  if negb (zlen accounts =? zlen nonces) then Panic "nonces must match accounts"
  else if zlen accounts =? 0 then Panic "need at least one account"
  else if count <=? 0 then Panic "need at least one transaction"
  else
    '(work, nonces, cursor) ← assign_work (zlen accounts) (Z.to_nat count) nonces cursor [];
    txs ← mapM (λ r, r) (map_collect_vec work (sign_item accounts value));
    Ret (txs, nonces, cursor).

(** The state of the presigner's thread and one round of its loop. *)
Record Presigner := mkPresigner { ps_rng : JitterRng; ps_nonces : list Z; ps_cursor : Z }.

Definition presigner_new (accounts : list SpamAccount) (account_offset : Z) : Presigner :=
  mkPresigner (rng_new (wrapping_add account_offset 1)) (replicate (length accounts) 0) 0.

Definition presign_round (st : Strategy) (accounts : list SpamAccount) (value : Z)
    (accounts_jitter : f64) (self : Presigner) : run (list SignedTransaction * Presigner) :=
  '(batch_size, rng) ← jittered_batch_size (zlen accounts) accounts_jitter (ps_rng self);
  '(batch, nonces, cursor) ← sign_batch st accounts value (ps_nonces self) (ps_cursor self) batch_size;
  Ret (batch, mkPresigner rng nonces cursor).

(** The loop of [spawn_presigner]: [sends] tells, per round, whether the
    channel took the batch; the first refusal ends the thread.  The batches
    delivered so far and the state after them. *)
Fixpoint presigner_loop (st : Strategy) (accounts : list SpamAccount) (value : Z)
    (accounts_jitter : f64) (sends : list bool) (self : Presigner)
    : run (list (list SignedTransaction) * Presigner) :=
  match sends with
  | [] => Ret ([], self)
  | sent :: sends' =>
      '(batch, self) ← presign_round st accounts value accounts_jitter self;
      if sent : bool then
        '(batches, self) ← presigner_loop st accounts value accounts_jitter sends' self;
        Ret (batch :: batches, self)
      else Ret ([], self)
  end.

Definition spawn_presigner (st : Strategy) (accounts : list SpamAccount) (value : Z)
    (accounts_jitter : f64) (account_offset : Z) (sends : list bool)
    : run (list (list SignedTransaction)) :=
  '(batches, _) ← presigner_loop st accounts value accounts_jitter sends
                    (presigner_new accounts account_offset);
  Ret batches.

End spammer.

(** ** Text *)

(** [str::strip_prefix], [split_once] and [rsplit_once] at one character. *)
Fixpoint strip_prefix_bytes (p l : bytes) : option bytes :=
  match p, l with
  | [], _ => Some l
  | x :: p', y :: l' => if decide (x = y) then strip_prefix_bytes p' l' else None
  | _ :: _, [] => None
  end.
Fixpoint split_once_bytes (c : byte) (l : bytes) : option (bytes * bytes) :=
  match l with
  | [] => None
  | b :: l' =>
      if decide (b = c) then Some ([], l')
      else '(x, y) ← split_once_bytes c l'; Some (b :: x, y)
  end.
Definition strip_prefix (p s : string) : option string :=
  string_of_bytes <$> strip_prefix_bytes (bytes_of_string p) (bytes_of_string s).
Definition split_once (c : byte) (s : string) : option (string * string) :=
  '(x, y) ← split_once_bytes c (bytes_of_string s); Some (string_of_bytes x, string_of_bytes y).
Definition rsplit_once (c : byte) (s : string) : option (string * string) :=
  '(y, x) ← split_once_bytes c (reverse (bytes_of_string s));
  Some (string_of_bytes (reverse x), string_of_bytes (reverse y)).

(** ** Settings *)

Definition DEFAULT_PRESIGNED_BATCHES : Z := 16.
Definition DEFAULT_RAYON_THREADS : Z := 2.
Definition SUBMIT_ERROR_BACKOFF : Z := 100.

(** [struct SpammerConfig] and the parts of [Cli]. *)
Record SpammerConfig := mkSpammerConfig {
  sc_accounts : Z; sc_value : Z; sc_seed_offset : Z; sc_rayon_threads : Z; sc_http_port : Z;
  sc_relayer_url : string; sc_relayer_submitters : Z; sc_presigned_batches : Z;
  sc_primary_validators : list string; sc_accounts_jitter : f64 }.
Record SpammerCli := mkSpammerCli {
  cli_config : option string; cli_hosts : option string; cli_relayer_url : option string;
  cli_relayer_submitters : Z; cli_presigned_batches : Z; cli_relayer_targets : list string;
  cli_accounts : Z; cli_value : Z; cli_seed_offset : Z; cli_rayon_threads : Z;
  cli_accounts_jitter : f64 }.

(** [parse_accounts_jitter]; [parse] is [str::parse::<f64>]. *)
Definition jitter_in_range (j : f64) : bool := f64_le (S754_zero false) j && f64_le j (f64_of_usize 1).
Definition parse_accounts_jitter (parse : string → result string f64) (value : string)
    : result string f64 :=
  parsed ← map_err (λ e, "invalid jitter: " +:+ e) (parse value);
  if negb (jitter_in_range parsed) then Err "jitter must be between 0 and 1"%string else Ok parsed.

(** [struct RelayerModeConfig]. *)
Record RelayerModeConfig := mkMode {
  rm_relayer_url : string; rm_accounts_count : Z; rm_value : Z; rm_seed_offset : Z;
  rm_accounts_jitter : f64; rm_relayer_submitters : Z; rm_presigned_batches : Z;
  rm_relayer_targets : list string }.

Section settings.
(** The file system and the YAML readers. *)
Variables (read_to_string : string → option string)
  (yaml_config : string → option SpammerConfig)
  (yaml_hosts : string → option (list (string * string))).

Definition load_config (path : string) : run SpammerConfig :=
  raw ← expect (read_to_string path) "failed to read spammer config";
  expect (yaml_config raw) "failed to parse spammer config".

(** [collect] into a [HashMap]: a later host replaces an earlier one. *)
Definition hosts_by_name {A} (hosts : list (string * A)) : gmap string A :=
  fold_left (λ m '(name, ip), <[name := ip]> m) hosts ∅.

Definition resolve_in_hosts (hosts : gmap string string) (url : string) : string :=
  match strip_prefix "http://" url with
  | None => url
  | Some rest =>
      let '(authority, suffix) :=
        match split_once x2f rest with
        | Some (authority, suffix) => (authority, "/" +:+ suffix)
        | None => (rest, ""%string)
        end in
      match rsplit_once x3a authority with
      | None => url
      | Some (host, port) =>
          match hosts !! host with
          | None => url
          | Some ip => "http://" +:+ ip +:+ ":" +:+ port +:+ suffix
          end
      end
  end.

Definition resolve_named_http_url (url : string) (hosts_path : option string) : run string :=
  match hosts_path with
  | None => Ret url
  | Some path =>
      raw ← expect (read_to_string path) "failed to read hosts file";
      hosts ← expect (yaml_hosts raw) "failed to parse hosts file";
      Ret (resolve_in_hosts (hosts_by_name hosts) url)
  end.

(** The settings of [main]: the mode and the number of signing threads. *)
Definition spammer_settings (cli : SpammerCli) : run (RelayerModeConfig * Z) :=
  match cli_config cli with
  | Some path =>
      cfg ← load_config path;
      let submitters :=
        if sc_relayer_submitters cfg =? 0 then Z.max (zlen (sc_primary_validators cfg)) 1
        else sc_relayer_submitters cfg in
      url ← resolve_named_http_url (sc_relayer_url cfg) (cli_hosts cli);
      Ret (mkMode url (sc_accounts cfg) (sc_value cfg) (sc_seed_offset cfg) (sc_accounts_jitter cfg)
             submitters (sc_presigned_batches cfg)
             (match sc_primary_validators cfg with [] => cli_relayer_targets cli | l => l end),
           sc_rayon_threads cfg)
  | None =>
      url ← expect (cli_relayer_url cli) "provide --relayer-url or --config";
      Ret (mkMode url (cli_accounts cli) (cli_value cli) (cli_seed_offset cli)
             (cli_accounts_jitter cli) (Z.max (cli_relayer_submitters cli) 1)
             (cli_presigned_batches cli) (cli_relayer_targets cli),
           cli_rayon_threads cli)
  end.

(** The checks of [main], up to the start of the relayer mode. *)
Definition spammer_main (cli : SpammerCli) : run RelayerModeConfig :=
  '(mode, rayon_threads) ← spammer_settings cli;
  if negb (jitter_in_range (rm_accounts_jitter mode)) then Panic "--accounts-jitter must be between 0 and 1"
  else if rm_presigned_batches mode <=? 0 then Panic "--presigned-batches must be > 0"
  else if rm_accounts_count mode <? 2 then Panic "need at least 2 accounts for a ring"
  else if rm_value mode <=? 0 then Panic "transfer value must be > 0"
  else if DEFAULT_ACCOUNT_BALANCE <? rm_value mode
  then Panic "transfer value must be <= DEFAULT_ACCOUNT_BALANCE"
  else if rayon_threads =? 0 then Panic "value must be non-zero"
  else Ret mode.
End settings.

(** ** Submitters *)

(** [struct Stats]. *)
Record Stats := mkStats { finalized_count : Z; filtered_count : Z; dropped_count : Z; error_count : Z }.
Definition stats_new : Stats := mkStats 0 0 0 0.

(** [enum RelayerBatchStatus]. *)
Inductive RelayerBatchStatus : Type :=
| BatchFinalized (height : Z)
| BatchPartiallyFinalized (height : Z) (included filtered : list string)
| BatchDropped.

Section submitter.
Context `{LazyKey} `{Json}.

(** [struct RelayerSubmitter] without the shared counters. *)
Record RelayerSubmitter := mkSubmitter { su_url : string; su_target_leader : option string; su_leader_fanout : Z }.
Definition submitter_new (url : string) (target_leader : option string) : RelayerSubmitter :=
  mkSubmitter (trim_end_slashes url) target_leader 1.

(** The headers of a submission; the fanout is always one. *)
Definition submit_headers (self : RelayerSubmitter) : list (string * string) :=
  [("content-type", "application/octet-stream"); (LEADER_FANOUT_HEADER, pretty (su_leader_fanout self))]
  ++ match su_target_leader self with Some t => [(TARGET_LEADER_HEADER, t)] | None => [] end.

Definition submit_encoded (parse : bytes → option RelayerBatchStatus) (self : RelayerSubmitter)
    (post : string → list (string * string) → bytes → Response) (body : bytes)
    : result SubmitError RelayerBatchStatus :=
  match post (su_url self +:+ "/transactions") (submit_headers self) body with
  | NoResponse => Err HttpError
  | Responded status payload =>
      if status =? 200 then read_response payload parse else Err (submit_error status)
  end.

(** [RelayerSubmitter::submit]: the counters afterwards and the pause. *)
Definition submitter_submit (parse : bytes → option RelayerBatchStatus) (self : RelayerSubmitter)
    (post : string → list (string * string) → bytes → Response) (stats : Stats)
    (batch : list SignedTransaction) : Stats * Z :=
  let count := zlen batch in
  let '(mkStats fin fil dro err) := stats in
  match submit_encoded parse self post (write_vec write_signed batch) with
  | Ok (BatchFinalized _) => (mkStats (wrap64 (fin + count)) fil dro err, 0)
  | Ok (BatchPartiallyFinalized _ included filtered) =>
      (mkStats (wrap64 (fin + zlen included)) (wrap64 (fil + zlen filtered)) dro err, 0)
  | Ok BatchDropped => (mkStats fin fil (wrap64 (dro + count)) err, 0)
  | Err _ => (mkStats fin fil dro (wrap64 (err + 1)), SUBMIT_ERROR_BACKOFF)
  end.

(** What [run_relayer_mode] starts for each submitter. *)
Record SpamStream := mkStream {
  sm_submitter : RelayerSubmitter; sm_accounts : list SpamAccount; sm_offset : Z }.

Definition relayer_stream (config : RelayerModeConfig) (index : Z) : SpamStream :=
  let account_offset := wrap64 (rm_seed_offset config + wrap64 (index * rm_accounts_count config)) in
  mkStream (submitter_new (rm_relayer_url config) (relayer_target_for (rm_relayer_targets config) index))
    (generate_accounts (rm_accounts_count config) account_offset) account_offset.
Definition run_relayer_mode (config : RelayerModeConfig) : list SpamStream :=
  relayer_stream config <$> seqZ 0 (rm_relayer_submitters config).
End submitter.

(** ** Lemmas on the generator *)

(** The generator's state is a non-zero word. *)
Definition rng_wf (r : JitterRng) : Prop := is_u64 (rng_state r) ∧ rng_state r ≠ 0.

Lemma is_u64_lxor a b : is_u64 a → is_u64 b → is_u64 (Z.lxor a b).
Proof.
  unfold is_u64, u64_max. intros Ha Hb.
  assert (0 ≤ Z.lxor a b) by (apply Z.lxor_nonneg; lia). split; [done|].
  destruct (decide (Z.lxor a b = 0)) as [->|]; [lia|].
  assert (∀ x, 0 ≤ x < 2 ^ 64 → Z.log2 x < 64) as Hlog.
  { intros x Hx. destruct (decide (x = 0)) as [->|]; [done|]. apply Z.log2_lt_pow2; lia. }
  pose proof (Z.log2_lxor a b ltac:(lia) ltac:(lia)).
  pose proof (Hlog a ltac:(lia)). pose proof (Hlog b ltac:(lia)).
  assert (Z.lxor a b < 2 ^ 64) by (apply Z.log2_lt_pow2; lia). lia.
Qed.

Lemma is_u64_shiftr a k : 0 ≤ k → is_u64 a → is_u64 (Z.shiftr a k).
Proof.
  unfold is_u64. intros Hk Ha. rewrite Z.shiftr_div_pow2 by done.
  pose proof (Z.pow_pos_nonneg 2 k ltac:(lia) Hk).
  split; [apply Z.div_pos; lia|]. apply Z.div_le_upper_bound; [lia|]. nia.
Qed.

(** No round of the generator sends a non-zero word to zero: a word equal to
    its own shift has no lowest, or no highest, bit. *)
Lemma xorshift_left_nonzero x k :
  0 < k → Z.lxor x (wrap64 (Z.shiftl x k)) = 0 → x = 0.
Proof.
  intros Hk E. apply Z.lxor_eq in E. apply Z.bits_inj_0.
  assert (∀ m : nat, ∀ n, n ≤ Z.of_nat m → Z.testbit x n = false) as Hb.
  { induction m as [|m IH]; intros n Hn.
    - destruct (decide (n < 0)); [by apply Z.testbit_neg_r|]. assert (n = 0) as -> by lia.
      rewrite E. unfold wrap64. rewrite Z.mod_pow2_bits_low, Z.shiftl_spec by lia. apply Z.testbit_neg_r; lia.
    - destruct (decide (n < 0)); [by apply Z.testbit_neg_r|]. rewrite E. unfold wrap64.
      destruct (decide (n < 64)).
      + rewrite Z.mod_pow2_bits_low, Z.shiftl_spec by lia. apply IH. lia.
      + apply Z.mod_pow2_bits_high. lia. }
  intros n. apply (Hb (Z.to_nat n)). lia.
Qed.

Lemma xorshift_right_nonzero x k : 0 < k → 0 ≤ x → Z.lxor x (Z.shiftr x k) = 0 → x = 0.
Proof.
  intros Hk Hx E. apply Z.lxor_eq in E. rewrite Z.shiftr_div_pow2 in E by lia.
  pose proof (Z.pow_gt_1 2 k ltac:(lia)). destruct (decide (x = 0)); [done|].
  pose proof (Z.div_lt x (2 ^ k) ltac:(lia) ltac:(lia)). lia.
Qed.

Lemma next_u64_wf r : rng_wf r → let '(x, r') := next_u64 r in is_u64 x ∧ rng_wf r'.
Proof.
  intros [Hu Hn]. unfold next_u64, rng_wf. cbn [rng_state].
  set (x := rng_state r) in *. set (a := Z.lxor x _). set (b := Z.lxor a (Z.shiftr a 7)).
  assert (is_u64 a ∧ a ≠ 0) as [Ha Ha'].
  { split; [apply is_u64_lxor; auto with cst|]. intros E%xorshift_left_nonzero; lia. }
  assert (is_u64 b ∧ b ≠ 0) as [Hb Hb'].
  { split; [apply is_u64_lxor; [done|apply is_u64_shiftr; done]|].
    intros E%xorshift_right_nonzero; unfold is_u64 in *; lia. }
  assert (is_u64 (Z.lxor b (wrap64 (Z.shiftl b 17)))) by (apply is_u64_lxor; auto with cst).
  split_and!; [done..|]. intros E%xorshift_left_nonzero; lia.
Qed.

Lemma rng_new_wf seed : is_u64 seed → rng_wf (rng_new seed).
Proof.
  intros. unfold rng_new, rng_wf. destruct (Z.eqb_spec seed 0); cbn; [|done].
  split; [unfold is_u64, u64_max; lia|lia].
Qed.

Lemma rng_range_ok r lo hi :
  rng_wf r → 0 ≤ lo ≤ hi → hi - lo < u64_max → hi ≤ u64_max →
  ∃ x r', rng_range r lo hi = Ret (x, r') ∧ lo ≤ x ≤ hi ∧ rng_wf r'.
Proof.
  intros Hr Hlo Hs Hhi. unfold rng_range. pose proof (next_u64_wf r Hr) as Hx.
  destruct (next_u64 r) as [x r']. destruct Hx as [Hx Hr'].
  rewrite !(wrap64_id (hi - lo)), wrap64_id by (unfold is_u64; lia).
  destruct (Z.eqb_spec (hi - lo + 1) 0); [lia|].
  pose proof (Z.mod_pos_bound x (hi - lo + 1) ltac:(lia)).
  rewrite wrap64_id by (unfold is_u64; lia). eexists _, _. split_and!; [done|lia..|done].
Qed.

Lemma floor_as_usize_nonneg x : 0 ≤ floor_as_usize x ≤ u64_max.
Proof.
  unfold floor_as_usize, u64_max. destruct x as [|[]| |[] m e]; try lia.
  assert (0 ≤ Z.shiftl (Z.pos m) e) by (apply Z.shiftl_nonneg; lia). lia.
Qed.

Lemma jittered_batch_size_ok n j r :
  rng_wf r → 0 ≤ n → n + max_extra_accounts n j ≤ u64_max → max_extra_accounts n j < u64_max →
  ∃ size r', jittered_batch_size n j r = Ret (size, r') ∧
    n ≤ size ≤ n + max_extra_accounts n j ∧ rng_wf r'.
Proof.
  intros Hr Hn Hm Hx. unfold jittered_batch_size.
  pose proof (floor_as_usize_nonneg (f64_mul (f64_of_usize n) j)).
  change (floor_as_usize _) with (max_extra_accounts n j) in *.
  destruct (Z.eqb_spec (max_extra_accounts n j) 0) as [E|E].
  { exists n, r. split_and!; [done|lia..|done]. }
  destruct (rng_range_ok r 0 (max_extra_accounts n j)) as (x & r' & -> & ? & ?); [done|lia..|].
  cbn. eexists _, r'. split; [done|]. unfold saturating_add. split; [lia|done].
Qed.

(** ** Lemmas on the ring *)

Section ring.
Context `{LazyKey} `{Json}.
Variables (n offset v : Z).

Definition ring_account (t : Z) : SpamAccount := generate_account offset (t mod n).
Definition ring_pk (t : Z) : TransactionPublicKey := tpk_ed25519 (spam_key (ring_account t)).
Definition ring_key (t : Z) : AccountKey :=
  match from_public_key (ring_pk t) with Ret k => k | Panic _ => [] end.

(** The [t]-th transaction of the stream: account [t mod n] pays its
    successor with its own next nonce. *)
Definition ring_tx (t : Z) : SignedTransaction :=
  seal_and_sign (mkTransaction (lazy_new (ring_pk t)) (ring_key (t + 1)) v (t / n))
    (private_key (ring_account t)) TRANSACTION_NAMESPACE.

(** The nonces after [t] transactions. *)
Definition ring_nonces (t : Z) : list Z :=
  (λ j, t / n + (if j <? t mod n then 1 else 0)) <$> seqZ 0 n.

Hypothesis Hn : 1 ≤ n < 2 ^ 32.

Lemma ring_pk_wf t : tpk_wf (ring_pk t).
Proof. done. Qed.

Lemma ring_key_ok t :
  from_public_key (ring_pk t) = Ret (ring_key t) ∧ length (ring_key t) = AccountKey_SIZE ∧
  from_public_key_bytes (tpk_as_ref (ring_pk t)) = Some (ring_key t).
Proof.
  unfold ring_key. by destruct (from_public_key_total (ring_pk t) (ring_pk_wf t)) as (k & -> & ? & ?).
Qed.

Lemma ring_tx_wf t : 1 ≤ v ≤ u64_max → is_u64 (t / n) → signed_wf (ring_tx t).
Proof.
  intros Hv Ht. apply seal_and_sign_wf. split; [exact (lazy_new_wf _ (ring_pk_wf t))| |done|done].
  apply ring_key_ok.
Qed.

Lemma ring_tx_signed t : lst_signature_ok TRANSACTION_NAMESPACE (lst_new (ring_tx t)) = true.
Proof. apply seal_and_sign_ok. apply lazy_get_new. Qed.

Lemma generate_accounts_length : zlen (generate_accounts n offset) = n.
Proof. unfold generate_accounts, zlen. rewrite length_fmap, length_seqZ. lia. Qed.

Lemma generate_accounts_lookup t :
  generate_accounts n offset !! Z.to_nat (t mod n) = Some (ring_account t).
Proof.
  pose proof (Z.mod_pos_bound t n ltac:(lia)). unfold generate_accounts, ring_account.
  rewrite list_lookup_fmap, (proj2 (lookup_seqZ _ _ _ (t mod n))); [done|lia].
Qed.

Lemma sign_item_ring t :
  sign_item (generate_accounts n offset) v (t mod n, t / n) = Ret (ring_tx t).
Proof.
  pose proof (Z.mod_pos_bound t n ltac:(lia)). unfold sign_item.
  rewrite generate_accounts_lookup. cbn [expect mbind run_bind].
  rewrite generate_accounts_length, wrap64_id by (unfold is_u64, u64_max; lia).
  rewrite Zplus_mod_idemp_l, generate_accounts_lookup. cbn [expect mbind run_bind].
  unfold sign_one, transaction_new.
  change (tpk_ed25519 (spam_key (ring_account (t + 1)))) with (ring_pk (t + 1)).
  by rewrite (proj1 (ring_key_ok (t + 1))).
Qed.

Lemma ring_nonces_lookup t j :
  0 ≤ j < n → ring_nonces t !! Z.to_nat j = Some (t / n + (if j <? t mod n then 1 else 0)).
Proof.
  intros Hj. unfold ring_nonces. by rewrite list_lookup_fmap, (proj2 (lookup_seqZ _ _ _ j)) by lia.
Qed.

(** The division steps of the stream. *)
Lemma ring_succ t :
  0 ≤ t →
  (t mod n = n - 1 ∧ (t + 1) mod n = 0 ∧ (t + 1) / n = t / n + 1) ∨
  (t mod n < n - 1 ∧ (t + 1) mod n = t mod n + 1 ∧ (t + 1) / n = t / n).
Proof.
  intros Ht. pose proof (Z.div_mod t n ltac:(lia)). pose proof (Z.mod_pos_bound t n ltac:(lia)).
  destruct (decide (t mod n = n - 1)); [left|right]; (split; [lia|]).
  - assert (t + 1 = (t / n + 1) * n + 0) as -> by lia.
    rewrite Z.add_comm, Z_mod_plus_full, Z.div_add, Z.mod_0_l, Z.div_0_l by lia. lia.
  - assert (t + 1 = t / n * n + (t mod n + 1)) as -> by lia.
    rewrite Z.add_comm, Z_mod_plus_full, Z.div_add, Z.mod_small, Z.div_small by lia. lia.
Qed.

Lemma ring_nonces_step t :
  0 ≤ t → t / n < u64_max →
  <[Z.to_nat (t mod n) := wrap64 (t / n + 1)]> (ring_nonces t) = ring_nonces (t + 1).
Proof.
  intros Ht Hq. pose proof (Z.mod_pos_bound t n ltac:(lia)).
  assert (0 ≤ t / n) by (apply Z.div_pos; lia).
  rewrite wrap64_id by (unfold is_u64; lia). unfold ring_nonces.
  apply list_eq. intros i. destruct (decide (i < Z.to_nat n)%nat) as [Hi|Hi].
  2: { rewrite !lookup_ge_None_2; [done|..]; rewrite ?length_insert, ?length_fmap, ?length_seqZ; lia. }
  assert (∃ j, i = Z.to_nat j ∧ 0 ≤ j < n) as (j & -> & Hj) by (exists (Z.of_nat i); lia).
  clear Hi.
  change (((λ j, t / n + _) <$> _)) with (ring_nonces t).
  change (((λ j, (t + 1) / n + _) <$> _)) with (ring_nonces (t + 1)).
  rewrite (ring_nonces_lookup (t + 1)) by done.
  destruct (decide (j = t mod n)) as [->|Hne].
  - rewrite list_lookup_insert_eq
      by (unfold ring_nonces; rewrite length_fmap, length_seqZ; lia).
    f_equal. destruct (ring_succ t Ht) as [(? & -> & ->)|(? & -> & ->)];
      [rewrite (proj2 (Z.ltb_ge _ _)) by lia|rewrite (proj2 (Z.ltb_lt _ _)) by lia]; lia.
  - rewrite list_lookup_insert_ne, ring_nonces_lookup by (done || lia). f_equal.
    destruct (ring_succ t Ht) as [(? & -> & ->)|(? & -> & ->)];
      destruct (Z.ltb_spec j (t mod n)); zbool; repeat case_match; zbool; lia.
Qed.

Lemma assign_work_ring count t work :
  0 ≤ t → t + Z.of_nat count ≤ u64_max →
  assign_work n count (ring_nonces t) (t mod n) work
  = Ret (work ++ ((λ s, (s mod n, s / n)) <$> seqZ t (Z.of_nat count)),
         ring_nonces (t + Z.of_nat count), (t + Z.of_nat count) mod n).
Proof.
  revert t work. induction count as [|count IH]; intros t work Ht Hm; cbn [assign_work].
  { cbn. by rewrite app_nil_r, Z.add_0_r. }
  pose proof (Z.mod_pos_bound t n ltac:(lia)).
  assert (0 ≤ t / n < u64_max).
  { split; [apply Z.div_pos; lia|]. apply Z.div_lt_upper_bound; nia. }
  rewrite ring_nonces_lookup, Z.ltb_irrefl, Z.add_0_r by lia. cbn [expect mbind run_bind].
  rewrite ring_nonces_step by lia. rewrite (wrap64_id (t mod n + 1)) by (unfold is_u64, u64_max; lia).
  rewrite Zplus_mod_idemp_l, IH by lia.
  rewrite Nat2Z.inj_succ, (seqZ_cons t) by lia. cbn [fmap list_fmap].
  rewrite <- app_assoc. cbn [app].
  replace (Z.pred (Z.succ (Z.of_nat count))) with (Z.of_nat count) by lia.
  by replace (t + 1 + Z.of_nat count) with (t + Z.succ (Z.of_nat count)) by lia.
Qed.

Lemma ring_tx_all (l : list SignedTransaction) k :
  1 ≤ v ≤ u64_max → 0 ≤ k ≤ u64_max →
  l ⊆ ring_tx <$> seqZ 0 k →
  Forall signed_wf l ∧ forallb (lst_signature_ok TRANSACTION_NAMESPACE) (lst_new <$> l) = true.
Proof.
  intros Hv Hk Hl. split.
  - apply Forall_forall. intros x (t & -> & Ht%elem_of_seqZ)%Hl%list_elem_of_fmap.
    apply ring_tx_wf; [done|]. split; [apply Z.div_pos; lia|]. apply Z.div_le_upper_bound; nia.
  - apply forallb_forall. intros x (y & -> & (t & -> & _)%Hl%list_elem_of_fmap)%list_elem_of_In%list_elem_of_fmap.
    apply ring_tx_signed.
Qed.

End ring.

Section stream.
Context `{LazyKey} `{Json}.
Variables (st : Strategy) (n offset v : Z) (jitter : f64).
Hypothesis Hn : 1 ≤ n < 2 ^ 32.

Lemma mapM_Ret {A B} (f : A → run B) (g : A → B) (l : list A) :
  (∀ x, x ∈ l → f x = Ret (g x)) → mapM (λ r : run B, r) (f <$> l) = Ret (g <$> l).
Proof.
  induction l as [|x l IH]; intros Hf; cbn; [done|]. rewrite Hf by left. cbn.
  rewrite IH by (intros; apply Hf; by right). done.
Qed.

Lemma sign_batch_ring t count :
  0 ≤ t → 0 < count → t + count ≤ u64_max →
  sign_batch st (generate_accounts n offset) v (ring_nonces n t) (t mod n) count
  = Ret (ring_tx n offset v <$> seqZ t count, ring_nonces n (t + count), (t + count) mod n).
Proof.
  intros Ht Hc Hm. unfold sign_batch. rewrite generate_accounts_length by done.
  assert (zlen (ring_nonces n t) = n) as ->
    by (unfold ring_nonces, zlen; rewrite length_fmap, length_seqZ; lia).
  rewrite Z.eqb_refl. cbn [negb].
  rewrite (proj2 (Z.eqb_neq _ _)), (proj2 (Z.leb_gt _ _)) by lia.
  rewrite assign_work_ring by (done || lia). rewrite Z2Nat.id by lia. cbn [app mbind run_bind].
  rewrite map_collect_vec_spec. change (map ?f ?l) with (f <$> l). rewrite <- list_fmap_compose.
  rewrite (mapM_Ret _ (ring_tx n offset v)); [done|].
  intros s _. unfold compose. by rewrite sign_item_ring.
Qed.

(** A presigner that has signed [t] transactions. *)
Definition presigner_at (t : Z) (p : Presigner) : Prop :=
  rng_wf (ps_rng p) ∧ ps_nonces p = ring_nonces n t ∧ ps_cursor p = t mod n.

Lemma presigner_new_at : presigner_at 0 (presigner_new (generate_accounts n offset) offset).
Proof.
  unfold presigner_at, presigner_new. cbn [ps_rng ps_nonces ps_cursor]. split_and!.
  - apply rng_new_wf. apply wrap64_bound.
  - pose proof (generate_accounts_length n offset Hn) as Hl. unfold zlen in Hl.
    unfold ring_nonces. apply list_eq. intros i.
    destruct (decide (i < Z.to_nat n)%nat).
    + rewrite lookup_replicate_2 by lia. rewrite list_lookup_fmap.
      rewrite (proj2 (lookup_seqZ _ _ i (Z.of_nat i))) by lia. cbn.
      rewrite Z.div_0_l, Z.mod_0_l, (proj2 (Z.ltb_ge _ _)) by lia. done.
    + rewrite !lookup_ge_None_2; [done|..]; rewrite ?length_replicate, ?length_fmap, ?length_seqZ; lia.
  - by rewrite Z.mod_0_l by lia.
Qed.

Let extra := max_extra_accounts n jitter.

Lemma presign_round_ring t p :
  presigner_at t p → 0 ≤ t → extra < u64_max → t + (n + extra) ≤ u64_max →
  ∃ count p', presign_round st (generate_accounts n offset) v jitter p
              = Ret (ring_tx n offset v <$> seqZ t count, p') ∧
    n ≤ count ≤ n + extra ∧ presigner_at (t + count) p'.
Proof.
  intros (Hr & Hnon & Hcur) Ht Hx Hm. unfold presign_round.
  rewrite generate_accounts_length by done.
  destruct (jittered_batch_size_ok n jitter (ps_rng p)) as (count & r' & -> & Hc & Hr'); [done|lia..|].
  cbn [mbind run_bind]. rewrite Hnon, Hcur, sign_batch_ring by lia. cbn.
  eexists count, _. split_and!; [done|lia..|]. done.
Qed.

Lemma presigner_loop_ring sends t p :
  presigner_at t p → 0 ≤ t → extra < u64_max → t + zlen sends * (n + extra) ≤ u64_max →
  ∃ batches total p', presigner_loop st (generate_accounts n offset) v jitter sends p = Ret (batches, p') ∧
    concat batches = ring_tx n offset v <$> seqZ t total ∧ 0 ≤ total ≤ zlen batches * (n + extra) ∧
    Forall (λ b, n ≤ zlen b ≤ n + extra) batches ∧
    (length batches ≤ length sends)%nat ∧ (Forall (.= true) sends → length batches = length sends).
Proof.
  intros Hp Ht Hx. revert t p Hp Ht. induction sends as [|s sends IH]; intros t p Hp Ht Hm; cbn [presigner_loop].
  { by exists [], 0, p. }
  pose proof (floor_as_usize_nonneg (f64_mul (f64_of_usize n) jitter)) as Hex. fold (max_extra_accounts n jitter) in Hex.
  change (max_extra_accounts n jitter) with extra in Hex.
  pose proof (zlen_nonneg sends) as Hz. assert (zlen (s :: sends) = 1 + zlen sends) as Hzs
    by (unfold zlen; cbn [length]; lia). rewrite Hzs in Hm.
  destruct (presign_round_ring t p) as (count & p' & -> & Hc & Hp'); [done..|nia|].
  cbn [mbind run_bind]. destruct s.
  2: { exists [], 0, p'. split_and!; try done; [cbn; lia|].
       intros Hall. by inversion Hall. }
  destruct (IH (t + count) p') as (bs & total & p'' & -> & Hcat & Htot & Hall & Hlen & Htrue); [done|lia|nia|].
  cbn. exists ((ring_tx n offset v <$> seqZ t count) :: bs), (count + total), p''. split_and!; [done|..].
  - cbn [concat]. rewrite Hcat, <- fmap_app. by rewrite seqZ_app by lia.
  - lia.
  - unfold zlen in *. cbn [length]. lia.
  - constructor; [|done]. unfold zlen. rewrite length_fmap, length_seqZ. lia.
  - cbn. lia.
  - intros Hs. inversion Hs; subst. cbn. f_equal. auto.
Qed.

Lemma spawn_presigner_ring sends :
  extra < u64_max → zlen sends * (n + extra) ≤ u64_max →
  ∃ batches, spawn_presigner st (generate_accounts n offset) v jitter offset sends = Ret batches ∧
    concat batches = ring_tx n offset v <$> seqZ 0 (zlen (concat batches)) ∧
    zlen (concat batches) ≤ zlen batches * (n + extra) ∧
    Forall (λ b, n ≤ zlen b ≤ n + extra) batches ∧
    (length batches ≤ length sends)%nat ∧ (Forall (.= true) sends → length batches = length sends).
Proof.
  intros Hx Hm. unfold spawn_presigner.
  destruct (presigner_loop_ring sends 0 _ presigner_new_at) as
    (bs & total & p' & -> & Hcat & Htot & Hall & Hlen & Htrue); [lia|done|lia|].
  exists bs. cbn. assert (zlen (concat bs) = total) as Hl.
  { rewrite Hcat. unfold zlen. rewrite length_fmap, length_seqZ. lia. }
  rewrite Hl. split_and!; try done. lia.
Qed.

End stream.

(** ** Executing the stream *)

(** An account whose nonces were all used in order. *)
Lemma consume_next k : 0 ≤ k < u64_max → consume (mkNonce k 0) k = (true, mkNonce (k + 1) 0).
Proof.
  intros Hk. unfold consume, next_nonce_state. cbn [base bitmap].
  rewrite (proj2 (checked_add_Some k 1 (k + 1))) by (split; lia). cbn [mbind option_bind].
  rewrite (proj2 (Z.ltb_ge _ _)), Z.sub_diag, Z.eqb_refl by lia. unfold consume_current_nonce.
  change (advance_loop 64 0 1) with 1.
  by rewrite (proj2 (checked_add_Some k 1 (k + 1))) by (split; lia).
Qed.

Section ring_execution.
Context `{LazyKey} `{Json}.
Variables (n offset v : Z).
Hypotheses (Hn : 2 ≤ n < 2 ^ 32) (Hv : 1 ≤ v ≤ DEFAULT_ACCOUNT_BALANCE)
  (Hkeys : NoDup (ring_key n offset <$> seqZ 0 n)).

(** Blocks executed one after the other, each on the state the previous one
    left. *)
Fixpoint execute_blocks (st : State) (blocks : list (list SignedTransaction)) : option State :=
  match blocks with
  | [] => Some st
  | b :: blocks' =>
      ts ← mapM prepare_transfer b;
      cs ← execute st ts;
      execute_blocks (list_to_map cs ∪ st) blocks'
  end.

(** Account [j] after [t] transactions: the current round has taken the value
    from account 0 and left it at account [t mod n]. *)
Definition ring_account_at (t j : Z) : Account :=
  let c := t mod n in
  mkAccount (DEFAULT_ACCOUNT_BALANCE + (if 0 <? c then (if j =? c then v else 0) - (if j =? 0 then v else 0) else 0))
    (mkNonce (t / n + (if j <? c then 1 else 0)) 0).

Definition ring_state (t : Z) (st : State) : Prop :=
  ∀ j, 0 ≤ j < n → st !! ring_key n offset j = Some (ring_account_at t j).

Definition ring_transfer (t : Z) : PreparedTransfer :=
  mkTransfer (ring_key n offset t) (ring_key n offset (t + 1)) v (t / n)
    (message_digest (ring_tx n offset v t)).

Lemma prepare_ring t : prepare_transfer (ring_tx n offset v t) = Some (ring_transfer t).
Proof.
  unfold prepare_transfer, account_key_from_sender. cbn. rewrite lazy_write_new.
  unfold write_tpk. by rewrite (proj2 (proj2 (ring_key_ok n offset t))).
Qed.

Lemma ring_key_mod t : ring_key n offset t = ring_key n offset (t mod n).
Proof. unfold ring_key, ring_pk, ring_account. by rewrite Z.mod_mod by lia. Qed.

Lemma ring_key_inj i j :
  0 ≤ i < n → 0 ≤ j < n → ring_key n offset i = ring_key n offset j → i = j.
Proof.
  intros Hi Hj E. apply (f_equal Some) in E.
  assert (∀ x, 0 ≤ x < n → (ring_key n offset <$> seqZ 0 n) !! Z.to_nat x = Some (ring_key n offset x)) as Hl.
  { intros x Hx. by rewrite list_lookup_fmap, (proj2 (lookup_seqZ _ _ _ x)) by lia. }
  rewrite <- !Hl in E by done. apply (NoDup_lookup _ (Z.to_nat i) (Z.to_nat j) (ring_key n offset j)) in Hkeys; [lia| |by apply Hl].
  rewrite E. by apply Hl.
Qed.

Lemma ring_step t st :
  0 ≤ t < u64_max → ring_state t st →
  ∃ st', ledger_step st (ring_transfer t) = Some st' ∧ ring_state (t + 1) st'.
Proof.
  intros Ht Hst. pose proof (Z.mod_pos_bound t n ltac:(lia)) as Hc.
  assert (0 ≤ t / n < u64_max) as Hq.
  { split; [apply Z.div_pos; lia|]. apply Z.div_lt_upper_bound; nia. }
  pose proof (ring_succ n ltac:(lia) t ltac:(lia)) as Hs.
  pose proof (Z.mod_pos_bound (t + 1) n ltac:(lia)) as Hc'.
  assert (ring_key n offset (t mod n) ≠ ring_key n offset ((t + 1) mod n)) as Hne.
  { intros E%ring_key_inj; lia. }
  eexists. split.
  - apply ledger_step_Some. cbn [pt_sender pt_recipient pt_value pt_nonce ring_transfer].
    rewrite (ring_key_mod t), (ring_key_mod (t + 1)).
    eexists _, _. split; [by apply Hst|]. unfold ring_account_at at 1 2; cbn [balance nonce].
    rewrite Z.ltb_irrefl, Z.eqb_refl, Z.add_0_r.
    split; [unfold DEFAULT_ACCOUNT_BALANCE in *; repeat case_match; zbool; lia|].
    split; [by apply consume_next|]. right. split; [done|].
    eexists. split; [by apply Hst|]. split; [|done].
    unfold ring_account_at; cbn [balance nonce]. unfold DEFAULT_ACCOUNT_BALANCE, u64_max in *.
    repeat case_match; zbool; lia.
  - intros j Hj. destruct (decide (j = (t + 1) mod n)) as [->|Hj1].
    { rewrite lookup_insert_eq. f_equal. unfold ring_account_at; cbn [balance nonce]. f_equal; [|f_equal];
      destruct Hs as [(E1 & E2 & E3)|(E1 & E2 & E3)]; rewrite E2, ?E3; repeat case_match; zbool; lia. }
    rewrite lookup_insert_ne by (intros E%ring_key_inj; lia).
    destruct (decide (j = t mod n)) as [->|Hj2].
    { rewrite lookup_insert_eq. f_equal. unfold ring_account_at; cbn [balance nonce].
      rewrite wrap64_id; [|unfold is_u64, u64_max, DEFAULT_ACCOUNT_BALANCE in *; repeat case_match; zbool; lia].
      f_equal; [|f_equal];
      destruct Hs as [(E1 & E2 & E3)|(E1 & E2 & E3)]; rewrite E2, ?E3; repeat case_match; zbool; lia. }
    rewrite lookup_insert_ne by (intros E%ring_key_inj; lia). rewrite Hst by done. f_equal.
    unfold ring_account_at. f_equal; [|f_equal];
      destruct Hs as [(E1 & E2 & E3)|(E1 & E2 & E3)]; rewrite E2, ?E3 in *; repeat case_match; zbool; lia.
Qed.

Lemma ring_run k t st :
  0 ≤ t → t + Z.of_nat k ≤ u64_max → ring_state t st →
  ∃ st', ledger_run st (ring_transfer <$> seqZ t (Z.of_nat k)) = Some st' ∧
    ring_state (t + Z.of_nat k) st'.
Proof.
  revert t st. induction k as [|k IH]; intros t st Ht Hm Hst.
  { exists st. by rewrite Z.add_0_r. }
  rewrite Nat2Z.inj_succ in *. rewrite seqZ_cons by lia. cbn [fmap list_fmap ledger_run].
  destruct (ring_step t st) as (st1 & -> & Hst1); [lia|done|]. cbn [mbind option_bind].
  replace (t + Z.succ (Z.of_nat k)) with (t + 1 + Z.of_nat k) by lia.
  replace (Z.succ t) with (t + 1) by lia.
  replace (Z.pred (Z.succ (Z.of_nat k))) with (Z.of_nat k) by lia.
  apply IH; [lia..|done].
Qed.

Lemma mapM_prepare_ring (l : list Z) :
  mapM prepare_transfer (ring_tx n offset v <$> l) = Some (ring_transfer <$> l).
Proof. induction l as [|t l IH]; [done|]. cbn. rewrite prepare_ring. cbn. by rewrite IH. Qed.

Lemma execute_blocks_ring blocks t st :
  0 ≤ t → t + zlen (concat blocks) ≤ u64_max → ring_state t st →
  concat blocks = ring_tx n offset v <$> seqZ t (zlen (concat blocks)) →
  ∃ st', execute_blocks st blocks = Some st' ∧ ring_state (t + zlen (concat blocks)) st'.
Proof.
  revert t st. induction blocks as [|b blocks IH]; intros t st Ht Hm Hst Hc; cbn [concat execute_blocks] in *.
  { exists st. unfold zlen; cbn. by rewrite Z.add_0_r. }
  pose proof (zlen_nonneg b). pose proof (zlen_nonneg (concat blocks)).
  rewrite zlen_app, seqZ_app, fmap_app in Hc by lia. rewrite zlen_app in *.
  apply app_inj_1 in Hc as [Hb Hc]; [|rewrite length_fmap, length_seqZ; unfold zlen; lia].
  assert (mapM prepare_transfer b = Some (ring_transfer <$> seqZ t (zlen b))) as ->
    by (rewrite Hb at 1; apply mapM_prepare_ring).
  cbn [mbind option_bind].
  destruct (ring_run (length b) t st) as (st1 & Hr & Hst1); [unfold zlen in *; lia..|done|].
  fold (zlen b) in *. rewrite execute_ledger, Hr. cbn [fmap option_fmap option_map mbind option_bind].
  rewrite (ledger_changes_apply _ _ _ Hr). rewrite Z.add_assoc.
  apply IH; [lia..|done|done].
Qed.

End ring_execution.

(** Seeds never overlap: the streams of distinct submitters use distinct
    seeds while the range of seeds fits in a word. *)
Definition stream_seeds (config : RelayerModeConfig) (index : Z) : list Z :=
  (λ i, wrap64 (wrap64 (rm_seed_offset config + wrap64 (index * rm_accounts_count config)) + i))
    <$> seqZ 0 (rm_accounts_count config).

Lemma stream_seeds_lookup config k i s :
  0 ≤ rm_seed_offset config → 0 ≤ rm_accounts_count config → 0 ≤ k < rm_relayer_submitters config →
  rm_seed_offset config + rm_relayer_submitters config * rm_accounts_count config ≤ u64_max →
  stream_seeds config k !! i = Some s →
  s = rm_seed_offset config + (k * rm_accounts_count config + Z.of_nat i) ∧
  Z.of_nat i < rm_accounts_count config.
Proof.
  intros Ho Hc Hk Hm. unfold stream_seeds. rewrite list_lookup_fmap.
  destruct (seqZ _ _ !! i) as [x|] eqn:E; [|done]. apply lookup_seqZ in E as [-> Hi]. cbn.
  intros [= <-].
  assert (0 ≤ k * rm_accounts_count config) by nia.
  assert (k * rm_accounts_count config + Z.of_nat i < rm_relayer_submitters config * rm_accounts_count config) by nia.
  rewrite (wrap64_id (k * _)), (wrap64_id (rm_seed_offset config + _)), wrap64_id
    by (unfold is_u64; lia). lia.
Qed.

Lemma stream_seeds_distinct config k k' i i' s :
  0 ≤ rm_seed_offset config → 0 ≤ rm_accounts_count config →
  0 ≤ k < rm_relayer_submitters config → 0 ≤ k' < rm_relayer_submitters config →
  rm_seed_offset config + rm_relayer_submitters config * rm_accounts_count config ≤ u64_max →
  stream_seeds config k !! i = Some s → stream_seeds config k' !! i' = Some s → k = k' ∧ i = i'.
Proof.
  intros Ho Hc Hk Hk' Hm E E'. apply stream_seeds_lookup in E as [-> Hi], E' as [E' Hi']; try done.
  assert (k = k') as <- by nia. split; [done|lia].
Qed.

(** ** The answer of a relayer *)

Section accounting.
Context `{LazyKey} `{Json} `{RelayerJson} `{ConsensusLib} `{ClientJson}.

(** The two status enums have the same JSON form. *)
Definition relayed (s : TxStatus) : RelayerBatchStatus :=
  match s with
  | TxFinalized h => BatchFinalized h
  | TxPartiallyFinalized h i f => BatchPartiallyFinalized h i f
  | TxDropped => BatchDropped
  end.
Definition parse_relayed (b : bytes) : option RelayerBatchStatus := relayed <$> status_from_json b.

Definition answer_response (a : Answer) : Response :=
  Responded a.1 (Some (match a.2 with
    | NoBody => [] | JsonBody s => status_to_json s | RawBody b => b end)).

(** Headers by name. *)
Definition header (hs : list (string * string)) (name : string) : option string :=
  (λ p, p.2.2) <$> list_find (λ h, h.1 = name) hs.

Definition stats_total (s : Stats) : Z := finalized_count s + filtered_count s + dropped_count s.
Definition stats_ok (s : Stats) (room : Z) : Prop :=
  0 ≤ finalized_count s ∧ 0 ≤ filtered_count s ∧ 0 ≤ dropped_count s ∧ 0 ≤ error_count s ∧
  finalized_count s + room ≤ u64_max ∧ filtered_count s + room ≤ u64_max ∧
  dropped_count s + room ≤ u64_max ∧ error_count s + room ≤ u64_max.

(** An answer with status 200 carries a status document. *)
Definition answer_shape (a : Answer) : Prop := a.1 = 200 → ∃ s, a.2 = JsonBody s.

Lemma forward_deterministic post targets body s :
  fs_deterministic (forward_to_targets post targets body) = Some s → s ≠ 200.
Proof.
  unfold forward_to_targets. set (rs := imap _ _).
  assert (∀ r, r ∈ rs → ∀ s, r = Deterministic s → s ≠ 200) as Hrs.
  { intros r Hr s0 ->. apply elem_of_lookup_imap_1 in Hr as (i & l & Heq & _).
    unfold forward_to_leader in Heq. destruct (post i l body) as [|status p]; [done|].
    repeat (case_match; simplify_eq); destruct (Z.eqb_spec status 200); cbn in *; [subst; done|done]. }
  assert (∀ rs acc, (∀ r, r ∈ rs → ∀ s, r = Deterministic s → s ≠ 200) →
    (∀ s, fs_deterministic acc = Some s → s ≠ 200) →
    ∀ s, fs_deterministic (fold_left summarize rs acc) = Some s → s ≠ 200) as Hf.
  { clear. induction rs as [|r rs IH]; intros acc Hr Ha; cbn; [done|].
    apply IH; [intros; eapply Hr; [by right|done]|].
    destruct r; cbn; [done| |done]. intros s' [= <-]. eapply Hr; [left|done]. }
  eapply Hf; [exact Hrs|done].
Qed.

Lemma retry_loop_shape post get left retry leaders batch pending inc h acc attempts view views :
  answer_shape (retry_loop post get left retry leaders batch pending inc h acc attempts view views).1.
Proof.
  revert retry pending inc h acc attempts view views.
  induction left as [left IH] using lt_wf_ind.
  intros. rewrite retry_loop_step. cbv zeta.
  destruct (fs_deterministic _) as [s|] eqn:E; [by apply forward_deterministic in E; intros ?|].
  destruct (merge_statuses _ _ _ _) as [inc' h']. case_decide; [intros _; by eexists|].
  destruct left as [|left]; [case_match; [intros _; by eexists|done]|].
  destruct (wait_for_view_advance views view) as [view' views'].
  match goal with |- context [retry_loop post get left ?r leaders batch ?p inc' h' ?b ?a view' views'] =>
    specialize (IH left ltac:(lia) r p inc' h' b a view' views') end.
  by destruct (retry_loop post get left _ _ _ _ _ _ _ _ _ _) as [ans sent].
Qed.

Lemma write_vec_zlen {A} (w : A → bytes) (l l' : list A) :
  zlen l < 2 ^ 32 → zlen l' < 2 ^ 32 → write_vec w l = write_vec w l' → zlen l = zlen l'.
Proof.
  intros Hl Hl'. rewrite !write_vec_spec. intros E.
  pose proof (zlen_nonneg l). pose proof (zlen_nonneg l').
  assert (∀ n r, 0 ≤ n < 2 ^ 32 → read_len 0 (2 ^ 32) (write_len n ++ r) = Ok (n, r)) as Hr
    by (intros; apply read_write_len; lia).
  pose proof (Hr (zlen l) (concat (map w l)) ltac:(lia)) as E1. rewrite E, Hr in E1 by lia. congruence.
Qed.

(** The answer to an unpinned submission splits the batch exactly. *)
Lemma submission_answer post get st pinned view views hs batch :
  requested_target_leader hs = None → Forall signed_wf batch → zlen batch < 2 ^ 32 →
  zlen (write_vec write_signed batch) ≤ u64_max →
  let a := submit_transactions post get st hs pinned view views (write_vec write_signed batch) in
  a.1 ≠ 200 ∨ (a.1 = 200 ∧ ∃ s, a.2 = JsonBody s ∧
    match s with
    | TxPartiallyFinalized _ included filtered => zlen included + zlen filtered = zlen batch
    | _ => True
    end).
Proof.
  intros Ht Hwf Hn Hlen. cbv zeta. unfold submit_transactions. rewrite Ht.
  destruct (decode_batch _ _) as [b|e] eqn:Ed.
  2: { left. unfold decode_batch in Ed. cbn [fst]. intros Hc.
       repeat (case_match; simplify_eq; try done). destruct (decode _ _); cbn in Ed; [|by simplify_eq].
       case_match; by simplify_eq. }
  apply decode_batch_Ok in Ed as (Hb & _ & Hbn & _ & Hd); [|done].
  apply write_vec_zlen in Hb; [|lia..].
  set (a := (submit_with_retries _ _ _ _ _ _).1).
  assert (answer_shape a) as Hsh.
  { subst a. unfold submit_with_retries. destruct (rs_leaders st); [done|]. apply retry_loop_shape. }
  destruct (decide (a.1 = 200)) as [Hok|]; [right|by left]. split; [done|].
  destruct (Hsh Hok) as [s Hs]. exists s. split; [done|].
  assert (answer_true (λ _ _, True) (db_digests b) a) as Htrue.
  { subst a. unfold submit_with_retries. destruct (rs_leaders st) as [|l ls]; [done|].
    apply retry_loop_true; [|apply set_Forall_empty|intros d Hd'; left; by apply elem_of_list_to_set].
    intros r i l' id s' _. destruct s' as [| | |]; cbn; try done; apply Forall_forall;
      intros d _; by exists height. }
  unfold answer_true in Htrue. rewrite Hs in Htrue. destruct s as [|h inc fil|]; [done| |done].
  destruct Htrue as (_ & Hp & _). apply Permutation_length in Hp.
  rewrite length_app, Hd, length_fmap in Hp. unfold zlen in *. lia.
Qed.
End accounting.

(** ** Properties *)

Section properties.
Context `{LazyKey} `{Json} `{ConsensusLib}.

Lemma spammer_main_checks rf yc yh cli mode :
  spammer_main rf yc yh cli = Ret mode →
  2 ≤ rm_accounts_count mode ∧ 1 ≤ rm_value mode ≤ DEFAULT_ACCOUNT_BALANCE ∧
  0 < rm_presigned_batches mode.
Proof.
  unfold spammer_main. intros ([m threads] & _ & Hk)%bind_Ret.
  repeat (case_match; simplify_eq). zbool. lia.
Qed.

(** C25. Every batch of a spammer is admitted: once [main] has accepted its
    settings, the presigner of each stream never panics, delivers one batch
    per send until the channel closes, and the concatenation of the batches is
    the ring: transaction [t] goes from account [t mod n] to the next one and
    carries that sender's [t / n]-th nonce.  Each batch holds between [n] and
    [n] plus the jitter's maximum transactions, and passes the checks of every
    validator whose byte limit it fits. *)
Theorem spam_stream_admitted rf yc yh cli mode st index sends hst rng :
  spammer_main rf yc yh cli = Ret mode →
  let n := rm_accounts_count mode in
  let extra := max_extra_accounts n (rm_accounts_jitter mode) in
  let stream := relayer_stream mode index in
  n + extra < 2 ^ 32 → zlen sends * (n + extra) ≤ u64_max →
  namespace hst = TRANSACTION_NAMESPACE → max_batch_bytes hst + 5 ≤ u64_max →
  ∃ batches,
    spawn_presigner st (sm_accounts stream) (rm_value mode) (rm_accounts_jitter mode)
      (sm_offset stream) sends = Ret batches ∧
    (Forall (.= true) sends → length batches = length sends) ∧
    concat batches
    = ring_tx n (sm_offset stream) (rm_value mode) <$> seqZ 0 (zlen (concat batches)) ∧
    Forall (λ b, n ≤ zlen b ≤ n + extra ∧
      (batch_bytes b ≤ max_batch_bytes hst →
       ∃ txs', b ≡ txs' ∧ verify_body hst true rng (write_vec write_signed b)
                        = Ok (mkVerified txs' (message_digest <$> b) (batch_bytes b)))) batches.
Proof.
  intros (Hn & Hv & _)%spammer_main_checks n extra stream Hx Hm Hns Hcap.
  pose proof (floor_as_usize_nonneg (f64_mul (f64_of_usize n) (rm_accounts_jitter mode))) as Hex.
  change (0 ≤ extra ≤ u64_max) in Hex. fold n in Hn. unfold DEFAULT_ACCOUNT_BALANCE, u64_max in *.
  destruct (spawn_presigner_ring st n (sm_offset stream) (rm_value mode) (rm_accounts_jitter mode)
    ltac:(lia) sends) as (bs & Hs & Hc & Ht & Hall & Hlen & Hsends);
    [fold extra; unfold u64_max; lia|fold extra; unfold u64_max; lia|].
  fold extra in Ht, Hall. exists bs. split_and!; [done..|].
  apply Forall_forall. intros b Hb. rewrite Forall_forall in Hall. specialize (Hall _ Hb).
  split; [done|]. intros Hbytes.
  assert (zlen bs ≤ zlen sends) as Hbs by (unfold zlen; lia). pose proof (zlen_nonneg (concat bs)).
  apply (Z.mul_le_mono_nonneg_r _ _ (n + extra)) in Hbs; [|lia].
  destruct (ring_tx_all n (sm_offset stream) (rm_value mode) ltac:(lia) b (zlen (concat bs)))
    as [Hwf Hsig]; [unfold u64_max; lia|unfold u64_max; lia| |].
  { rewrite <- Hc. intros t Ht'. apply list_elem_of_In, in_concat. exists b.
    split; by apply list_elem_of_In. }
  apply verify_body_valid; try done; [|lia|by rewrite Hns].
  intros ->. unfold zlen in Hall. cbn in Hall. lia.
Qed.

(** C10. The whole stream executes: on a state where the accounts of the ring
    are distinct and hold what an unwritten account holds, any blocks cut in
    order from the stream execute one after the other, no transfer being
    refused, and leave account [j] after [t] transactions with its [j]-th
    round's nonce and the default balance, except that the value is missing at
    account 0 and sits at account [t mod n] while a round is unfinished.  The
    bound [main] checks, a value of at most the default balance, is what the
    first account of the ring needs. *)
Theorem spam_stream_executes rf yc yh cli mode st index sends batches state blocks rest :
  spammer_main rf yc yh cli = Ret mode →
  let n := rm_accounts_count mode in
  let extra := max_extra_accounts n (rm_accounts_jitter mode) in
  let stream := relayer_stream mode index in
  let key := ring_key n (sm_offset stream) in
  n + extra < 2 ^ 32 → zlen sends * (n + extra) ≤ u64_max →
  spawn_presigner st (sm_accounts stream) (rm_value mode) (rm_accounts_jitter mode)
    (sm_offset stream) sends = Ret batches →
  NoDup (key <$> seqZ 0 n) →
  (∀ j, 0 ≤ j < n → state !! key j = Some account_default) →
  concat batches = concat blocks ++ rest →
  ∃ state', execute_blocks state blocks = Some state' ∧
    ∀ j, 0 ≤ j < n → state' !! key j = Some (ring_account_at n (rm_value mode) (zlen (concat blocks)) j).
Proof.
  intros (Hn & Hv & _)%spammer_main_checks n extra stream key Hx Hm Hs Hnd Hst Hcat.
  pose proof (floor_as_usize_nonneg (f64_mul (f64_of_usize n) (rm_accounts_jitter mode))) as Hex.
  change (0 ≤ extra ≤ u64_max) in Hex. fold n in Hn.
  destruct (spawn_presigner_ring st n (sm_offset stream) (rm_value mode) (rm_accounts_jitter mode)
    ltac:(lia) sends) as (bs & Hs' & Hc & Ht & _ & Hlen & _);
    [fold extra; unfold u64_max; lia|fold extra; lia|].
  fold extra in Ht. change (generate_accounts n (sm_offset stream)) with (sm_accounts stream) in Hs'.
  rewrite Hs in Hs'. injection Hs' as <-.
  assert (zlen batches ≤ zlen sends) as Hbs by (unfold zlen; lia).
  apply (Z.mul_le_mono_nonneg_r _ _ (n + extra)) in Hbs; [|lia].
  assert (zlen (concat blocks) + zlen rest = zlen (concat batches)) as Hz by (rewrite Hcat, zlen_app; done).
  pose proof (zlen_nonneg (concat blocks)). pose proof (zlen_nonneg rest).
  destruct (execute_blocks_ring n (sm_offset stream) (rm_value mode) ltac:(lia) Hv Hnd blocks 0 state)
    as (state' & He & Hr); [done|lia| | |].
  - intros j Hj. rewrite Hst by done. unfold ring_account_at, account_default, nonce_default.
    rewrite Z.div_0_l, Z.mod_0_l by lia. by rewrite (proj2 (Z.ltb_ge j 0)) by lia.
  - rewrite <- Hz, Hcat, seqZ_app, fmap_app in Hc by lia.
    apply app_inj_1 in Hc as [Hc _]; [done|]. rewrite length_fmap, length_seqZ. unfold zlen. lia.
  - exists state'. done.
Qed.
End properties.

Section accounting_property.
Context `{LazyKey} `{Json} `{RelayerJson} `{ConsensusLib} `{ClientJson}.

(** Every submission is accounted for once: whatever a relayer's leaders
    answer, a submitter without a target either adds exactly the size of the
    batch to its finalized, filtered and dropped counters and goes on at once,
    or counts one error and pauses. *)
Theorem spam_batch_accounted post get rst pinned view views url stats batch :
  Forall signed_wf batch → zlen batch < 2 ^ 32 → zlen (write_vec write_signed batch) ≤ u64_max →
  stats_ok stats (zlen batch + 1) →
  let '(stats', pause) :=
    submitter_submit parse_relayed (submitter_new url None)
      (λ _ hs body, answer_response (submit_transactions post get rst (header hs) pinned view views body))
      stats batch in
  (pause = 0 ∧ error_count stats' = error_count stats ∧
   stats_total stats' = stats_total stats + zlen batch) ∨
  (pause = SUBMIT_ERROR_BACKOFF ∧ error_count stats' = error_count stats + 1 ∧
   stats_total stats' = stats_total stats).
Proof.
  intros Hwf Hn Hlen Hok. pose proof (zlen_nonneg batch).
  pose proof (submission_answer post get rst pinned view views
    (header (submit_headers (submitter_new url None))) batch eq_refl Hwf Hn Hlen) as Ha.
  cbv zeta in Ha. unfold submitter_submit, submit_encoded.
  set (a := submit_transactions _ _ _ _ _ _ _ _) in *. destruct stats as [fin fil dro err].
  unfold stats_ok, stats_total in *. cbn [finalized_count filtered_count dropped_count error_count] in *.
  assert (wrap64 (err + 1) = err + 1) as He by (apply wrap64_id; unfold is_u64; lia).
  unfold answer_response. destruct Ha as [Ha|(Ha & s & Hs & Hsplit)].
  { rewrite (proj2 (Z.eqb_neq _ _) Ha). right. cbn. lia. }
  rewrite Ha, Hs. cbn [Z.eqb read_response]. unfold read_response, parse_relayed.
  rewrite status_json_law. cbn.
  destruct s as [h|h inc fl|]; cbn; left.
  - rewrite wrap64_id by (unfold is_u64; lia). lia.
  - pose proof (zlen_nonneg inc). pose proof (zlen_nonneg fl).
    rewrite !wrap64_id by (unfold is_u64; lia). lia.
  - rewrite wrap64_id by (unfold is_u64; lia). lia.
Qed.
End accounting_property.

(** ** Witnesses *)

Definition sample_half : f64 := S754_finite false (2 ^ 52) (-53).
Definition sample_cli : SpammerCli :=
  mkSpammerCli None None (Some "http://r/"%string) 2 16 [] 3 100 1000 2 sample_half.
Definition sample_mode : RelayerModeConfig :=
  mkMode "http://r/" 3 100 1000 sample_half 2 16 [].
Definition sample_host : AppState := mkAppState TRANSACTION_NAMESPACE 2000 halves sequential.
Definition sample_stream : SpamStream := relayer_stream sample_mode 1.
Definition sample_presigned : run (list (list SignedTransaction)) :=
  spawn_presigner halves (sm_accounts sample_stream) 100 sample_half
    (sm_offset sample_stream) [true; true].

Lemma sample_cli_accepted :
  spammer_main (λ _, None) (λ _, None) (λ _, None) sample_cli = Ret sample_mode.
Proof. vm_compute. reflexivity. Qed.

Lemma sample_presigned_ok : ∃ batches, sample_presigned = Ret batches.
Proof. apply is_ret_inv. vm_compute. reflexivity. Qed.

Lemma spam_stream_admitted_witness :
  ∃ batches, sample_presigned = Ret batches ∧ length batches = 2%nat.
Proof.
  destruct (spam_stream_admitted _ _ _ sample_cli sample_mode halves 1 [true; true] sample_host 1
    sample_cli_accepted) as (bs & Hs & Hl & _); [vm_compute; reflexivity|vm_compute; discriminate|reflexivity
    |vm_compute; discriminate|].
  exists bs. split; [exact Hs|]. apply Hl. repeat constructor.
Defined.

Definition sample_ring_state : State :=
  list_to_map ((λ j, (ring_key 3 (sm_offset sample_stream) j, account_default)) <$> seqZ 0 3).

Lemma sample_ring_default j :
  0 ≤ j < 3 → sample_ring_state !! ring_key 3 (sm_offset sample_stream) j = Some account_default.
Proof.
  intros Hj. assert (j = 0 ∨ j = 1 ∨ j = 2) as [->|[->| ->]] by lia; vm_compute; reflexivity.
Qed.

Lemma spam_stream_executes_witness :
  ∃ batches, sample_presigned = Ret batches ∧
  ∃ state', execute_blocks sample_ring_state batches = Some state' ∧
    state' !! ring_key 3 (sm_offset sample_stream) 2
    = Some (ring_account_at 3 100 (zlen (concat batches)) 2).
Proof.
  destruct sample_presigned_ok as (bs & Hs). exists bs. split; [exact Hs|].
  destruct (spam_stream_executes _ _ _ sample_cli sample_mode halves 1 [true; true] bs sample_ring_state bs []
    sample_cli_accepted) as (state' & He & Hj);
    [vm_compute; reflexivity|vm_compute; discriminate|exact Hs
    |apply (bool_decide_unpack _); vm_compute; reflexivity|exact sample_ring_default|by rewrite app_nil_r|].
  exists state'. split; [exact He|]. apply Hj. vm_compute. split; [discriminate|reflexivity].
Defined.

Lemma spam_batch_accounted_witness :
  let '(stats', pause) :=
    submitter_submit parse_relayed (submitter_new "http://r/" None)
      (λ _ hs body, answer_response (submit_transactions sample_post sample_get sample_relayer (header hs)
                                       (λ _ _ _, NoResponse) 4 [5; 5; 7] body))
      stats_new sample_batch in
  (pause = 0 ∧ error_count stats' = 0 ∧ stats_total stats' = 2) ∨
  (pause = SUBMIT_ERROR_BACKOFF ∧ error_count stats' = 1 ∧ stats_total stats' = 0).
Proof.
  apply (spam_batch_accounted sample_post sample_get sample_relayer (λ _ _ _, NoResponse) 4 [5; 5; 7]
    "http://r/" stats_new sample_batch sample_batch_wf); [reflexivity|vm_compute; discriminate|].
  vm_compute. repeat split; discriminate.
Defined.
