(* ===== verification/Lookup.v ===== *)
(** * The index's schema and its client (crates/indexer/src/{sql_schema,client,codec}.rs)

    The metadata tables declare a type for every column, and the client reads
    blocks and transactions back out of the store.  The theorems show that
    every row the publisher emits has the declared types and a primary key of
    its own, that a transaction of an indexed block is found under its digest,
    and that the client returns nothing that does not hash to the digest it
    asked for. *)

From stdpp Require Import prelude gmap list strings.
From S2P Require Import Prelude Hex Interfaces Concrete Account Auth Transaction Executor Database Block Execution Application Indexer Certificate.

(** ** The schema *)

Definition BLOCK_META_HEIGHT : string := "height".
Definition BLOCK_META_DIGEST : string := "digest".
Definition BLOCK_META_TX_COUNT : string := "tx_count".
Definition BLOCK_META_TRANSACTIONS_ROOT : string := "transactions_root".
Definition BLOCK_META_TRANSACTIONS_TIP : string := "transactions_tip".
Definition BLOCK_META_VIEW : string := "view".
Definition BLOCK_META_FINALIZED_TS : string := "finalized_ts".
Definition TX_META_DIGEST : string := "tx_digest".
Definition TX_META_QMDB_LOCATION : string := "qmdb_location".
Definition TX_META_BODY_HEX : string := "body_hex".
Definition TX_ACTIVITY_ACCOUNT : string := "account".
Definition TX_ACTIVITY_HEIGHT : string := "height".
Definition TX_ACTIVITY_INDEX : string := "index".
Definition TX_ACTIVITY_ROLE : string := "role".
Definition TX_ACTIVITY_DIGEST : string := "tx_digest".
Definition TX_ACTIVITY_COUNTERPARTY : string := "counterparty".
Definition TX_ACTIVITY_VALUE : string := "value".
Definition TX_ACTIVITY_NONCE : string := "nonce".
Definition ACCOUNT_META_ACCOUNT : string := "account".
Definition ACCOUNT_META_BALANCE : string := "balance".
Definition ACCOUNT_META_NONCE_BASE : string := "nonce_base".
Definition ACCOUNT_META_NONCE_BITMAP : string := "nonce_bitmap".
Definition ACCOUNT_META_QMDB_LOCATION : string := "qmdb_location".

(** The [DataType]s the schema uses, a column and a table declaration. *)
Inductive DataType : Type :=
| DUInt64
| DFixedSizeBinary (n : nat)
| DUtf8
| DTimestampMicros.
Record TableColumnConfig := mkColumn { col_name : string; col_type : DataType; col_nullable : bool }.
Record TableConfig := mkTable {
  t_name : string; t_columns : list TableColumnConfig; t_primary_key : list string; t_indexes : list string }.

Definition block_meta_table : TableConfig :=
  mkTable BLOCK_META_TABLE
    [mkColumn BLOCK_META_HEIGHT DUInt64 false;
     mkColumn BLOCK_META_DIGEST (DFixedSizeBinary 32) false;
     mkColumn BLOCK_META_TX_COUNT DUInt64 false;
     mkColumn BLOCK_META_TRANSACTIONS_ROOT (DFixedSizeBinary 32) false;
     mkColumn BLOCK_META_TRANSACTIONS_TIP DUInt64 false;
     mkColumn BLOCK_META_VIEW DUInt64 false;
     mkColumn BLOCK_META_FINALIZED_TS DTimestampMicros false]
    [BLOCK_META_HEIGHT] [].
Definition tx_meta_table : TableConfig :=
  mkTable TX_META_TABLE
    [mkColumn TX_META_DIGEST (DFixedSizeBinary 32) false;
     mkColumn TX_META_QMDB_LOCATION DUInt64 false;
     mkColumn TX_META_BODY_HEX DUtf8 false]
    [TX_META_DIGEST] [].
Definition tx_activity_table : TableConfig :=
  mkTable TX_ACTIVITY_TABLE
    [mkColumn TX_ACTIVITY_ACCOUNT (DFixedSizeBinary 32) false;
     mkColumn TX_ACTIVITY_HEIGHT DUInt64 false;
     mkColumn TX_ACTIVITY_INDEX DUInt64 false;
     mkColumn TX_ACTIVITY_ROLE DUInt64 false;
     mkColumn TX_ACTIVITY_DIGEST (DFixedSizeBinary 32) false;
     mkColumn TX_ACTIVITY_COUNTERPARTY (DFixedSizeBinary 32) false;
     mkColumn TX_ACTIVITY_VALUE DUInt64 false;
     mkColumn TX_ACTIVITY_NONCE DUInt64 false]
    [TX_ACTIVITY_ACCOUNT; TX_ACTIVITY_HEIGHT; TX_ACTIVITY_INDEX; TX_ACTIVITY_ROLE] [].
Definition account_meta_table : TableConfig :=
  mkTable ACCOUNT_META_TABLE
    [mkColumn ACCOUNT_META_ACCOUNT (DFixedSizeBinary 32) false;
     mkColumn ACCOUNT_META_BALANCE DUInt64 false;
     mkColumn ACCOUNT_META_NONCE_BASE DUInt64 false;
     mkColumn ACCOUNT_META_NONCE_BITMAP DUInt64 false;
     mkColumn ACCOUNT_META_QMDB_LOCATION DUInt64 false]
    [ACCOUNT_META_ACCOUNT] [].

Definition meta_tables : list TableConfig :=
  [block_meta_table; tx_meta_table; tx_activity_table; account_meta_table].

(** [build_meta_schema]: [add] is [KvSchema::table]. *)
Fixpoint add_tables {S} (add : S → TableConfig → result string S) (s : S) (ts : list TableConfig)
    : result string S :=
  match ts with
  | [] => Ok s
  | t :: ts' => s ← add s t; add_tables add s ts'
  end.
Definition build_meta_schema {S} (new : S) (add : S → TableConfig → result string S) : result string S :=
  add_tables add new meta_tables.

(** When a cell has a column's type, and a row its table's. *)
Definition cell_typed (t : DataType) (c : CellValue) : Prop :=
  match t, c with
  | DUInt64, UInt64 x => is_u64 x
  | DFixedSizeBinary n, FixedBinary b => length b = n
  | DUtf8, Utf8 _ => True
  | DTimestampMicros, Timestamp m => - 2 ^ 63 ≤ m < 2 ^ 63
  | _, _ => False
  end.
Definition row_typed (ts : list TableConfig) (r : SqlRow) : Prop :=
  ∃ t, t ∈ ts ∧ t_name t = table r ∧ Forall2 cell_typed (col_type <$> t_columns t) (values r).

(** The cells of a row in the columns of the table's primary key. *)
Definition column_index (t : TableConfig) (name : string) : option nat :=
  fst <$> list_find (λ c, col_name c = name) (t_columns t).
Definition primary_key (t : TableConfig) (r : SqlRow) : option (list CellValue) :=
  mapM (λ name, i ← column_index t name; values r !! i) (t_primary_key t).

#[export] Instance CellValue_eq_dec : EqDecision CellValue.
Proof. solve_decision. Defined.

Definition rows_of (t : TableConfig) (rows : list SqlRow) : list SqlRow :=
  filter (λ r, table r = t_name t) rows.

(** ** The client *)

(** [enum ReadError]. *)
Inductive ReadError : Type :=
| StoreError
| SimplexFailed
| SqlSchema (why : string)
| SqlFailed
| SqlRowShape (why : string)
| HexMalformed (why : string)
| CodecFailed (e : CodecError).

(** A [RecordBatch] of one column: a string column with nulls, or another
    type with its number of rows. *)
Inductive RecordBatch : Type :=
| StringColumn (cells : list (option string))
| OtherColumn (rows : nat).
Definition num_rows (b : RecordBatch) : nat :=
  match b with StringColumn cells => length cells | OtherColumn n => n end.

Section client.
Context `{CertificateLib}.

Definition verify_signed_transaction_digest (b : bytes) (d : digest) : result ReadError () :=
  if decide (length b < Transaction_SIZE)%nat then Err (SqlRowShape "shorter than the transaction body")
  else
    let actual := hash (take Transaction_SIZE b) in
    if negb (bool_decide (fwrite actual = fwrite d))
    then Err (SqlRowShape "tx_meta.body_hex transaction body does not match tx_digest")
    else Ok ().

(** The loop of [transaction_bytes] over the batches of the query. *)
Fixpoint first_body (d : digest) (batches : list RecordBatch) : result ReadError (option bytes) :=
  match batches with
  | [] => Ok None
  | batch :: batches' =>
      if (num_rows batch =? 0)%nat then first_body d batches'
      else
        match batch with
        | OtherColumn _ => Err (SqlRowShape "tx_meta.body_hex must be Utf8")
        | StringColumn cells =>
            match cells with
            | Some body_hex :: _ =>
                b ← map_err HexMalformed (decode_hex body_hex);
                _ ← verify_signed_transaction_digest b d;
                Ok (Some b)
            | _ => Err (SqlRowShape "tx_meta.body_hex must not be null")
            end
        end
  end.

(** [struct IndexerClient]: what the sources ask of the two stores. *)
Record IndexerClient := mkIndexerClient {
  ic_get_block : digest → result ReadError (option (Sealed Header * bytes));
  ic_get_header : digest → result ReadError (option (Sealed Header));
  ic_finalized_by_height : Z → result ReadError (option CertifiedHeader);
  ic_latest_finalized : result ReadError (option CertifiedHeader);
  ic_get_block_raw : digest → result ReadError (option bytes);
  ic_finalized_by_view : Z → result ReadError (option (Finalization * CertifiedHeader));
  ic_finalized_by_view_raw : Z → result ReadError (option bytes);
  ic_notarized : Z → result ReadError (option (Notarization * CertifiedHeader));
  ic_notarized_raw : Z → result ReadError (option bytes);
  ic_sql : string → result ReadError (list RecordBatch)
}.

(** [IndexerClient::try_new]: the context [register] makes of the schema, over
    the reads of the block store. *)
Definition try_new {S} (new : S) (add : S → TableConfig → result string S)
    (register : S → result ReadError (string → result ReadError (list RecordBatch)))
    (blocks : (string → result ReadError (list RecordBatch)) → IndexerClient) : result ReadError IndexerClient :=
  s ← map_err SqlSchema (build_meta_schema new add);
  sql ← register s;
  Ok (blocks sql).

Definition transaction_query (d : digest) : string :=
  "SELECT body_hex FROM tx_meta WHERE tx_digest = X'" +:+ hex_lower (fwrite d) +:+ "' LIMIT 1".
Definition transaction_bytes (self : IndexerClient) (d : digest) : result ReadError (option bytes) :=
  batches ← ic_sql self (transaction_query d);
  first_body d batches.

(** [codec::from_bytes] reads a prefix of the bytes. *)
Definition from_bytes {A} (r : reader A) (b : bytes) : result CodecError A :=
  '(a, _) ← r b; Ok a.
Definition transaction (self : IndexerClient) (d : digest) : result ReadError (option SignedTransaction) :=
  o ← transaction_bytes self d;
  match o with
  | None => Ok None
  | Some b => t ← map_err CodecFailed (from_bytes read_signed b); Ok (Some t)
  end.

(** The artifacts of a view, decoded and as bytes. *)
Definition block_bytes_by_digest (self : IndexerClient) (d : digest) : result ReadError (option bytes) :=
  ic_get_block_raw self d.
Definition finalization_bytes (self : IndexerClient) (view : Z) : result ReadError (option bytes) :=
  ic_finalized_by_view_raw self view.
Definition finalization_by_view (self : IndexerClient) (view : Z)
    : result ReadError (option (Finalization * CertifiedHeader)) :=
  ic_finalized_by_view self view.
Definition notarization_bytes (self : IndexerClient) (view : Z) : result ReadError (option bytes) :=
  ic_notarized_raw self view.
Definition notarization_by_view (self : IndexerClient) (view : Z)
    : result ReadError (option (Notarization * CertifiedHeader)) :=
  ic_notarized self view.

(** [CertifiedHeader::block_digest]. *)
Definition block_digest (h : CertifiedHeader) : digest := commitment_block (ch_commitment h).

Definition header_by_digest (self : IndexerClient) (d : digest) : result ReadError (option (Sealed Header)) :=
  ic_get_header self d.
Definition block_by_digest (self : IndexerClient) (d : digest) (cfg : BlockCfg)
    : result ReadError (option SealedBlock) :=
  o ← ic_get_block self d;
  match o with
  | None => Ok None
  | Some (hdr, bdy) =>
      b ← map_err CodecFailed (decode_simplex_block_parts hdr bdy cfg); Ok (Some b)
  end.
Definition certified_header_by_height (self : IndexerClient) (h : Z)
    : result ReadError (option CertifiedHeader) :=
  ic_finalized_by_height self h.
Definition digest_by_height (self : IndexerClient) (h : Z) : result ReadError (option digest) :=
  o ← certified_header_by_height self h; Ok (option_map block_digest o).
Definition block_by_height (self : IndexerClient) (h : Z) (cfg : BlockCfg)
    : result ReadError (option SealedBlock) :=
  o ← digest_by_height self h;
  match o with None => Ok None | Some d => block_by_digest self d cfg end.
Definition latest_certified_header (self : IndexerClient) : result ReadError (option CertifiedHeader) :=
  ic_latest_finalized self.
Definition latest_height (self : IndexerClient) : result ReadError (option Z) :=
  o ← latest_certified_header self; Ok (option_map (λ h, height (inner (ch_header h))) o).
Definition latest_block (self : IndexerClient) (cfg : BlockCfg) : result ReadError (option SealedBlock) :=
  o ← latest_certified_header self;
  match o with None => Ok None | Some h => block_by_digest self (block_digest h) cfg end.

End client.

(** ** Lemmas on rows *)

(** One goal per cell of a row. *)
Ltac cells := repeat match goal with |- Forall2 _ _ _ => constructor end; cbn.

Section rows.
Context `{LazyKey} `{ConsensusLib}.

Lemma from_public_key_bytes_length b k : from_public_key_bytes b = Some k → length k = 32%nat.
Proof.
  unfold from_public_key_bytes. destruct (decide (length b ≠ TransactionPublicKey_SIZE)) as [|Hl%dec_stable]; [done|].
  repeat case_decide; intros; simplify_eq; [|apply sha256_length].
  rewrite length_take, length_drop, Hl. done.
Qed.

Lemma slice_u64 lo b : is_u64 (from_be (slice lo (lo + 8) b)).
Proof.
  apply is_u64_pow. pose proof (from_be_bound (slice lo (lo + 8) b)) as Hb.
  assert (length (slice lo (lo + 8) b) ≤ 8)%nat as Hl by (unfold slice; rewrite length_take; lia).
  assert (256 ^ Z.of_nat (length (slice lo (lo + 8) b)) ≤ 256 ^ 8) by (apply Z.pow_le_mono_r; lia). lia.
Qed.

Lemma digest_length (d : digest) : length (fwrite d) = 32%nat.
Proof. rewrite fwrite_length. apply digest_size. Qed.

(** What [index_transaction] finds has the declared widths. *)
Record indexed_typed (i : nat) (tx : IndexedTransaction) : Prop := {
  it_index : block_index tx = Z.of_nat i;
  it_sender : length (ix_sender tx) = 32%nat;
  it_to : length (ix_to tx) = 32%nat;
  it_value : is_u64 (ix_value tx);
  it_nonce : is_u64 (ix_nonce tx)
}.

Lemma index_transaction_typed i l tx :
  index_transaction i l = Ret (Some tx) → indexed_typed i tx.
Proof.
  unfold index_transaction. intros (b & _ & Hk)%bind_Ret. case_decide as Hl; [done|].
  destruct (from_public_key_bytes _) as [s|] eqn:Es; [|done]. case_match; [done|]. injection Hk as <-.
  split; cbn [block_index ix_sender ix_to ix_value ix_nonce].
  - done.
  - by eapply from_public_key_bytes_length.
  - unfold slice. rewrite length_take, length_drop, length_take.
    change Transaction_SIZE with 82%nat in *. change TransactionPublicKey_SIZE with 34%nat.
    change AccountKey_SIZE with 32%nat. lia.
  - apply slice_u64.
  - apply slice_u64.
Qed.

(** The rows of one transaction. *)
Lemma transaction_rows_typed h start i tx rows :
  is_u64 h → indexed_typed i tx → (∃ j, transaction_rows h start j tx = Ret rows) →
  Forall (row_typed meta_tables) rows.
Proof.
  intros Hh [Hi Hs Ht Hv Hn] [j Hr]. unfold transaction_rows in Hr.
  apply bind_Ret in Hr as (idx & Hidx & Hr). destruct (Z.ltb_spec (block_index tx) (2 ^ 32)); [|done].
  injection Hidx as <-. rewrite Hi in *. injection Hr as <-.
  assert (is_u64 (Z.of_nat i)) by (unfold is_u64, u64_max; lia).
  assert (is_u64 0 ∧ is_u64 1) as [? ?] by (unfold is_u64, u64_max; lia).
  pose proof (digest_length (ix_digest tx)).
  assert (∀ account role counterparty,
    length account = 32%nat → length counterparty = 32%nat →
    row_typed meta_tables (encode_tx_activity_row (mkTxActivity account role h (Z.of_nat i)
      (fwrite (ix_digest tx)) counterparty (ix_value tx) (ix_nonce tx)))) as Hact.
  { intros a r c Ha Hc. exists tx_activity_table. split; [right; right; left|]. split; [done|].
    cells; try done. by destruct r. }
  repeat constructor.
  - exists tx_meta_table. split; [right; left|]. split; [done|].
    cells; try done. apply wrap64_bound.
  - by apply Hact.
  - case_decide; repeat constructor. by apply Hact.
Qed.

Lemma account_row_typed start i op :
  (∀ k v, op = Update k v → length k = 32%nat) → Forall (row_typed meta_tables) (account_row start i op).
Proof.
  intros Hk. destruct op as [k|k v|m f]; repeat constructor.
  exists account_meta_table. split; [do 3 right; left|]. split; [done|].
  cells; [by eapply Hk|apply (slice_u64 0)|apply (slice_u64 8)|apply (slice_u64 16)|apply wrap64_bound].
Qed.

(** ** Primary keys *)

Definition activity_key (account : bytes) (h i : Z) (r : TxActivityRole) : list CellValue :=
  [FixedBinary account; UInt64 h; UInt64 i; UInt64 (role_as_u64 r)].

Lemma activity_primary_key r :
  primary_key tx_activity_table (encode_tx_activity_row r)
  = Some (activity_key (ta_account r) (ta_height r) (ta_index r) (ta_role r)).
Proof. reflexivity. Qed.

Lemma mapM_run_inv {B} (l : list (run B)) (out : list B) :
  mapM (λ r, r) l = Ret out → l = Ret <$> out.
Proof.
  revert out. induction l as [|r l IH]; intros out; cbn; [by intros [= <-]|].
  intros (b & -> & (bs & Hbs & [= <-])%bind_Ret)%bind_Ret. cbn. f_equal. by apply IH.
Qed.

(** The transaction index of an activity key. *)
Definition activity_label (k : list CellValue) : option Z :=
  match k with [_; _; UInt64 i; _] => Some i | _ => None end.

(** Lists of keys that carry distinct labels are disjoint. *)
Lemma NoDup_labelled {A} (f : A → option Z) (ls : list (list A)) (labels : list Z) :
  NoDup labels → Forall2 (λ l i, NoDup l ∧ Forall (λ a, f a = Some i) l) ls labels → NoDup (concat ls).
Proof.
  intros Hnd Hf. revert Hnd. induction Hf as [|l i ls labels [Hl Hi] Hf IH]; intros Hnd; cbn; [constructor|].
  apply NoDup_cons in Hnd as [Hni Hnd]. apply NoDup_app. split_and!; [done| |by apply IH].
  intros a Ha Hc. apply list_elem_of_In, in_concat in Hc as (l' & Hl'%list_elem_of_In & Ha'%list_elem_of_In).
  apply list_elem_of_lookup in Hl' as [j Hj].
  destruct (Forall2_lookup_l _ _ _ _ _ Hf Hj) as (i' & Hi' & _ & Hall).
  rewrite Forall_forall in Hi, Hall. specialize (Hi _ Ha). specialize (Hall _ Ha').
  apply Hni. assert (i = i') as -> by congruence. by eapply list_elem_of_lookup_2.
Qed.

(** Selected items keep the order of their positions. *)
Lemma omap_index_NoDup {A} (f : A → Z) (l : list (option A)) k :
  (∀ i a, l !! i = Some (Some a) → f a = k + Z.of_nat i) →
  NoDup (f <$> omap (λ o, o) l) ∧ Forall (λ x, k ≤ x) (f <$> omap (λ o, o) l).
Proof.
  revert k. induction l as [|o l IH]; intros k Hf; cbn; [split; constructor|].
  destruct (IH (k + 1)) as [Hnd Hle].
  { intros i a Ha. rewrite (Hf (S i) a Ha). lia. }
  assert (Forall (λ x, k ≤ x) (f <$> omap (λ o, o) l)) as Hle'
    by (eapply Forall_impl; [done|]; cbn; lia).
  destruct o as [a|]; cbn; [|done]. pose proof (Hf 0%nat a eq_refl) as Ha. cbn in Ha.
  split; constructor; try done; [|lia].
  intros Hin. rewrite Forall_forall in Hle. specialize (Hle _ Hin). lia.
Qed.

(** The keys of the activity rows of one transaction. *)
Lemma transaction_rows_keys h start j tx rows :
  transaction_rows h start j tx = Ret rows →
  ∃ keys, mapM (primary_key tx_activity_table) (rows_of tx_activity_table rows) = Some keys ∧
    NoDup keys ∧
    Forall (λ k, activity_label k = Some (block_index tx)) keys.
Proof.
  intros (idx & Hidx & Hr)%bind_Ret. destruct (block_index tx <? 2 ^ 32); [|done]. injection Hidx as <-. injection Hr as <-.
  unfold rows_of. rewrite filter_cons_False by done. rewrite filter_cons_True by done.
  case_decide as Hd.
  - rewrite filter_nil. eexists. split; [reflexivity|]. split; repeat constructor. by apply not_elem_of_nil.
  - rewrite filter_cons_True, filter_nil by done. eexists. split; [reflexivity|].
    split; repeat constructor; [|by apply not_elem_of_nil].
    intros [= Hs]%list_elem_of_singleton.
Qed.

End rows.

(** ** The query engine *)

Section lookup.
Context `{CertificateLib}.

(** The bodies a table answers the client's query with: the [body_hex] cells
    of the [tx_meta] rows that carry the digest. *)
Definition matching_bodies (rows : list SqlRow) (d : digest) : list (option string) :=
  omap (λ r, match values r with
             | [FixedBinary x; _; Utf8 body] => if decide (x = fwrite d) then Some (Some body) else None
             | _ => None
             end) (rows_of tx_meta_table rows).

(** A query engine answers from the rows of the table, in batches of any
    size, at most one row in all. *)
Definition answers_query (sql : string → result ReadError (list RecordBatch)) (rows : list SqlRow) : Prop :=
  ∀ d, ∃ batches, sql (transaction_query d) = Ok (StringColumn <$> batches) ∧
    concat batches = take 1 (matching_bodies rows d).

Lemma first_body_concat d (batches : list (list (option string))) :
  first_body d (StringColumn <$> batches)
  = match concat batches with
    | [] => Ok None
    | Some body :: _ =>
        b ← map_err HexMalformed (decode_hex body);
        _ ← verify_signed_transaction_digest b d; Ok (Some b)
    | None :: _ => Err (SqlRowShape "tx_meta.body_hex must not be null")
    end.
Proof.
  induction batches as [|[|[body|] cells] batches IH]; cbn; [done|exact IH|done|done].
Qed.

Lemma first_body_sound d batches b :
  first_body d batches = Ok (Some b) →
  (Transaction_SIZE ≤ length b)%nat ∧ hash (take Transaction_SIZE b) = d.
Proof.
  induction batches as [|batch batches IH]; cbn; [done|]. case_match; [done|].
  destruct batch as [[|[body|] cells]|]; try done.
  destruct (decode_hex body) as [x|]; cbn; [|done].
  unfold verify_signed_transaction_digest. destruct (decide (length x < Transaction_SIZE)%nat) as [|Hl]; [done|].
  destruct (bool_decide_reflect (fwrite (hash (take Transaction_SIZE x)) = fwrite d)) as [Hd|]; cbn; [|done].
  intros [= <-]. apply fwrite_digest_inj in Hd. change Transaction_SIZE with 82%nat in *. split; [lia|done].
Qed.

Lemma read_signed_digest b t rest :
  (Transaction_SIZE ≤ length b)%nat → read_signed b = Ok (t, rest) →
  message_digest t = hash (take Transaction_SIZE b).
Proof.
  intros _ Hr. apply read_signed_canonical in Hr as [[Hwf Hd _] ->]. rewrite Hd.
  unfold write_signed, write_sealed_tx. rewrite <- app_assoc, take_app_length'; [done|].
  by rewrite write_tx_length.
Qed.

(** The transaction rows of a block. *)
Lemma matching_bodies_app a b d : matching_bodies (a ++ b) d = matching_bodies a d ++ matching_bodies b d.
Proof. unfold matching_bodies, rows_of. by rewrite filter_app, omap_app. Qed.

Definition body_of (d : digest) (p : LazySignedTransaction * PreparedTransfer) : option (option string) :=
  if decide (fwrite (pt_digest p.2) = fwrite d) then Some (Some (hex_lower (lst_bytes p.1))) else None.

Lemma matching_bodies_imap {A} (g : nat → A → list SqlRow) (f : A → option (option string)) ps d :
  (∀ i p, matching_bodies (g i p) d = option_list (f p)) →
  matching_bodies (concat (imap g ps)) d = omap f ps.
Proof.
  revert g. induction ps as [|p ps IH]; intros g Hg; [done|].
  change (concat (imap g (p :: ps))) with (g 0%nat p ++ concat (imap (g ∘ S) ps)).
  rewrite matching_bodies_app, Hg, (IH (g ∘ S)) by (intros; apply (Hg (S i))).
  cbn. by destruct (f p).
Qed.

Lemma transfer_rows_bodies h start i p d :
  matching_bodies (transfer_rows h start i p) d = option_list (body_of d p).
Proof.
  destruct p as [l tr]. unfold matching_bodies, rows_of, body_of, transfer_rows.
  cbn [fst snd]. rewrite filter_app.
  rewrite filter_cons_True by done. rewrite filter_cons_False by done. rewrite filter_nil.
  rewrite omap_app. assert (∀ r : list SqlRow, (r = [] ∨ ∃ x, r = [encode_tx_activity_row x]) →
    omap (λ r, match values r with
             | [FixedBinary x; _; Utf8 body] => if decide (x = fwrite d) then Some (Some body) else None
             | _ => None
             end) (filter (λ r, table r = t_name tx_meta_table) r) = []) as Hnone.
  { intros r [->|[x ->]]; [done|]. by rewrite filter_cons_False, filter_nil by done. }
  rewrite Hnone; [|case_decide; [by left|right; eauto]]. rewrite app_nil_r. cbn.
  by case_decide.
Qed.

Lemma block_bodies blk n micros h start ps d :
  matching_bodies (block_row blk n micros :: concat (imap (transfer_rows h start) ps)) d
  = omap (body_of d) ps.
Proof.
  assert (matching_bodies [block_row blk n micros] d = []) as Hb.
  { unfold matching_bodies, rows_of. by rewrite filter_cons_False, filter_nil by done. }
  change (block_row blk n micros :: ?l) with ([block_row blk n micros] ++ l).
  rewrite matching_bodies_app, Hb. apply matching_bodies_imap. intros. apply transfer_rows_bodies.
Qed.

(** The first transaction of the block with the digest. *)
Lemma omap_body_first d (ps : list (LazySignedTransaction * PreparedTransfer)) i p :
  ps !! i = Some p → pt_digest p.2 = d →
  ∃ j q, ps !! j = Some q ∧ pt_digest q.2 = d ∧
    take 1 (omap (body_of d) ps) = [Some (hex_lower (lst_bytes q.1))].
Proof.
  revert i. induction ps as [|q ps IH]; intros [|i] Hi Hd; simplify_eq/=.
  - exists 0%nat, p. split_and!; [done..|]. unfold body_of. by rewrite decide_True.
  - destruct (decide (fwrite (pt_digest q.2) = fwrite (pt_digest p.2))) as [E|E].
    + exists 0%nat, q. split_and!; [done|by apply fwrite_digest_inj|]. unfold body_of. by rewrite decide_True.
    + destruct (IH i Hi eq_refl) as (j & q' & Hj & Hq & Ht). exists (S j), q'. split_and!; [done..|].
      unfold body_of at 1. by rewrite decide_False.
Qed.

(** A body that hashes to the digest is returned and decodes. *)
Lemma transaction_found self d (t : SignedTransaction) batches :
  signed_wf t → message_digest t = d →
  ic_sql self (transaction_query d) = Ok (StringColumn <$> batches) →
  concat batches = [Some (hex_lower (write_signed t))] →
  transaction_bytes self d = Ok (Some (write_signed t)) ∧
  ∃ t', transaction self d = Ok (Some t') ∧ t ≡ t'.
Proof.
  intros Hwf Hd Hsql Hc.
  assert (transaction_bytes self d = Ok (Some (write_signed t))) as Hb.
  { unfold transaction_bytes. rewrite Hsql. cbn [mbind result_bind].
    rewrite first_body_concat, Hc, decode_hex_lower. cbn [map_err mbind result_bind].
    unfold verify_signed_transaction_digest. destruct Hwf as [Htx Hseal _].
    unfold write_signed, write_sealed_tx. pose proof (write_tx_length _ Htx) as Hl.
    rewrite decide_False by (rewrite length_app; unfold st_value in Hl; lia).
    rewrite take_app_length' by done.
    rewrite bool_decide_eq_true_2; [done|]. rewrite <- Hd, Hseal. done. }
  split; [done|]. unfold transaction. rewrite Hb. cbn [mbind result_bind].
  destruct (read_write_signed t [] Hwf) as (t' & Hr & Heq & _). rewrite app_nil_r in Hr.
  unfold from_bytes. rewrite Hr. cbn. by exists t'.
Qed.

End lookup.

(** ** Properties *)

Section typing.
Context `{LazyKey} `{ConsensusLib}.

Lemma mapM_option_app {A B} (f : A → option B) (l k : list A) (xs ys : list B) :
  mapM f l = Some xs → mapM f k = Some ys → mapM f (l ++ k) = Some (xs ++ ys).
Proof. rewrite !mapM_Some. by apply Forall2_app. Qed.

(** The keys of the rows of all transactions. *)
Lemma activity_keys_distinct (rowss : list (list SqlRow)) (labels : list Z) :
  NoDup labels →
  Forall2 (λ rows i, ∃ keys,
    mapM (primary_key tx_activity_table) (rows_of tx_activity_table rows) = Some keys ∧ NoDup keys ∧
    Forall (λ k, activity_label k = Some i) keys) rowss labels →
  ∃ keys, mapM (primary_key tx_activity_table) (rows_of tx_activity_table (concat rowss)) = Some keys ∧
    NoDup keys.
Proof.
  intros Hnd Hf.
  assert (∃ kss, mapM (primary_key tx_activity_table) (rows_of tx_activity_table (concat rowss)) = Some (concat kss) ∧
    Forall2 (λ l i, NoDup l ∧ Forall (λ k, activity_label k = Some i) l)
      kss labels) as (kss & Hk & Hall).
  { clear Hnd. induction Hf as [|rows i rowss labels (keys & Hk & Hnd & Hl) _ (kss & IH & Hall)].
    - exists []. by split.
    - exists (keys :: kss). split; [|by constructor]. cbn [concat]. unfold rows_of in *.
      rewrite filter_app. by apply mapM_option_app. }
  exists (concat kss). split; [done|]. by apply (NoDup_labelled activity_label kss labels).
Qed.

(** What the row loop has found. *)
Lemma indexed_positions (blk : SealedBlock) found i tx :
  mapM (λ r, r) (imap index_transaction (body (inner blk))) = Ret found →
  found !! i = Some (Some tx) → indexed_typed i tx.
Proof.
  intros Hm%mapM_run_inv Hi.
  assert ((imap index_transaction (body (inner blk))) !! i = Some (Ret (Some tx))) as Hx
    by (rewrite Hm, list_lookup_fmap, Hi; done).
  rewrite list_lookup_imap in Hx. destruct (body (inner blk) !! i) as [l|] eqn:El; [|done].
  cbn in Hx. injection Hx as Hx. by eapply index_transaction_typed.
Qed.

(** What a successful encoding consists of. *)
Lemma encoded_rows_inv blk micros rows :
  encode_indexed_block_rows_at blk micros = Ret rows →
  ∃ found start rowss, let txs := omap (λ o, o) found in let h := height (header (inner blk)) in
    mapM (λ r, r) (imap index_transaction (body (inner blk))) = Ret found ∧
    sql rows = encode_block_meta_row (mkBlockMeta h (fwrite (seal blk)) (zlen txs)
                 (fwrite (transactions_root (header (inner blk))))
                 (wrap64 (range_end (transactions_range (header (inner blk))) - 1)) 0 micros) :: concat rowss ∧
    length rowss = length txs ∧
    (∀ i r, rowss !! i = Some r → ∃ tx, txs !! i = Some tx ∧ transaction_rows h start i tx = Ret r) ∧
    (∀ tx, tx ∈ txs → ∃ i, indexed_typed i tx) ∧ zlen txs ≤ zlen (body (inner blk)).
Proof.
  intros (found & Hfound & Hk)%bind_Ret.
  apply bind_Ret in Hk as (start & _ & Hk). apply bind_Ret in Hk as (rowss & Hrows%mapM_run_inv & Hk).
  injection Hk as <-. exists found, start, rowss. cbn [sql]. split_and!; [done|done| | | |].
  - apply (f_equal length) in Hrows. rewrite length_imap, length_fmap in Hrows. lia.
  - intros i r Hi.
    assert (imap (transaction_rows (height (header (inner blk))) start) (omap (λ o, o) found) !! i = Some (Ret r)) as Hx
      by (rewrite Hrows, list_lookup_fmap, Hi; done).
    rewrite list_lookup_imap in Hx. destruct (omap (λ o, o) found !! i) as [tx|]; [|done]. injection Hx as Hx. by exists tx.
  - intros tx (o & Ho & ->)%list_elem_of_omap. apply list_elem_of_lookup in Ho as [i Hi].
    exists i. by eapply indexed_positions.
  - apply mapM_run_inv in Hfound. apply (f_equal length) in Hfound.
    rewrite length_imap, length_fmap in Hfound. unfold zlen. rewrite Hfound.
    assert (∀ l : list (option IndexedTransaction), (length (omap (λ o, o) l) ≤ length l)%nat) as Hom
      by (induction l as [|[]]; cbn; lia).
    specialize (Hom found). lia.
Qed.

(** The rows of a block and of a state delta have the declared types. *)
Lemma block_rows_typed blk micros rows :
  is_u64 (height (header (inner blk))) → - 2 ^ 63 ≤ micros < 2 ^ 63 → zlen (body (inner blk)) ≤ u64_max →
  encode_indexed_block_rows_at blk micros = Ret rows → Forall (row_typed meta_tables) (sql rows).
Proof.
  intros Hh Hmicros Hlen (found & start & rowss & _ & -> & _ & Hr & Htyped & Hb)%encoded_rows_inv. constructor.
  - exists block_meta_table. split; [left|]. split; [done|]. pose proof (zlen_nonneg (omap (λ o, o) found)).
    cells; try done; try apply digest_length; try apply wrap64_bound; unfold is_u64, u64_max in *; lia.
  - apply Forall_concat, Forall_lookup. intros i r Hi. destruct (Hr i r Hi) as (tx & Htx & Hrow).
    destruct (Htyped tx) as [j Hj]; [by eapply list_elem_of_lookup_2|].
    eapply (transaction_rows_typed _ start j tx); [done..|]. by exists i.
Qed.

Lemma account_rows_typed delta start :
  (∀ k v, Update k v ∈ delta → length k = 32%nat) → Forall (row_typed meta_tables) (account_rows delta start).
Proof.
  intros Hd. unfold account_rows. apply Forall_concat, Forall_lookup. intros i r Hi.
  rewrite list_lookup_imap in Hi. destruct (delta !! i) as [op|] eqn:E; [|done]. injection Hi as <-.
  apply account_row_typed. intros k v ->. eapply Hd. by eapply list_elem_of_lookup_2.
Qed.

(** C33. The publisher's rows have the declared types: every row emitted for a
    block, whatever its body holds, belongs to a declared table, has exactly
    its columns, integers within their width, binary cells of 32 bytes and no
    null; no two activity rows of a block share a primary key; and the account
    rows of any state delta over 32-byte keys are typed as well. *)
Theorem index_rows_typed blk micros rows :
  is_u64 (height (header (inner blk))) → - 2 ^ 63 ≤ micros < 2 ^ 63 →
  zlen (body (inner blk)) ≤ u64_max →
  encode_indexed_block_rows_at blk micros = Ret rows →
  Forall (row_typed meta_tables) (sql rows) ∧
  (∃ keys, mapM (primary_key tx_activity_table) (rows_of tx_activity_table (sql rows)) = Some keys ∧
     NoDup keys) ∧
  (∀ delta start, (∀ k v, Update k v ∈ delta → length k = 32%nat) →
     Forall (row_typed meta_tables) (account_rows delta start)).
Proof.
  intros Hh Hmicros Hlen Hrows. split_and!; [by eapply block_rows_typed| |intros; by apply account_rows_typed].
  apply encoded_rows_inv in Hrows as (found & start & rowss & Hfound & -> & Hl & Hr & _).
  unfold rows_of. rewrite filter_cons_False by done. fold (rows_of tx_activity_table (concat rowss)).
  apply (activity_keys_distinct rowss (block_index <$> omap (λ o, o) found)).
  - apply (omap_index_NoDup block_index found 0). intros i tx Hi.
    rewrite Z.add_0_l. by eapply it_index, indexed_positions.
  - apply Forall2_same_length_lookup_2; [by rewrite length_fmap|].
    intros i r b Hi Hb. destruct (Hr i r Hi) as (tx & Htx & Hrow).
    rewrite list_lookup_fmap, Htx in Hb. injection Hb as <-. by eapply transaction_rows_keys.
Qed.
End typing.

Section lookup_properties.
Context `{CertificateLib}.

(** C32. Indexed transactions are found: once the rows of a block with
    executable body are in the table, the client's query for the digest of any
    of its transactions returns the bytes of a transaction of that block with
    that digest, and decodes to it.  Conversely, whatever the store answers,
    a transaction the client returns has the digest it asked for, so a
    corrupted or hostile index cannot substitute another one.  Its block is
    returned under the block's digest and, through the certified header, by
    height and as the latest block. *)
Theorem index_lookup_roundtrip self blk ts micros start rows others cfg c :
  let txs := body (inner blk) in
  Forall lst_wf txs → body_transfers txs = Some ts →
  cfg_lo cfg ≤ zlen txs ≤ cfg_hi cfg → zlen txs < 2 ^ 32 → 0 ≤ start →
  range_end (transactions_range (header (inner blk))) = start + zlen txs + 1 →
  start + zlen txs + 1 ≤ u64_max →
  encode_indexed_block_rows_at blk micros = Ret rows →
  answers_query (ic_sql self) (others ++ sql rows) →
  (∀ i tr, ts !! i = Some tr → matching_bodies others (pt_digest tr) = [] →
     ∃ j l t t', txs !! j = Some l ∧ lst_get l = Some t ∧ message_digest t = pt_digest tr ∧
       transaction_bytes self (pt_digest tr) = Ok (Some (lst_bytes l)) ∧
       transaction self (pt_digest tr) = Ok (Some t') ∧ t ≡ t') ∧
  (∀ hostile d t, transaction hostile d = Ok (Some t) → message_digest t = d) ∧
  (∀ hdr bdy h, commitment_block c = seal blk → encode_simplex_block_parts blk = Ret (hdr, bdy) →
     ic_get_block self (seal blk) = Ok (Some (hdr, bdy)) →
     ic_finalized_by_height self h = Ok (Some (certified_new c blk)) →
     ic_latest_finalized self = Ok (Some (certified_new c blk)) →
     ∃ blk', block_by_height self h cfg = Ok (Some blk') ∧ latest_block self cfg = Ok (Some blk') ∧
       latest_height self = Ok (Some (height (header (inner blk)))) ∧
       header (inner blk') = header (inner blk) ∧ seal blk' = seal blk ∧
       Forall2 lst_same txs (body (inner blk'))).
Proof.
  intros txs Hwf Hts Hcfg Hn Hst0 Hend Hmax Hrows Hsql.
  rewrite (block_rows_spec blk ts start micros) in Hrows by done. injection Hrows as <-. cbn [sql] in Hsql.
  apply body_transfers_length in Hts as Hlen. split_and!.
  - intros i tr Hi Hoth. destruct (lookup_lt_is_Some_2 txs i) as [l Hl].
    { apply lookup_lt_Some in Hi. lia. }
    destruct (omap_body_first (pt_digest tr) (zip txs ts) i (l, tr)) as (j & [l' tr'] & Hj & Hd & Ht).
    { apply lookup_zip_Some. by split. }
    { done. }
    cbn [fst snd] in *. destruct (body_transfers_lookup _ _ _ _ Hts Hj) as (Hl' & t & Hg & Hp).
    cbn [fst snd] in *. destruct (Hsql (pt_digest tr)) as (batches & Hq & Hc).
    rewrite matching_bodies_app, Hoth, block_bodies in Hc. cbn [app] in Hc.
    unfold txs in Ht. rewrite Ht in Hc.
    assert (lst_wf l') as Hwl by (rewrite Forall_forall in Hwf; by eapply Hwf, list_elem_of_lookup_2).
    destruct (lst_get_wf l' t Hwl Hg) as [Hst Hb].
    assert (message_digest t = pt_digest tr') as Hmd.
    { unfold prepare_transfer in Hp. destruct (account_key_from_sender _); [|done]. by injection Hp as <-. }
    rewrite Hb in Hc. destruct (transaction_found self (pt_digest tr) t batches)
      as (Hbytes & t' & Ht' & Heq); [done|congruence|done|done|].
    exists j, l', t, t'. split_and!; try done; [congruence|]. by rewrite Hb.
  - intros hostile d t. unfold transaction, transaction_bytes.
    intros (o & (bs & _ & Hf)%bind_Ok & Hk)%bind_Ok. destruct o as [b|]; [|done].
    apply first_body_sound in Hf as [Hlb <-]. apply bind_Ok in Hk as (t0 & Hd & [= <-]).
    unfold from_bytes in Hd. destruct (read_signed b) as [[x rest]|] eqn:Er; cbn in Hd; simplify_eq.
    by eapply read_signed_digest.
  - intros hdr bdy h Hc He Hget Hh Hlat.
    destruct (simplex_block_parts_roundtrip cfg blk Hwf Hcfg Hn) as (hdr' & bdy' & blk' & He' & Hd & Hhd & Hseal & Hsame).
    rewrite He in He'. injection He' as <- <-. exists blk'.
    assert (block_by_digest self (seal blk) cfg = Ok (Some blk')) as Hbd.
    { unfold block_by_digest. rewrite Hget. cbn [mbind result_bind]. by rewrite Hd. }
    split_and!; try done.
    + unfold block_by_height, digest_by_height, certified_header_by_height. rewrite Hh.
      cbn [mbind result_bind option_map]. unfold block_digest. cbn [ch_commitment certified_new]. by rewrite Hc.
    + unfold latest_block, latest_certified_header. rewrite Hlat.
      cbn [mbind result_bind]. unfold block_digest. cbn [ch_commitment certified_new]. by rewrite Hc.
    + unfold latest_height, latest_certified_header. by rewrite Hlat.
Qed.
End lookup_properties.

(** ** Witnesses *)

Definition sample_rows : run IndexedBlockRows := encode_indexed_block_rows_at sample_child 17.

Lemma sample_rows_ok : ∃ rows, sample_rows = Ret rows.
Proof. apply is_ret_inv. vm_compute. reflexivity. Qed.

Lemma index_rows_typed_witness :
  ∃ rows, sample_rows = Ret rows ∧ Forall (row_typed meta_tables) (sql rows).
Proof.
  destruct sample_rows_ok as [rows Hr]. exists rows. split; [exact Hr|].
  apply (index_rows_typed sample_child 17 rows).
  - split; apply Z.leb_le; vm_compute; reflexivity.
  - lia.
  - apply Z.leb_le. vm_compute. reflexivity.
  - exact Hr.
Defined.

(** A query engine over rows: the first row whose digest the query names. *)
Definition conc_sql (rows : list SqlRow) (q : string) : result ReadError (list RecordBatch) :=
  Ok [StringColumn [];
      StringColumn (take 1 (omap (λ r, match values r with
        | [FixedBinary x; _; Utf8 body] =>
            if decide (("SELECT body_hex FROM tx_meta WHERE tx_digest = X'" +:+ hex_lower x +:+ "' LIMIT 1")%string = q)
            then Some (Some body) else None
        | _ => None
        end) (rows_of tx_meta_table rows)))].

Lemma conc_sql_answers `{CertificateLib} rows : answers_query (conc_sql rows) rows.
Proof.
  intros d. exists [[]; take 1 (matching_bodies rows d)]. split; [|cbn; by rewrite app_nil_r].
  unfold conc_sql. cbn [fmap list_fmap]. do 5 f_equal. unfold matching_bodies.
  apply list_omap_ext, Forall_Forall2_diag, Forall_true. intros r.
  destruct (values r) as [|[] [|? [|[] []]]]; try done.
  destruct (decide (b = fwrite d)) as [->|E]; [by rewrite decide_True|]. rewrite decide_False; [done|].
  intros Hq. apply E. unfold transaction_query in Hq. by apply string_app_cancel, hex_lower_inj in Hq.
Qed.

Definition sample_client (rows : IndexedBlockRows) : IndexerClient :=
  mkIndexerClient (λ _, Ok None) (λ _, Ok None) (λ _, Ok None) (Ok None) (λ _, Ok None) (λ _, Ok None)
    (λ _, Ok None) (λ _, Ok None) (λ _, Ok None) (conc_sql (sql rows)).

Lemma sample_child_transfers :
  ∃ (ts : list PreparedTransfer) tr,
    body_transfers (body (inner sample_child)) = Some ts ∧ ts !! 0%nat = Some tr.
Proof.
  assert (match body_transfers (body (inner sample_child)) with Some (_ :: _) => true | _ => false end = true)
    as Hb by (vm_compute; reflexivity).
  destruct (body_transfers (body (inner sample_child))) as [[|tr ts]|]; try discriminate Hb.
  exists (tr :: ts), tr. split; reflexivity.
Qed.

Lemma index_lookup_roundtrip_witness :
  ∃ rows (ts : list PreparedTransfer) tr t', sample_rows = Ret rows ∧ ts !! 0%nat = Some tr ∧
    transaction (sample_client rows) (pt_digest tr) = Ok (Some t').
Proof.
  destruct sample_rows_ok as [rows Hr].
  destruct sample_child_transfers as (ts & tr & Hts & Htr).
  pose proof (index_lookup_roundtrip (H4 := conc_certificate) (sample_client rows) sample_child ts 17
    (range_end (transactions_range (header (inner sample_child))) - zlen (body (inner sample_child)) - 1)
    rows [] (mkCfg 0 10) (seal sample_child) sample_child_body_wf Hts) as Hthm.
  destruct Hthm as [Hfound _];
    [vm_compute; split; discriminate|vm_compute; reflexivity|vm_compute; discriminate|lia
    |apply Z.leb_le; vm_compute; reflexivity|exact Hr|exact (conc_sql_answers (sql rows))|].
  destruct (Hfound 0%nat tr Htr eq_refl) as (j & l & t & t' & _ & _ & _ & _ & Ht & _).
  exists rows, ts, tr, t'. split; [exact Hr|]. split; [exact Htr|exact Ht].
Defined.
