(* ===== verification/CertifiedIndex.v ===== *)
(** * Certificates from consensus to the index's client
    (crates/indexer/src/publisher/certificate.rs, crates/indexer/src/client.rs)

    The certificate reporter hands every certificate to a task of its own and
    every finalized block to a waiting caller; the tasks send into a bounded
    channel, in any order, and the uploader of Certificate.v takes the inputs
    out one by one.  [Reporting] is the state of all of them and [reporting]
    what they can reach.  The theorem follows a finalized block from the
    reporter to the client of Lookup.v: once the tasks and the channel are
    empty the client reads the block under its height and its certificate under
    its view. *)

From stdpp Require Import prelude gmap list strings.
From S2P Require Import Prelude Hex Interfaces Concrete Account Auth Transaction Block Certificate Lookup.

(** [exoware_simplex]: the view of a certificate, and the artifact a certificate
    makes with its header. *)
Class SimplexArtifacts `{CertificateLib} := {
  n_view : Notarization → Z;
  f_view : Finalization → Z;
  encode_notarized : Notarization * CertifiedHeader → bytes;
  encode_finalized : Finalization * CertifiedHeader → bytes
}.

(** ** The reporter *)

Section reporter.
Context `{CertificateLib}.

(** The activities the reporter looks at. *)
Inductive SimplexActivity : Type :=
| ActNotarization (n : Notarization)
| ActFinalization (f : Finalization)
| ActOther.

(** Spawned sends and waiting callers, the channel, the uploader's table and
    the batches the store has taken. *)
Record Reporting := mkReporting {
  rp_tasks : list SimplexInput;
  rp_queue : list SimplexInput;
  rp_pending : gmap bytes PendingBlockCertificates;
  rp_store : list StoreEffect
}.

(** [CertificateReporter::connect]. *)
Definition certificate_connect : Reporting := mkReporting [] [] ∅ [].

(** [dispatch_input] spawns a task. *)
Definition dispatch_input (s : Reporting) (i : SimplexInput) : Reporting :=
  mkReporting (rp_tasks s ++ [i]) (rp_queue s) (rp_pending s) (rp_store s).
Definition certificate_report (s : Reporting) (a : SimplexActivity) : Reporting :=
  match a with
  | ActNotarization n => dispatch_input s (InNotarization n)
  | ActFinalization f => dispatch_input s (InFinalization f)
  | ActOther => s
  end.
Definition publish_block (s : Reporting) (b : SealedBlock) : Reporting :=
  mkReporting (rp_tasks s ++ [InBlock b]) (rp_queue s) (rp_pending s) (rp_store s).

(** A send that gets one of the [buffer] places of the channel. *)
Definition deliver (buffer n : nat) (s : Reporting) : option Reporting :=
  match rp_tasks s !! n with
  | Some i =>
      if decide (length (rp_queue s) < buffer)%nat
      then Some (mkReporting (delete n (rp_tasks s)) (rp_queue s ++ [i]) (rp_pending s) (rp_store s))
      else None
  | None => None
  end.

(** The uploader takes the next input; its batches are in the store when the
    round ends. *)
Definition upload_next (s : Reporting) : option (run Reporting) :=
  match rp_queue s with
  | [] => None
  | i :: queue =>
      Some ('(pending, es) ← uploader_step (rp_pending s) i;
            Ret (mkReporting (rp_tasks s) queue pending (rp_store s ++ es)))
  end.

(** What the reporter can reach, with all that was reported and published. *)
Inductive reporting (buffer : nat) : list SimplexInput → Reporting → Prop :=
| reporting_start : reporting buffer [] certificate_connect
| reporting_report sent s a :
    reporting buffer sent s →
    reporting buffer (sent ++ match a with
      | ActNotarization n => [InNotarization n] | ActFinalization f => [InFinalization f] | ActOther => [] end)
      (certificate_report s a)
| reporting_publish sent s b :
    reporting buffer sent s → reporting buffer (sent ++ [InBlock b]) (publish_block s b)
| reporting_deliver sent s n s' :
    reporting buffer sent s → deliver buffer n s = Some s' → reporting buffer sent s'
| reporting_upload sent s s' :
    reporting buffer sent s → upload_next s = Some (Ret s') → reporting buffer sent s'.

Definition quiet (s : Reporting) : Prop := rp_tasks s = [] ∧ rp_queue s = [].

(** Sends and rounds left. *)
Definition work (s : Reporting) : nat := 2 * length (rp_tasks s) + length (rp_queue s).
Inductive drains (buffer : nat) : Reporting → Reporting → Prop :=
| drains_refl s : drains buffer s s
| drains_deliver s n s1 s2 : deliver buffer n s = Some s1 → drains buffer s1 s2 → drains buffer s s2
| drains_upload s s1 s2 : upload_next s = Some (Ret s1) → drains buffer s1 s2 → drains buffer s s2.

(** ** What the store holds *)

Definition stored_finalized (es : list StoreEffect) : list (Finalization * CertifiedHeader) :=
  omap (λ e, match e with UploadCertificates _ f => f | UploadBlock _ => None end) es.
Definition stored_notarized (es : list StoreEffect) : list (Notarization * CertifiedHeader) :=
  omap (λ e, match e with UploadCertificates n _ => n | UploadBlock _ => None end) es.

(** The last row written under a key. *)
Definition latest {A} (P : A → Prop) `{∀ a, Decision (P a)} (l : list A) : option A := last (filter P l).

End reporter.

(** What the simplex client promises: each read is the last write under its key. *)
Section serves.
Context `{SimplexArtifacts}.

Record serves (self : IndexerClient) (es : list StoreEffect) : Prop := {
  sv_block d : ic_get_block self d =
    match latest (λ b : SealedBlock, seal b = d) (blocks_of es) with
    | Some b => match encode_simplex_block_parts b with Ret parts => Ok (Some parts) | Panic _ => Err SimplexFailed end
    | None => Ok None
    end;
  sv_height h : ic_finalized_by_height self h =
    Ok (snd <$> latest (λ x, height (inner (ch_header x.2)) = h) (stored_finalized es));
  sv_finalized v : ic_finalized_by_view self v = Ok (latest (λ x, f_view x.1 = v) (stored_finalized es));
  sv_finalized_raw v : ic_finalized_by_view_raw self v =
    Ok (encode_finalized <$> latest (λ x, f_view x.1 = v) (stored_finalized es));
  sv_notarized v : ic_notarized self v = Ok (latest (λ x, n_view x.1 = v) (stored_notarized es));
  sv_notarized_raw v : ic_notarized_raw self v =
    Ok (encode_notarized <$> latest (λ x, n_view x.1 = v) (stored_notarized es))
}.

(** What consensus guarantees of the inputs: blocks that decode, one finalization for a block, for a
    view and for a height, and one block under a digest. *)
Record one_chain (sent : list SimplexInput) : Prop := {
  oc_wf : Forall input_wf sent;
  oc_once : NoDup (commitment_key ∘ f_payload <$> finalizations sent);
  oc_view f f' : InFinalization f ∈ sent → InFinalization f' ∈ sent → f_view f = f_view f' → f = f';
  oc_block b b' : InBlock b ∈ sent → InBlock b' ∈ sent → seal b = seal b' → b = b';
  oc_height f f' b b' : InFinalization f ∈ sent → InFinalization f' ∈ sent → InBlock b ∈ sent → InBlock b' ∈ sent →
    commitment_block (f_payload f) = seal b → commitment_block (f_payload f') = seal b' →
    height (header (inner b)) = height (header (inner b')) → f = f'
}.
End serves.

(** ** The uploader, once more *)

Section uploader.
Context `{CertificateLib}.

Definition blocks_in (ins : list SimplexInput) : list SealedBlock :=
  omap (λ i, match i with InBlock b => Some b | _ => None end) ins.

Lemma elem_of_blocks_in b ins : b ∈ blocks_in ins ↔ InBlock b ∈ ins.
Proof.
  unfold blocks_in. rewrite list_elem_of_omap. split.
  - intros ([b'|n|f] & Hin & Heq); simplify_eq. done.
  - intros Hin. by exists (InBlock b).
Qed.

(** The uploader stores the blocks it is given, in order. *)
Lemma uploader_step_blocks p i p' es :
  input_wf i → uploader_step p i = Ret (p', es) → blocks_of es = blocks_in [i].
Proof.
  intros Hwf. rewrite uploader_step_spec by done. cbv zeta. destruct (receive _ i) as [e new] eqn:Hr.
  assert (blocks_of new = blocks_in [i]) as Hnew by (destruct i; by simplify_eq/=).
  intros [= Hs]. destruct (pc_block e); simplify_eq; [|done]. by rewrite blocks_of_app, blocks_ready, app_nil_r.
Qed.

(** A block the uploader was given is in its table or its finalization in the store. *)
Definition blocks_kept (ins : list SimplexInput) (es : list StoreEffect)
    (p : gmap bytes PendingBlockCertificates) : Prop :=
  ∀ b, InBlock b ∈ ins →
    (∃ e b', p !! fwrite (seal b) = Some e ∧ pc_block e = Some b') ∨
    (∃ f, f ∈ uploaded es ∧ commitment_key (f_payload f) = fwrite (seal b)).

Lemma uploader_step_kept ins es p i p' es' :
  input_wf i → uploader_inv ins es p → NoDup (commitment_key ∘ f_payload <$> finalizations (ins ++ [i])) →
  uploader_step p i = Ret (p', es') → blocks_kept ins es p → blocks_kept (ins ++ [i]) (es ++ es') p'.
Proof.
  intros Hwf Hinv Hnd Hs Hkept b Hb. pose proof (receive_ok ins es p i Hinv Hnd) as Hok.
  rewrite uploader_step_spec in Hs by done. cbv zeta in Hs.
  destruct (receive _ i) as [e new] eqn:Hr. injection Hs as Hs. destruct Hok as [_ _ Hf].
  destruct (decide (fwrite (seal b) = input_key i)) as [Hk|Hk].
  - assert (is_Some (pc_block e) ∨ ∃ f, f ∈ uploaded es ∧ commitment_key (f_payload f) = fwrite (seal b)) as [[b' Hb']|(f & Hu & Hfk)].
    { apply elem_of_app in Hb as [Hb|Hb%list_elem_of_singleton]; [|subst i; left; by simplify_eq/=].
      destruct (Hkept b Hb) as [(e0 & b0 & He0 & Hb0)|?]; [left|by right].
      rewrite <- Hk, He0 in Hr. destruct i; simplify_eq/=; by eauto. }
    + rewrite Hb' in Hs. destruct (decide _) as [[f Hfe]|Hn]; simplify_eq.
      * right. exists f. destruct (Hf f Hfe) as (_ & ? & _). split; [|congruence].
        rewrite uploaded_app, uploaded_app, uploaded_ready, Hfe. apply elem_of_app. right. apply elem_of_app. right. left.
      * left. rewrite Hk, lookup_insert_eq. by eexists _, _.
    + right. exists f. rewrite uploaded_app. split; [apply elem_of_app; by left|done].
  - assert (p' !! fwrite (seal b) = p !! fwrite (seal b)) as ->.
    { destruct (pc_block e); [destruct (decide _)|]; simplify_eq; by rewrite ?lookup_delete_ne, ?lookup_insert_ne. }
    apply elem_of_app in Hb as [Hb|Hb%list_elem_of_singleton]; [|by subst i].
    destruct (Hkept b Hb) as [?|(f & Hu & ?)]; [by left|right]. exists f.
    rewrite uploaded_app. split; [apply elem_of_app; by left|done].
Qed.
End uploader.

(** ** Deliveries in any order *)

Section deliveries.
Context `{CertificateLib}.
Variable buffer : nat.

Abbreviation final_keys ins := (commitment_key ∘ f_payload <$> finalizations ins).

Lemma final_keys_app_l ins ins' : NoDup (final_keys (ins ++ ins')) → NoDup (final_keys ins).
Proof. rewrite finalizations_app, fmap_app, NoDup_app. by intros [? _]. Qed.

Lemma final_keys_perm ins ins' : ins ≡ₚ ins' → NoDup (final_keys ins) → NoDup (final_keys ins').
Proof. intros Hp. unfold finalizations. by rewrite Hp. Qed.

(** The inputs taken so far, their effects, and where the rest are. *)
Record reported (sent : list SimplexInput) (s : Reporting) (taken : list SimplexInput) : Prop := {
  rd_inv : uploader_inv taken (rp_store s) (rp_pending s);
  rd_kept : blocks_kept taken (rp_store s) (rp_pending s);
  rd_blocks : blocks_of (rp_store s) = blocks_in taken;
  rd_sent : taken ++ rp_queue s ++ rp_tasks s ≡ₚ sent
}.

Lemma reported_dispatch sent s taken i :
  reported sent s taken → reported (sent ++ [i]) (dispatch_input s i) taken.
Proof.
  intros [? ? ? Hp]. split; [done..|]. cbn [dispatch_input rp_queue rp_tasks]. by rewrite <- Hp, !(assoc_L (++)).
Qed.

Lemma upload_round sent s taken i queue :
  reported sent s taken → Forall input_wf sent → NoDup (final_keys sent) → rp_queue s = i :: queue →
  ∃ s', upload_next s = Some (Ret s') ∧ rp_queue s' = queue ∧ rp_tasks s' = rp_tasks s ∧
    reported sent s' (taken ++ [i]).
Proof.
  intros [Hinv Hk Hb Hp] Hwf Hnd Hq. unfold upload_next. rewrite Hq.
  assert (input_wf i) as Hi.
  { rewrite Forall_forall in Hwf. apply Hwf. rewrite <- Hp, Hq. apply elem_of_app. right. left. }
  assert (NoDup (final_keys (taken ++ [i]))) as Hnd'.
  { apply (final_keys_app_l _ (queue ++ rp_tasks s)). eapply final_keys_perm; [|done].
    rewrite <- Hp, Hq. by rewrite <- (assoc_L (++)). }
  destruct (uploader_step_inv taken (rp_store s) (rp_pending s) i Hi Hinv Hnd') as (p' & es & Hs & Hinv').
  rewrite Hs. cbn [mbind run_bind]. eexists. split_and!; [done..|]. split; cbn [rp_store rp_pending rp_queue rp_tasks].
  - done.
  - by eapply uploader_step_kept.
  - rewrite blocks_of_app, Hb, (uploader_step_blocks _ _ _ _ Hi Hs). unfold blocks_in. by rewrite omap_app.
  - rewrite <- Hp, Hq. by rewrite <- (assoc_L (++)).
Qed.

Lemma delivered sent s taken n s' :
  reported sent s taken → deliver buffer n s = Some s' → reported sent s' taken.
Proof.
  unfold deliver. intros [? ? ? Hp] Hd. destruct (rp_tasks s !! n) as [i|] eqn:Hn; [|done].
  case_decide; simplify_eq. split; [done..|]. cbn [rp_queue rp_tasks].
  rewrite <- Hp, <- (assoc_L (++)). do 2 apply Permutation_app_head. symmetry. by apply delete_Permutation.
Qed.

Lemma reporting_reported sent s :
  reporting buffer sent s → Forall input_wf sent → NoDup (final_keys sent) → ∃ taken, reported sent s taken.
Proof.
  induction 1 as [|sent s a Hr IH|sent s b Hr IH|sent s n s' Hr IH Hd|sent s s' Hr IH Hu]; intros Hwf Hnd.
  - exists []. split; [apply uploader_inv_start|by intros b ?%elem_of_nil|done|done].
  - apply Forall_app in Hwf as [Hwf _]. destruct (IH Hwf (final_keys_app_l _ _ Hnd)) as [taken Ht]. exists taken.
    destruct a; [by apply reported_dispatch..|]. by rewrite app_nil_r.
  - apply Forall_app in Hwf as [Hwf _]. destruct (IH Hwf (final_keys_app_l _ _ Hnd)) as [taken Ht]. exists taken. by apply (reported_dispatch _ _ _ (InBlock b)).
  - destruct (IH Hwf Hnd) as [taken Ht]. exists taken. by eapply delivered.
  - destruct (IH Hwf Hnd) as [taken Ht]. destruct (rp_queue s) as [|i queue] eqn:Hq.
    { unfold upload_next in Hu. by rewrite Hq in Hu. }
    destruct (upload_round _ _ _ _ _ Ht Hwf Hnd Hq) as (s1 & Hs1 & _ & _ & Ht1). exists (taken ++ [i]).
    rewrite Hu in Hs1. by simplify_eq.
Qed.

(** Each delivery and each round reduces the work left. *)
Lemma deliver_work n s s' : deliver buffer n s = Some s' → (work s' < work s)%nat.
Proof.
  unfold deliver. destruct (rp_tasks s !! n) as [i|] eqn:Hn; [|done]. case_decide; [|done]. intros [= <-].
  unfold work. cbn. rewrite length_app, length_delete by eauto. cbn.
  apply lookup_lt_Some in Hn. lia.
Qed.

Lemma can_drain sent s taken : (0 < buffer)%nat →
  reported sent s taken → Forall input_wf sent → NoDup (final_keys sent) → ∃ s', drains buffer s s' ∧ quiet s'.
Proof.
  intros Hbuf. remember (work s) as w eqn:Hw. revert s taken Hw.
  induction w as [w IH] using lt_wf_ind. intros s taken -> Ht Hwf Hnd.
  destruct (rp_queue s) as [|i queue] eqn:Hq.
  - destruct (rp_tasks s) as [|i tasks] eqn:Hts; [by exists s; split; [constructor|]|].
    assert (deliver buffer 0 s = Some (mkReporting tasks [i] (rp_pending s) (rp_store s))) as Hd.
    { unfold deliver. rewrite Hts, Hq. cbn. by rewrite decide_True. }
    destruct (IH _ (deliver_work _ _ _ Hd) _ taken eq_refl) as (s' & Hdr & Hqt); [by eapply delivered|done|done|].
    exists s'. split; [by econstructor|done].
  - destruct (upload_round _ _ _ _ _ Ht Hwf Hnd Hq) as (s1 & Hs1 & Hq1 & Ht1 & Hr1).
    destruct (IH (work s1)) with (s := s1) (taken := taken ++ [i]) as (s' & Hdr & Hqt); [|done..|].
    { unfold work. rewrite Hq1, Ht1, Hq. cbn. lia. }
    exists s'. split; [by econstructor 3|done].
Qed.

Lemma reporting_drains sent s s' : reporting buffer sent s → drains buffer s s' → reporting buffer sent s'.
Proof. intros Hr Hd. induction Hd; eauto using reporting. Qed.
End deliveries.

(** ** Reads *)

Section reads.
Context `{SimplexArtifacts}.

Lemma latest_unique {A} (P : A → Prop) `{∀ a, Decision (P a)} (l : list A) x :
  x ∈ l → P x → (∀ y, y ∈ l → P y → y = x) → latest P l = Some x.
Proof.
  intros Hx HP Hu. unfold latest.
  assert (x ∈ filter P l) as Hin by by apply list_elem_of_filter.
  destruct (last (filter P l)) as [y|] eqn:Hl.
  - apply last_Some_elem_of in Hl. apply list_elem_of_filter in Hl as [? ?]. f_equal. by apply Hu.
  - apply last_None in Hl. rewrite Hl in Hin. by apply elem_of_nil in Hin.
Qed.

Lemma latest_elem {A} (P : A → Prop) `{∀ a, Decision (P a)} (l : list A) x : latest P l = Some x → x ∈ l ∧ P x.
Proof. unfold latest. intros Hl%last_Some_elem_of. apply list_elem_of_filter in Hl. naive_solver. Qed.

Lemma uploaded_stored es f : f ∈ uploaded es → ∃ c, (f, c) ∈ stored_finalized es.
Proof.
  unfold uploaded, stored_finalized. intros (e & He & Hf)%list_elem_of_omap.
  destruct e as [|n [[f' c]|]]; simplify_eq. exists c. apply list_elem_of_omap. by eexists.
Qed.

(** A stored certificate was received and belongs to a stored block. *)
Lemma effects_ok_certs ins B es n f : effects_ok ins B es → UploadCertificates n f ∈ es →
  certs_ok ins (B ++ blocks_of es) n f.
Proof.
  revert B. induction es as [|e es IH]; intros B He Hin; [by apply elem_of_nil in Hin|].
  apply elem_of_cons in Hin as [<-|Hin].
  - destruct He as [[Hn Hf] _]. split; intros x c Hx; [destruct (Hn x c Hx) as (? & b & ? & ?)|destruct (Hf x c Hx) as (? & b & ? & ?)];
      (split; [done|]); exists b; (split; [apply elem_of_app; by left|done]).
  - destruct e as [b|n' f']; cbn in He.
    + change (blocks_of (UploadBlock b :: es)) with ([b] ++ blocks_of es). rewrite (assoc_L (++)). by apply IH.
    + destruct He as [_ He]. by apply IH.
Qed.

Context (buffer : nat) (sent : list SimplexInput) (s : Reporting) (taken : list SimplexInput).
Hypothesis Hr : reported sent s taken.

Lemma taken_sent i : i ∈ taken → i ∈ sent.
Proof. intros Hi. rewrite <- (rd_sent _ _ _ Hr). apply elem_of_app. by left. Qed.
Lemma quiet_taken : quiet s → taken ≡ₚ sent.
Proof. intros [Ht Hq]. rewrite <- (rd_sent _ _ _ Hr), Ht, Hq. by rewrite app_nil_r. Qed.

Lemma stored_block_sent b : b ∈ blocks_of (rp_store s) → InBlock b ∈ sent.
Proof. rewrite (rd_blocks _ _ _ Hr), elem_of_blocks_in. apply taken_sent. Qed.

Lemma finalized_sound f c : (f, c) ∈ stored_finalized (rp_store s) →
  InFinalization f ∈ sent ∧
  ∃ b, InBlock b ∈ sent ∧ c = certified_new (f_payload f) b ∧ commitment_block (f_payload f) = seal b.
Proof.
  intros (e & He & Hf)%list_elem_of_omap. destruct e as [|n o]; simplify_eq.
  apply (effects_ok_certs _ _ _ _ _ (ui_effects _ _ _ (rd_inv _ _ _ Hr))) in He as [_ Hc].
  destruct (Hc f c eq_refl) as (Hin & b & Hb & Hcb). split; [by apply taken_sent|]. exists b. split; [by apply stored_block_sent|done].
Qed.
Lemma notarized_sound n c : (n, c) ∈ stored_notarized (rp_store s) →
  InNotarization n ∈ sent ∧
  ∃ b, InBlock b ∈ sent ∧ c = certified_new (n_payload n) b ∧ commitment_block (n_payload n) = seal b.
Proof.
  intros (e & He & Hn)%list_elem_of_omap. destruct e as [|o f]; simplify_eq.
  apply (effects_ok_certs _ _ _ _ _ (ui_effects _ _ _ (rd_inv _ _ _ Hr))) in He as [Hc _].
  destruct (Hc n c eq_refl) as (Hin & b & Hb & Hcb). split; [by apply taken_sent|]. exists b. split; [by apply stored_block_sent|done].
Qed.

Hypothesis Hchain : one_chain sent.

(** When all is delivered, every finalization whose block was published is in
    the store with the header of that block. *)
Lemma finalized_complete f b : quiet s →
  InFinalization f ∈ sent → InBlock b ∈ sent → commitment_block (f_payload f) = seal b →
  (f, certified_new (f_payload f) b) ∈ stored_finalized (rp_store s).
Proof.
  intros Hq Hf Hb Hc. pose proof (quiet_taken Hq) as Hp.
  assert (f ∈ uploaded (rp_store s)) as Hu.
  { assert (InBlock b ∈ taken) as Hbt by by rewrite Hp. assert (InFinalization f ∈ taken) as Hft by by rewrite Hp.
    assert (commitment_key (f_payload f) = fwrite (seal b)) as Hk by (unfold commitment_key; by rewrite Hc).
    destruct (rd_kept _ _ _ Hr b Hbt) as [(e & b' & He & Hb')|(f' & Hu' & Hk')].
    - destruct (ui_kept _ _ _ (rd_inv _ _ _ Hr) f) as [?|(e' & He' & Hfe)]; [by apply elem_of_finalizations|done|].
      rewrite Hk, He in He'. simplify_eq.
      destruct (eo_block _ _ _ _ (ui_entry _ _ _ (rd_inv _ _ _ Hr) _ _ He) b' Hb') as (_ & _ & _ & ?). congruence.
    - pose proof (ui_received _ _ _ (rd_inv _ _ _ Hr) f' Hu') as Hf'%elem_of_finalizations.
      assert (f' = f) as <-; [|done]. pose proof (oc_once _ Hchain) as Hnd.
      apply taken_sent, elem_of_finalizations, list_elem_of_lookup in Hf' as [i Hi].
      apply elem_of_finalizations, list_elem_of_lookup in Hf as [j Hj].
      assert (i = j) as <-; [|congruence]. apply (NoDup_lookup _ i j (fwrite (seal b)) Hnd);
        rewrite list_lookup_fmap, ?Hi, ?Hj; cbn; congruence. }
  destruct (uploaded_stored _ _ Hu) as [c Hs]. destruct (finalized_sound f c Hs) as (_ & b' & Hb' & -> & Hc').
  rewrite (oc_block _ Hchain b b'); [done|done|done|congruence].
Qed.
End reads.

(** ** Property *)

Section property.
Context `{SimplexArtifacts}.

Lemma height_read self es h : serves self es →
  digest_by_height self h
  = Ok (block_digest ∘ snd <$> latest (λ x, height (inner (ch_header x.2)) = h) (stored_finalized es)).
Proof.
  intros Hs. unfold digest_by_height, certified_header_by_height. rewrite (sv_height _ _ Hs).
  cbn [mbind result_bind]. by destruct (latest _ _).
Qed.

(** A published block is read back under its digest. *)
Lemma block_read self sent s taken b cfg :
  reported sent s taken → one_chain sent → quiet s → serves self (rp_store s) → InBlock b ∈ sent →
  cfg_lo cfg ≤ zlen (body (inner b)) ≤ cfg_hi cfg → zlen (body (inner b)) < 2 ^ 32 →
  ∃ b', block_by_digest self (seal b) cfg = Ok (Some b') ∧ header (inner b') = header (inner b) ∧ seal b' = seal b ∧
    Forall2 lst_same (body (inner b)) (body (inner b')).
Proof.
  intros Hr Hc Hq Hs Hb Hcfg Hn. pose proof (oc_wf _ Hc) as Hall. rewrite Forall_forall in Hall.
  pose proof (Hall _ Hb) as Hwf.
  destruct (simplex_block_parts_roundtrip cfg b Hwf Hcfg Hn) as (hdr & bdy & b' & He & Hd & ? & ? & ?).
  exists b'. split; [|done]. unfold block_by_digest. rewrite (sv_block _ _ Hs).
  rewrite (latest_unique (λ x, seal x = seal b) _ b); [|..|].
  - by rewrite He; cbn [mbind result_bind]; rewrite Hd.
  - rewrite (rd_blocks _ _ _ Hr), elem_of_blocks_in. by rewrite (quiet_taken _ _ _ Hr Hq).
  - done.
  - intros y Hy Hsy. apply (oc_block _ Hc); [by eapply stored_block_sent|done..].
Qed.

(** C31. Finalized blocks become readable.  However the tasks of the reporter are
    scheduled and the channel fills, the sends and rounds left can run to the
    end, none of them panics, and the work left shrinks with each.  At any
    moment a certificate the client reads under a view is one that was reported
    for that view, with the header of a published block whose digest it
    commits to.  Once everything is delivered, the client reads every finalized
    block that was published under its height, with header and body unchanged,
    and its certificate under its view. *)
Theorem finalized_blocks_readable buffer sent s :
  (0 < buffer)%nat → reporting buffer sent s → one_chain sent →
  (∀ r, upload_next s = Some r → ∃ s', r = Ret s' ∧ (work s' < work s)%nat) ∧
  (∃ s', drains buffer s s' ∧ quiet s' ∧ reporting buffer sent s') ∧
  ∀ self, serves self (rp_store s) →
    (∀ v f c, finalization_by_view self v = Ok (Some (f, c)) → f_view f = v ∧ InFinalization f ∈ sent ∧
       ∃ b, InBlock b ∈ sent ∧ c = certified_new (f_payload f) b ∧ commitment_block (f_payload f) = seal b) ∧
    (∀ v n c, notarization_by_view self v = Ok (Some (n, c)) → n_view n = v ∧ InNotarization n ∈ sent ∧
       ∃ b, InBlock b ∈ sent ∧ c = certified_new (n_payload n) b ∧ commitment_block (n_payload n) = seal b) ∧
    (quiet s → ∀ f b,
       InFinalization f ∈ sent → InBlock b ∈ sent → commitment_block (f_payload f) = seal b →
       let x := (f, certified_new (f_payload f) b) in
       finalization_by_view self (f_view f) = Ok (Some x) ∧
       finalization_bytes self (f_view f) = Ok (Some (encode_finalized x)) ∧
       digest_by_height self (height (header (inner b))) = Ok (Some (seal b)) ∧
       ∀ cfg, cfg_lo cfg ≤ zlen (body (inner b)) ≤ cfg_hi cfg →
         zlen (body (inner b)) < 2 ^ 32 →
         ∃ b', block_by_height self (height (header (inner b))) cfg = Ok (Some b') ∧
           header (inner b') = header (inner b) ∧ seal b' = seal b ∧ Forall2 lst_same (body (inner b)) (body (inner b'))).
Proof.
  intros Hbuf Hrep Hc. destruct (reporting_reported _ _ _ Hrep (oc_wf _ Hc) (oc_once _ Hc)) as [taken Hr]. split_and!.
  - intros r Hu. destruct (rp_queue s) as [|i q] eqn:Hq; [by unfold upload_next in Hu; rewrite Hq in Hu|].
    destruct (upload_round _ _ _ _ _ Hr (oc_wf _ Hc) (oc_once _ Hc) Hq) as (s' & Hs & Hq' & Ht' & _).
    exists s'. split; [congruence|]. unfold work. rewrite Hq, Hq', Ht'. cbn. lia.
  - destruct (can_drain _ _ _ _ Hbuf Hr (oc_wf _ Hc) (oc_once _ Hc)) as (s' & Hd & Hq). exists s'. eauto using reporting_drains.
  - intros self Hs. split_and!.
    + intros v f c. unfold finalization_by_view. rewrite (sv_finalized _ _ Hs). intros [= [Hin Hv]%latest_elem].
      split; [done|]. by eapply finalized_sound.
    + intros v n c. unfold notarization_by_view. rewrite (sv_notarized _ _ Hs). intros [= [Hin Hv]%latest_elem].
      split; [done|]. by eapply notarized_sound.
    + intros Hq f b Hf Hb Hfb x. pose proof (finalized_complete _ _ _ Hr Hc f b Hq Hf Hb Hfb) as Hin. fold x in Hin.
      assert (∀ y, y ∈ stored_finalized (rp_store s) → y.1 = f → y = x) as Hux.
      { intros [f' c] Hy [= ->]. destruct (finalized_sound _ _ _ Hr _ _ Hy) as (_ & b' & Hb' & -> & Hc').
        unfold x. f_equal. rewrite (oc_block _ Hc b b'); [done|done|done|congruence]. }
      assert (latest (λ y, f_view y.1 = f_view f) (stored_finalized (rp_store s)) = Some x) as Hview.
      { apply latest_unique; [done|done|]. intros [f' c] Hy Hv. apply Hux; [done|]. cbn.
        destruct (finalized_sound _ _ _ Hr _ _ Hy) as [? _]. by apply (oc_view _ Hc). }
      assert (digest_by_height self (height (header (inner b))) = Ok (Some (seal b))) as Hdig.
      { rewrite (height_read _ _ _ Hs), (latest_unique _ _ x); [cbn; unfold block_digest; cbn; by rewrite Hfb|done|done|].
        intros [f' c] Hy Hh. apply Hux; [done|]. destruct (finalized_sound _ _ _ Hr _ _ Hy) as (? & b' & ? & -> & ?).
        by apply (oc_height _ Hc f' f b' b). }
      split_and!; [| |done|].
      * unfold finalization_by_view. by rewrite (sv_finalized _ _ Hs), Hview.
      * unfold finalization_bytes. by rewrite (sv_finalized_raw _ _ Hs), Hview.
      * intros cfg Hcfg Hn. unfold block_by_height. rewrite Hdig. cbn [mbind result_bind]. by eapply block_read.
Qed.
End property.

(** ** A concrete store and witness *)

#[export] Instance conc_artifacts : SimplexArtifacts := {|
  n_view n := from_be (take 8 (fwrite n));
  f_view f := from_be (take 8 (fwrite f));
  encode_notarized x := fwrite x.1;
  encode_finalized x := fwrite x.1 |}.

(** A client that reads the batches themselves. *)
Definition store_client (es : list StoreEffect) : IndexerClient :=
  mkIndexerClient
    (λ d, match latest (λ b : SealedBlock, seal b = d) (blocks_of es) with
          | Some b => match encode_simplex_block_parts b with Ret parts => Ok (Some parts) | Panic _ => Err SimplexFailed end
          | None => Ok None
          end)
    (λ _, Ok None)
    (λ h, Ok (snd <$> latest (λ x, height (inner (ch_header x.2)) = h) (stored_finalized es)))
    (Ok None) (λ _, Ok None)
    (λ v, Ok (latest (λ x, f_view x.1 = v) (stored_finalized es)))
    (λ v, Ok (encode_finalized <$> latest (λ x, f_view x.1 = v) (stored_finalized es)))
    (λ v, Ok (latest (λ x, n_view x.1 = v) (stored_notarized es)))
    (λ v, Ok (encode_notarized <$> latest (λ x, n_view x.1 = v) (stored_notarized es)))
    (λ _, Ok []).

Lemma store_client_serves es : serves (store_client es) es.
Proof. by split. Qed.

Definition sample_sent : list SimplexInput :=
  [InFinalization (seal (seal_block sample_block)); InBlock (seal_block sample_block)].
Definition sample_reporting : Reporting :=
  publish_block (certificate_report certificate_connect (ActFinalization (seal (seal_block sample_block))))
    (seal_block sample_block).

Lemma sample_reporting_ok : reporting 4 sample_sent sample_reporting.
Proof.
  apply (reporting_publish 4 [InFinalization _]).
  apply (reporting_report 4 [] certificate_connect (ActFinalization _)). apply reporting_start.
Qed.

Lemma sample_chain : one_chain sample_sent.
Proof.
  split.
  - unfold sample_sent. rewrite !Forall_cons, Forall_nil. split_and!; [done|apply sample_block_wf|done].
  - apply NoDup_singleton.
  - intros f f' Hf Hf' _. unfold sample_sent in *. set_solver.
  - intros b b' Hb Hb' _. unfold sample_sent in *. set_solver.
  - intros f f' b b' Hf Hf' _ _ _ _ _. unfold sample_sent in *. set_solver.
Qed.

Lemma finalized_blocks_readable_witness :
  ∃ s, quiet s ∧
    digest_by_height (store_client (rp_store s)) (height (header sample_block)) = Ok (Some (seal (seal_block sample_block))).
Proof.
  destruct (finalized_blocks_readable 4 sample_sent sample_reporting ltac:(lia) sample_reporting_ok sample_chain)
    as (_ & (s & _ & Hq & Hs) & _).
  exists s. split; [exact Hq|].
  destruct (finalized_blocks_readable 4 sample_sent s ltac:(lia) Hs sample_chain) as (_ & _ & Hread).
  destruct (Hread _ (store_client_serves (rp_store s))) as (_ & _ & Hdone).
  apply (Hdone Hq (seal (seal_block sample_block)) (seal_block sample_block)); [left|right; left|reflexivity].
Defined.
