(* ===== verification/Writers.v ===== *)
(** * The writers of the index (exoware libraries, as crates/indexer/src/publisher/qmdb.rs uses them)

    The publisher drives two QMDB writers and a SQL batch writer that belong to
    other crates.  Each is a record of operations with a separate record of
    laws: what the pipeline of CommitPipeline.v relies on.  Uploads are numbered
    in the order in which they reserve locations; a caller sees the locations,
    which uploads are persisted and the published watermark.  The section below
    the laws derives what survives each operation of one writer, and a concrete
    writer at the end satisfies every law. *)

From stdpp Require Import prelude gmap list strings.
From S2P Require Import Prelude Indexer Lookup.

(** ** Operations and laws *)

(** One QMDB writer over the operations [Op] and the rows of the store. *)
Record QmdbWriter (Row Op : Type) := {
  Writer : Type;
  PreparedUpload : Type;
  PreparedWatermark : Type;
  prepare_upload : Writer → list Op → result string PreparedUpload * Writer;
  latest_location : PreparedUpload → Z;
  stage_upload : Writer → PreparedUpload → result string (list Row);
  prepare_flush_for_uploads : Writer → list PreparedUpload → result string (option PreparedWatermark);
  prepare_flush : Writer → result string (option PreparedWatermark);
  stage_flush : Writer → PreparedWatermark → result string (list Row);
  mark_upload_persisted : Writer → PreparedUpload → Z → Writer;
  mark_flush_persisted : Writer → PreparedWatermark → Z → Writer;
  latest_published_watermark : Writer → option Z }.
Arguments Writer {Row Op}.
Arguments PreparedUpload {Row Op}.
Arguments PreparedWatermark {Row Op}.
Arguments prepare_upload {Row Op}.
Arguments latest_location {Row Op}.
Arguments stage_upload {Row Op}.
Arguments prepare_flush_for_uploads {Row Op}.
Arguments prepare_flush {Row Op}.
Arguments stage_flush {Row Op}.
Arguments mark_upload_persisted {Row Op}.
Arguments mark_flush_persisted {Row Op}.
Arguments latest_published_watermark {Row Op}.

(** The batch writer of the SQL tables. *)
Record SqlBatchWriter (Row : Type) := {
  BatchWriter : Type;
  PreparedBatch : Type;
  insert_row : BatchWriter → SqlRow → result string BatchWriter;
  sql_prepare_flush : BatchWriter → result string (option PreparedBatch * BatchWriter);
  sql_stage_flush : BatchWriter → PreparedBatch → result string (PreparedBatch * list Row);
  sql_mark_persisted : BatchWriter → PreparedBatch → Z → BatchWriter }.
Arguments BatchWriter {Row}.
Arguments PreparedBatch {Row}.
Arguments insert_row {Row}.
Arguments sql_prepare_flush {Row}.
Arguments sql_stage_flush {Row}.
Arguments sql_mark_persisted {Row}.

(** What a caller observes of a writer: the last location of each reserved
    upload, which of them are persisted, and the published watermark. *)
Record WriterView := mkView {
  wv_latest : list Z; wv_persisted : gset nat; wv_published : option Z }.

(** All uploads below [k] are in the set. *)
Definition prefix_in (p : gset nat) (k : nat) : Prop := ∀ i, (i < k)%nat → i ∈ p.

(** The greatest of a list, and the length of the longest prefix of [n] uploads
    that a set holds. *)
Definition list_max (ls : list Z) : option Z :=
  foldr (λ x o, Some (match o with Some y => Z.max x y | None => x end)) None ls.
Fixpoint prefix_len (p : gset nat) (n : nat) : nat :=
  match n with
  | O => O
  | S m => if decide (prefix_len p m = m ∧ m ∈ p) then n else prefix_len p m
  end.

(** Where the next upload starts, and the watermark of a flush over the uploads
    [p]: the end of the longest prefix of them, if it is not published yet. *)
Definition next_location (v : WriterView) : Z :=
  default (-1) (list_max (wv_latest v ++ option_list (wv_published v))) + 1.
Definition prefix_target (v : WriterView) (p : gset nat) : option Z :=
  list_max (take (prefix_len p (length (wv_latest v))) (wv_latest v)).
Definition flush_target (v : WriterView) (p : gset nat) : option Z :=
  t ← prefix_target v p;
  match wv_published v with
  | Some q => if decide (t ≤ q) then None else Some t
  | None => Some t
  end.

(** A watermark over a set of uploads ends a prefix of it. *)
Definition ends_prefix (v : WriterView) (p : gset nat) (target : Z) : Prop :=
  ∃ k, prefix_in p (S k) ∧ wv_latest v !! k = Some target.

(** A watermark at or above every prefix of the persisted uploads, and a writer
    whose published watermark is one. *)
Definition covers (v : WriterView) (target : Z) : Prop :=
  ∀ k l, prefix_in (wv_persisted v) (S k) → wv_latest v !! k = Some l → l ≤ target.
Definition caught_up (v : WriterView) : Prop :=
  ∀ k l, prefix_in (wv_persisted v) (S k) → wv_latest v !! k = Some l →
    ∃ p, wv_published v = Some p ∧ l ≤ p.

(** The contract of a QMDB writer.  Uploads are numbered in the order in which
    they reserve consecutive locations, and their rows depend on where they
    start; a flush publishes the longest prefix of the uploads that are
    persisted or part of it.  A reader of the store finds the greatest
    watermark among its rows. *)
Record QmdbWriterLaws {Row Op} (W : QmdbWriter Row Op) := {
  writer_view : Writer W → WriterView;
  upload_index : PreparedUpload W → nat;
  watermark_target : PreparedWatermark W → Z;
  upload_rows : PreparedUpload W → list Row;
  watermark_rows : PreparedWatermark W → list Row;
  operation_rows : Z → list Op → list Row;
  row_watermark : Row → option Z;
  prepare_ok w ops u w' : prepare_upload W w ops = (Ok u, w') → ops ≠ [] →
    let v := writer_view w in
    upload_index u = length (wv_latest v) ∧
    latest_location W u = next_location v + zlen ops - 1 ∧
    upload_rows u = operation_rows (next_location v) ops ∧
    writer_view w' = mkView (wv_latest v ++ [latest_location W u]) (wv_persisted v) (wv_published v);
  prepare_failed w ops e w' : prepare_upload W w ops = (Err e, w') → writer_view w' = writer_view w;
  stage_ok w u : (upload_index u < length (wv_latest (writer_view w)))%nat →
    stage_upload W w u = Ok (upload_rows u);
  upload_rows_ne u : upload_rows u ≠ [];
  upload_rows_read u : omap row_watermark (upload_rows u) = [];
  flush_for_ok w us :
    (∀ u, u ∈ us → (upload_index u < length (wv_latest (writer_view w)))%nat) →
    ∃ o, prepare_flush_for_uploads W w us = Ok o ∧
      watermark_target <$> o
      = flush_target (writer_view w) (wv_persisted (writer_view w) ∪ list_to_set (upload_index <$> us));
  flush_ok w :
    ∃ o, prepare_flush W w = Ok o ∧
      watermark_target <$> o = flush_target (writer_view w) (wv_persisted (writer_view w));
  stage_flush_ok w f : stage_flush W w f = Ok (watermark_rows f);
  watermark_rows_ne f : watermark_rows f ≠ [];
  watermark_rows_read f : list_max (omap row_watermark (watermark_rows f)) = Some (watermark_target f);
  mark_upload_ok w u s :
    writer_view (mark_upload_persisted W w u s)
    = mkView (wv_latest (writer_view w)) (wv_persisted (writer_view w) ∪ {[upload_index u]})
        (wv_published (writer_view w));
  mark_flush_ok w f s :
    writer_view (mark_flush_persisted W w f s)
    = mkView (wv_latest (writer_view w)) (wv_persisted (writer_view w))
        (Some (match wv_published (writer_view w) with
               | Some p => Z.max p (watermark_target f) | None => watermark_target f end));
  published_ok w : latest_published_watermark W w = wv_published (writer_view w) }.
Arguments writer_view {Row Op W}.
Arguments upload_index {Row Op W}.
Arguments watermark_target {Row Op W}.
Arguments upload_rows {Row Op W}.
Arguments watermark_rows {Row Op W}.
Arguments operation_rows {Row Op W}.
Arguments row_watermark {Row Op W}.
Arguments prepare_ok {Row Op W}.
Arguments prepare_failed {Row Op W}.
Arguments stage_ok {Row Op W}.
Arguments upload_rows_ne {Row Op W}.
Arguments upload_rows_read {Row Op W}.
Arguments flush_for_ok {Row Op W}.
Arguments flush_ok {Row Op W}.
Arguments stage_flush_ok {Row Op W}.
Arguments watermark_rows_ne {Row Op W}.
Arguments watermark_rows_read {Row Op W}.
Arguments mark_upload_ok {Row Op W}.
Arguments mark_flush_ok {Row Op W}.
Arguments published_ok {Row Op W}.

(** The contract of the SQL writer: it buffers every row of a declared type and
    flushes the buffer. *)
Record SqlWriterLaws {Row} (Q : SqlBatchWriter Row) := {
  sql_buffer : BatchWriter Q → list SqlRow;
  batch_rows : PreparedBatch Q → list SqlRow;
  sql_encode : SqlRow → Row;
  insert_ok w r : row_typed meta_tables r →
    ∃ w', insert_row Q w r = Ok w' ∧ sql_buffer w' = sql_buffer w ++ [r];
  sql_prepare_ok w :
    ∃ o w', sql_prepare_flush Q w = Ok (o, w') ∧ sql_buffer w' = [] ∧
      match o with Some b => batch_rows b = sql_buffer w | None => sql_buffer w = [] end;
  sql_stage_ok w b : ∃ b', sql_stage_flush Q w b = Ok (b', sql_encode <$> batch_rows b);
  sql_mark_ok w b s : sql_buffer (sql_mark_persisted Q w b s) = sql_buffer w }.
Arguments sql_buffer {Row Q}.
Arguments batch_rows {Row Q}.
Arguments sql_encode {Row Q}.
Arguments insert_ok {Row Q}.
Arguments sql_prepare_ok {Row Q}.
Arguments sql_stage_ok {Row Q}.
Arguments sql_mark_ok {Row Q}.

(** The namespaces of the store are disjoint: a reader of one log finds no
    watermark in the rows of the other log or of the SQL tables. *)
Record StoreLaws {Row SOp TOp} {SW : QmdbWriter Row SOp} {TW : QmdbWriter Row TOp} {Q : SqlBatchWriter Row}
    (LS : QmdbWriterLaws SW) (LT : QmdbWriterLaws TW) (LQ : SqlWriterLaws Q) := {
  sql_read r : row_watermark LS (sql_encode LQ r) = None ∧ row_watermark LT (sql_encode LQ r) = None;
  state_upload_apart u : omap (row_watermark LT) (upload_rows LS u) = [];
  transaction_upload_apart u : omap (row_watermark LS) (upload_rows LT u) = [];
  state_watermark_apart f : omap (row_watermark LT) (watermark_rows LS f) = [];
  transaction_watermark_apart f : omap (row_watermark LS) (watermark_rows LT f) = [] }.

(** ** Prefixes and watermarks *)

Lemma list_max_spec ls :
  match list_max ls with None => ls = [] | Some m => m ∈ ls ∧ ∀ x, x ∈ ls → x ≤ m end.
Proof.
  induction ls as [|x ls IH]; [done|]. cbn. fold (list_max ls). destruct (list_max ls) as [m|].
  - destruct IH as [Hm Hall]. split.
    + destruct (Z.max_spec x m) as [[_ ->]|[_ ->]]; [by right|by left].
    + intros y [->|Hy%Hall]%elem_of_cons; lia.
  - subst ls. split; [by left|]. intros y ->%list_elem_of_singleton. lia.
Qed.

Lemma prefix_len_spec p n : (prefix_len p n ≤ n)%nat ∧ prefix_in p (prefix_len p n).
Proof.
  induction n as [|n [IHl IHp]]; [split; [done|]; intros i Hi; cbn in Hi; lia|].
  cbn [prefix_len]. destruct (decide _) as [[Heq Hn]|_].
  - split; [done|]. intros i Hi. destruct (decide (i = n)) as [->|]; [done|]. apply IHp. lia.
  - split; [lia|done].
Qed.

Lemma prefix_len_max p n k : (k ≤ n)%nat → prefix_in p k → (k ≤ prefix_len p n)%nat.
Proof.
  intros Hk Hp. induction n as [|n IH]; [lia|]. cbn [prefix_len]. destruct (decide _) as [?|Hn]; [done|].
  destruct (decide (k = S n)) as [->|]; [|apply IH; lia]. exfalso. apply Hn. split; [|apply Hp; lia].
  assert (prefix_in p n) as Hpn by (intros i Hi; apply Hp; lia).
  pose proof (prefix_len_spec p n) as [? _]. clear Hn IH.
  assert (∀ m, (m ≤ n)%nat → prefix_len p m = m) as Hall; [|by apply Hall].
  induction m as [|m IHm]; [done|]. intros Hm. cbn [prefix_len].
  rewrite decide_True; [done|]. split; [apply IHm; lia|apply Hpn; lia].
Qed.

Lemma prefix_target_spec v p :
  match prefix_target v p with
  | Some t => ends_prefix v p t ∧ ∀ k l, prefix_in p (S k) → wv_latest v !! k = Some l → l ≤ t
  | None => ∀ k, prefix_in p (S k) → wv_latest v !! k = None
  end.
Proof.
  unfold prefix_target. pose proof (list_max_spec (take (prefix_len p (length (wv_latest v))) (wv_latest v))) as Hm.
  pose proof (prefix_len_spec p (length (wv_latest v))) as [Hle Hpre].
  assert (∀ k l, prefix_in p (S k) → wv_latest v !! k = Some l →
    l ∈ take (prefix_len p (length (wv_latest v))) (wv_latest v)) as Hin.
  { intros k l Hk Hl. apply list_elem_of_lookup. exists k. apply lookup_lt_Some in Hl as Hlt.
    pose proof (prefix_len_max p (length (wv_latest v)) (S k) ltac:(lia) Hk).
    by rewrite lookup_take_lt by lia. }
  destruct (list_max _) as [t|].
  - destruct Hm as [Ht Hall]. split; [|intros k l Hk Hl; by apply Hall, (Hin k)].
    apply list_elem_of_lookup in Ht as (k & [Hk Hlt]%lookup_take_Some). exists k. split; [|done].
    intros i Hi. apply Hpre. lia.
  - intros k Hk. destruct (wv_latest v !! k) as [l|] eqn:E; [|done]. specialize (Hin k l Hk E).
    rewrite Hm in Hin. by apply not_elem_of_nil in Hin.
Qed.

Lemma next_location_above v l :
  l ∈ wv_latest v ++ option_list (wv_published v) → l < next_location v.
Proof.
  intros Hl. unfold next_location. pose proof (list_max_spec (wv_latest v ++ option_list (wv_published v))) as Hm.
  destruct (list_max _) as [m|]; [|by rewrite Hm in Hl; apply not_elem_of_nil in Hl].
  destruct Hm as [_ Hm]. specialize (Hm l Hl). cbn [default from_option id]. lia.
Qed.

(** What a flush publishes ends a prefix and leaves nothing behind. *)
Lemma flush_target_spec v p :
  match flush_target v p with
  | Some t => ends_prefix v p t ∧ ∀ k l, prefix_in p (S k) → wv_latest v !! k = Some l → l ≤ t
  | None => ∀ k l, prefix_in p (S k) → wv_latest v !! k = Some l → ∃ q, wv_published v = Some q ∧ l ≤ q
  end.
Proof.
  pose proof (prefix_target_spec v p) as Ht. unfold flush_target.
  destruct (prefix_target v p) as [t|]; cbn [mbind option_bind]; [|intros k l Hk Hl; by rewrite (Ht k Hk) in Hl].
  destruct (wv_published v) as [q|] eqn:Eq; [|done]. destruct (decide (t ≤ q)) as [Hle|]; [|done].
  intros k l Hk Hl. exists q. split; [done|]. destruct Ht as [_ Ht]. specialize (Ht k l Hk Hl). lia.
Qed.

(** ** One writer *)

Section writer.
Context {Row Op : Type} {W : QmdbWriter Row Op} (L : QmdbWriterLaws W).
Implicit Types (w : Writer W) (ups marked : list (PreparedUpload W)) (store : list Row).

(** The uploads that reserved locations, in order, those marked persisted, and
    a published watermark that is durable and ends a persisted prefix. *)
Record writer_inv w ups marked (reserving : bool) store : Prop := {
  wi_upload i u : ups !! i = Some u →
    upload_index L u = i ∧ wv_latest (writer_view L w) !! i = Some (latest_location W u);
  wi_length : reserving = true → length (wv_latest (writer_view L w)) = length ups;
  wi_sorted i j l l' : wv_latest (writer_view L w) !! i = Some l → wv_latest (writer_view L w) !! j = Some l' →
    (i < j)%nat → l < l';
  wi_persisted : wv_persisted (writer_view L w) = list_to_set (upload_index L <$> marked);
  wi_published l : wv_published (writer_view L w) = Some l →
    (∀ l', l' ∈ wv_latest (writer_view L w) → l < l') ∨
    (ends_prefix (writer_view L w) (wv_persisted (writer_view L w)) l ∧
     ∃ f, watermark_target L f = l ∧ watermark_rows L f ⊆ store) }.

Lemma ends_prefix_mono v v' p p' l :
  wv_latest v `prefix_of` wv_latest v' → p ⊆ p' → ends_prefix v p l → ends_prefix v' p' l.
Proof.
  intros Hl Hp (k & Hk & Hlk). exists k. split; [intros i Hi; by apply Hp, Hk|].
  by eapply prefix_lookup_Some.
Qed.

Lemma sorted_snoc (ls : list Z) x :
  (∀ i j l l', ls !! i = Some l → ls !! j = Some l' → (i < j)%nat → l < l') → (∀ l, l ∈ ls → l < x) →
  ∀ i j l l', (ls ++ [x]) !! i = Some l → (ls ++ [x]) !! j = Some l' → (i < j)%nat → l < l'.
Proof.
  intros Hs Hx i j l l' Hi Hj Hij. apply lookup_snoc_Some in Hj as [[Hj Hlj]|[-> <-]].
  - rewrite lookup_app_l in Hi by lia. by eapply Hs.
  - rewrite lookup_app_l in Hi by lia. by eapply Hx, list_elem_of_lookup_2.
Qed.

(** A reservation is above everything reserved or published. *)
Lemma prepare_above w ops u w' :
  prepare_upload W w ops = (Ok u, w') → ops ≠ [] →
  let v := writer_view L w in
  upload_index L u = length (wv_latest v) ∧
  writer_view L w' = mkView (wv_latest v ++ [latest_location W u]) (wv_persisted v) (wv_published v) ∧
  (∀ l, l ∈ wv_latest v → l < latest_location W u) ∧
  (∀ l, wv_published v = Some l → l < latest_location W u).
Proof.
  intros Hp Hne. destruct (prepare_ok L _ _ _ _ Hp Hne) as (Hi & Hl & _ & Hv). cbn zeta.
  assert (∀ l, l ∈ wv_latest (writer_view L w) ++ option_list (wv_published (writer_view L w)) →
            l < latest_location W u) as Hall.
  { intros l Hin%next_location_above. rewrite Hl. unfold zlen. destruct ops; [done|]. cbn [length]. lia. }
  split_and!; [done..| |]; intros l Hin; apply Hall, elem_of_app; [by left|right]. rewrite Hin. by left.
Qed.

(** A flush ends a prefix; without one the published watermark covers it. *)
Lemma flush_catches_up w :
  let v := writer_view L w in
  (prepare_flush W w = Ok None ∧ caught_up v) ∨
  ∃ f, prepare_flush W w = Ok (Some f) ∧ ends_prefix v (wv_persisted v) (watermark_target L f) ∧
    covers v (watermark_target L f).
Proof.
  destruct (flush_ok L w) as (o & Ho & Ht). pose proof (flush_target_spec (writer_view L w) (wv_persisted (writer_view L w))) as Hs.
  rewrite <- Ht in Hs. destruct o as [f|]; [right; exists f|left]; split; [done|exact Hs|done|exact Hs].
Qed.

Lemma wi_reserve w ups marked store ops u w' :
  writer_inv w ups marked true store → prepare_upload W w ops = (Ok u, w') → ops ≠ [] →
  writer_inv w' (ups ++ [u]) marked true store ∧ writer_inv w' ups marked false store.
Proof.
  intros [Hu Hl Hs Hp Hpub] Hw Hne. destruct (prepare_above _ _ _ _ Hw Hne) as (Hi & Hv & Hlt & Hlp).
  specialize (Hl eq_refl). pose proof (sorted_snoc _ _ Hs Hlt) as Hsort.
  assert (∀ l, wv_published (writer_view L w') = Some l →
    (∀ l', l' ∈ wv_latest (writer_view L w') → l < l') ∨
    (ends_prefix (writer_view L w') (wv_persisted (writer_view L w')) l ∧
     ∃ f, watermark_target L f = l ∧ watermark_rows L f ⊆ store)) as Hpub'.
  { rewrite Hv. cbn. intros l El. destruct (Hpub l El) as [Hall|[He Hf]]; [left|right].
    - intros l' [Hl'|Hl'%list_elem_of_singleton]%elem_of_app; [by apply Hall|]. rewrite Hl'. by apply Hlp.
    - split; [|done]. eapply ends_prefix_mono; [|reflexivity|exact He]. cbn. by exists [latest_location W u]. }
  split; constructor; rewrite ?Hv; cbn; try done.
  - intros i u' [[Hi' Hlt']|[-> <-]]%lookup_snoc_Some.
    + rewrite lookup_app_l by (rewrite Hl; by eapply lookup_lt_Some). by apply Hu.
    + split; [by rewrite Hi|]. rewrite <- Hl. by rewrite lookup_app_r, Nat.sub_diag by lia.
  - intros _. rewrite !length_app, Hl. done.
  - rewrite Hv in Hpub'. done.
  - intros i u' Hi'. apply Hu in Hi' as Hx. split; [apply Hx|]. rewrite lookup_app_l; [apply Hx|].
    rewrite Hl. by eapply lookup_lt_Some.
  - rewrite Hv in Hpub'. done.
Qed.

Lemma wi_refused w ups marked b store ops e w' :
  writer_inv w ups marked b store → prepare_upload W w ops = (Err e, w') → writer_inv w' ups marked false store.
Proof. intros [Hu Hl Hs Hp Hpub] Hw%(prepare_failed L). by constructor; rewrite ?Hw. Qed.

Lemma wi_stop w ups marked b store : writer_inv w ups marked b store → writer_inv w ups marked false store.
Proof. intros []. by constructor. Qed.

Lemma wi_store w ups marked b store store' :
  store ⊆ store' → writer_inv w ups marked b store → writer_inv w ups marked b store'.
Proof.
  intros Hsub [Hu Hl Hs Hp Hpub]. constructor; try done. intros l Hl'.
  destruct (Hpub l Hl') as [?|(? & f & ? & ?)]; [by left|right]. split; [done|]. exists f. split; [done|]. by etrans.
Qed.

Lemma wi_marked w ups marked marked' b store :
  marked ≡ₚ marked' → writer_inv w ups marked b store → writer_inv w ups marked' b store.
Proof.
  intros Hm [Hu Hl Hs Hp Hpub]. constructor; try done. rewrite Hp. apply list_to_set_perm_L. by rewrite Hm.
Qed.

Lemma wi_mark_upload w ups marked b store u s :
  writer_inv w ups marked b store →
  writer_inv (mark_upload_persisted W w u s) ups (marked ++ [u]) b store.
Proof.
  intros [Hu Hl Hs Hp Hpub]. constructor; rewrite ?(mark_upload_ok L); cbn; try done.
  - rewrite fmap_app, list_to_set_app_L, Hp. cbn. set_solver.
  - intros l Hl'. destruct (Hpub l Hl') as [?|(He & Hf)]; [by left|right]. split; [|done].
    eapply ends_prefix_mono; [| |exact He]; cbn; [done|set_solver].
Qed.

Lemma wi_mark_flush w ups marked b store f s :
  writer_inv w ups marked b store →
  ends_prefix (writer_view L w) (wv_persisted (writer_view L w)) (watermark_target L f) →
  watermark_rows L f ⊆ store → writer_inv (mark_flush_persisted W w f s) ups marked b store.
Proof.
  intros [Hu Hl Hs Hp Hpub] He Hf. constructor; rewrite ?(mark_flush_ok L); cbn; try done.
  intros l [= <-]. right. destruct (wv_published (writer_view L w)) as [q|] eqn:E; [|by eauto].
  destruct (Hpub q eq_refl) as [Hall|[He' Hf']].
  - rewrite Z.max_r; [by eauto|]. destruct He as (k & _ & Hk). apply list_elem_of_lookup_2, Hall in Hk. lia.
  - destruct (Z.max_spec q (watermark_target L f)) as [[_ ->]|[_ ->]]; by eauto.
Qed.

(** A watermark at or above an upload persists it and all earlier ones. *)
Lemma wi_covered w ups marked b store l i u :
  writer_inv w ups marked b store → wv_published (writer_view L w) = Some l → ups !! i = Some u →
  latest_location W u ≤ l →
  (∀ j, (j ≤ i)%nat → j ∈ wv_persisted (writer_view L w)) ∧
  ∃ f, watermark_target L f = l ∧ watermark_rows L f ⊆ store.
Proof.
  intros [Hu Hl Hs Hp Hpub] El Hi Hle. destruct (Hu i u Hi) as [_ Hlat].
  destruct (Hpub l El) as [Hall|((k & Hk & Hlk) & Hf)].
  - apply list_elem_of_lookup_2, Hall in Hlat. lia.
  - split; [|done]. intros j Hj. apply Hk. destruct (decide (i ≤ k)%nat); [lia|].
    pose proof (Hs _ _ _ _ Hlk Hlat). lia.
Qed.

Lemma published_mono_flush w f s l :
  wv_published (writer_view L w) = Some l →
  ∃ l', wv_published (writer_view L (mark_flush_persisted W w f s)) = Some l' ∧ l ≤ l'.
Proof. intros E. rewrite (mark_flush_ok L), E. eexists. split; [done|]. lia. Qed.

End writer.

(** ** Writers that satisfy the laws *)

(** Rows of the sample store; the rows of the two logs carry a flag. *)
Inductive SampleRow : Type :=
| SampleSql (r : SqlRow)
| SampleOps (log : bool) (start count : Z)
| SampleWatermark (log : bool) (target : Z).

(** A writer that is its own view. *)
Record SampleUpload := mkSampleUpload { sa_index : nat; sa_start : Z; sa_count : Z }.

Section sample.
Context {Op : Type} (log : bool).

Definition sample_prepare (v : WriterView) (ops : list Op) : result string SampleUpload * WriterView :=
  match ops with
  | [] => (Err "empty upload"%string, v)
  | _ =>
      (Ok (mkSampleUpload (length (wv_latest v)) (next_location v) (zlen ops)),
       mkView (wv_latest v ++ [next_location v + zlen ops - 1]) (wv_persisted v) (wv_published v))
  end.

Definition sample_writer : QmdbWriter SampleRow Op := {|
  Writer := WriterView; PreparedUpload := SampleUpload; PreparedWatermark := Z;
  prepare_upload := sample_prepare;
  latest_location u := sa_start u + sa_count u - 1;
  stage_upload v u := Ok [SampleOps log (sa_start u) (sa_count u)];
  prepare_flush_for_uploads v us := Ok (flush_target v (wv_persisted v ∪ list_to_set (sa_index <$> us)));
  prepare_flush v := Ok (flush_target v (wv_persisted v));
  stage_flush v t := Ok [SampleWatermark log t];
  mark_upload_persisted v u _ := mkView (wv_latest v) (wv_persisted v ∪ {[sa_index u]}) (wv_published v);
  mark_flush_persisted v t _ :=
    mkView (wv_latest v) (wv_persisted v)
      (Some (match wv_published v with Some p => Z.max p t | None => t end));
  latest_published_watermark := wv_published |}.

Definition sample_read (r : SampleRow) : option Z :=
  match r with SampleWatermark l t => if decide (l = log) then Some t else None | _ => None end.

Definition sample_writer_laws : QmdbWriterLaws sample_writer.
Proof.
  refine {| writer_view := λ w : Writer sample_writer, w; upload_index := sa_index;
            watermark_target := λ t : PreparedWatermark sample_writer, t;
            upload_rows u := [SampleOps log (sa_start u) (sa_count u)];
            watermark_rows t := [SampleWatermark log t];
            operation_rows l ops := [SampleOps log l (zlen ops)];
            row_watermark := sample_read |}; try done.
  - intros v ops u v' H Hne. cbn in H. unfold sample_prepare in H. destruct ops as [|o ops]; [done|].
    by injection H as <- <-.
  - intros v ops e v' H. cbn in H. unfold sample_prepare in H. destruct ops; [by injection H as _ <-|done].
  - intros v us _. eexists. split; [done|]. by destruct (flush_target _ _).
  - intros v. eexists. split; [done|]. by destruct (flush_target _ _).
  - intros t. cbn. by rewrite decide_True.
Defined.

End sample.

(** A SQL writer that is its buffer. *)
Definition sample_sql : SqlBatchWriter SampleRow := {|
  BatchWriter := list SqlRow; PreparedBatch := list SqlRow;
  insert_row w r := Ok (w ++ [r]);
  sql_prepare_flush w := Ok (match w with [] => None | _ => Some w end, []);
  sql_stage_flush w b := Ok (b, SampleSql <$> b);
  sql_mark_persisted w _ _ := w |}.

Definition sample_sql_laws : SqlWriterLaws sample_sql.
Proof.
  refine {| sql_buffer := λ w : BatchWriter sample_sql, w; batch_rows := λ b : PreparedBatch sample_sql, b;
            sql_encode := SampleSql |}; try done.
  - intros w r _. by exists (w ++ [r]).
  - intros w. eexists _, []. split; [done|]. split; [done|]. by destruct w.
  - intros w b. by exists b.
Defined.

Lemma sample_store_laws {SOp TOp} :
  StoreLaws (sample_writer_laws (Op := SOp) true) (sample_writer_laws (Op := TOp) false) sample_sql_laws.
Proof. by constructor. Qed.
