(* ===== verification/CommitPipeline.v ===== *)
(** * The commit pipeline of the index (crates/indexer/src/publisher/qmdb.rs)

    Between the queue of finalized uploads and the remote store run two tasks.
    The preparer expands each queued upload and reserves its locations in the
    two QMDB writers; the committer stages batches, keeps a bounded number of
    store commits in flight, marks those that finished, publishes watermarks
    and completes the uploads the watermarks cover.  The three writers are those
    of Writers.v.  What the tasks keep true is in CommitInvariant.v. *)

From stdpp Require Import prelude gmap list strings relations pretty.
From S2P Require Import Prelude Interfaces Concrete Transaction Database Block Indexer Lookup Writers.

(** ** The pipeline *)

Section pipeline.
Context `{LazyKey} `{ConsensusLib} {Row : Type} {SW : QmdbWriter Row (AnyOperation bytes)}
  {TW : QmdbWriter Row (KeylessOperation digest)} {Q : SqlBatchWriter Row}.

(** [struct PendingQueuedFinalizedUpload], [PreparedQmdbUpload],
    [StagedQmdbUpload] and [QmdbCommitBatch]; a completion channel is a
    number. *)
Record PendingQueuedFinalizedUpload := mkPendingQueued {
  pu_height : Z; pu_upload : QueuedFinalizedUpload; pu_completion : nat }.
Record PreparedQmdbUpload := mkPreparedUpload {
  pq_height : Z; pq_sql_rows : list SqlRow; pq_state : PreparedUpload SW;
  pq_transactions : PreparedUpload TW; pq_completion : nat }.
Record StagedQmdbUpload := mkStaged {
  su_height : Z; su_state : PreparedUpload SW; su_transactions : PreparedUpload TW;
  su_completion : nat }.
Record QmdbCommitBatch := mkBatch {
  cb_upload : StagedQmdbUpload; cb_sql : option (PreparedBatch Q);
  cb_state_watermark : option (PreparedWatermark SW);
  cb_transaction_watermark : option (PreparedWatermark TW);
  cb_rows : list Row }.

(** A commit task: its batch, and the store's sequence number once it
    returned ([struct CommittedQmdbBatch]). *)
Record CommitTask := mkTask { ct_batch : QmdbCommitBatch; ct_seq : option Z }.

(** The preparer and the committer with what they share: the queues of both
    channels, the writers, the tasks in flight, the uploads whose completion is
    still held back, the batches the store holds, in order, and the
    completions sent.  [pl_log] records, for the statements only, the uploads
    handed to the committer. *)
Record Pipeline := mkPipeline {
  pl_open : bool; pl_queue : list PendingQueuedFinalizedUpload; pl_preparing : bool;
  pl_ready : list PreparedQmdbUpload;
  pl_state : Writer SW; pl_transactions : Writer TW; pl_sql : BatchWriter Q;
  pl_commits : list CommitTask; pl_pending : list PendingUploadCompletion;
  pl_store : list (list Row); pl_sent : list nat; pl_running : bool;
  pl_log : list PreparedQmdbUpload }.

(** *** The preparer *)

(** [prepare_prepared_qmdb_upload]: both writers reserve, whatever the other
    answers. *)
Definition prepare_prepared_qmdb_upload (st : Writer SW) (tx : Writer TW) (height : Z)
    (p : PendingPreparedQmdbUpload) (completion : nat)
    : result string PreparedQmdbUpload * Writer SW * Writer TW :=
  let rows := sql (pp_block_rows p) ++ pp_account_rows p in
  let '(u, st') := prepare_upload SW st (pp_state_delta p) in
  let '(v, tx') := prepare_upload TW tx (pp_transaction_ops p) in
  (u ← u; v ← v; Ok (mkPreparedUpload height rows u v completion), st', tx').

(** [prepare_qmdb_upload]; an upload that does not expand reserves nothing. *)
Definition prepare_qmdb_upload (st : Writer SW) (tx : Writer TW) (up : PendingQueuedFinalizedUpload)
    : run (result string PreparedQmdbUpload) * Writer SW * Writer TW :=
  match expand_queued_finalized_upload (pu_upload up) with
  | Panic w => (Panic w, st, tx)
  | Ret (Err _) => (Ret (Err "expansion failed"%string), st, tx)
  | Ret (Ok p) =>
      let '(r, st', tx') := prepare_prepared_qmdb_upload st tx (pu_height up) p (pu_completion up) in
      (Ret r, st', tx')
  end.

(** The [unwrap_or_else] of [run_qmdb_preparer]: the prepared upload, or the
    panic of the task; the writers as the attempt leaves them. *)
Definition prepare_or_panic (st : Writer SW) (tx : Writer TW) (up : PendingQueuedFinalizedUpload)
    : run PreparedQmdbUpload * Writer SW * Writer TW :=
  let '(r, st', tx') := prepare_qmdb_upload st tx up in
  (r ← r;
   match r with
   | Ok u => Ret u
   | Err e => Panic ("QMDB prepare worker failed at height " +:+ pretty (pu_height up) +:+ ": " +:+ e)
   end, st', tx').

(** One round of [run_qmdb_preparer]: how the task comes out of it, and what the
    other tasks see.  An upload is handed on, or the task panics and, unwound,
    closes its ends of both channels. *)
Definition preparer_round (p : Pipeline) (up : PendingQueuedFinalizedUpload)
    (rest : list PendingQueuedFinalizedUpload) : run unit * Pipeline :=
  let '(r, st, tx) := prepare_or_panic (pl_state p) (pl_transactions p) up in
  match r with
  | Ret u =>
      (Ret (),
       mkPipeline (pl_open p) rest true (pl_ready p ++ [u]) st tx (pl_sql p) (pl_commits p) (pl_pending p)
         (pl_store p) (pl_sent p) (pl_running p) (pl_log p ++ [u]))
  | Panic why =>
      (Panic why,
       mkPipeline (pl_open p) rest false (pl_ready p) st tx (pl_sql p) (pl_commits p) (pl_pending p)
         (pl_store p) (pl_sent p) (pl_running p) (pl_log p))
  end.

(** *** Staging *)

(** [prepare_sql_upload]. *)
Fixpoint insert_rows (w : BatchWriter Q) (rows : list SqlRow) : result string (BatchWriter Q) :=
  match rows with [] => Ok w | r :: rows' => w' ← insert_row Q w r; insert_rows w' rows' end.
Definition prepare_sql_upload (w : BatchWriter Q) (rows : list SqlRow)
    : result string (option (PreparedBatch Q) * BatchWriter Q) :=
  w' ← insert_rows w rows; sql_prepare_flush Q w'.

Definition stage_optional {F} (stage : F → result string (list Row)) (o : option F) : result string (list Row) :=
  match o with None => Ok [] | Some f => stage f end.

(** [stage_commit_batch_blocking]: the rows of a batch in their order. *)
Definition stage_commit_batch (p : Pipeline) (u : PreparedQmdbUpload)
    (sf : option (PreparedWatermark SW)) (tf : option (PreparedWatermark TW))
    : result string (QmdbCommitBatch * BatchWriter Q) :=
  '(o, sqlw) ← prepare_sql_upload (pl_sql p) (pq_sql_rows u);
  '(o, sql_rows) ←
    match o with
    | None => Ok (None, [])
    | Some b => '(b', rows) ← sql_stage_flush Q sqlw b; Ok (Some b', rows)
    end;
  state_rows ← stage_upload SW (pl_state p) (pq_state u);
  transaction_rows ← stage_upload TW (pl_transactions p) (pq_transactions u);
  state_mark ← stage_optional (stage_flush SW (pl_state p)) sf;
  transaction_mark ← stage_optional (stage_flush TW (pl_transactions p)) tf;
  Ok (mkBatch (mkStaged (pq_height u) (pq_state u) (pq_transactions u) (pq_completion u)) o sf tf
        (sql_rows ++ state_rows ++ transaction_rows ++ state_mark ++ transaction_mark), sqlw).

(** [prepare_commit_batch_blocking]: watermarks travel with the batch when no
    commit is in flight. *)
Definition prepare_commit_batch (p : Pipeline) (u : PreparedQmdbUpload) (inline_watermarks : bool)
    : result string (QmdbCommitBatch * BatchWriter Q) :=
  '(sf, tf) ←
    (if inline_watermarks
     then sf ← prepare_flush_for_uploads SW (pl_state p) [pq_state u];
          tf ← prepare_flush_for_uploads TW (pl_transactions p) [pq_transactions u];
          Ok (sf, tf)
     else Ok (None, None));
  stage_commit_batch p u sf tf.

(** [stage_and_spawn_commit] on the head of the channel. *)
Definition stage_and_spawn_commit (p : Pipeline) (u : PreparedQmdbUpload) (rest : list PreparedQmdbUpload)
    : run Pipeline :=
  '(batch, sqlw) ← expect (ok (prepare_commit_batch p u (bool_decide (pl_commits p = []))))
                    "prepared QMDB commit batch must stage";
  Ret (mkPipeline (pl_open p) (pl_queue p) (pl_preparing p) rest (pl_state p) (pl_transactions p) sqlw
         (pl_commits p ++ [mkTask batch None]) (pl_pending p) (pl_store p) (pl_sent p) (pl_running p) (pl_log p)).

(** *** Committing *)

(** [commit_required_batch]: the store's new contents and sequence number once
    the retries succeeded.  The attempts before are those of
    [commit_with_retry] in Connect.v; they end without a change to the store, and
    the task holds its place among the commits in flight meanwhile. *)
Definition commit_required_batch (store : list (list Row)) (rows : list Row) : run (list (list Row) * Z) :=
  if bool_decide (length rows = O) then Panic "QMDB component batches must contain at least one row"
  else Ret (store ++ [rows], zlen store + 1).

(** A commit task of [spawn_commit] finishes. *)
Definition finish_commit (p : Pipeline) (before : list CommitTask) (b : QmdbCommitBatch)
    (after : list CommitTask) : run Pipeline :=
  '(store, seq) ← commit_required_batch (pl_store p) (cb_rows b);
  Ret (mkPipeline (pl_open p) (pl_queue p) (pl_preparing p) (pl_ready p) (pl_state p) (pl_transactions p)
         (pl_sql p) (before ++ mkTask b (Some seq) :: after) (pl_pending p) store (pl_sent p) (pl_running p)
         (pl_log p)).

Definition mark_optional {W F} (mark : W → F → W) (w : W) (o : option F) : W :=
  match o with None => w | Some f => mark w f end.

(** [mark_committed_batch] on a batch and its sequence number. *)
Definition mark_committed_batch (p : Pipeline) (t : QmdbCommitBatch * Z) : Pipeline :=
  let '(b, seq) := t in
  let u := cb_upload b in
  let sqlw := mark_optional (λ w x, sql_mark_persisted Q w x seq) (pl_sql p) (cb_sql b) in
  let st := mark_upload_persisted SW (pl_state p) (su_state u) seq in
  let tx := mark_upload_persisted TW (pl_transactions p) (su_transactions u) seq in
  let st := mark_optional (λ w f, mark_flush_persisted SW w f seq) st (cb_state_watermark b) in
  let tx := mark_optional (λ w f, mark_flush_persisted TW w f seq) tx (cb_transaction_watermark b) in
  mkPipeline (pl_open p) (pl_queue p) (pl_preparing p) (pl_ready p) st tx sqlw (pl_commits p)
    (pl_pending p ++ [mkCompletion (latest_location SW (su_state u)) (latest_location TW (su_transactions u))
                        (su_completion u)])
    (pl_store p) (pl_sent p) (pl_running p) (pl_log p).

(** *** Watermarks and completions *)

(** [complete_published_uploads] on the pipeline. *)
Definition complete_uploads (p : Pipeline) : Pipeline :=
  let '(done, retained) :=
    complete_published_uploads (pl_pending p) (latest_published_watermark SW (pl_state p))
      (latest_published_watermark TW (pl_transactions p)) in
  mkPipeline (pl_open p) (pl_queue p) (pl_preparing p) (pl_ready p) (pl_state p) (pl_transactions p)
    (pl_sql p) (pl_commits p) retained (pl_store p) (pl_sent p ++ done) (pl_running p) (pl_log p).

(** [flush_qmdb_watermarks]. *)
Definition flush_qmdb_watermarks (p : Pipeline) : run Pipeline :=
  state ← expect (ok (prepare_flush SW (pl_state p))) "QMDB state watermark flush must prepare";
  transactions ← expect (ok (prepare_flush TW (pl_transactions p)))
                   "QMDB transaction watermark flush must prepare";
  match state, transactions with
  | None, None => Ret p
  | _, _ =>
      sr ← expect (ok (stage_optional (stage_flush SW (pl_state p)) state))
             "QMDB state watermark flush must stage";
      tr ← expect (ok (stage_optional (stage_flush TW (pl_transactions p)) transactions))
             "QMDB transaction watermark flush must stage";
      '(store, seq) ← commit_required_batch (pl_store p) (sr ++ tr);
      let st := mark_optional (λ w f, mark_flush_persisted SW w f seq) (pl_state p) state in
      let tx := mark_optional (λ w f, mark_flush_persisted TW w f seq) (pl_transactions p) transactions in
      Ret (mkPipeline (pl_open p) (pl_queue p) (pl_preparing p) (pl_ready p) st tx (pl_sql p) (pl_commits p)
             (pl_pending p) store (pl_sent p) (pl_running p) (pl_log p))
  end.

Definition flush_and_complete_published_uploads (p : Pipeline) : run Pipeline :=
  let p := complete_uploads p in
  match pl_pending p with
  | [] => Ret p
  | _ => p ← flush_qmdb_watermarks p; Ret (complete_uploads p)
  end.

(** [join_next] and the [try_join_next] loop take the tasks [done] off the
    set; then watermarks are flushed, which the committer waits for before it
    does anything else. *)
Definition join_commits (p : Pipeline) (done : list (QmdbCommitBatch * Z)) (rest : list CommitTask)
    : run Pipeline :=
  let p := fold_left mark_committed_batch done p in
  flush_and_complete_published_uploads
    (mkPipeline (pl_open p) (pl_queue p) (pl_preparing p) (pl_ready p) (pl_state p) (pl_transactions p)
       (pl_sql p) rest (pl_pending p) (pl_store p) (pl_sent p) (pl_running p) (pl_log p)).

(** The end of [run_qmdb_committer]. *)
Definition finish_committer (p : Pipeline) : run Pipeline :=
  p ← flush_and_complete_published_uploads p;
  match pl_pending p with
  | [] =>
      Ret (mkPipeline (pl_open p) (pl_queue p) (pl_preparing p) (pl_ready p) (pl_state p) (pl_transactions p)
             (pl_sql p) (pl_commits p) [] (pl_store p) (pl_sent p) false (pl_log p))
  | _ => Panic "QMDB uploads persisted without a publishable watermark"
  end.

(** ** Interleavings *)

Variable max_in_flight_commits : nat.

Definition with_queue (p : Pipeline) (open : bool) (queue : list PendingQueuedFinalizedUpload) (preparing : bool)
    : Pipeline :=
  mkPipeline open queue preparing (pl_ready p) (pl_state p) (pl_transactions p) (pl_sql p) (pl_commits p)
    (pl_pending p) (pl_store p) (pl_sent p) (pl_running p) (pl_log p).

Definition finished_task (t : QmdbCommitBatch * Z) : CommitTask := mkTask t.1 (Some t.2).

(** What the committer does next: take an upload while fewer commits than the
    limit are in flight, join finished commits, or stop when the preparer is
    gone and nothing is left. *)
Inductive committer_step (p : Pipeline) : run Pipeline → Prop :=
| committer_recv u rest :
    pl_running p = true → (length (pl_commits p) < max_in_flight_commits)%nat → pl_ready p = u :: rest →
    committer_step p (stage_and_spawn_commit p u rest)
| committer_join done rest :
    pl_running p = true → done ≠ [] → pl_commits p ≡ₚ (finished_task <$> done) ++ rest →
    committer_step p (join_commits p done rest)
| committer_stop :
    pl_running p = true → pl_preparing p = false → pl_ready p = [] → pl_commits p = [] →
    committer_step p (finish_committer p).

(** A commit task ends, in any order. *)
Inductive task_step (p : Pipeline) : run Pipeline → Prop :=
| task_finishes before b after :
    pl_commits p = before ++ mkTask b None :: after → task_step p (finish_commit p before b after).

(** The preparer and those who feed it; a round in which it panics is one too,
    for the tasks that survive it. *)
Inductive preparer_step (p : Pipeline) : Pipeline → Prop :=
| preparer_offer up :
    pl_open p = true → preparer_step p (with_queue p true (pl_queue p ++ [up]) (pl_preparing p))
| preparer_close : pl_open p = true → preparer_step p (with_queue p false (pl_queue p) (pl_preparing p))
| preparer_next up rest :
    pl_preparing p = true → pl_queue p = up :: rest → preparer_step p (preparer_round p up rest).2
| preparer_exit :
    pl_preparing p = true → pl_open p = false → pl_queue p = [] → preparer_step p (with_queue p false [] false).

(** The tasks that can panic next, and with what: the committer, a commit, or
    the preparer in the round it is about to make. *)
Inductive task_panics (p : Pipeline) (why : string) : Prop :=
| committer_panics : committer_step p (Panic why) → task_panics p why
| commit_panics : task_step p (Panic why) → task_panics p why
| preparer_panics up rest :
    pl_preparing p = true → pl_queue p = up :: rest → (preparer_round p up rest).1 = Panic why → task_panics p why.

(** A step of any of them, after which the committer and the commits go on. *)
Definition pipeline_step (p p' : Pipeline) : Prop :=
  committer_step p (Ret p') ∨ task_step p (Ret p') ∨ preparer_step p p'.

(** A pipeline that starts on a store and on writers that hold nothing
    unpublished. *)
Definition pipeline_start (st : Writer SW) (tx : Writer TW) (sqlw : BatchWriter Q) (store : list (list Row))
    : Pipeline :=
  mkPipeline true [] true [] st tx sqlw [] [] store [] true [].

End pipeline.
