(* ===== verification/CommitInvariant.v ===== *)
(** * Durability of the commit pipeline (crates/indexer/src/publisher/qmdb.rs)

    What the preparer and the committer of CommitPipeline.v keep true in every
    state they reach, whatever the order in which store commits finish: which
    uploads are prepared, in flight, committed and completed, and what the
    store holds of each.  The theorems show that no completion is lost or sent
    twice, that an upload is completed only when it and all earlier ones are
    durable below a durable watermark, and that a shutdown ends. *)

From stdpp Require Import prelude gmap list strings relations.
From S2P Require Import Prelude Interfaces Concrete Transaction Database Block Application Indexer Lookup Writers CommitPipeline.

(** ** The invariant of the pipeline *)

Section invariant.
Context `{LazyKey} `{ConsensusLib} {Row : Type}.
Context {SW : QmdbWriter Row (AnyOperation bytes)} {TW : QmdbWriter Row (KeylessOperation digest)}
  {Q : SqlBatchWriter Row}.
Variables (LS : QmdbWriterLaws SW) (LT : QmdbWriterLaws TW) (LQ : SqlWriterLaws Q)
  (max_in_flight_commits : nat).
Notation Pipeline := (Pipeline (SW := SW) (TW := TW) (Q := Q)).
Notation Prepared := (PreparedQmdbUpload (SW := SW) (TW := TW)).
Implicit Types (p : Pipeline) (u : Prepared).

Definition staged_of u : StagedQmdbUpload (SW := SW) (TW := TW) :=
  mkStaged (pq_height u) (pq_state u) (pq_transactions u) (pq_completion u).
Definition completion_of u : PendingUploadCompletion :=
  mkCompletion (latest_location SW (pq_state u)) (latest_location TW (pq_transactions u))
    (pq_completion u).

(** Every row of an upload: its SQL rows and its operations on both logs. *)
Definition rows_of_upload u : list Row :=
  (sql_encode LQ <$> pq_sql_rows u) ++ upload_rows LS (pq_state u)
  ++ upload_rows LT (pq_transactions u).

(** What the node's uploads satisfy: machine-width fields, a state delta that
    is not empty (it ends in a commit) and whose keys are digests. *)
Record upload_well (up : PendingQueuedFinalizedUpload) : Prop := {
  uw_height : is_u64 (height (header (inner (q_block (pu_upload up)))));
  uw_micros : - 2 ^ 63 ≤ q_finalized_ts_micros (pu_upload up) < 2 ^ 63;
  uw_body : zlen (body (inner (q_block (pu_upload up)))) ≤ u64_max;
  uw_delta : q_state_delta (pu_upload up) ≠ [];
  uw_keys k v : Update k v ∈ q_state_delta (pu_upload up) → length k = 32%nat }.

(** Such an upload expands to operations on both logs and typed rows. *)
Lemma upload_expands up x :
  upload_well up → expand_queued_finalized_upload (pu_upload up) = Ret (Ok x) →
  pp_state_delta x ≠ [] ∧ pp_transaction_ops x ≠ [] ∧
  Forall (row_typed meta_tables) (sql (pp_block_rows x) ++ pp_account_rows x).
Proof.
  intros [Hh Hm Hb Hd Hk] (rows & Hrows & Hx)%bind_Ret. apply bind_Ret in Hx as (r & Hr & Hx).
  destruct r as [ops|]; [|done]. injection Hx as <-. cbn [pp_state_delta pp_transaction_ops pp_block_rows pp_account_rows].
  split; [done|]. split.
  - unfold build_transaction_upload_from_digests in Hr. destruct (_ && _); [done|].
    apply bind_Ret in Hr as (start & _ & Hr). destruct (negb _); [done|]. injection Hr as <-.
    by intros [_ [_ ?]%app_eq_nil]%app_eq_nil.
  - apply Forall_app. split; [by eapply block_rows_typed|by apply account_rows_typed].
Qed.

(** A watermark that travels with an upload. *)
Definition mark_ok {Op} {W : QmdbWriter Row Op} (L : QmdbWriterLaws W) (w : Writer W) (u : PreparedUpload W)
    (rows : list Row) (o : option (PreparedWatermark W)) : Prop :=
  ∀ f, o = Some f → watermark_rows L f ⊆ rows ∧
    ends_prefix (writer_view L w) (wv_persisted (writer_view L w) ∪ {[upload_index L u]}) (watermark_target L f).

Record task_ok p u (t : CommitTask (SW := SW) (TW := TW) (Q := Q)) : Prop := {
  to_upload : cb_upload (ct_batch t) = staged_of u;
  to_rows : rows_of_upload u ⊆ cb_rows (ct_batch t);
  to_nonempty : cb_rows (ct_batch t) ≠ [];
  to_stored : is_Some (ct_seq t) → cb_rows (ct_batch t) ⊆ concat (pl_store p);
  to_state : mark_ok LS (pl_state p) (pq_state u) (cb_rows (ct_batch t))
               (cb_state_watermark (ct_batch t));
  to_transactions : mark_ok LT (pl_transactions p) (pq_transactions u)
               (cb_rows (ct_batch t)) (cb_transaction_watermark (ct_batch t)) }.

(** An upload below both published watermarks. *)
Definition published_at p u : Prop :=
  (∃ l, wv_published (writer_view LS (pl_state p)) = Some l ∧ latest_location SW (pq_state u) ≤ l) ∧
  (∃ l, wv_published (writer_view LT (pl_transactions p)) = Some l ∧
        latest_location TW (pq_transactions u) ≤ l).

(** The uploads handed over are those in the channel, those in flight, those
    committed whose completion is pending and those completed. *)
Record pipeline_inv p (sent pending flight : list Prepared) : Prop := {
  pi_log : ∃ staged, pl_log p = staged ++ pl_ready p ∧ staged ≡ₚ sent ++ pending ++ flight;
  pi_tasks : Forall2 (task_ok p) flight (pl_commits p);
  pi_pending : pl_pending p = completion_of <$> pending;
  pi_sent : pl_sent p ≡ₚ pq_completion <$> sent;
  pi_state : writer_inv LS (pl_state p) (pq_state <$> pl_log p)
               (pq_state <$> sent ++ pending) (pl_preparing p) (concat (pl_store p));
  pi_transactions : writer_inv LT (pl_transactions p) (pq_transactions <$> pl_log p)
               (pq_transactions <$> sent ++ pending) (pl_preparing p) (concat (pl_store p));
  pi_stored u : u ∈ sent ++ pending → rows_of_upload u ⊆ concat (pl_store p);
  pi_published u : u ∈ sent → published_at p u;
  pi_sql : sql_buffer LQ (pl_sql p) = [];
  pi_typed u : u ∈ pl_ready p → Forall (row_typed meta_tables) (pq_sql_rows u) }.

(** *** Staging *)

Lemma insert_rows_ok w rows :
  Forall (row_typed meta_tables) rows →
  ∃ w', insert_rows w rows = Ok w' ∧ sql_buffer LQ w' = sql_buffer LQ w ++ rows.
Proof.
  intros Hr. revert w. induction Hr as [|r rows Hr Hrs IH]; intros w; [exists w; by rewrite app_nil_r|].
  destruct (insert_ok LQ w r Hr) as (w1 & Hw1 & Hb1). destruct (IH w1) as (w2 & Hw2 & Hb2).
  exists w2. cbn. rewrite Hw1. cbn. rewrite Hw2, Hb2, Hb1, <- app_assoc. done.
Qed.

Lemma flushes_ok {Op} {W : QmdbWriter Row Op} (L : QmdbWriterLaws W) w (u : PreparedUpload W) :
  (upload_index L u < length (wv_latest (writer_view L w)))%nat →
  ∃ o, prepare_flush_for_uploads W w [u] = Ok o ∧
    ∀ f, o = Some f → ends_prefix (writer_view L w) (wv_persisted (writer_view L w) ∪ {[upload_index L u]})
                        (watermark_target L f).
Proof.
  intros Hu. destruct (flush_for_ok L w [u]) as (o & Ho & Ht); [by intros u' ->%list_elem_of_singleton|].
  cbn in Ht. rewrite union_empty_r_L in Ht. exists o. split; [done|]. intros f ->.
  pose proof (flush_target_spec (writer_view L w) (wv_persisted (writer_view L w) ∪ {[upload_index L u]})) as Hs.
  rewrite <- Ht in Hs. apply Hs.
Qed.

Lemma stage_optional_ok {Op} {W : QmdbWriter Row Op} (L : QmdbWriterLaws W) w o :
  ∃ rows, stage_optional (stage_flush W w) o = Ok rows ∧ ∀ f, o = Some f → rows = watermark_rows L f.
Proof.
  destruct o as [f|]; [|by exists []]. exists (watermark_rows L f). split; [apply stage_flush_ok|].
  by intros ? [= <-].
Qed.

Lemma stage_ok_spec p u inline :
  sql_buffer LQ (pl_sql p) = [] → Forall (row_typed meta_tables) (pq_sql_rows u) →
  (upload_index LS (pq_state u) < length (wv_latest (writer_view LS (pl_state p))))%nat →
  (upload_index LT (pq_transactions u) < length (wv_latest (writer_view LT (pl_transactions p))))%nat →
  ∃ b sqlw, prepare_commit_batch p u inline = Ok (b, sqlw) ∧ sql_buffer LQ sqlw = [] ∧
    task_ok p u (mkTask b None).
Proof.
  intros Hsql Hty Hs Ht.
  destruct (flushes_ok LS (pl_state p) _ Hs) as (sf & Hsf & Hsfe).
  destruct (flushes_ok LT (pl_transactions p) _ Ht) as (tf & Htf & Htfe).
  assert (∃ sf' tf', (if inline
     then sf ← prepare_flush_for_uploads SW (pl_state p) [pq_state u];
          tf ← prepare_flush_for_uploads TW (pl_transactions p) [pq_transactions u]; Ok (sf, tf)
     else Ok (None, None)) = Ok (sf', tf') ∧ (∀ f, sf' = Some f → sf = Some f) ∧ (∀ f, tf' = Some f → tf = Some f))
    as (sf' & tf' & Hin & Hsf' & Htf').
  { destruct inline; [exists sf, tf; rewrite Hsf; cbn; by rewrite Htf|by exists None, None]. }
  unfold prepare_commit_batch. rewrite Hin. cbn [mbind result_bind].
  unfold stage_commit_batch, prepare_sql_upload.
  destruct (insert_rows_ok (pl_sql p) _ Hty) as (w1 & Hw1 & Hb1). rewrite Hw1. cbn [mbind result_bind].
  destruct (sql_prepare_ok LQ w1) as (o & w2 & Hw2 & Hb2 & Ho). rewrite Hw2. cbn [mbind result_bind].
  rewrite Hb1, Hsql in Ho. cbn in Ho.
  assert (∃ o' rows, (match o with
     | None => Ok (None, [])
     | Some b => '(b', rows) ← sql_stage_flush Q w2 b; Ok (Some b', rows) end)
     = Ok (o', rows) ∧ rows = sql_encode LQ <$> pq_sql_rows u) as (o' & rows & Hor & ->).
  { destruct o as [b|]; [|eexists _, _; split; [done|]; by rewrite Ho].
    destruct (sql_stage_ok LQ w2 b) as (b' & Hb'). rewrite Hb', Ho. by eexists _, _. }
  rewrite Hor. cbn [mbind result_bind]. rewrite (stage_ok LS), (stage_ok LT) by done. cbn [mbind result_bind].
  destruct (stage_optional_ok LS (pl_state p) sf') as (r1 & Hr1 & Hr1').
  destruct (stage_optional_ok LT (pl_transactions p) tf') as (r2 & Hr2 & Hr2').
  rewrite Hr1. cbn [mbind result_bind]. rewrite Hr2. cbn [mbind result_bind].
  eexists _, w2. split; [done|]. split; [done|]. constructor; cbn; try done.
  - unfold rows_of_upload. set_solver.
  - intros E%app_eq_nil. destruct E as [_ [E _]%app_eq_nil]. by eapply upload_rows_ne.
  - intros f Hf. rewrite (Hr1' f Hf). split; [set_solver|]. by apply Hsfe, Hsf'.
  - intros f Hf. rewrite (Hr2' f Hf). split; [set_solver|]. by apply Htfe, Htf'.
Qed.

(** *** Steps *)

Definition view_le (v v' : WriterView) : Prop :=
  wv_latest v `prefix_of` wv_latest v' ∧ wv_persisted v ⊆ wv_persisted v'.

Lemma mark_ok_mono {Op} {W : QmdbWriter Row Op} (L : QmdbWriterLaws W) w w' (u : PreparedUpload W) rows o :
  view_le (writer_view L w) (writer_view L w') → mark_ok L w u rows o → mark_ok L w' u rows o.
Proof.
  intros [Hl Hp] Hm f Hf. destruct (Hm f Hf) as [Hr He]. split; [done|].
  eapply ends_prefix_mono; [exact Hl| |exact He]. set_solver.
Qed.

Lemma task_ok_mono p p' u t :
  concat (pl_store p) ⊆ concat (pl_store p') →
  view_le (writer_view LS (pl_state p)) (writer_view LS (pl_state p')) →
  view_le (writer_view LT (pl_transactions p)) (writer_view LT (pl_transactions p')) →
  task_ok p u t → task_ok p' u t.
Proof.
  intros Hs Hv Hv' [Hu Hr Hn Hst Hms Hmt]. constructor; try done.
  - intros Hq. etrans; [by apply Hst|done].
  - by eapply mark_ok_mono.
  - by eapply mark_ok_mono.
Qed.

Lemma view_le_refl v : view_le v v.
Proof. by split. Qed.

Lemma upload_indices p sent pending flight u :
  pipeline_inv p sent pending flight → u ∈ pl_log p →
  (upload_index LS (pq_state u) < length (wv_latest (writer_view LS (pl_state p))))%nat ∧
  (upload_index LT (pq_transactions u) < length (wv_latest (writer_view LT (pl_transactions p))))%nat.
Proof.
  intros Hinv [i Hi]%list_elem_of_lookup.
  destruct (wi_upload _ _ _ _ _ _ (pi_state _ _ _ _ Hinv) i (pq_state u)) as [-> Hl%lookup_lt_Some];
    [by rewrite list_lookup_fmap, Hi|].
  destruct (wi_upload _ _ _ _ _ _ (pi_transactions _ _ _ _ Hinv) i (pq_transactions u)) as [-> Hl'%lookup_lt_Some];
    [by rewrite list_lookup_fmap, Hi|]. done.
Qed.

(** The committer takes an upload. *)
Lemma recv_inv p sent pending flight u rest :
  pipeline_inv p sent pending flight → pl_ready p = u :: rest →
  ∃ p', stage_and_spawn_commit p u rest = Ret p' ∧ pipeline_inv p' sent pending (flight ++ [u]) ∧
    pl_ready p' = rest ∧ pl_queue p' = pl_queue p ∧ length (pl_commits p') = S (length (pl_commits p)) ∧
    pl_preparing p' = pl_preparing p.
Proof.
  intros Hinv Hready. pose proof Hinv as [(staged & Hlog & Hperm) Ht Hpe Hse Hst Htx Hrows Hpub Hsql Hty].
  destruct (upload_indices _ _ _ _ u Hinv) as [Hi Hj]; [rewrite Hlog, Hready; apply elem_of_app; right; left|].
  destruct (stage_ok_spec p u (bool_decide (pl_commits p = [])) Hsql) as (b & sqlw & Hb & Hbuf & Hok);
    [apply Hty; rewrite Hready; left|done..|].
  unfold stage_and_spawn_commit. rewrite Hb. cbn [ok expect mbind run_bind]. eexists. split; [reflexivity|].
  split; [|cbn; rewrite length_app; cbn; split_and!; done || lia]. constructor; cbn; try done.
  - exists (staged ++ [u]). rewrite Hlog, Hready, <- app_assoc. split; [done|]. rewrite Hperm. by rewrite !app_assoc.
  - apply Forall2_app; [|constructor; [|constructor]].
    + eapply Forall2_impl; [exact Ht|]. intros u' t. apply task_ok_mono; cbn; [done|apply view_le_refl..].
    + eapply task_ok_mono; [| | |exact Hok]; cbn; [done|apply view_le_refl..].
  - intros u' Hu'. apply Hty. rewrite Hready. by right.
Qed.

(** A commit reaches the store. *)
Lemma finish_commit_inv p sent pending flight before b after :
  pipeline_inv p sent pending flight → pl_commits p = before ++ mkTask b None :: after →
  ∃ p', finish_commit p before b after = Ret p' ∧ pipeline_inv p' sent pending flight ∧
    pl_ready p' = pl_ready p ∧ pl_queue p' = pl_queue p ∧ pl_preparing p' = pl_preparing p ∧
    ∃ seq, pl_commits p' = before ++ mkTask b (Some seq) :: after.
Proof.
  intros [Hlog Ht Hpe Hse Hst Htx Hrows Hpub Hsql Hty] Hc. rewrite Hc in Ht.
  apply Forall2_app_inv_r in Ht as (f1 & f2 & Ht1 & Ht2 & Hf). inversion Ht2 as [|u t f3 ? Hu Ht3]; subst.
  unfold finish_commit, commit_required_batch. pose proof (to_nonempty _ _ _ Hu) as Hne. cbn in Hne.
  rewrite bool_decide_eq_false_2 by (intros E%length_zero_iff_nil; done). cbn [mbind run_bind].
  assert (concat (pl_store p) ⊆ concat (pl_store p ++ [cb_rows b])) as Hsub
    by (rewrite concat_app; set_solver).
  eexists. split; [reflexivity|]. split; [|split_and!; try done; by eexists]. constructor; cbn; try done.
  - apply Forall2_app; [|constructor].
    + eapply Forall2_impl; [exact Ht1|]. intros u' t. apply task_ok_mono; cbn; [done|apply view_le_refl..].
    + apply (task_ok_mono _ (mkPipeline (pl_open p) (pl_queue p) (pl_preparing p) (pl_ready p) (pl_state p)
         (pl_transactions p) (pl_sql p) [] (pl_pending p) (pl_store p ++ [cb_rows b]) (pl_sent p) (pl_running p)
         (pl_log p))) in Hu; cbn; [|done|apply view_le_refl..].
      destruct Hu as [Hu1 Hu2 Hu3 _ Hu5 Hu6]. constructor; cbn in *; try done.
      intros _. rewrite concat_app. cbn. rewrite app_nil_r. set_solver.
    + eapply Forall2_impl; [exact Ht3|]. intros u' t. apply task_ok_mono; cbn; [done|apply view_le_refl..].
  - by eapply wi_store.
  - by eapply wi_store.
  - intros u' Hu'. etrans; [by apply Hrows|done].
Qed.

Definition with_commits p (commits : list (CommitTask (SW := SW) (TW := TW) (Q := Q))) : Pipeline :=
  mkPipeline (pl_open p) (pl_queue p) (pl_preparing p) (pl_ready p) (pl_state p) (pl_transactions p) (pl_sql p)
    commits (pl_pending p) (pl_store p) (pl_sent p) (pl_running p) (pl_log p).

Lemma commits_permuted p sent pending flight k :
  pipeline_inv p sent pending flight → pl_commits p ≡ₚ k →
  ∃ flight', pipeline_inv (with_commits p k) sent pending flight' ∧ length flight' = length k.
Proof.
  intros [(staged & Hlog & Hperm) Ht Hpe Hse Hst Htx Hrows Hpub Hsql Hty] Hk.
  apply Forall2_flip in Ht. destruct (Permutation_Forall2 Hk Ht) as (f' & Hf & Ht').
  apply Forall2_flip in Ht'. exists f'. split; [|by apply Forall2_length in Ht'].
  constructor; cbn; try done.
  - exists staged. split; [done|]. rewrite Hperm. by rewrite Hf.
  - eapply Forall2_impl; [exact Ht'|]. intros u t. apply task_ok_mono; cbn; [done|apply view_le_refl..].
Qed.

(** Marking the flushes that travelled with a batch. *)
Lemma mark_optional_inv {Op} {W : QmdbWriter Row Op} (L : QmdbWriterLaws W) w ups marked b store o seq :
  writer_inv L w ups marked b store →
  (∀ f, o = Some f → watermark_rows L f ⊆ store ∧
     ends_prefix (writer_view L w) (wv_persisted (writer_view L w)) (watermark_target L f)) →
  let w' := mark_optional (λ w f, mark_flush_persisted W w f seq) w o in
  writer_inv L w' ups marked b store ∧ view_le (writer_view L w) (writer_view L w') ∧
  (∀ l, wv_published (writer_view L w) = Some l → ∃ l', wv_published (writer_view L w') = Some l' ∧ l ≤ l').
Proof.
  intros Hw Ho. destruct o as [f|]; cbn.
  - destruct (Ho f eq_refl) as [Hr He]. split; [by apply wi_mark_flush|]. split; [|by intros; apply published_mono_flush].
    rewrite (mark_flush_ok L). by split.
  - split; [done|]. split; [by split|]. intros l Hl. by exists l.
Qed.

(** One writer when a batch is marked. *)
Lemma mark_batch_writer {Op} {W : QmdbWriter Row Op} (L : QmdbWriterLaws W) w ups marked b store
    (u : PreparedUpload W) rows o seq :
  writer_inv L w ups marked b store → mark_ok L w u rows o → rows ⊆ store →
  let w' := mark_optional (λ w f, mark_flush_persisted W w f seq) (mark_upload_persisted W w u seq) o in
  writer_inv L w' ups (marked ++ [u]) b store ∧ view_le (writer_view L w) (writer_view L w') ∧
  (∀ l, wv_published (writer_view L w) = Some l → ∃ l', wv_published (writer_view L w') = Some l' ∧ l ≤ l').
Proof.
  intros Hw Hm Hr. pose proof (wi_mark_upload L w ups marked b store u seq Hw) as Hw1.
  destruct (mark_optional_inv L _ ups (marked ++ [u]) b store o seq Hw1) as (Hw2 & Hle & Hpub).
  - intros f Hf. destruct (Hm f Hf) as [Hfr He]. split; [by etrans|].
    rewrite (mark_upload_ok L). cbn. done.
  - rewrite (mark_upload_ok L) in Hle, Hpub. cbn in Hpub. split; [done|]. split; [|done].
    destruct Hle as [Hl Hp]. cbn in Hl, Hp. split; [done|]. set_solver.
Qed.

(** [mark_committed_batch] moves a stored upload from the flight to the pending
    completions. *)
Lemma mark_inv p sent pending flight b seq k u :
  pipeline_inv p sent pending (u :: flight) → pl_commits p = finished_task (b, seq) :: k →
  pipeline_inv (with_commits (mark_committed_batch p (b, seq)) k) sent (pending ++ [u]) flight.
Proof.
  intros [(staged & Hlog & Hperm) Ht Hpe Hse Hst Htx Hrows Hpub Hsql Hty] Hc. rewrite Hc in Ht.
  inversion Ht as [|? ? ? ? Hu Ht']; subst. destruct Hu as [Hu1 Hu2 Hu3 Hu4 Hu5 Hu6]. cbn in *.
  assert (cb_rows b ⊆ concat (pl_store p)) as Hb by (apply Hu4; by eexists).
  destruct (mark_batch_writer LS (pl_state p) _ _ _ _ _ _ _ seq Hst Hu5 Hb) as (Hst' & Hle & Hmono).
  destruct (mark_batch_writer LT (pl_transactions p) _ _ _ _ _ _ _ seq Htx Hu6 Hb) as (Htx' & Hle' & Hmono').
  constructor; cbn; rewrite ?Hu1; cbn; try done.
  - exists staged. split; [done|]. rewrite Hperm. by rewrite <- app_assoc.
  - eapply Forall2_impl; [exact Ht'|]. intros u' t. apply task_ok_mono; cbn; rewrite ?Hu1; cbn; done.
  - rewrite Hpe, fmap_app. done.
  - rewrite !app_assoc, fmap_app. done.
  - rewrite !app_assoc, fmap_app. done.
  - intros u' [Hu'|[Hu'| ->%list_elem_of_singleton]%elem_of_app]%elem_of_app.
    + apply Hrows, elem_of_app. by left.
    + apply Hrows, elem_of_app. by right.
    + by etrans.
  - intros u' Hu'. destruct (Hpub u' Hu') as [(l & Hl & Hlu) (l' & Hl' & Hlu')]. split; cbn; rewrite ?Hu1; cbn.
    + destruct (Hmono l Hl) as (x & Hx & ?). exists x. split; [done|lia].
    + destruct (Hmono' l' Hl') as (x & Hx & ?). exists x. split; [done|lia].
  - destruct (cb_sql b); cbn; [|done]. by rewrite (sql_mark_ok LQ).
Qed.

Lemma marks_inv p sent pending flight done rest :
  pipeline_inv (with_commits p ((finished_task <$> done) ++ rest)) sent pending flight →
  ∃ pending' flight', pipeline_inv (with_commits (fold_left mark_committed_batch done p) rest) sent pending' flight' ∧
    length flight' = length rest.
Proof.
  revert p pending flight. induction done as [|[b seq] done IH]; intros p pending flight Hinv.
  - exists pending, flight. split; [exact Hinv|]. exact (Forall2_length _ _ _ (pi_tasks _ _ _ _ Hinv)).
  - pose proof (pi_tasks _ _ _ _ Hinv) as Ht. destruct flight as [|u flight]; [by inversion Ht|].
    apply (mark_inv _ _ _ _ b seq ((finished_task <$> done) ++ rest)) in Hinv; [|done].
    apply (IH (mark_committed_batch p (b, seq))) in Hinv. exact Hinv.
Qed.

(** *** Watermarks and completions *)

Definition ready p u : bool :=
  upload_ready (latest_published_watermark SW (pl_state p)) (latest_published_watermark TW (pl_transactions p))
    (completion_of u).

Lemma ready_published p u : ready p u = true ↔ published_at p u.
Proof.
  unfold ready, upload_ready, published_at. rewrite (published_ok LS), (published_ok LT). split.
  - destruct (wv_published _) as [l|], (wv_published _) as [l'|]; try done.
    rewrite andb_true_iff, !Z.leb_le. cbn. intros [? ?]. split; by eexists.
  - intros [(l & -> & ?) (l' & -> & ?)]. rewrite andb_true_iff, !Z.leb_le. done.
Qed.

Lemma filter_fmap_completion (b : bool) p (l : list Prepared) :
  filter (λ c, upload_ready (latest_published_watermark SW (pl_state p))
                 (latest_published_watermark TW (pl_transactions p)) c = b) (completion_of <$> l)
  = completion_of <$> filter (λ u, ready p u = b) l.
Proof.
  induction l as [|u l IH]; [done|]. rewrite fmap_cons, !filter_cons, IH. unfold ready. by case_decide.
Qed.

Lemma filter_ready_split p (l : list Prepared) :
  filter (λ u, ready p u = true) l ++ filter (λ u, ready p u = false) l ≡ₚ l.
Proof.
  induction l as [|u l IH]; [done|]. rewrite !filter_cons. destruct (ready p u).
  - rewrite decide_True, decide_False by done. by rewrite <- app_comm_cons, IH.
  - rewrite decide_False, decide_True by done. by rewrite <- Permutation_middle, IH.
Qed.

Lemma complete_inv p sent pending flight :
  pipeline_inv p sent pending flight →
  pipeline_inv (complete_uploads p) (sent ++ filter (λ u, ready p u = true) pending)
    (filter (λ u, ready p u = false) pending) flight.
Proof.
  intros [(staged & Hlog & Hperm) Ht Hpe Hse Hst Htx Hrows Hpub Hsql Hty].
  assert ((sent ++ filter (λ u, ready p u = true) pending) ++ filter (λ u, ready p u = false) pending
          ≡ₚ sent ++ pending) as Hp by (by rewrite <- app_assoc, filter_ready_split).
  constructor; cbn; try done.
  - exists staged. split; [done|]. rewrite Hperm, !app_assoc. by rewrite Hp.
  - eapply Forall2_impl; [exact Ht|]. intros u t. apply task_ok_mono; cbn; [done|apply view_le_refl..].
  - rewrite Hpe. apply (filter_fmap_completion false).
  - rewrite Hpe, fmap_app, <- Hse. f_equiv. rewrite (filter_fmap_completion true), <- list_fmap_compose. done.
  - eapply wi_marked; [|exact Hst]. by rewrite Hp.
  - eapply wi_marked; [|exact Htx]. by rewrite Hp.
  - intros u Hu. apply Hrows. by rewrite <- Hp.
  - intros u [Hu|[Hu _]%list_elem_of_filter]%elem_of_app; [by apply Hpub|]. by apply (ready_published p).
Qed.

Lemma flush_writer {Op} {W : QmdbWriter Row Op} (L : QmdbWriterLaws W) w ups marked b store :
  writer_inv L w ups marked b store →
  ∃ o rows, prepare_flush W w = Ok o ∧ stage_optional (stage_flush W w) o = Ok rows ∧ (is_Some o → rows ≠ []) ∧
    ∀ store' seq, store ⊆ store' → rows ⊆ store' →
      let w' := mark_optional (λ w f, mark_flush_persisted W w f seq) w o in
      writer_inv L w' ups marked b store' ∧ view_le (writer_view L w) (writer_view L w') ∧ caught_up (writer_view L w') ∧
      (∀ l, wv_published (writer_view L w) = Some l → ∃ l', wv_published (writer_view L w') = Some l' ∧ l ≤ l').
Proof.
  intros Hw. destruct (flush_catches_up L w) as [[Hn Hc]|(f & Hf & He & Hc)].
  - exists None, []. split_and!; [done..|by intros []|]. intros store' seq Hs _. cbn.
    split_and!; [by eapply wi_store|by split|done|]. intros l Hl. by exists l.
  - exists (Some f), (watermark_rows L f). cbn. rewrite (stage_flush_ok L).
    split_and!; [done..|intros _; apply watermark_rows_ne|]. intros store' seq Hs Hr.
    pose proof (mark_optional_inv L w ups marked b store' (Some f) seq (wi_store L _ _ _ _ _ _ Hs Hw)) as (Hw' & Hle & Hm).
    { by intros ? [= <-]. }
    cbn in Hw', Hle, Hm. split_and!; [done..| |done]. rewrite (mark_flush_ok L). intros k l Hk Hl. cbn in *. eexists. split; [done|].
    pose proof (Hc k l Hk Hl). destruct (wv_published (writer_view L w)); lia.
Qed.

(** What flushing and completing leave alone. *)
Definition same_front p p' : Prop :=
  pl_open p' = pl_open p ∧ pl_queue p' = pl_queue p ∧ pl_preparing p' = pl_preparing p ∧
  pl_ready p' = pl_ready p ∧ pl_commits p' = pl_commits p ∧ pl_log p' = pl_log p ∧ pl_running p' = pl_running p.

Lemma flush_inv p sent pending flight :
  pipeline_inv p sent pending flight →
  ∃ p', flush_qmdb_watermarks p = Ret p' ∧ pipeline_inv p' sent pending flight ∧ same_front p p' ∧
    caught_up (writer_view LS (pl_state p')) ∧ caught_up (writer_view LT (pl_transactions p')).
Proof.
  intros Hinv. pose proof Hinv as [Hlog Ht Hpe Hse Hst Htx Hrows Hpub Hsql Hty].
  destruct (flush_writer LS _ _ _ _ _ Hst) as (so & sr & Hso & Hsr & Hsn & Hsf).
  destruct (flush_writer LT _ _ _ _ _ Htx) as (to & tr & Hto & Htr & Htn & Htf).
  unfold flush_qmdb_watermarks. rewrite Hso, Hto. cbn [ok expect mbind run_bind].
  destruct (decide (so = None ∧ to = None)) as [[-> ->]|Hsome].
  - exists p. injection Hsr as <-. injection Htr as <-.
    destruct (Hsf (concat (pl_store p)) 0) as (_ & _ & Hc & _); [done|set_solver|].
    destruct (Htf (concat (pl_store p)) 0) as (_ & _ & Hc' & _); [done|set_solver|]. done.
  - assert (sr ++ tr ≠ []) as Hne.
    { intros [-> ->]%app_eq_nil. destruct so; [by apply Hsn|]. destruct to; [by apply Htn|]. by apply Hsome. }
    set (store := concat (pl_store p ++ [sr ++ tr])).
    destruct (Hsf store (zlen (pl_store p) + 1)) as (Hst' & Hle & Hc & Hm);
      [unfold store; rewrite concat_app; set_solver|unfold store; rewrite concat_app; set_solver|].
    destruct (Htf store (zlen (pl_store p) + 1)) as (Htx' & Hle' & Hc' & Hm');
      [unfold store; rewrite concat_app; set_solver|unfold store; rewrite concat_app; set_solver|].
    eexists. split.
    { destruct so, to; try (exfalso; by apply Hsome); rewrite Hsr; cbn [ok expect mbind run_bind]; rewrite Htr;
        cbn [ok expect mbind run_bind]; unfold commit_required_batch;
        rewrite bool_decide_eq_false_2 by (intros E%length_zero_iff_nil; done); reflexivity. }
    split; [|by split_and!]. constructor; cbn; try done.
    + eapply Forall2_impl; [exact Ht|]. intros u t. apply task_ok_mono; cbn; [|done..].
      rewrite concat_app. set_solver.
    + intros u Hu. etrans; [by apply Hrows|]. rewrite concat_app. set_solver.
    + intros u Hu. destruct (Hpub u Hu) as [(l & Hl & Hlu) (l' & Hl' & Hlu')]. split; cbn.
      * destruct (Hm l Hl) as (x & Hx & ?). exists x. split; [done|lia].
      * destruct (Hm' l' Hl') as (x & Hx & ?). exists x. split; [done|lia].
Qed.

Lemma caught_up_covers {Op} {W : QmdbWriter Row Op} (L : QmdbWriterLaws W) w ups marked b store i
    (u : PreparedUpload W) :
  writer_inv L w ups marked b store → caught_up (writer_view L w) → ups !! i = Some u →
  (∀ j x, (j ≤ i)%nat → ups !! j = Some x → x ∈ marked) →
  ∃ l, wv_published (writer_view L w) = Some l ∧ latest_location W u ≤ l.
Proof.
  intros Hw Hc Hi Hall. destruct (wi_upload _ _ _ _ _ _ Hw i u Hi) as [_ Hl].
  destruct (Hc i (latest_location W u)) as (l & Hpub & Hle); [|done|by exists l].
  intros j Hj. rewrite (wi_persisted _ _ _ _ _ _ Hw), elem_of_list_to_set, list_elem_of_fmap.
  destruct (lookup_lt_is_Some_2 ups j) as [x Hx]; [apply lookup_lt_Some in Hi; lia|].
  exists x. split; [symmetry; by apply (wi_upload _ _ _ _ _ _ Hw)|]. apply (Hall j); [lia|done].
Qed.

(** With no commit in flight, a watermark that has caught up covers every
    pending upload. *)
Lemma drained_published p sent pending u :
  pipeline_inv p sent pending [] → caught_up (writer_view LS (pl_state p)) →
  caught_up (writer_view LT (pl_transactions p)) → u ∈ pending → published_at p u.
Proof.
  intros [(staged & Hlog & Hperm) _ _ _ Hst Htx _ _ _ _] Hc Hc' Hu. rewrite app_nil_r in Hperm.
  assert (u ∈ staged) as [i Hi]%list_elem_of_lookup by (rewrite Hperm; apply elem_of_app; by right).
  assert (pl_log p !! i = Some u) as Hl by (rewrite Hlog; by apply lookup_app_l_Some).
  assert (∀ j u', (j ≤ i)%nat → pl_log p !! j = Some u' → u' ∈ sent ++ pending) as Hall.
  { intros j u' Hj Hu'. rewrite Hlog, lookup_app_l in Hu' by (apply lookup_lt_Some in Hi; lia).
    rewrite <- Hperm. by eapply list_elem_of_lookup_2. }
  split.
  - apply (caught_up_covers LS _ _ _ _ _ i (pq_state u) Hst Hc); [by rewrite list_lookup_fmap, Hl|].
    intros j x Hj (u' & -> & Hu')%list_lookup_fmap_Some. apply list_elem_of_fmap_2. by eapply Hall.
  - apply (caught_up_covers LT _ _ _ _ _ i (pq_transactions u) Htx Hc'); [by rewrite list_lookup_fmap, Hl|].
    intros j x Hj (u' & -> & Hu')%list_lookup_fmap_Some. apply list_elem_of_fmap_2. by eapply Hall.
Qed.

Lemma flush_and_complete_inv p sent pending flight :
  pipeline_inv p sent pending flight →
  ∃ p' sent' pending', flush_and_complete_published_uploads p = Ret p' ∧
    pipeline_inv p' sent' pending' flight ∧ same_front p p' ∧ (flight = [] → pending' = []).
Proof.
  intros Hinv%complete_inv. unfold flush_and_complete_published_uploads.
  destruct (pl_pending (complete_uploads p)) as [|c cs] eqn:E.
  - eexists _, _, _. split; [reflexivity|]. split; [exact Hinv|]. split; [done|]. intros _.
    pose proof (pi_pending _ _ _ _ Hinv) as Hp. rewrite E in Hp. by eapply fmap_nil_inv.
  - destruct (flush_inv _ _ _ _ Hinv) as (p1 & -> & Hinv1 & Hf & Hc & Hc'). cbn [mbind run_bind].
    pose proof (complete_inv _ _ _ _ Hinv1) as Hinv2. eexists _, _, _. split; [reflexivity|].
    split; [exact Hinv2|]. split; [exact Hf|]. intros ->.
    apply elem_of_nil_inv. intros u [Hr Hu]%list_elem_of_filter.
    apply (drained_published _ _ _ _ Hinv1 Hc Hc') in Hu. apply ready_published in Hu. by rewrite Hu in Hr.
Qed.

Lemma marks_front done p : same_front p (fold_left mark_committed_batch done p).
Proof.
  revert p. induction done as [|[b seq] done IH]; intros p; [by split_and!|].
  destruct (IH (mark_committed_batch p (b, seq))) as (E1 & E2 & E3 & E4 & E5 & E6 & E7).
  cbn [fold_left]. unfold same_front. rewrite E1, E2, E3, E4, E5, E6, E7. by split_and!.
Qed.

(** The committer joins finished commits. *)
Lemma join_inv p sent pending flight done rest :
  pipeline_inv p sent pending flight → pl_commits p ≡ₚ (finished_task <$> done) ++ rest →
  ∃ p' sent' pending' flight', join_commits p done rest = Ret p' ∧ pipeline_inv p' sent' pending' flight' ∧
    same_front (with_commits p rest) p'.
Proof.
  intros Hinv Hk. destruct (commits_permuted _ _ _ _ _ Hinv Hk) as (f1 & Hinv1 & _).
  destruct (marks_inv _ _ _ _ _ _ Hinv1) as (q2 & f2 & Hinv2 & Hlen).
  destruct (flush_and_complete_inv _ _ _ _ Hinv2) as (p' & s3 & q3 & Hp' & Hinv3 & Hf & _).
  exists p', s3, q3, f2. split; [exact Hp'|]. split; [done|].
  destruct (marks_front done p) as (E1 & E2 & E3 & E4 & E5 & E6 & E7).
  destruct Hf as (F1 & F2 & F3 & F4 & F5 & F6 & F7). unfold same_front in *.
  rewrite F1, F2, F3, F4, F5, F6, F7. cbn. rewrite E1, E2, E3, E4, E6, E7. by split_and!.
Qed.

(** The committer stops. *)
Lemma finish_inv p sent pending flight :
  pipeline_inv p sent pending flight → pl_commits p = [] →
  ∃ p' sent', finish_committer p = Ret p' ∧ pipeline_inv p' sent' [] [] ∧ pl_running p' = false ∧
    pl_open p' = pl_open p ∧ pl_queue p' = pl_queue p ∧ pl_preparing p' = pl_preparing p ∧
    pl_ready p' = pl_ready p ∧ pl_commits p' = [].
Proof.
  intros Hinv Hc. pose proof (pi_tasks _ _ _ _ Hinv) as Ht. rewrite Hc in Ht. inversion Ht; subst.
  destruct (flush_and_complete_inv _ _ _ _ Hinv) as (p1 & s1 & q1 & Hp1 & Hinv1 & Hf & Hq).
  specialize (Hq eq_refl) as ->. unfold finish_committer. rewrite Hp1. cbn [mbind run_bind].
  pose proof (pi_pending _ _ _ _ Hinv1) as Hp. cbn in Hp. rewrite Hp.
  eexists _, s1. split; [reflexivity|]. destruct Hf as (F1 & F2 & F3 & F4 & F5 & F6 & F7).
  split; [|cbn; rewrite ?F1, ?F2, ?F3, ?F4, ?F5; by split_and!].
  destruct Hinv1 as [Hlog Ht1 Hpe Hse Hst Htx Hrows Hpub Hsql Hty]. constructor; cbn; try done.
  eapply Forall2_impl; [exact Ht1|]. intros u t. apply task_ok_mono; cbn; [done|apply view_le_refl..].
Qed.

Lemma prepare_view {Op} {W : QmdbWriter Row Op} (L : QmdbWriterLaws W) w ops r w' :
  prepare_upload W w ops = (r, w') → ops ≠ [] →
  view_le (writer_view L w) (writer_view L w') ∧
  wv_published (writer_view L w') = wv_published (writer_view L w).
Proof.
  intros Hw Hne. destruct r as [x|e].
  - destruct (prepare_ok L _ _ _ _ Hw Hne) as (_ & _ & _ & ->). split; [|done]. split; cbn; [by eexists|done].
  - by rewrite (prepare_failed L _ _ _ _ Hw).
Qed.

Lemma prepare_stop {Op} {W : QmdbWriter Row Op} (L : QmdbWriterLaws W) w ups marked store ops r w' :
  writer_inv L w ups marked true store → prepare_upload W w ops = (r, w') → ops ≠ [] →
  writer_inv L w' ups marked false store.
Proof. intros Hw Hp Hne. destruct r; [by eapply wi_reserve|by eapply wi_refused]. Qed.

(** What a round of the preparer leaves alone. *)
Lemma preparer_round_fields p up rest :
  let p' := (preparer_round p up rest).2 in
  pl_queue p' = rest ∧ pl_open p' = pl_open p ∧ pl_running p' = pl_running p ∧ pl_commits p' = pl_commits p ∧
  pl_pending p' = pl_pending p.
Proof. unfold preparer_round. by destruct (prepare_or_panic _ _ _) as [[[] ?] ?]. Qed.

(** The preparer hands an upload on or dies. *)
Lemma preparer_round_inv p sent pending flight up rest :
  pipeline_inv p sent pending flight → pl_preparing p = true → upload_well up →
  pipeline_inv (preparer_round p up rest).2 sent pending flight.
Proof.
  intros [(staged & Hlog & Hperm) Ht Hpe Hse Hst Htx Hrows Hpub Hsql Hty] Hb Hup. rewrite Hb in Hst, Htx.
  unfold preparer_round, prepare_or_panic, prepare_qmdb_upload.
  destruct (expand_queued_finalized_upload (pu_upload up)) as [[x|e]|e] eqn:Ex.
  2,3: constructor; cbn; try done; [by exists staged| |by eapply wi_stop..];
       eapply Forall2_impl; [exact Ht|]; intros u t; apply task_ok_mono; cbn; [done|apply view_le_refl..].
  destruct (upload_expands _ _ Hup Ex) as (Hd & Hto & Hrt). unfold prepare_prepared_qmdb_upload.
  destruct (prepare_upload SW (pl_state p) (pp_state_delta x)) as [su sw'] eqn:Es.
  destruct (prepare_upload TW (pl_transactions p) (pp_transaction_ops x)) as [tu tw'] eqn:Et.
  destruct (prepare_view LS _ _ _ _ Es Hd) as [Hle Hp]. destruct (prepare_view LT _ _ _ _ Et Hto) as [Hle' Hp'].
  assert (∀ u t p', pl_store p' = pl_store p → pl_state p' = sw' → pl_transactions p' = tw' →
            task_ok p u t → task_ok p' u t) as Hmono.
  { intros u t p' E1 E2 E3. apply task_ok_mono; by rewrite ?E1, ?E2, ?E3. }
  assert (∀ u p', pl_state p' = sw' → pl_transactions p' = tw' → u ∈ sent → published_at p' u) as Hpub'.
  { intros u p' E2 E3 Hu. destruct (Hpub u Hu) as [? ?]. split; by rewrite ?E2, ?E3, ?Hp, ?Hp'. }
  destruct su as [su|e1]; [destruct tu as [tu|e2]|]; cbn [mbind result_bind].
  - constructor; cbn; try done.
    + exists staged. by rewrite Hlog, <- app_assoc.
    + eapply Forall2_impl; [exact Ht|]. intros u t. by apply Hmono.
    + rewrite fmap_app. by eapply wi_reserve.
    + rewrite fmap_app. by eapply wi_reserve.
    + intros u Hu. by apply Hpub'.
    + intros u [Hu| ->%list_elem_of_singleton]%elem_of_app; [by apply Hty|done].
  - constructor; cbn; try done; [by exists staged| |by eapply prepare_stop..|intros u Hu; by apply Hpub'].
    eapply Forall2_impl; [exact Ht|]. intros u t. by apply Hmono.
  - constructor; cbn; try done; [by exists staged| |by eapply prepare_stop..|intros u Hu; by apply Hpub'].
    eapply Forall2_impl; [exact Ht|]. intros u t. by apply Hmono.
Qed.

(** *** Reachable pipelines *)

(** Writers that hold nothing but what they published. *)
Record start_ok (st : Writer SW) (tx : Writer TW) (sqlw : BatchWriter Q) : Prop := {
  so_state : wv_latest (writer_view LS st) = [] ∧ wv_persisted (writer_view LS st) = ∅;
  so_transactions : wv_latest (writer_view LT tx) = [] ∧ wv_persisted (writer_view LT tx) = ∅;
  so_sql : sql_buffer LQ sqlw = [] }.

(** The states of a run in which every offered upload is well formed. *)
Inductive reachable (st : Writer SW) (tx : Writer TW) (sqlw : BatchWriter Q) (store : list (list Row))
    : Pipeline → Prop :=
| reach_start : reachable st tx sqlw store (pipeline_start st tx sqlw store)
| reach_step p p' :
    reachable st tx sqlw store p → pipeline_step max_in_flight_commits p p' → Forall upload_well (pl_queue p') →
    reachable st tx sqlw store p'.

(** A committer that stopped left nothing behind, and one that runs keeps a
    bounded number of commits in flight. *)
Definition stopped_ok p : Prop :=
  (pl_running p = false →
   pl_preparing p = false ∧ pl_ready p = [] ∧ pl_commits p = [] ∧ pl_pending p = []) ∧
  (length (pl_commits p) ≤ max_in_flight_commits)%nat.

Lemma start_writer {Op} {W : QmdbWriter Row Op} (L : QmdbWriterLaws W) w store :
  wv_latest (writer_view L w) = [] ∧ wv_persisted (writer_view L w) = ∅ → writer_inv L w [] [] true store.
Proof.
  intros [Hl Hp]. constructor; rewrite ?Hl; try done. intros l _. left. by intros l' Hl'%not_elem_of_nil.
Qed.

Lemma committer_inv p sent pending flight r :
  pipeline_inv p sent pending flight → stopped_ok p → committer_step max_in_flight_commits p r →
  ∃ p' sent' pending' flight', r = Ret p' ∧ pipeline_inv p' sent' pending' flight' ∧ stopped_ok p' ∧
    pl_queue p' = pl_queue p.
Proof.
  intros Hinv Hstop [u rest Hrun Hlt Hready|done rest Hrun Hne Hk|Hrun Hprep Hready Hc].
  - destruct (recv_inv _ _ _ _ _ _ Hinv Hready) as (p' & Hp' & Hinv' & _ & Hq & Hlen & _).
    exists p', sent, pending, (flight ++ [u]). split_and!; [done..| |done]. split; [|lia].
    unfold stage_and_spawn_commit in Hp'. apply bind_Ret in Hp' as ([b sqlw] & _ & [= <-]).
    intros Hf. cbn in Hf. congruence.
  - destruct (join_inv _ _ _ _ _ _ Hinv Hk) as (p' & s' & q' & f' & Hp' & Hinv' & F1 & F2 & F3 & F4 & F5 & F6 & F7).
    exists p', s', q', f'. split_and!; [done..| |done].
    destruct Hstop as [_ Hb]. rewrite Hk, length_app in Hb. cbn in F5. split; [|rewrite F5; lia].
    intros Hf. rewrite F7 in Hf. cbn in Hf. congruence.
  - destruct (finish_inv _ _ _ _ Hinv Hc) as (p' & s' & Hp' & Hinv' & Hr & Ho & Hq & Hb & Hre & Hco).
    exists p', s', [], []. split_and!; [done..| |done]. split; [intros _|rewrite Hco; cbn; lia].
    rewrite Hb, Hre. split_and!; [done..|]. exact (pi_pending _ _ _ _ Hinv').
Qed.

Lemma task_inv p sent pending flight r :
  pipeline_inv p sent pending flight → stopped_ok p → task_step p r →
  ∃ p', r = Ret p' ∧ pipeline_inv p' sent pending flight ∧ stopped_ok p' ∧ pl_queue p' = pl_queue p.
Proof.
  intros Hinv Hstop [before b after Hc].
  destruct (finish_commit_inv _ _ _ _ _ _ _ Hinv Hc) as (p' & Hp' & Hinv' & _ & Hq & _ & _).
  exists p'. split_and!; [done..| |done]. unfold finish_commit in Hp'.
  apply bind_Ret in Hp' as ([store seq] & _ & [= <-]). destruct Hstop as [Hstop Hb]. split.
  - intros Hf. cbn in Hf. destruct (Hstop Hf) as (_ & _ & Hc' & _). rewrite Hc in Hc'. by destruct before.
  - rewrite Hc in Hb. cbn. rewrite !length_app in *. cbn in *. lia.
Qed.

Lemma with_queue_inv p sent pending flight open queue preparing :
  pipeline_inv p sent pending flight → (preparing = true → pl_preparing p = true) →
  pipeline_inv (with_queue p open queue preparing) sent pending flight.
Proof.
  intros [Hlog Ht Hpe Hse Hst Htx Hrows Hpub Hsql Hty] Hb. constructor; cbn; try done.
  - eapply Forall2_impl; [exact Ht|]. intros u t. apply task_ok_mono; cbn; [done|apply view_le_refl..].
  - destruct preparing; [by rewrite <- (Hb eq_refl)|by eapply wi_stop].
  - destruct preparing; [by rewrite <- (Hb eq_refl)|by eapply wi_stop].
Qed.

Lemma preparer_inv p p' sent pending flight :
  pipeline_inv p sent pending flight → stopped_ok p → Forall upload_well (pl_queue p) → preparer_step p p' →
  pipeline_inv p' sent pending flight ∧ stopped_ok p'.
Proof.
  intros Hinv Hstop Hq [up Ho|Ho|up rest Hb Hqu|Hb Ho Hqu].
  - split; [by apply with_queue_inv|]. exact Hstop.
  - split; [by apply with_queue_inv|]. exact Hstop.
  - rewrite Hqu in Hq. inversion_clear Hq. split; [by apply preparer_round_inv|].
    destruct Hstop as [Hstop Hmax]. destruct (preparer_round_fields p up rest) as (_ & _ & Er & Ec & _).
    split; [|by rewrite Ec]. intros Hf. assert (pl_running p = false) as Hr by congruence.
    destruct (Hstop Hr) as [Hb' _]. congruence.
  - split; [by apply with_queue_inv|]. destruct Hstop as [Hstop Hmax]. split; [|done].
    intros Hf. destruct (Hstop Hf) as (_ & ? & ? & ?). by split_and!.
Qed.

Lemma reachable_inv st tx sqlw store p :
  start_ok st tx sqlw → reachable st tx sqlw store p →
  Forall upload_well (pl_queue p) ∧ stopped_ok p ∧ ∃ sent pending flight, pipeline_inv p sent pending flight.
Proof.
  intros [Hs Ht Hq]. induction 1 as [|p p' _ (Hw & Hstop & s & q & f & Hinv) Hstep Hw'].
  - split; [constructor|]. split; [split; [done|cbn; lia]|]. exists [], [], []. constructor; cbn; try done.
    + by exists [].
    + by apply start_writer.
    + by apply start_writer.
    + by intros u Hu%not_elem_of_nil.
    + by intros u Hu%not_elem_of_nil.
    + by intros u Hu%not_elem_of_nil.
  - split; [done|]. destruct Hstep as [Hc|[Hk|Hp]].
    + destruct (committer_inv _ _ _ _ _ Hinv Hstop Hc) as (? & s' & q' & f' & [= <-] & Hinv' & ? & _).
      split; [done|]. by exists s', q', f'.
    + destruct (task_inv _ _ _ _ _ Hinv Hstop Hk) as (? & [= <-] & Hinv' & ? & _).
      split; [done|]. by exists s, q, f.
    + destruct (preparer_inv _ _ _ _ _ Hinv Hstop Hw Hp) as [Hinv' ?]. split; [done|]. by exists s, q, f.
Qed.

(** The completions held at each stage. *)
Definition all_completions p : list nat :=
  pl_sent p ++ (completion <$> pl_pending p) ++ ((λ t, su_completion (cb_upload (ct_batch t))) <$> pl_commits p)
  ++ (pq_completion <$> pl_ready p).

Lemma completions_accounted p sent pending flight :
  pipeline_inv p sent pending flight → all_completions p ≡ₚ pq_completion <$> pl_log p.
Proof.
  intros [(staged & Hlog & Hperm) Ht Hpe Hse _ _ _ _ _ _]. unfold all_completions.
  assert ((λ t, su_completion (cb_upload (ct_batch t))) <$> pl_commits p = pq_completion <$> flight) as ->.
  { clear -Ht. induction Ht as [|u t f ts Hu _ IH]; [done|]. cbn. rewrite IH. by rewrite (to_upload _ _ _ Hu). }
  rewrite Hlog, Hse, Hpe, <- list_fmap_compose, fmap_app, Hperm, !fmap_app, <- !app_assoc. done.
Qed.

(** A sent completion belongs to an upload below durable watermarks, with all
    earlier uploads in the store. *)
Lemma sent_durable p sent pending flight u :
  pipeline_inv p sent pending flight → u ∈ sent →
  ∃ i, pl_log p !! i = Some u ∧
    (∀ j u', (j ≤ i)%nat → pl_log p !! j = Some u' → rows_of_upload u' ⊆ concat (pl_store p)) ∧
    (∃ f, latest_location SW (pq_state u) ≤ watermark_target LS f ∧ watermark_rows LS f ⊆ concat (pl_store p)) ∧
    (∃ f, latest_location TW (pq_transactions u) ≤ watermark_target LT f ∧
          watermark_rows LT f ⊆ concat (pl_store p)).
Proof.
  intros [(staged & Hlog & Hperm) _ _ _ Hst Htx Hrows Hpub _ _] Hu.
  assert (u ∈ staged) as [i Hi]%list_elem_of_lookup by (rewrite Hperm; apply elem_of_app; by left).
  assert (pl_log p !! i = Some u) as Hl by (rewrite Hlog; by apply lookup_app_l_Some).
  destruct (Hpub u Hu) as [(l & El & Hle) (l' & El' & Hle')].
  destruct (wi_covered LS _ _ _ _ _ _ i (pq_state u) Hst El) as (Hall & f & Hf & Hfr);
    [by rewrite list_lookup_fmap, Hl|done|].
  destruct (wi_covered LT _ _ _ _ _ _ i (pq_transactions u) Htx El') as (_ & f' & Hf' & Hfr');
    [by rewrite list_lookup_fmap, Hl|done|].
  exists i. split_and!; [done| |exists f; split; [lia|done]|exists f'; split; [lia|done]].
  intros j u' Hj Hu'. apply Hrows. specialize (Hall j Hj).
  rewrite (wi_persisted _ _ _ _ _ _ Hst), elem_of_list_to_set in Hall.
  apply list_elem_of_fmap in Hall as (x & Hx & (y & -> & Hy)%list_elem_of_fmap).
  assert (y ∈ staged) as [k Hk]%list_elem_of_lookup by (rewrite Hperm, app_assoc; apply elem_of_app; by left).
  assert (pl_log p !! k = Some y) as Hky by (rewrite Hlog; by apply lookup_app_l_Some).
  destruct (wi_upload _ _ _ _ _ _ Hst k (pq_state y)) as [Hik _]; [by rewrite list_lookup_fmap, Hky|].
  rewrite Hik in Hx. subst k. rewrite Hky in Hu'. by injection Hu' as <-.
Qed.

(** *** Shutdown *)

(** The work left: an upload is queued, ready, in flight and stored. *)
Definition unstored (ts : list (CommitTask (SW := SW) (TW := TW) (Q := Q))) : nat :=
  length (filter (λ t, ct_seq t = None) ts).
Definition work p : nat :=
  5 * length (pl_queue p) + 4 * length (pl_ready p) + length (pl_commits p) + 2 * unstored (pl_commits p)
  + (if pl_preparing p then 1 else 0) + (if pl_running p then 1 else 0).

Lemma unstored_finished done ts : unstored ((finished_task <$> done) ++ ts) = unstored ts.
Proof.
  unfold unstored. induction done as [|d done IH]; [done|]. rewrite fmap_cons, <- app_comm_cons, filter_cons.
  by rewrite decide_False by done.
Qed.

Lemma unstored_app ts ts' : unstored (ts ++ ts') = (unstored ts + unstored ts')%nat.
Proof. unfold unstored. by rewrite filter_app, length_app. Qed.

Lemma committer_work p sent pending flight p' :
  pipeline_inv p sent pending flight → committer_step max_in_flight_commits p (Ret p') →
  (work p' < work p)%nat ∧ pl_open p' = pl_open p.
Proof.
  intros Hinv Hstep. inversion Hstep as [u rest Hrun Hlt Hready Hp'|done rest Hrun Hne Hk Hp'|Hrun Hprep Hready Hc Hp'].
  - unfold stage_and_spawn_commit in Hp'. apply bind_Ret in Hp' as ([b sqlw] & _ & [= <-]).
    unfold work. cbn [pl_queue pl_ready pl_commits pl_preparing pl_running pl_open].
    rewrite Hready, unstored_app, length_app. change (unstored [mkTask b None]) with 1%nat. cbn [length].
    split; [lia|done].
  - destruct (join_inv _ _ _ _ _ _ Hinv Hk) as (p1 & s' & q' & f' & Hp1 & _ & F1 & F2 & F3 & F4 & F5 & F6 & F7).
    rewrite Hp1 in Hp'. injection Hp' as <-. unfold work. rewrite F2, F3, F4, F5, F7, F1.
    cbn [with_commits pl_queue pl_ready pl_commits pl_preparing pl_running pl_open]. split; [|done].
    assert (unstored (pl_commits p) = unstored rest) as Hu
      by (unfold unstored at 1; rewrite Hk; apply unstored_finished).
    rewrite Hu, Hk, length_app, length_fmap. destruct done; [done|cbn [length]; lia].
  - destruct (finish_inv _ _ _ _ Hinv Hc) as (p1 & s' & Hp1 & _ & Hr & Ho & Hq & Hb & Hre & Hco).
    rewrite Hp1 in Hp'. injection Hp' as <-. unfold work. rewrite Hr, Hq, Hb, Hre, Hco, Hc, Hrun. split; [lia|done].
Qed.

Lemma task_work p p' : task_step p (Ret p') → (work p' < work p)%nat ∧ pl_open p' = pl_open p.
Proof.
  intros Hstep. inversion Hstep as [before b after Hc Hp']. unfold finish_commit in Hp'.
  apply bind_Ret in Hp' as ([store seq] & _ & [= <-]). unfold work. cbn [pl_queue pl_ready pl_commits pl_preparing pl_running pl_open].
  rewrite Hc, !unstored_app, !length_app.
  assert (unstored (mkTask b None :: after) = S (unstored after)) as ->
    by (unfold unstored; by rewrite filter_cons, decide_True).
  assert (unstored (mkTask b (Some seq) :: after) = unstored after) as ->
    by (unfold unstored; by rewrite filter_cons, decide_False).
  cbn [length]. split; [lia|done].
Qed.

Lemma round_work p up rest :
  pl_preparing p = true → pl_queue p = up :: rest → (work (preparer_round p up rest).2 < work p)%nat.
Proof.
  intros Hb Hq. unfold preparer_round. destruct (prepare_or_panic _ _ _) as [[r sw] tw]. unfold work. rewrite Hq, Hb.
  destruct r as [u|why]; cbn [snd pl_queue pl_ready pl_commits pl_preparing pl_running];
    rewrite ?length_app; cbn [length]; destruct (pl_running p); lia.
Qed.

Lemma exit_work p open :
  pl_preparing p = true → pl_queue p = [] → (work (with_queue p open [] false) < work p)%nat.
Proof.
  intros Hb Hq. unfold work. cbn [with_queue pl_queue pl_ready pl_commits pl_preparing pl_running].
  rewrite Hq, Hb. lia.
Qed.

Lemma preparer_work p p' :
  pl_open p = false → preparer_step p p' →
  (work p' < work p)%nat ∧ pl_open p' = false ∧ pl_queue p' `suffix_of` pl_queue p.
Proof.
  intros Ho [up Hop|Hop|up rest Hb Hq|Hb _ Hq]; [congruence..| |].
  - destruct (preparer_round_fields p up rest) as (-> & -> & _). rewrite Hq.
    split_and!; [by apply round_work|done|by apply suffix_cons_r].
  - rewrite Hq. split_and!; [by apply exit_work|done|done].
Qed.

(** A step after the shutdown began. *)
Lemma closed_step st tx sqlw store p p' :
  start_ok st tx sqlw → reachable st tx sqlw store p → pl_open p = false →
  pipeline_step max_in_flight_commits p p' →
  reachable st tx sqlw store p' ∧ pl_open p' = false ∧ (work p' < work p)%nat.
Proof.
  intros Hs Hr Ho Hstep. destruct (reachable_inv _ _ _ _ _ Hs Hr) as (Hw & Hstop & s & q & f & Hinv).
  assert (Forall upload_well (pl_queue p') ∧ pl_open p' = false ∧ (work p' < work p)%nat) as (Hw' & Ho' & Hlt).
  { destruct Hstep as [Hc|[Hk|Hp]].
    - destruct (committer_inv _ _ _ _ _ Hinv Hstop Hc) as (? & ? & ? & ? & [= <-] & _ & _ & Hq).
      destruct (committer_work _ _ _ _ _ Hinv Hc) as [? Ho']. rewrite Hq, Ho'. by split_and!.
    - destruct (task_inv _ _ _ _ _ Hinv Hstop Hk) as (? & [= <-] & _ & _ & Hq).
      destruct (task_work _ _ Hk) as [? Ho']. rewrite Hq, Ho'. by split_and!.
    - destruct (preparer_work _ _ Ho Hp) as (? & ? & l & Hq). split_and!; [|done..].
      rewrite Hq, Forall_app in Hw. apply Hw. }
  split; [|done]. by eapply reach_step.
Qed.

(** A committer with nothing to do waits for the preparer. *)
Lemma committer_idle p :
  (0 < max_in_flight_commits)%nat → pl_running p = true →
  (∀ r, ¬ committer_step max_in_flight_commits p r) → (∀ r, ¬ task_step p r) →
  pl_preparing p = true ∧ pl_ready p = [] ∧ pl_commits p = [].
Proof.
  intros Hmax Hrun Hcom Htask.
  assert (pl_commits p = []) as Hc.
  { destruct (pl_commits p) as [|[b [seq|]] ts] eqn:Hc; [done|exfalso..].
    - eapply Hcom, (committer_join _ _ [(b, seq)] ts); [done|done|by rewrite Hc].
    - by eapply Htask, (task_finishes _ [] b ts). }
  assert (pl_ready p = []) as Hre.
  { destruct (pl_ready p) as [|u rest] eqn:Hre; [done|exfalso].
    eapply Hcom, (committer_recv _ _ u rest); [done|rewrite Hc; cbn; lia|done]. }
  split; [|done]. destruct (pl_preparing p) eqn:Hb; [done|exfalso]. by eapply Hcom, committer_stop.
Qed.

(** Where the invariant holds every step of the committer and of a task
    returns. *)
Lemma stuck_tasks p sent pending flight :
  pipeline_inv p sent pending flight → stopped_ok p →
  (∀ p', ¬ committer_step max_in_flight_commits p (Ret p')) → (∀ p', ¬ task_step p (Ret p')) →
  (∀ r, ¬ committer_step max_in_flight_commits p r) ∧ (∀ r, ¬ task_step p r).
Proof.
  intros Hinv Hstop Hcom Htask. split; intros r Hr.
  - destruct (committer_inv _ _ _ _ _ Hinv Hstop Hr) as (p' & _ & _ & _ & -> & _). by eapply Hcom.
  - destruct (task_inv _ _ _ _ _ Hinv Hstop Hr) as (p' & -> & _). by eapply Htask.
Qed.

(** A pipeline that cannot move any more has stopped. *)
Lemma stuck_stopped st tx sqlw store p :
  start_ok st tx sqlw → (0 < max_in_flight_commits)%nat → reachable st tx sqlw store p → pl_open p = false →
  nf (pipeline_step max_in_flight_commits) p → pl_running p = false.
Proof.
  intros Hs Hmax Hr Ho Hnf. destruct (reachable_inv _ _ _ _ _ Hs Hr) as (Hw & Hstop & s & q & f & Hinv).
  destruct (pl_running p) eqn:Hrun; [exfalso|done].
  destruct (stuck_tasks _ _ _ _ Hinv Hstop) as [Hcom Htask];
    [intros p' Hp'; apply Hnf; exists p'; by left|intros p' Hp'; apply Hnf; exists p'; right; by left|].
  destruct (committer_idle p Hmax Hrun Hcom Htask) as (Hb & _). apply Hnf.
  destruct (pl_queue p) as [|up rest] eqn:Hq; eexists; right; right; [by apply preparer_exit|by eapply preparer_next].
Qed.

(** An upload the preparer cannot prepare: it does not expand, or one of the
    writers refuses its operations. *)
Definition unpreparable p (up : PendingQueuedFinalizedUpload) : Prop :=
  match expand_queued_finalized_upload (pu_upload up) with
  | Ret (Ok x) =>
      (∃ e, (prepare_upload SW (pl_state p) (pp_state_delta x)).1 = Err e) ∨
      (∃ e, (prepare_upload TW (pl_transactions p) (pp_transaction_ops x)).1 = Err e)
  | _ => True
  end.

Lemma preparer_round_panics p up rest :
  (∃ why, (preparer_round p up rest).1 = Panic why) ↔ unpreparable p up.
Proof.
  unfold preparer_round, prepare_or_panic, prepare_qmdb_upload, unpreparable.
  destruct (expand_queued_finalized_upload (pu_upload up)) as [[x|e]|w];
    [|split; [done|intros _; cbn; by eexists]..].
  unfold prepare_prepared_qmdb_upload.
  destruct (prepare_upload SW _ _) as [[u|e] st'], (prepare_upload TW _ _) as [[v|e'] tx']; cbn;
    (split; [intros [why Hw]; try done; eauto|intros [[? ?]|[? ?]]; try done; by eexists]).
Qed.

(** The one way a task of the pipeline panics. *)
Lemma panics_unpreparable p sent pending flight :
  pipeline_inv p sent pending flight → stopped_ok p →
  (∃ why, task_panics max_in_flight_commits p why) ↔
  ∃ up rest, pl_preparing p = true ∧ pl_queue p = up :: rest ∧ unpreparable p up.
Proof.
  intros Hinv Hstop. split.
  - intros [why [Hc|Ht|up rest Hb Hq Hp]].
    + by destruct (committer_inv _ _ _ _ _ Hinv Hstop Hc) as (? & ? & ? & ? & ? & _).
    + by destruct (task_inv _ _ _ _ _ Hinv Hstop Ht) as (? & ? & _).
    + exists up, rest. split_and!; [done..|]. apply (preparer_round_panics p up rest). by exists why.
  - intros (up & rest & Hb & Hq & Hu). apply (preparer_round_panics p up rest) in Hu as [why Hw].
    exists why. by eapply preparer_panics.
Qed.

(** C28. Completions are durable.  In every state the tasks reach, however
    offers, preparation, store commits and joins interleave, and also after the
    preparer died: the committer and the commit tasks cannot panic, and the
    preparer does exactly when the upload it takes next does not expand or a
    writer refuses it; at most the configured number of commits is in flight;
    each upload handed over is in exactly one of the four stages, so no
    completion is lost or sent twice; and a completion that was sent belongs to
    an upload such that its rows and those of every earlier upload are in the
    store, below watermarks on both logs that are in the store too. *)
Theorem commits_durable st tx sqlw store p :
  start_ok st tx sqlw → reachable st tx sqlw store p →
  (∀ why, ¬ committer_step max_in_flight_commits p (Panic why) ∧ ¬ task_step p (Panic why)) ∧
  ((∃ why, task_panics max_in_flight_commits p why) ↔
   ∃ up rest, pl_preparing p = true ∧ pl_queue p = up :: rest ∧ unpreparable p up) ∧
  (length (pl_commits p) ≤ max_in_flight_commits)%nat ∧
  all_completions p ≡ₚ pq_completion <$> pl_log p ∧
  ∀ c, c ∈ pl_sent p → ∃ i u, pl_log p !! i = Some u ∧ pq_completion u = c ∧
    (∀ j u', (j ≤ i)%nat → pl_log p !! j = Some u' → rows_of_upload u' ⊆ concat (pl_store p)) ∧
    (∃ f, latest_location SW (pq_state u) ≤ watermark_target LS f ∧ watermark_rows LS f ⊆ concat (pl_store p)) ∧
    (∃ f, latest_location TW (pq_transactions u) ≤ watermark_target LT f ∧
          watermark_rows LT f ⊆ concat (pl_store p)).
Proof.
  intros Hs Hr. destruct (reachable_inv _ _ _ _ _ Hs Hr) as (Hw & Hstop & sent & q & f & Hinv).
  split; [|split; [by eapply panics_unpreparable|split; [apply Hstop|split; [by eapply completions_accounted|]]]].
  - intros why. split; intros Hstep.
    + by destruct (committer_inv _ _ _ _ _ Hinv Hstop Hstep) as (? & ? & ? & ? & ? & _).
    + by destruct (task_inv _ _ _ _ _ Hinv Hstop Hstep) as (? & ? & _).
  - intros c Hc. rewrite (pi_sent _ _ _ _ Hinv) in Hc. apply list_elem_of_fmap in Hc as (u & -> & Hu).
    destruct (sent_durable _ _ _ _ _ Hinv Hu) as (i & Hi & Hrest). by exists i, u.
Qed.

(** A shutdown ends with nothing held back.  Once the publisher dropped its
    channel, the preparer, the committer and the commit tasks take finitely many
    steps, in any order, and when none is left the committer has stopped without
    panicking and every upload it was handed is completed. *)
Theorem shutdown_completes st tx sqlw store p :
  start_ok st tx sqlw → (0 < max_in_flight_commits)%nat → reachable st tx sqlw store p → pl_open p = false →
  sn (pipeline_step max_in_flight_commits) p ∧
  ∀ p', rtc (pipeline_step max_in_flight_commits) p p' → nf (pipeline_step max_in_flight_commits) p' →
    pl_running p' = false ∧ pl_sent p' ≡ₚ pq_completion <$> pl_log p'.
Proof.
  intros Hs Hmax Hr Ho. split.
  - remember (work p) as k eqn:Hk. revert p Hr Ho Hk.
    induction (lt_wf k) as [k _ IH]. intros p Hr Ho ->. constructor. intros p' Hstep.
    destruct (closed_step _ _ _ _ _ _ Hs Hr Ho Hstep) as (Hr' & Ho' & Hlt). by eapply IH.
  - intros p' Hrtc Hnf.
    assert (reachable st tx sqlw store p' ∧ pl_open p' = false) as [Hr' Ho'].
    { clear Hnf. induction Hrtc as [|p1 p2 p3 Hstep _ IH]; [done|].
      destruct (closed_step _ _ _ _ _ _ Hs Hr Ho Hstep) as (Hr' & Ho' & _). by apply IH. }
    pose proof (stuck_stopped _ _ _ _ _ Hs Hmax Hr' Ho' Hnf) as Hrun. split; [done|].
    destruct (reachable_inv _ _ _ _ _ Hs Hr') as (_ & [Hstop _] & s & q & f & Hinv).
    destruct (Hstop Hrun) as (_ & Hre & Hc & Hpe).
    rewrite <- (completions_accounted _ _ _ _ Hinv). unfold all_completions. by rewrite Hre, Hc, Hpe, !app_nil_r.
Qed.

End invariant.

(** ** Witnesses *)

Notation SamplePipeline :=
  (Pipeline (SW := sample_writer true) (TW := sample_writer false) (Q := sample_sql)).

Definition sample_up : PendingQueuedFinalizedUpload :=
  mkPendingQueued 1 (mkQueued sample_child 17 0 0 [Update (replicate 32 x01) (replicate 24 x02); CommitFloor None 0]) 7.
Definition sample_view : WriterView := mkView [] ∅ None.
Definition sample_pipeline : SamplePipeline := 
  pipeline_start (SW := sample_writer true) (TW := sample_writer false) (Q := sample_sql) sample_view sample_view [] [].

(** One upload through both tasks: offered, prepared, staged, stored and
    joined. *)
Definition sample_offered : SamplePipeline :=
  with_queue (with_queue sample_pipeline true ([] ++ [sample_up]) true) false [sample_up] true.
Definition sample_prepared : SamplePipeline :=
  with_queue (preparer_round sample_offered sample_up []).2 false [] false.
Definition sample_recv (p : SamplePipeline) : run SamplePipeline :=
  match pl_ready p with u :: rest => stage_and_spawn_commit p u rest | [] => Panic "" end.
Definition sample_store (p : SamplePipeline) : run SamplePipeline :=
  match pl_commits p with [mkTask b None] => finish_commit p [] b [] | _ => Panic "" end.
Definition sample_join (p : SamplePipeline) : run SamplePipeline :=
  match pl_commits p with [mkTask b (Some s)] => join_commits p [(b, s)] [] | _ => Panic "" end.
Definition sample_run : run SamplePipeline :=
  p ← sample_recv sample_prepared; p ← sample_store p; sample_join p.

Notation sample_reachable :=
  (reachable (SW := sample_writer true) (TW := sample_writer false) (Q := sample_sql) 2 sample_view sample_view [] []).

Lemma sample_start_ok : start_ok (sample_writer_laws true) (sample_writer_laws false) sample_sql_laws sample_view sample_view [].
Proof. by constructor. Qed.

Lemma sample_up_well : upload_well sample_up.
Proof.
  constructor.
  - split; apply Z.leb_le; vm_compute; reflexivity.
  - cbn. lia.
  - apply Z.leb_le. vm_compute. reflexivity.
  - done.
  - cbn. intros k v [[= -> ->]|[?|?%not_elem_of_nil]%elem_of_cons]%elem_of_cons; done.
Qed.

Lemma sample_offered_reachable : sample_reachable sample_offered.
Proof.
  eapply reach_step; [eapply reach_step; [apply reach_start| |]| |].
  - right. right. by apply (preparer_offer sample_pipeline sample_up).
  - repeat constructor; apply sample_up_well.
  - right. right. by apply preparer_close.
  - repeat constructor; apply sample_up_well.
Qed.

Lemma sample_round_preparing : pl_preparing (preparer_round sample_offered sample_up []).2 = true.
Proof. vm_compute. reflexivity. Qed.

Lemma sample_prepared_fields :
  pl_open sample_prepared = false ∧ pl_running sample_prepared = true ∧ pl_commits sample_prepared = []
  ∧ pl_queue sample_prepared = [].
Proof.
  destruct (preparer_round_fields sample_offered sample_up []) as (_ & _ & Hr & Hc & _). unfold sample_prepared.
  cbn [with_queue pl_open pl_running pl_commits pl_queue]. rewrite Hr, Hc. by split_and!.
Qed.

Lemma sample_prepared_reachable : sample_reachable sample_prepared.
Proof.
  destruct (preparer_round_fields sample_offered sample_up []) as (Hq & Ho & _).
  eapply reach_step; [eapply reach_step; [apply sample_offered_reachable| |]| |].
  - right. right. by apply (preparer_next _ sample_up []).
  - rewrite Hq. constructor.
  - right. right. exact (preparer_exit (preparer_round sample_offered sample_up []).2 sample_round_preparing Ho Hq).
  - constructor.
Qed.

(** An upload whose transactions do not start where the log is: the preparer
    panics on it, and the others see its channels closed. *)
Definition sample_gap : PendingQueuedFinalizedUpload :=
  mkPendingQueued 1 (mkQueued sample_child 17 0 5 [Update (replicate 32 x01) (replicate 24 x02); CommitFloor None 0]) 7.
Lemma sample_gap_panics :
  match preparer_round sample_pipeline sample_gap [] with
  | (Panic why, p) => negb (pl_preparing p) && String.prefix "QMDB prepare worker failed at height 1" why
  | (Ret _, _) => false
  end = true.
Proof. vm_compute. reflexivity. Qed.

(** A reachable state on its way down. *)
Record draining (p : SamplePipeline) : Prop := {
  dr_reach : sample_reachable p; dr_open : pl_open p = false; dr_running : pl_running p = true;
  dr_queue : pl_queue p = [] }.

Lemma draining_step p p' :
  draining p → pipeline_step 2 p p' → pl_open p' = pl_open p → pl_running p' = pl_running p →
  pl_queue p' = pl_queue p → draining p'.
Proof.
  intros [Hr Ho Hrun Hq] Hs E1 E2 E3. constructor; [|congruence..].
  eapply reach_step; [exact Hr|exact Hs|]. rewrite E3, Hq. constructor.
Qed.

Lemma recv_draining p p' : draining p → pl_commits p = [] → sample_recv p = Ret p' → draining p'.
Proof.
  intros Hd Hc Hp. unfold sample_recv in Hp. destruct (pl_ready p) as [|u rest] eqn:Hu; [done|].
  assert (pipeline_step 2 p p') as Hs.
  { left. rewrite <- Hp. apply committer_recv; [apply Hd|rewrite Hc; cbn; lia|done]. }
  unfold stage_and_spawn_commit in Hp. apply bind_Ret in Hp as ([? ?] & _ & [= <-]).
  by apply (draining_step _ _ Hd Hs).
Qed.

Lemma store_draining p p' : draining p → sample_store p = Ret p' → draining p'.
Proof.
  intros Hd Hp. unfold sample_store in Hp. destruct (pl_commits p) as [|[b [?|]] [|? ?]] eqn:Hc; try done.
  assert (pipeline_step 2 p p') as Hs.
  { right. left. rewrite <- Hp. by apply task_finishes. }
  unfold finish_commit in Hp. apply bind_Ret in Hp as ([? ?] & _ & [= <-]). by apply (draining_step _ _ Hd Hs).
Qed.

Lemma join_reachable p p' : draining p → sample_join p = Ret p' → sample_reachable p' ∧ pl_open p' = false.
Proof.
  intros [Hr Ho Hrun Hq] Hp. unfold sample_join in Hp. destruct (pl_commits p) as [|[b [s|]] [|? ?]] eqn:Hc; try done.
  assert (pipeline_step 2 p p') as Hs.
  { left. rewrite <- Hp. apply committer_join; [done|done|by rewrite Hc]. }
  destruct (closed_step (sample_writer_laws true) (sample_writer_laws false) sample_sql_laws 2 _ _ _ _ _ _ sample_start_ok Hr Ho Hs)
    as (? & ? & _). by split.
Qed.

Lemma sample_run_reachable p : sample_run = Ret p → sample_reachable p ∧ pl_open p = false.
Proof.
  intros (p1 & H1 & (p2 & H2 & H3)%bind_Ret)%bind_Ret. destruct sample_prepared_fields as (Ho & Hrun & Hc & Hq).
  assert (draining sample_prepared) as Hd by (constructor; [exact sample_prepared_reachable|exact Ho|exact Hrun|exact Hq]).
  apply (join_reachable p2); [|exact H3]. apply (store_draining p1); [|exact H2].
  by apply (recv_draining sample_prepared).
Qed.

Lemma sample_run_sends :
  match sample_run with Ret p => bool_decide (pl_sent p = [7%nat]) | _ => false end = true.
Proof. vm_compute. reflexivity. Qed.

Lemma sample_run_result : ∃ p, sample_run = Ret p ∧ sample_reachable p ∧ pl_open p = false ∧ pl_sent p = [7%nat].
Proof.
  pose proof sample_run_sends as Hs. destruct sample_run as [p|w] eqn:E; [|discriminate Hs].
  apply bool_decide_eq_true in Hs. destruct (sample_run_reachable p E) as [Hr Ho]. exists p.
  split; [reflexivity|]. split; [exact Hr|]. split; [exact Ho|exact Hs].
Qed.

Lemma commits_durable_witness :
  ∃ p, sample_run = Ret p ∧ ∃ i u, pl_log p !! i = Some u ∧ pq_completion u = 7%nat.
Proof.
  destruct sample_run_result as (p & E & Hr & _ & Hs). exists p. split; [exact E|].
  destruct (commits_durable _ _ _ _ _ _ _ _ _ sample_start_ok Hr) as (_ & _ & _ & _ & Hd).
  destruct (Hd 7%nat) as (i & u & Hi & Hu & _); [rewrite Hs; by left|].
  exists i, u. split; [exact Hi|exact Hu].
Defined.

Lemma shutdown_completes_witness :
  ∃ p, sample_run = Ret p ∧ sn (pipeline_step 2) p.
Proof.
  destruct sample_run_result as (p & E & Hr & Ho & _). exists p. split; [exact E|].
  refine (proj1 (shutdown_completes _ _ _ _ _ _ _ _ _ sample_start_ok _ Hr Ho)). lia.
Defined.
