(* ===== verification/Lockstep.v ===== *)
(** * Where a restart resumes (crates/indexer/src/publisher/qmdb.rs)

    The two QMDB logs publish their watermarks in lockstep: in every state the
    tasks of CommitPipeline.v reach, the watermarks of both logs, published or
    only stored, end the same upload, and every upload up to it is in the store.
    So a publisher that recovers its cursors from the store, after a crash at
    any point, resumes both logs between two uploads. *)

From stdpp Require Import prelude gmap list strings relations.
From S2P Require Import Prelude Interfaces Concrete Transaction Database Block Execution Indexer Lookup Writers CommitPipeline CommitInvariant.

(** ** Greatest watermarks *)

Definition opt_max (a b : option Z) : option Z :=
  match a, b with
  | Some x, Some y => Some (Z.max x y)
  | Some x, None => Some x
  | None, b => b
  end.

Lemma list_max_app a b : list_max (a ++ b) = opt_max (list_max a) (list_max b).
Proof.
  induction a as [|x a IH]; [done|]. cbn. fold (list_max (a ++ b)) (list_max a). rewrite IH.
  destruct (list_max a) as [y|], (list_max b) as [z|]; cbn; try done. f_equal. lia.
Qed.

Lemma list_max_ge ls x : x ∈ ls → ∃ m, list_max ls = Some m ∧ x ≤ m.
Proof.
  intros Hx. pose proof (list_max_spec ls) as Hm. destruct (list_max ls) as [m|].
  - exists m. split; [done|]. by apply Hm.
  - rewrite Hm in Hx. by apply not_elem_of_nil in Hx.
Qed.

(** The greatest of an increasing prefix is its last element. *)
Lemma list_max_take ls i x :
  (∀ i j l l', ls !! i = Some l → ls !! j = Some l' → (i < j)%nat → l < l') → ls !! i = Some x →
  list_max (take (S i) ls) = Some x.
Proof.
  intros Hs Hi. pose proof (list_max_spec (take (S i) ls)) as Hm.
  assert (x ∈ take (S i) ls) as Hx.
  { apply list_elem_of_lookup. exists i. by rewrite lookup_take_lt by lia. }
  destruct (list_max _) as [m|]; [|rewrite Hm in Hx; by apply not_elem_of_nil in Hx].
  destruct Hm as [Hin Hall]. f_equal. apply list_elem_of_lookup in Hin as (j & [Hj Hlt]%lookup_take_Some).
  destruct (decide (j = i)) as [->|]; [congruence|]. pose proof (Hs j i m x Hj Hi ltac:(lia)). specialize (Hall x Hx). lia.
Qed.

(** The longest prefix does not depend on how many uploads there are beyond
    the set. *)
Lemma prefix_len_agree p n n' b :
  (∀ i, i ∈ p → (i < b)%nat) → (b ≤ n)%nat → (b ≤ n')%nat → prefix_len p n = prefix_len p n' ∧ (prefix_len p n ≤ b)%nat.
Proof.
  intros Hb Hn Hn'.
  assert (∀ m, (b ≤ m)%nat → (prefix_len p m ≤ b)%nat) as Hle.
  { intros m Hm. destruct (decide (prefix_len p m ≤ b)%nat); [done|].
    destruct (prefix_len_spec p m) as [_ Hin]. specialize (Hin b ltac:(lia)). specialize (Hb b Hin). lia. }
  split; [|by apply Hle]. pose proof (Hle n Hn). pose proof (Hle n' Hn').
  destruct (prefix_len_spec p n) as [_ H1], (prefix_len_spec p n') as [_ H2].
  pose proof (prefix_len_max p n' (prefix_len p n) ltac:(lia) H1). pose proof (prefix_len_max p n (prefix_len p n') ltac:(lia) H2). lia.
Qed.

Section lockstep.
Context `{LazyKey} `{ConsensusLib} {Row : Type}.
Context {SW : QmdbWriter Row (AnyOperation bytes)} {TW : QmdbWriter Row (KeylessOperation digest)}
  {Q : SqlBatchWriter Row}.
Variables (LS : QmdbWriterLaws SW) (LT : QmdbWriterLaws TW) (LQ : SqlWriterLaws Q) (LR : StoreLaws LS LT LQ)
  (max_in_flight_commits : nat) (start : option Z * option Z).
Notation Pipeline := (Pipeline (SW := SW) (TW := TW) (Q := Q)).
Notation Prepared := (PreparedQmdbUpload (SW := SW) (TW := TW)).
Implicit Types (p : Pipeline) (u : Prepared) (k : option nat) (m : option Z * option Z).

(** ** Pairs of watermarks *)

(** The watermarks that end an upload, on both logs. *)
Definition ends_of u : option Z * option Z :=
  (Some (latest_location SW (pq_state u)), Some (latest_location TW (pq_transactions u))).

(** A pair of watermarks that ends the same upload, or is the pair [d]. *)
Definition at_upload (log : list Prepared) (d : option Z * option Z) k m : Prop :=
  match k with None => m = d | Some i => ∃ u, log !! i = Some u ∧ m = ends_of u end.

Definition pair_max m m' : option Z * option Z := (opt_max m.1 m'.1, opt_max m.2 m'.2).

Definition published_pair p : option Z * option Z :=
  (wv_published (writer_view LS (pl_state p)), wv_published (writer_view LT (pl_transactions p))).
Definition batch_pair (b : QmdbCommitBatch (SW := SW) (TW := TW) (Q := Q)) : option Z * option Z :=
  (watermark_target LS <$> cb_state_watermark b, watermark_target LT <$> cb_transaction_watermark b).

(** What a reader of the store finds: [writer_location_watermark] on the two
    logs. *)
Definition read_pair (rows : list Row) : option Z * option Z :=
  (list_max (omap (row_watermark LS) rows), list_max (omap (row_watermark LT) rows)).

(** The logs increase, from the watermarks the publisher started with. *)
Definition start_below p : Prop :=
  (∀ l l', start.1 = Some l → l' ∈ wv_latest (writer_view LS (pl_state p)) → l < l') ∧
  (∀ l l', start.2 = Some l → l' ∈ wv_latest (writer_view LT (pl_transactions p)) → l < l').

Definition stored_upto p k : Prop :=
  ∀ i j u, k = Some i → (j ≤ i)%nat → pl_log p !! j = Some u → rows_of_upload LS LT LQ u ⊆ concat (pl_store p).

Record lockstep p : Prop := {
  lk_below : start_below p;
  lk_published : ∃ k, at_upload (pl_log p) start k (published_pair p);
  lk_tasks t : t ∈ pl_commits p →
    (∃ k, at_upload (pl_log p) (None, None) k (batch_pair (ct_batch t))) ∧
    read_pair (cb_rows (ct_batch t)) = batch_pair (ct_batch t);
  lk_store : ∃ k, at_upload (pl_log p) start k (read_pair (concat (pl_store p))) ∧ stored_upto p k }.

Lemma read_pair_app rows rows' : read_pair (rows ++ rows') = pair_max (read_pair rows) (read_pair rows').
Proof. unfold read_pair. by rewrite !omap_app, !list_max_app. Qed.

Lemma at_upload_mono log log' d k m : log `prefix_of` log' → at_upload log d k m → at_upload log' d k m.
Proof.
  intros Hl. destruct k as [i|]; [|done]. intros (u & Hi & ->). exists u. split; [|done].
  by eapply prefix_lookup_Some.
Qed.

(** What the invariant of the pipeline says of one entry of the log. *)
Lemma log_entry p sent pending flight i u :
  pipeline_inv LS LT LQ p sent pending flight → pl_log p !! i = Some u →
  upload_index LS (pq_state u) = i ∧ upload_index LT (pq_transactions u) = i ∧
  wv_latest (writer_view LS (pl_state p)) !! i = Some (latest_location SW (pq_state u)) ∧
  wv_latest (writer_view LT (pl_transactions p)) !! i = Some (latest_location TW (pq_transactions u)).
Proof.
  intros Hinv Hi.
  destruct (wi_upload _ _ _ _ _ _ (pi_state _ _ _ _ _ _ _ Hinv) i (pq_state u)); [by rewrite list_lookup_fmap, Hi|].
  destruct (wi_upload _ _ _ _ _ _ (pi_transactions _ _ _ _ _ _ _ Hinv) i (pq_transactions u));
    [by rewrite list_lookup_fmap, Hi|]. done.
Qed.

Lemma log_sorted p sent pending flight i j u u' :
  pipeline_inv LS LT LQ p sent pending flight → pl_log p !! i = Some u → pl_log p !! j = Some u' → (i < j)%nat →
  latest_location SW (pq_state u) < latest_location SW (pq_state u') ∧
  latest_location TW (pq_transactions u) < latest_location TW (pq_transactions u').
Proof.
  intros Hinv Hi Hj Hij. destruct (log_entry _ _ _ _ _ _ Hinv Hi) as (_ & _ & Hs & Ht).
  destruct (log_entry _ _ _ _ _ _ Hinv Hj) as (_ & _ & Hs' & Ht'). split.
  - by eapply (wi_sorted _ _ _ _ _ _ (pi_state _ _ _ _ _ _ _ Hinv)).
  - by eapply (wi_sorted _ _ _ _ _ _ (pi_transactions _ _ _ _ _ _ _ Hinv)).
Qed.

(** The greater of two pairs ends the later of their uploads. *)
Lemma pair_max_at p sent pending flight k j m m' :
  pipeline_inv LS LT LQ p sent pending flight → start_below p →
  at_upload (pl_log p) start k m → at_upload (pl_log p) (None, None) j m' →
  at_upload (pl_log p) start (match k, j with Some a, Some b => Some (a `max` b)%nat | None, j => j | k, None => k end)
    (pair_max m m').
Proof.
  intros Hinv [Hb Hb'] Hk Hj. destruct j as [j|]; cbn in Hj.
  - destruct Hj as (u & Hu & ->). destruct (log_entry _ _ _ _ _ _ Hinv Hu) as (_ & _ & Hls%list_elem_of_lookup_2 & Hlt%list_elem_of_lookup_2).
    destruct k as [i|]; cbn in Hk.
    + destruct Hk as (u' & Hu' & ->). unfold ends_of, pair_max. cbn [fst snd opt_max].
      destruct (lt_eq_lt_dec i j) as [[Hlt'| ->]|Hgt].
      * rewrite Nat.max_r by lia. exists u. split; [done|]. destruct (log_sorted _ _ _ _ _ _ _ _ Hinv Hu' Hu Hlt').
        unfold ends_of. by rewrite !Z.max_r by lia.
      * rewrite Nat.max_id. exists u. split; [done|]. rewrite Hu in Hu'. injection Hu' as <-. unfold ends_of. by rewrite !Z.max_id.
      * rewrite Nat.max_l by lia. exists u'. split; [done|]. destruct (log_sorted _ _ _ _ _ _ _ _ Hinv Hu Hu' Hgt).
        unfold ends_of. by rewrite !Z.max_l by lia.
    + exists u. split; [done|]. rewrite Hk. destruct start as [a b]. unfold pair_max, ends_of. cbn in *.
      destruct a as [a|], b as [b|]; cbn; rewrite ?(Z.max_r a), ?(Z.max_r b); try done;
        apply Z.lt_le_incl; by eauto.
  - rewrite Hj. unfold pair_max. cbn. assert (∀ a : option Z, opt_max a None = a) as Hn by by intros []. rewrite !Hn.
    by destruct m, k.
Qed.

(** ** What is flushed together *)

Definition state_set (us : list Prepared) : gset nat := list_to_set ((λ u, upload_index LS (pq_state u)) <$> us).
Definition transaction_set (us : list Prepared) : gset nat :=
  list_to_set ((λ u, upload_index LT (pq_transactions u)) <$> us).

Lemma sets_app us us' :
  state_set (us ++ us') = state_set us ∪ state_set us' ∧
  transaction_set (us ++ us') = transaction_set us ∪ transaction_set us'.
Proof. unfold state_set, transaction_set. by rewrite !fmap_app, !list_to_set_app_L. Qed.

Lemma sets_agree p sent pending flight us :
  pipeline_inv LS LT LQ p sent pending flight → us ⊆ pl_log p →
  state_set us = transaction_set us ∧ ∀ i, i ∈ state_set us → (i < length (pl_log p))%nat.
Proof.
  intros Hinv Hsub. split.
  - unfold state_set, transaction_set. f_equal. apply list_fmap_ext. intros j u Hj.
    apply list_elem_of_lookup_2, Hsub, list_elem_of_lookup in Hj as [i Hi].
    by destruct (log_entry _ _ _ _ _ _ Hinv Hi) as (-> & -> & _).
  - intros i (u & -> & Hu)%elem_of_list_to_set%list_elem_of_fmap.
    apply Hsub, list_elem_of_lookup in Hu as [j Hj]. destruct (log_entry _ _ _ _ _ _ Hinv Hj) as (-> & _).
    by eapply lookup_lt_Some.
Qed.

(** The longest prefix of both logs ends the same upload. *)
Lemma prefix_targets_pair p sent pending flight us :
  pipeline_inv LS LT LQ p sent pending flight → us ⊆ pl_log p →
  ∃ k, at_upload (pl_log p) (None, None) k
    (prefix_target (writer_view LS (pl_state p)) (state_set us),
     prefix_target (writer_view LT (pl_transactions p)) (transaction_set us)).
Proof.
  intros Hinv Hsub. destruct (sets_agree _ _ _ _ _ Hinv Hsub) as [<- Hlt].
  assert (∀ (ls : list Z) (f : Prepared → Z), (∀ i u, pl_log p !! i = Some u → ls !! i = Some (f u)) →
            (length (pl_log p) ≤ length ls)%nat) as Hlen.
  { intros ls f Hf. destruct (length (pl_log p)) as [|n] eqn:En; [lia|].
    destruct (lookup_lt_is_Some_2 (pl_log p) n) as [u Hu]; [lia|]. apply Hf, lookup_lt_Some in Hu. lia. }
  assert (length (pl_log p) ≤ length (wv_latest (writer_view LS (pl_state p))))%nat as Hls
    by (eapply Hlen; intros i u Hi; by apply (log_entry _ _ _ _ _ _ Hinv Hi)).
  assert (length (pl_log p) ≤ length (wv_latest (writer_view LT (pl_transactions p))))%nat as Hlt'
    by (eapply Hlen; intros i u Hi; by apply (log_entry _ _ _ _ _ _ Hinv Hi)).
  destruct (prefix_len_agree _ _ _ _ Hlt Hls Hlt') as [Heq Hle]. unfold prefix_target. rewrite <- Heq.
  destruct (prefix_len _ _) as [|i]; [by exists None|].
  destruct (lookup_lt_is_Some_2 (pl_log p) i) as [u Hu]; [lia|]. exists (Some i), u. split; [done|].
  destruct (log_entry _ _ _ _ _ _ Hinv Hu) as (_ & _ & Hs & Ht). unfold ends_of. f_equal; apply list_max_take; try done.
  - apply (wi_sorted _ _ _ _ _ _ (pi_state _ _ _ _ _ _ _ Hinv)).
  - apply (wi_sorted _ _ _ _ _ _ (pi_transactions _ _ _ _ _ _ _ Hinv)).
Qed.

Lemma flush_new (o : option Z) t :
  (∀ l, o = Some l → l < t) →
  match o with Some q => if decide (t ≤ q) then None else Some t | None => Some t end = Some t.
Proof. intros Ho. destruct o as [q|]; [|done]. specialize (Ho q eq_refl). by rewrite decide_False by lia. Qed.

(** So do the watermarks of a flush: they are new on both logs or on none. *)
Lemma flush_targets_pair p sent pending flight us :
  pipeline_inv LS LT LQ p sent pending flight → start_below p →
  (∃ k, at_upload (pl_log p) start k (published_pair p)) → us ⊆ pl_log p →
  ∃ k, at_upload (pl_log p) (None, None) k
    (flush_target (writer_view LS (pl_state p)) (state_set us),
     flush_target (writer_view LT (pl_transactions p)) (transaction_set us)).
Proof.
  intros Hinv [Hb Hb'] [q Hq] Hsub. destruct (prefix_targets_pair _ _ _ _ _ Hinv Hsub) as [[i|] Hk]; unfold flush_target.
  - destruct Hk as (u & Hu & [= Hs Ht]). rewrite Hs, Ht. cbn [mbind option_bind].
    destruct (log_entry _ _ _ _ _ _ Hinv Hu) as (_ & _ & Hls%list_elem_of_lookup_2 & Hlt%list_elem_of_lookup_2).
    destruct q as [j|].
    + destruct Hq as (u' & Hu' & [= -> ->]). destruct (decide (i ≤ j)%nat) as [Hij|Hij].
      * assert (latest_location SW (pq_state u) ≤ latest_location SW (pq_state u') ∧
                latest_location TW (pq_transactions u) ≤ latest_location TW (pq_transactions u')) as [? ?].
        { destruct (decide (i = j)) as [->|]; [rewrite Hu in Hu'; injection Hu' as <-; lia|].
          pose proof (log_sorted _ _ _ _ _ _ _ _ Hinv Hu Hu' ltac:(lia)). lia. }
        rewrite !decide_True by done. by exists None.
      * pose proof (log_sorted _ _ _ _ _ _ _ _ Hinv Hu' Hu ltac:(lia)). rewrite !decide_False by lia.
        by exists (Some i), u.
    + exists (Some i), u. split; [done|]. unfold published_pair in Hq. unfold ends_of. cbn in Hq.
      rewrite <- Hq in Hb, Hb'. cbn in Hb, Hb'.
      rewrite !flush_new; [done|intros l Hl; by apply (Hb' l)|intros l Hl; by apply (Hb l)].
  - injection Hk as -> ->. by exists None.
Qed.

Lemma persisted_sets p sent pending flight :
  pipeline_inv LS LT LQ p sent pending flight →
  wv_persisted (writer_view LS (pl_state p)) = state_set (sent ++ pending) ∧
  wv_persisted (writer_view LT (pl_transactions p)) = transaction_set (sent ++ pending) ∧
  sent ++ pending ++ flight ⊆ pl_log p.
Proof.
  intros [(staged & Hlog & Hperm) _ _ _ Hst Htx _ _ _ _]. split_and!.
  - rewrite (wi_persisted _ _ _ _ _ _ Hst), <- list_fmap_compose. done.
  - rewrite (wi_persisted _ _ _ _ _ _ Htx), <- list_fmap_compose. done.
  - intros u Hu. rewrite Hlog. apply elem_of_app. left. by rewrite Hperm.
Qed.

(** ** What a batch carries *)

Lemma read_sql rows : read_pair (sql_encode LQ <$> rows) = (None, None).
Proof.
  unfold read_pair. induction rows as [|r rows IH]; [done|]. cbn [fmap list_fmap omap list_omap].
  destruct (sql_read _ _ _ LR r) as [-> ->]. exact IH.
Qed.

Lemma read_uploads u :
  read_pair (upload_rows LS (pq_state u)) = (None, None) ∧ read_pair (upload_rows LT (pq_transactions u)) = (None, None).
Proof.
  unfold read_pair. rewrite (upload_rows_read LS), (upload_rows_read LT), (state_upload_apart _ _ _ LR),
    (transaction_upload_apart _ _ _ LR). done.
Qed.

Lemma read_state_mark w o rows :
  stage_optional (stage_flush SW w) o = Ok rows → read_pair rows = (watermark_target LS <$> o, None).
Proof.
  destruct o as [f|]; cbn; [|by intros [= <-]]. rewrite (stage_flush_ok LS). intros [= <-]. unfold read_pair.
  by rewrite (watermark_rows_read LS), (state_watermark_apart _ _ _ LR).
Qed.
Lemma read_transaction_mark w o rows :
  stage_optional (stage_flush TW w) o = Ok rows → read_pair rows = (None, watermark_target LT <$> o).
Proof.
  destruct o as [f|]; cbn; [|by intros [= <-]]. rewrite (stage_flush_ok LT). intros [= <-]. unfold read_pair.
  by rewrite (watermark_rows_read LT), (transaction_watermark_apart _ _ _ LR).
Qed.

Lemma pair_max_none m : pair_max m (None, None) = m ∧ pair_max (None, None) m = m.
Proof. by destruct m as [[] []]. Qed.

(** The watermarks of a batch are those of a flush that includes its upload,
    or absent, and a reader finds them in its rows. *)
Lemma batch_marks p u inline b sqlw :
  prepare_commit_batch p u inline = Ok (b, sqlw) →
  (upload_index LS (pq_state u) < length (wv_latest (writer_view LS (pl_state p))))%nat →
  (upload_index LT (pq_transactions u) < length (wv_latest (writer_view LT (pl_transactions p))))%nat →
  read_pair (cb_rows b) = batch_pair b ∧
  (batch_pair b = (None, None) ∨
   prepare_flush_for_uploads SW (pl_state p) [pq_state u] = Ok (cb_state_watermark b) ∧
   prepare_flush_for_uploads TW (pl_transactions p) [pq_transactions u] = Ok (cb_transaction_watermark b)).
Proof.
  intros Hb Hi Hj. unfold prepare_commit_batch in Hb. apply bind_Ok in Hb as ([sf tf] & Hf & Hb).
  unfold stage_commit_batch in Hb. apply bind_Ok in Hb as ([o w1] & _ & Hb).
  apply bind_Ok in Hb as ([o' sql_rows] & Hsql & Hb). apply bind_Ok in Hb as (sr & Hsr & Hb).
  apply bind_Ok in Hb as (tr & Htr & Hb). apply bind_Ok in Hb as (sm & Hsm & Hb).
  apply bind_Ok in Hb as (tm & Htm & Hb). injection Hb as <- <-.
  rewrite (stage_ok LS) in Hsr by done. injection Hsr as <-. rewrite (stage_ok LT) in Htr by done. injection Htr as <-.
  unfold batch_pair. cbn [cb_rows cb_state_watermark cb_transaction_watermark].
  assert (read_pair sql_rows = (None, None)) as Hread.
  { destruct o as [x|]; [|by injection Hsql as <- <-]. apply bind_Ok in Hsql as ([b' rows] & Hst & [= <- <-]).
    destruct (sql_stage_ok LQ w1 x) as [b'' Hs]. rewrite Hst in Hs. injection Hs as _ ->. apply read_sql. }
  split.
  - destruct (read_uploads u) as [Hru Hrt].
    rewrite !read_pair_app, Hread, Hru, Hrt, (read_state_mark _ _ _ Hsm), (read_transaction_mark _ _ _ Htm).
    by destruct (watermark_target LS <$> sf), (watermark_target LT <$> tf).
  - destruct inline; [right|left; by injection Hf as <- <-].
    apply bind_Ok in Hf as (sf' & Hsf & Hf). apply bind_Ok in Hf as (tf' & Htf & [= <- <-]). done.
Qed.

(** ** Steps *)

Lemma lockstep_same p p' :
  pl_log p `prefix_of` pl_log p' → pl_commits p' ⊆ pl_commits p → pl_store p' = pl_store p →
  published_pair p' = published_pair p → start_below p' → lockstep p → lockstep p'.
Proof.
  intros Hl Hc Hst Hpub Hb [_ [k Hk] Ht (i & Hi & Hup)]. constructor; [done| | |].
  - exists k. rewrite Hpub. by eapply at_upload_mono.
  - intros t Hin. destruct (Ht t) as [[j Hj] Hr]; [by apply Hc|]. split; [|done]. exists j. by eapply at_upload_mono.
  - exists i. rewrite Hst. split; [by eapply at_upload_mono|]. intros n j u -> Hj Hu. rewrite Hst.
    destruct Hi as (x & Hx%lookup_lt_Some & _). apply (Hup n j u eq_refl Hj).
    destruct (lookup_lt_is_Some_2 (pl_log p) j) as [y Hy]; [lia|]. rewrite Hy.
    rewrite (prefix_lookup_Some _ _ _ _ Hy Hl) in Hu. done.
Qed.

(** The uploads below a watermark over [us] are among them. *)
Lemma prefix_members p sent pending flight us i x j u :
  pipeline_inv LS LT LQ p sent pending flight → us ⊆ pl_log p → pl_log p !! i = Some x →
  ends_prefix (writer_view LS (pl_state p)) (state_set us) (latest_location SW (pq_state x)) →
  (j ≤ i)%nat → pl_log p !! j = Some u → u ∈ us.
Proof.
  intros Hinv Hsub Hx (k & Hk & Hlk) Hj Hu. destruct (log_entry _ _ _ _ _ _ Hinv Hx) as (_ & _ & Hlx & _).
  assert (k = i) as ->.
  { pose proof (wi_sorted _ _ _ _ _ _ (pi_state _ _ _ _ _ _ _ Hinv)) as Hs.
    destruct (lt_eq_lt_dec k i) as [[Hlt| ->]|Hgt]; [|done|].
    - pose proof (Hs _ _ _ _ Hlk Hlx Hlt). lia.
    - pose proof (Hs _ _ _ _ Hlx Hlk Hgt). lia. }
  specialize (Hk j ltac:(lia)). apply elem_of_list_to_set, list_elem_of_fmap in Hk as (y & Hy & Hin).
  apply Hsub in Hin as Hlog. apply list_elem_of_lookup in Hlog as [n Hn].
  destruct (log_entry _ _ _ _ _ _ Hinv Hn) as (Hi & _). rewrite Hi in Hy. subst n. rewrite Hn in Hu. by injection Hu as <-.
Qed.

(** A batch reaches the store: what it reads as is a pair over uploads that are
    all stored. *)
Lemma store_grows p p' sent pending flight us rows m j :
  pipeline_inv LS LT LQ p sent pending flight → lockstep p → start_below p' →
  pl_log p' = pl_log p → pl_store p' = pl_store p ++ [rows] → us ⊆ pl_log p →
  read_pair rows = m → at_upload (pl_log p) (None, None) j m →
  (∀ t, m.1 = Some t → ends_prefix (writer_view LS (pl_state p)) (state_set us) t) →
  (∀ u, u ∈ us → rows_of_upload LS LT LQ u ⊆ concat (pl_store p')) →
  ∃ k, at_upload (pl_log p') start k (read_pair (concat (pl_store p'))) ∧ stored_upto p' k.
Proof.
  intros Hinv [Hb _ _ (k & Hk & Hup)] _ Hlog Hst Hsub Hr Hj He Hrows.
  assert (concat (pl_store p') = concat (pl_store p) ++ rows) as Hc
    by (rewrite Hst, concat_app; cbn; by rewrite app_nil_r).
  eexists. rewrite Hlog, Hc, read_pair_app, Hr. split; [by eapply pair_max_at|].
  intros n i u Hn Hi Hu. rewrite Hlog in Hu. rewrite Hc.
  assert (∀ a, k = Some a → (i ≤ a)%nat → rows_of_upload LS LT LQ u ⊆ concat (pl_store p) ++ rows) as Hold.
  { intros a -> Ha. etrans; [by eapply (Hup a i)|]. set_solver. }
  assert (∀ b, j = Some b → (i ≤ b)%nat → rows_of_upload LS LT LQ u ⊆ concat (pl_store p) ++ rows) as Hnew.
  { intros b -> Hib. rewrite <- Hc. apply Hrows. destruct Hj as (x & Hx & ->).
    eapply (prefix_members _ _ _ _ us b x i u); try done. by apply He. }
  destruct k as [a|], j as [b|]; simplify_eq; [|by eapply Hold|by eapply Hnew].
  destruct (decide (i ≤ a)%nat); [by eapply Hold|]. eapply Hnew; [done|lia].
Qed.

Lemma mark_optional_published {Op} {W : QmdbWriter Row Op} (L : QmdbWriterLaws W) w o seq :
  let w' := mark_optional (λ w f, mark_flush_persisted W w f seq) w o in
  wv_published (writer_view L w') = opt_max (wv_published (writer_view L w)) (watermark_target L <$> o) ∧
  wv_latest (writer_view L w') = wv_latest (writer_view L w).
Proof.
  destruct o as [f|]; cbn; [rewrite (mark_flush_ok L); cbn|]; destruct (wv_published (writer_view L w)); done.
Qed.

(** A commit reaches the store. *)
Lemma finish_commit_lockstep p sent pending flight before b after p' :
  pipeline_inv LS LT LQ p sent pending flight → lockstep p → pl_commits p = before ++ mkTask b None :: after →
  finish_commit p before b after = Ret p' → lockstep p'.
Proof.
  intros Hinv Hlk Hc Hp. unfold finish_commit, commit_required_batch in Hp.
  destruct (bool_decide _); [done|]. cbn [mbind run_bind] in Hp. injection Hp as <-.
  pose proof Hlk as [Hb Hpub Ht _]. pose proof (pi_tasks _ _ _ _ _ _ _ Hinv) as Htasks. rewrite Hc in Htasks, Ht.
  apply Forall2_app_inv_r in Htasks as (f1 & f2 & _ & Ht2 & Hf). inversion Ht2 as [|u t f3 ? Hu _]; subst.
  destruct (Ht (mkTask b None)) as [[j Hj] Hread]; [apply elem_of_app; right; left|]. cbn [ct_batch] in Hj, Hread.
  destruct (persisted_sets _ _ _ _ Hinv) as (Hps & _ & Hsub).
  match goal with |- lockstep ?x => set (q := x) end. constructor; [exact Hb|exact Hpub| |].
  - intros t [Hin|[->|Hin]%elem_of_cons]%elem_of_app; [|by split; [exists j|]|];
      apply Ht, elem_of_app; [by left|right; by right].
  - eapply (store_grows p q _ _ _ ((sent ++ pending) ++ [u])); [exact Hinv|exact Hlk|exact Hb|done|done| |exact Hread|exact Hj| |].
    + intros x Hx. apply Hsub. clear -Hx. set_solver.
    + intros t Hm. unfold batch_pair in Hm. cbn in Hm. apply fmap_Some in Hm as (f & Hsome & ->).
      destruct (to_state _ _ _ _ _ _ Hu f Hsome) as [_ He]. rewrite Hps in He.
      rewrite (proj1 (sets_app _ _)). unfold state_set at 2. cbn. by rewrite union_empty_r_L.
    + intros x Hx. unfold q. cbn [pl_store]. rewrite concat_app. cbn. rewrite app_nil_r.
      apply elem_of_app in Hx as [Hx| ->%list_elem_of_singleton].
      * etrans; [by apply (pi_stored _ _ _ _ _ _ _ Hinv)|]. set_solver.
      * etrans; [apply (to_rows _ _ _ _ _ _ Hu)|]. set_solver.
Qed.

(** The committer stages an upload. *)
Lemma recv_lockstep p sent pending flight u rest p' :
  pipeline_inv LS LT LQ p sent pending flight → lockstep p → pl_ready p = u :: rest →
  stage_and_spawn_commit p u rest = Ret p' → lockstep p'.
Proof.
  intros Hinv Hlk Hready Hp. unfold stage_and_spawn_commit in Hp.
  apply bind_Ret in Hp as ([b sqlw] & Hb%expect_Ret & [= <-]).
  destruct (prepare_commit_batch _ _ _) as [[b' sqlw']|] eqn:Eb; [|done]. injection Hb as -> ->.
  destruct (pi_log _ _ _ _ _ _ _ Hinv) as (staged & Hlog & _).
  assert (u ∈ pl_log p) as Hu by (rewrite Hlog, Hready; apply elem_of_app; right; left).
  destruct (upload_indices _ _ _ _ _ _ _ _ Hinv Hu) as [Hi Hj].
  destruct (batch_marks _ _ _ _ _ Eb Hi Hj) as [Hread Hmarks]. destruct (persisted_sets _ _ _ _ Hinv) as (Hps & Hpt & Hsub).
  pose proof Hlk as [Hbel Hpub Ht Hstore]. constructor; [exact Hbel|exact Hpub| |exact Hstore].
  intros t [Hin| ->%list_elem_of_singleton]%elem_of_app; [by apply Ht|]. split; [|exact Hread]. cbn [ct_batch pl_log].
  destruct Hmarks as [->|[Hsf Htf]]; [by exists None|].
  destruct (flush_for_ok LS (pl_state p) [pq_state u]) as (o & Ho & Eo); [by intros ? ->%list_elem_of_singleton|].
  destruct (flush_for_ok LT (pl_transactions p) [pq_transactions u]) as (o' & Ho' & Eo'); [by intros ? ->%list_elem_of_singleton|].
  rewrite Hsf in Ho. injection Ho as <-. rewrite Htf in Ho'. injection Ho' as <-.
  destruct (flush_targets_pair p _ _ _ ((sent ++ pending) ++ [u]) Hinv Hbel Hpub) as [k Hk].
  { intros x Hx. apply elem_of_app in Hx as [Hx| ->%list_elem_of_singleton]; [|done]. apply Hsub. clear -Hx. set_solver. }
  exists k. unfold batch_pair. rewrite Eo, Eo', Hps, Hpt.
  destruct (sets_app (sent ++ pending) [u]) as [Ea Eb']. rewrite Ea, Eb' in Hk. exact Hk.
Qed.

(** A stored batch is marked. *)
Lemma mark_lockstep p sent pending flight b seq ts u :
  pipeline_inv LS LT LQ p sent pending (u :: flight) → lockstep p → pl_commits p = finished_task (b, seq) :: ts →
  lockstep (with_commits (mark_committed_batch p (b, seq)) ts).
Proof.
  intros Hinv [Hbel [i Hi] Ht Hstore] Hc.
  destruct (Ht (finished_task (b, seq))) as [[j Hj] _]; [rewrite Hc; left|]. cbn [finished_task ct_batch fst] in Hj.
  destruct (mark_optional_published LS (mark_upload_persisted SW (pl_state p) (su_state (cb_upload b)) seq)
    (cb_state_watermark b) seq) as [Hp Hl].
  destruct (mark_optional_published LT (mark_upload_persisted TW (pl_transactions p) (su_transactions (cb_upload b)) seq)
    (cb_transaction_watermark b) seq) as [Hp' Hl'].
  rewrite (mark_upload_ok LS) in Hp, Hl. rewrite (mark_upload_ok LT) in Hp', Hl'.
  constructor.
  - unfold start_below. cbn. rewrite Hl, Hl'. exact Hbel.
  - eexists. unfold published_pair. cbn. rewrite Hp, Hp'. cbn [wv_published].
    apply (pair_max_at p _ _ _ i j (published_pair p) (batch_pair b) Hinv Hbel Hi Hj).
  - cbn. intros t Hin. apply Ht. rewrite Hc. by right.
  - exact Hstore.
Qed.

Lemma marks_lockstep p sent pending flight done rest :
  pipeline_inv LS LT LQ (with_commits p ((finished_task <$> done) ++ rest)) sent pending flight →
  lockstep (with_commits p ((finished_task <$> done) ++ rest)) →
  lockstep (with_commits (fold_left mark_committed_batch done p) rest).
Proof.
  revert p pending flight. induction done as [|[b seq] done IH]; intros p pending flight Hinv Hlk; [done|].
  pose proof (pi_tasks _ _ _ _ _ _ _ Hinv) as Ht. destruct flight as [|u flight]; [by inversion Ht|].
  set (ts := (finished_task <$> done) ++ rest).
  pose proof (mark_inv LS LT LQ _ _ _ _ b seq ts _ Hinv eq_refl) as Hinv'.
  pose proof (mark_lockstep _ _ _ _ b seq ts _ Hinv Hlk eq_refl) as Hlk'.
  by apply (IH (mark_committed_batch p (b, seq)) _ _ Hinv' Hlk').
Qed.

(** The watermarks of both logs are flushed. *)
Lemma flush_lockstep p sent pending flight p' :
  pipeline_inv LS LT LQ p sent pending flight → lockstep p → flush_qmdb_watermarks p = Ret p' → lockstep p'.
Proof.
  intros Hinv Hlk Hp. pose proof Hlk as [Hbel Hpub Ht _]. destruct (persisted_sets _ _ _ _ Hinv) as (Hps & Hpt & Hsub).
  assert (sent ++ pending ⊆ pl_log p) as Hsub' by (intros x Hx; apply Hsub; clear -Hx; set_solver).
  destruct (flush_targets_pair p _ _ _ (sent ++ pending) Hinv Hbel Hpub Hsub') as [j Hj].
  unfold flush_qmdb_watermarks in Hp.
  destruct (flush_ok LS (pl_state p)) as (so & Hso & Eso), (flush_ok LT (pl_transactions p)) as (to & Hto & Eto).
  rewrite Hso, Hto in Hp. cbn [ok expect mbind run_bind] in Hp. rewrite Hps in Eso. rewrite Hpt in Eto. rewrite <- Eso, <- Eto in Hj.
  destruct (decide (so = None ∧ to = None)) as [[-> ->]|Hn]; [by injection Hp as <-|].
  assert (∃ sr tr, stage_optional (stage_flush SW (pl_state p)) so = Ok sr ∧
    stage_optional (stage_flush TW (pl_transactions p)) to = Ok tr ∧
    p' = mkPipeline (pl_open p) (pl_queue p) (pl_preparing p) (pl_ready p)
      (mark_optional (λ w f, mark_flush_persisted SW w f (zlen (pl_store p) + 1)) (pl_state p) so)
      (mark_optional (λ w f, mark_flush_persisted TW w f (zlen (pl_store p) + 1)) (pl_transactions p) to)
      (pl_sql p) (pl_commits p) (pl_pending p) (pl_store p ++ [sr ++ tr]) (pl_sent p) (pl_running p) (pl_log p))
    as (sr & tr & Hsr & Htr & ->).
  { assert (run_of : (sr ← expect (ok (stage_optional (stage_flush SW (pl_state p)) so)) "QMDB state watermark flush must stage";
      tr ← expect (ok (stage_optional (stage_flush TW (pl_transactions p)) to)) "QMDB transaction watermark flush must stage";
      '(store, seq) ← commit_required_batch (pl_store p) (sr ++ tr);
      Ret (mkPipeline (pl_open p) (pl_queue p) (pl_preparing p) (pl_ready p)
        (mark_optional (λ w f, mark_flush_persisted SW w f seq) (pl_state p) so)
        (mark_optional (λ w f, mark_flush_persisted TW w f seq) (pl_transactions p) to)
        (pl_sql p) (pl_commits p) (pl_pending p) store (pl_sent p) (pl_running p) (pl_log p))) = Ret p').
    { destruct so, to; try done. exfalso. by apply Hn. }
    apply bind_Ret in run_of as (sr & Hsr%expect_Ret & Hk). apply bind_Ret in Hk as (tr & Htr%expect_Ret & Hk).
    exists sr, tr. destruct (stage_optional (stage_flush SW (pl_state p)) so); [|done]. injection Hsr as ->.
    destruct (stage_optional (stage_flush TW (pl_transactions p)) to); [|done]. injection Htr as ->.
    unfold commit_required_batch in Hk. destruct (bool_decide _); [done|]. by injection Hk as <-. }
  destruct (mark_optional_published LS (pl_state p) so (zlen (pl_store p) + 1)) as [Hp1 Hl1].
  destruct (mark_optional_published LT (pl_transactions p) to (zlen (pl_store p) + 1)) as [Hp2 Hl2].
  match goal with |- lockstep ?x => set (q := x) end.
  assert (start_below q) as Hbq by (unfold start_below, q; cbn [pl_state pl_transactions]; rewrite Hl1, Hl2; exact Hbel).
  constructor; [done| |exact Ht|].
  - destruct Hpub as [i Hi]. eexists. unfold published_pair, q. cbn [pl_state pl_transactions pl_log]. rewrite Hp1, Hp2.
    apply (pair_max_at p _ _ _ i j (published_pair p) (watermark_target LS <$> so, watermark_target LT <$> to) Hinv Hbel Hi Hj).
  - eapply (store_grows p q _ _ _ (sent ++ pending)); [exact Hinv|exact Hlk|exact Hbq|done|done|exact Hsub'| |exact Hj| |].
    + rewrite read_pair_app, (read_state_mark _ _ _ Hsr), (read_transaction_mark _ _ _ Htr).
      by destruct (watermark_target LS <$> so), (watermark_target LT <$> to).
    + cbn [fst]. intros t Hm. rewrite Eso in Hm.
      pose proof (flush_target_spec (writer_view LS (pl_state p)) (state_set (sent ++ pending))) as Hs.
      rewrite Hm in Hs. apply Hs.
    + intros x Hx. unfold q. cbn [pl_store]. rewrite concat_app. etrans; [by apply (pi_stored _ _ _ _ _ _ _ Hinv)|].
      set_solver.
Qed.

Lemma complete_lockstep p : lockstep p → lockstep (complete_uploads p).
Proof.
  intros Hlk. unfold complete_uploads. destruct (complete_published_uploads _ _ _) as [d r].
  by eapply (lockstep_same p); [..|apply Hlk|exact Hlk].
Qed.

Lemma flush_and_complete_lockstep p sent pending flight p' :
  pipeline_inv LS LT LQ p sent pending flight → lockstep p → flush_and_complete_published_uploads p = Ret p' →
  lockstep p'.
Proof.
  intros Hinv%complete_inv Hlk%complete_lockstep Hp. unfold flush_and_complete_published_uploads in Hp.
  destruct (pl_pending (complete_uploads p)); [by injection Hp as <-|].
  apply bind_Ret in Hp as (q & Hq & [= <-]). eapply complete_lockstep, flush_lockstep; done.
Qed.

Lemma committer_lockstep p sent pending flight p' :
  pipeline_inv LS LT LQ p sent pending flight → lockstep p → committer_step max_in_flight_commits p (Ret p') →
  lockstep p'.
Proof.
  intros Hinv Hlk Hstep. inversion Hstep as [u rest Hrun Hlt Hready Hp'|done rest Hrun Hne Hk Hp'|Hrun Hprep Hready Hc Hp'].
  - by eapply recv_lockstep.
  - destruct (commits_permuted _ _ _ _ _ _ _ _ Hinv Hk) as (f1 & Hinv1 & _).
    assert (lockstep (with_commits p ((finished_task <$> done) ++ rest))) as Hlk1.
    { eapply (lockstep_same p); [done| |done|done|apply Hlk|exact Hlk]. cbn [with_commits pl_commits].
      intros t. by rewrite Hk. }
    pose proof (marks_lockstep _ _ _ _ _ _ Hinv1 Hlk1) as Hlk2.
    destruct (marks_inv _ _ _ _ _ _ _ _ _ Hinv1) as (q2 & f2 & Hinv2 & _).
    by eapply flush_and_complete_lockstep.
  - unfold finish_committer in Hp'. apply bind_Ret in Hp' as (q & Hq & Hk).
    pose proof (flush_and_complete_lockstep _ _ _ _ _ Hinv Hlk Hq) as Hlk'.
    destruct (pl_pending q); [|done]. injection Hk as <-. by eapply (lockstep_same q); [..|apply Hlk'|exact Hlk'].
Qed.

(** Reserving keeps the logs above the watermarks the publisher started with. *)
Lemma below_grows {Op} {W : QmdbWriter Row Op} (L : QmdbWriterLaws W) w ops r w' (a : option Z) :
  prepare_upload W w ops = (r, w') → ops ≠ [] →
  (∀ l l', a = Some l → l' ∈ wv_latest (writer_view L w) → l < l') →
  a = wv_published (writer_view L w) ∨ (∃ l', l' ∈ wv_latest (writer_view L w)) →
  ∀ l l', a = Some l → l' ∈ wv_latest (writer_view L w') → l < l'.
Proof.
  intros Hp Hne Hb Ha l l' -> Hin. destruct r as [u|e].
  - destruct (prepare_above L _ _ _ _ Hp Hne) as (_ & Hv & Hlt & Hpub). rewrite Hv in Hin.
    apply elem_of_app in Hin as [Hin| ->%list_elem_of_singleton]; [by apply Hb|].
    destruct Ha as [Ha|[x Hx]]; [by apply Hpub|]. specialize (Hlt x Hx). specialize (Hb l x eq_refl Hx). lia.
  - rewrite (prepare_failed L _ _ _ _ Hp) in Hin. by apply Hb.
Qed.

Lemma preparer_round_lockstep p sent pending flight up rest :
  pipeline_inv LS LT LQ p sent pending flight → upload_well up → lockstep p → lockstep (preparer_round p up rest).2.
Proof.
  intros Hinv Hup Hlk. unfold preparer_round, prepare_or_panic, prepare_qmdb_upload.
  destruct (expand_queued_finalized_upload (pu_upload up)) as [[x|e]|e] eqn:Ex.
  2,3: by eapply (lockstep_same p); [..|apply Hlk|exact Hlk].
  destruct (upload_expands _ _ Hup Ex) as (Hd & Hto & _). unfold prepare_prepared_qmdb_upload.
  destruct (prepare_upload SW (pl_state p) (pp_state_delta x)) as [su sw'] eqn:Es.
  destruct (prepare_upload TW (pl_transactions p) (pp_transaction_ops x)) as [tu tw'] eqn:Et.
  destruct (prepare_view LS _ _ _ _ Es Hd) as [_ Hp]. destruct (prepare_view LT _ _ _ _ Et Hto) as [_ Hp'].
  pose proof Hlk as [[Hb Hb'] [k Hk] _ _].
  assert ((start.1 = wv_published (writer_view LS (pl_state p)) ∨
           ∃ l, l ∈ wv_latest (writer_view LS (pl_state p))) ∧
          (start.2 = wv_published (writer_view LT (pl_transactions p)) ∨
           ∃ l, l ∈ wv_latest (writer_view LT (pl_transactions p)))) as [Hs1 Hs2].
  { destruct k as [i|]; [|by cbn in Hk; rewrite <- Hk; split; left]. destruct Hk as (y & Hy & _).
    destruct (log_entry _ _ _ _ _ _ Hinv Hy) as (_ & _ & Hy1%list_elem_of_lookup_2 & Hy2%list_elem_of_lookup_2).
    split; right; by eexists. }
  pose proof (below_grows LS _ _ _ _ _ Es Hd Hb Hs1) as Hg. pose proof (below_grows LT _ _ _ _ _ Et Hto Hb' Hs2) as Hg'.
  assert (∀ q, pl_log p `prefix_of` pl_log q → pl_commits q = pl_commits p → pl_store q = pl_store p →
            pl_state q = sw' → pl_transactions q = tw' → lockstep q) as Hmono.
  { intros q Hl Ec Est E1 E2. eapply (lockstep_same p); [done|by rewrite Ec|done| | |exact Hlk].
    - unfold published_pair. by rewrite E1, E2, Hp, Hp'.
    - unfold start_below. by rewrite E1, E2. }
  destruct su as [su|e1]; [destruct tu as [tu|e2]|]; apply Hmono; try done. by eexists.
Qed.

Lemma step_lockstep p sent pending flight p' :
  pipeline_inv LS LT LQ p sent pending flight → Forall upload_well (pl_queue p) → lockstep p →
  pipeline_step max_in_flight_commits p p' → lockstep p'.
Proof.
  intros Hinv Hw Hlk [Hc|[Hk|Hp]].
  - by eapply committer_lockstep.
  - inversion Hk as [before b after Hc Hp']. by eapply finish_commit_lockstep.
  - destruct Hp as [up Ho|Ho|up rest Hb Hq|Hb Ho Hq]; try by eapply (lockstep_same p); [..|apply Hlk|exact Hlk].
    rewrite Hq in Hw. inversion_clear Hw. by eapply preparer_round_lockstep.
Qed.

(** A start on writers recovered from the store, and what it reaches. *)
Record recovered (st : Writer SW) (tx : Writer TW) (store : list (list Row)) : Prop := {
  re_state : writer_view LS st = mkView [] ∅ start.1;
  re_transactions : writer_view LT tx = mkView [] ∅ start.2;
  re_store : read_pair (concat store) = start }.

Lemma start_lockstep st tx sqlw store :
  recovered st tx store → lockstep (pipeline_start (Q := Q) st tx sqlw store).
Proof.
  intros [Hs Ht Hr]. constructor; cbn [pipeline_start pl_commits pl_log pl_store].
  - unfold start_below. cbn [pipeline_start pl_state pl_transactions]. rewrite Hs, Ht. cbn.
    split; by intros l l' _ ?%not_elem_of_nil.
  - exists None. unfold published_pair. cbn [pipeline_start pl_state pl_transactions]. rewrite Hs, Ht. cbn. by destruct start.
  - by intros t ?%not_elem_of_nil.
  - exists None. split; [exact Hr|]. by intros i j u ?.
Qed.

Lemma recovered_start st tx sqlw store :
  recovered st tx store → sql_buffer LQ sqlw = [] → start_ok LS LT LQ st tx sqlw.
Proof. intros [Hs Ht _] Hq. by constructor; rewrite ?Hs, ?Ht. Qed.

Lemma reachable_lockstep st tx sqlw store p :
  recovered st tx store → sql_buffer LQ sqlw = [] → reachable max_in_flight_commits st tx sqlw store p → lockstep p.
Proof.
  intros Hre Hq. pose proof (recovered_start _ _ sqlw _ Hre Hq) as Hs.
  induction 1 as [|p p' Hr IH Hstep _]; [by apply start_lockstep|].
  destruct (reachable_inv LS LT LQ _ _ _ _ _ _ Hs Hr) as (Hw & _ & sent & pending & flight & Hinv).
  by eapply step_lockstep.
Qed.
End lockstep.

(** ** What the tasks leave alone *)

Section frame.
Context `{LazyKey} `{ConsensusLib} {Row : Type}.
Context {SW : QmdbWriter Row (AnyOperation bytes)} {TW : QmdbWriter Row (KeylessOperation digest)}
  {Q : SqlBatchWriter Row} (max_in_flight_commits : nat).
Notation Pipeline := (Pipeline (SW := SW) (TW := TW) (Q := Q)).
Implicit Types (p : Pipeline).

Record same_session (p p' : Pipeline) : Prop := {
  ss_log : pl_log p' = pl_log p; ss_queue : pl_queue p' = pl_queue p; ss_preparing : pl_preparing p' = pl_preparing p;
  ss_open : pl_open p' = pl_open p; ss_sent : pl_sent p ⊆ pl_sent p'; ss_store : concat (pl_store p) ⊆ concat (pl_store p') }.

Lemma same_session_refl p : same_session p p.
Proof. by constructor. Qed.
Lemma same_session_trans p1 p2 p3 : same_session p1 p2 → same_session p2 p3 → same_session p1 p3.
Proof. intros [] []. constructor; by etrans. Qed.

Lemma complete_same p : same_session p (complete_uploads p).
Proof.
  unfold complete_uploads. destruct (complete_published_uploads _ _ _). constructor; cbn; try done. set_solver.
Qed.

Lemma flush_same p p' : flush_qmdb_watermarks p = Ret p' → same_session p p'.
Proof.
  unfold flush_qmdb_watermarks. intros (so & _ & Hk)%bind_Ret. apply bind_Ret in Hk as (to & _ & Hk).
  destruct so as [f|], to as [g|]; [| | |injection Hk as <-; apply same_session_refl];
    (apply bind_Ret in Hk as (sr & _ & Hk); apply bind_Ret in Hk as (tr & _ & Hk);
     apply bind_Ret in Hk as ([store seq] & Hc & [= <-]); unfold commit_required_batch in Hc;
     destruct (bool_decide _); [done|]; injection Hc as <- <-;
     constructor; cbn; try done; rewrite concat_app; set_solver).
Qed.

Lemma flush_and_complete_same p p' : flush_and_complete_published_uploads p = Ret p' → same_session p p'.
Proof.
  unfold flush_and_complete_published_uploads. intros Hp. eapply same_session_trans; [apply complete_same|].
  destruct (pl_pending (complete_uploads p)); [injection Hp as <-; apply same_session_refl|].
  apply bind_Ret in Hp as (q & Hq%flush_same & [= <-]). eapply same_session_trans; [exact Hq|apply complete_same].
Qed.

Lemma committer_same p p' : committer_step max_in_flight_commits p (Ret p') → same_session p p'.
Proof.
  intros Hstep. inversion Hstep as [u rest _ _ _ Hp|done rest _ _ _ Hp|_ _ _ _ Hp].
  - unfold stage_and_spawn_commit in Hp. by apply bind_Ret in Hp as ([b w] & _ & [= <-]).
  - unfold join_commits in Hp. apply flush_and_complete_same in Hp. eapply same_session_trans; [|exact Hp].
    destruct (marks_front done p) as (E1 & E2 & E3 & _ & _ & E6 & _).
    assert (∀ q, pl_sent (fold_left mark_committed_batch done q) = pl_sent q ∧
                 pl_store (fold_left mark_committed_batch done q) = pl_store q) as Hf.
    { clear. induction done as [|[b s] done IH]; intros q; [done|]. exact (IH (mark_committed_batch q (b, s))). }
    destruct (Hf p) as [Es Est]. constructor; cbn; [done..| |]; rewrite ?Es, ?Est; done.
  - unfold finish_committer in Hp. apply bind_Ret in Hp as (q & Hq%flush_and_complete_same & Hk).
    destruct (pl_pending q); [|done]. injection Hk as <-. destruct Hq. by constructor.
Qed.

Lemma task_same p p' : task_step p (Ret p') → same_session p p'.
Proof.
  intros Hstep. inversion Hstep as [before b after Hc Hp]. unfold finish_commit, commit_required_batch in Hp.
  destruct (bool_decide _); [done|]. injection Hp as <-. constructor; cbn; try done. rewrite concat_app. set_solver.
Qed.

End frame.
