(* ===== verification/UploadQueue.v ===== *)
(** * The durable upload queue (crates/indexer/src/publisher/qmdb.rs, bin/validator/src/run.rs)

    A secondary validator writes every finalized block to a durable queue
    before it acknowledges the block, remembers in a metadata store how far it
    has queued, and uploads the queue behind it.  [Node] is what survives a
    crash together with the producer's memory; [node_step] lists what can
    happen to it, crashes included.  The theorems show that the queue is one
    contiguous piece of the two logs at all times, that a restart resumes where
    it ends, that the consumer can always upload it, and exhibit the two crash
    points after which the producer retries for ever. *)

From stdpp Require Import prelude gmap list strings.
From S2P Require Import Prelude Interfaces Concrete Account Auth Transaction Executor Database Block Execution Application Indexer.

(** ** The queue entry codec *)

(** Two's complement of an [i64] on the wire. *)
Section i64.
Context `{CodecLib}.
Definition write_i64 (x : Z) : bytes := write_uint 8 (x mod 2 ^ 64).
Definition read_i64 : reader Z := fun buf =>
  '(x, buf) ← read_uint 8 buf; Ok (if x <? 2 ^ 63 then x else x - 2 ^ 64, buf).
Definition is_i64 (x : Z) : Prop := - 2 ^ 63 ≤ x < 2 ^ 63.

Lemma read_write_i64 x rest : is_i64 x → read_i64 (write_i64 x ++ rest) = Ok (x, rest).
Proof.
  intros Hx. unfold is_i64, read_i64, write_i64 in *.
  rewrite read_write_u64 by apply wrap64_bound. cbn. do 2 f_equal.
  destruct (decide (0 ≤ x)).
  - rewrite Z.mod_small, (proj2 (Z.ltb_lt _ _)) by lia. done.
  - assert (x mod 2 ^ 64 = x + 2 ^ 64) as ->.
    { replace x with (x + 2 ^ 64 + (-1) * 2 ^ 64) at 1 by lia. rewrite Z_mod_plus_full. apply Z.mod_small. lia. }
    rewrite (proj2 (Z.ltb_ge _ _)) by lia. lia.
Qed.

Lemma read_i64_canonical buf x rest :
  read_i64 buf = Ok (x, rest) → is_i64 x ∧ buf = write_i64 x ++ rest.
Proof.
  unfold read_i64. intros ([y b] & [Hy ->]%read_uint_canonical & [= <- <-])%bind_Ok.
  change (256 ^ Z.of_nat 8) with (2 ^ 64) in Hy. unfold is_i64, write_i64.
  destruct (Z.ltb_spec y (2 ^ 63)).
  - split; [lia|]. by rewrite Z.mod_small.
  - split; [lia|]. replace (y - 2 ^ 64) with (y + (-1) * 2 ^ 64) by lia.
    by rewrite Z_mod_plus_full, Z.mod_small.
Qed.
End i64.

Section queue_codec.
Context `{LazyKey} `{ConsensusLib} `{!VarCodec (AnyOperation bytes)}.

(** [QueuedFinalizedUploadCfg]. *)
Record QueuedFinalizedUploadCfg := mkQueueCfg { qc_block : BlockCfg; qc_ops_lo : Z; qc_ops_hi : Z }.
Definition queue_cfg_default : QueuedFinalizedUploadCfg := mkQueueCfg block_cfg_default 0 u64_max.

Definition write_queued (u : QueuedFinalizedUpload) : run bytes :=
  b ← write_sealed_block (q_block u);
  Ret (b ++ write_i64 (q_finalized_ts_micros u) ++ write_uint 8 (q_state_start u)
       ++ write_uint 8 (q_transaction_start u) ++ write_vec vwrite (q_state_delta u)).

Definition queued_encode_size (u : QueuedFinalizedUpload) : run Z :=
  b ← block_encode_size (inner (q_block u));
  Ret (b + 8 + 8 + 8 + (encode_size_len (zlen (q_state_delta u)) + sumZ (vsize <$> q_state_delta u))).

Definition read_queued (cfg : QueuedFinalizedUploadCfg) : reader QueuedFinalizedUpload := fun buf =>
  '(b, buf) ← read_sealed_block (qc_block cfg) buf;
  '(ts, buf) ← read_i64 buf;
  '(s, buf) ← read_uint 8 buf;
  '(t, buf) ← read_uint 8 buf;
  '(delta, buf) ← read_vec vread (qc_ops_lo cfg) (qc_ops_hi cfg) buf;
  Ok (mkQueued b ts s t delta, buf).

End queue_codec.

(** ** Cursors *)

(** [struct FinalizedUploadCursor]. *)
Record FinalizedUploadCursor := mkCursor { state_next : Z; transaction_next : Z }.
#[export] Instance FinalizedUploadCursor_eq_dec : EqDecision FinalizedUploadCursor.
Proof. solve_decision. Defined.
Definition cursor_default : FinalizedUploadCursor := mkCursor 0 0.

Definition cursor_from_parts (state_next transaction_next : option Z) : option FinalizedUploadCursor :=
  match state_next, transaction_next with
  | Some s, Some t => Some (mkCursor s t)
  | _, _ => None
  end.

(** The two keys of the cursor in the metadata, [from_metadata], and the puts of
    [persist_finalized_cursor]. *)
Definition CURSOR_STATE_KEY : Z := 0.
Definition CURSOR_TRANSACTION_KEY : Z := 1.
Definition cursor_from_metadata (metadata : gmap Z Z) : option FinalizedUploadCursor :=
  cursor_from_parts (metadata !! CURSOR_STATE_KEY) (metadata !! CURSOR_TRANSACTION_KEY).
Definition put_cursor (metadata : gmap Z Z) (c : FinalizedUploadCursor) : gmap Z Z :=
  <[CURSOR_TRANSACTION_KEY := transaction_next c]> (<[CURSOR_STATE_KEY := state_next c]> metadata).

(** What is persisted is read back, whatever was there; a metadata store with
    one of the keys only has no cursor. *)
Lemma cursor_metadata_roundtrip metadata c :
  cursor_from_metadata (put_cursor metadata c) = Some c ∧
  (metadata !! CURSOR_STATE_KEY = None ∨ metadata !! CURSOR_TRANSACTION_KEY = None → cursor_from_metadata metadata = None).
Proof.
  unfold cursor_from_metadata, put_cursor. rewrite lookup_insert_eq, lookup_insert_ne, lookup_insert_eq by done.
  split; [by destruct c|]. intros [->| ->]; [done|]. by destruct (metadata !! CURSOR_STATE_KEY).
Qed.

Definition cursor_max (self other : FinalizedUploadCursor) : FinalizedUploadCursor :=
  if (state_next self <? state_next other)
     || ((state_next other =? state_next self) && (transaction_next self <? transaction_next other))
  then other else self.

Definition recovered_finalized_upload_cursor (metadata queue : option FinalizedUploadCursor)
    : FinalizedUploadCursor :=
  cursor_max (default cursor_default metadata) (default cursor_default queue).

(** ** The producer and its crashes *)

Section node.
Context `{LazyKey} `{ConsensusLib}.

Definition cursor_from_upload (u : QueuedFinalizedUpload) : run FinalizedUploadCursor :=
  t ← transaction_end u; Ret (mkCursor (state_end u) t).

(** [scan_finalized_queue_cursor]: the cursor of the last entry. *)
Fixpoint scan_finalized_queue_cursor (cursor : option FinalizedUploadCursor)
    (queue : list QueuedFinalizedUpload) : run (option FinalizedUploadCursor) :=
  match queue with
  | [] => Ret cursor
  | u :: queue' => c ← cursor_from_upload u; scan_finalized_queue_cursor (Some c) queue'
  end.

(** The entries of the queue that are not acknowledged and the metadata pair,
    both durable; the producer's cursor; and the cursor of an entry that has
    been written but not yet recorded in the metadata. *)
Record Node := mkNode {
  n_queue : list QueuedFinalizedUpload;
  n_meta : option FinalizedUploadCursor;
  n_cursor : FinalizedUploadCursor;
  n_pending : option FinalizedUploadCursor
}.

(** One round of [FinalizedUploadProducer::enqueue] up to the queue write:
    the upload built, or none when the round only waits or adopts the remote
    cursor before the next one. *)
Definition producer_build (n : Node) (blk : SealedBlock)
    (historical_proof : Z → Z → Z → option (list (AnyOperation Account))) (now_micros : Z)
    (remote : Z * Z) : run (option QueuedFinalizedUpload * Node) :=
  let c := n_cursor n in
  r ← build_queued_finalized_upload (state_next c) (transaction_next c) blk historical_proof now_micros;
  match r with
  | Ok u => Ret (Some u, n)
  | Err (StoreEmptyPastGenesis _) =>
      if state_next c =? 0 then
        if (remote.1 =? 0) && (remote.2 =? 0) then Ret (None, n)
        else Ret (None, mkNode (n_queue n) (n_meta n) (mkCursor remote.1 remote.2) (n_pending n))
      else Ret (None, n)
  | Err _ => Ret (None, n)
  end.

(** [writer.enqueue]: the cursor of the upload is computed first. *)
Definition producer_write (n : Node) (u : QueuedFinalizedUpload) (written : bool) : run Node :=
  next ← cursor_from_upload u;
  if written then Ret (mkNode (n_queue n ++ [u]) (n_meta n) (n_cursor n) (Some next)) else Ret n.

(** [persist_finalized_cursor] and the assignment of the cursor that follows
    its successful round. *)
Definition producer_persist (n : Node) (synced : bool) : Node :=
  match n_pending n with
  | Some next => if synced then mkNode (n_queue n) (Some next) next None else n
  | None => n
  end.

(** [ack_finalized_queue_entry]: once acknowledgements are synced, the entries
    before the acknowledgement floor are gone. *)
Definition queue_ack (n : Node) (floor : nat) : Node :=
  mkNode (drop floor (n_queue n)) (n_meta n) (n_cursor n) (n_pending n).

(** The recovery of [maybe_build_indexer]. *)
Definition node_restart (n : Node) : run Node :=
  queue_cursor ← scan_finalized_queue_cursor None (n_queue n);
  let cursor := recovered_finalized_upload_cursor (n_meta n) queue_cursor in
  Ret (mkNode (n_queue n) (Some cursor) cursor None).

(** The loop of [enqueue] without a crash: each round has its answers from the
    builder, the queue and the metadata store; the loop ends with the round
    that queued the block. *)
Record Round := mkRound {
  r_proof : Z → Z → Z → option (list (AnyOperation Account)); r_now : Z; r_remote : Z * Z;
  r_written : bool }.
Fixpoint enqueue_loop (n : Node) (blk : SealedBlock) (rounds : list Round) : run (bool * Node) :=
  match rounds with
  | [] => Ret (false, n)
  | r :: rounds' =>
      '(o, n) ← producer_build n blk (r_proof r) (r_now r) (r_remote r);
      match o with
      | None => enqueue_loop n blk rounds'
      | Some u =>
          n ← producer_write n u (r_written r);
          if r_written r then Ret (true, producer_persist n true) else enqueue_loop n blk rounds'
      end
  end.

(** What can happen to a node between two rounds. *)
Inductive node_step : Node → Node → Prop :=
| step_build n blk hp now remote o n' :
    0 ≤ remote.1 → 0 ≤ remote.2 →
    n_pending n = None → producer_build n blk hp now remote = Ret (o, n') → node_step n n'
| step_write n blk hp now remote u n' written n'' :
    n_pending n = None → producer_build n blk hp now remote = Ret (Some u, n') →
    producer_write n' u written = Ret n'' → node_step n n''
| step_persist n synced : node_step n (producer_persist n synced)
| step_ack n floor : node_step n (queue_ack n floor)
| step_crash n n' : node_restart n = Ret n' → node_step n n'.

Inductive node_reachable : Node → Prop :=
| reachable_start n : node_restart (mkNode [] None cursor_default None) = Ret n → node_reachable n
| reachable_step n n' : node_reachable n → node_step n n' → node_reachable n'.

(** The consumer starts the entries in order; a refused start is retried, and
    the publisher answers the retry the same way until its channel takes it. *)
Fixpoint consume_queue (pub : Publisher) (queue : list QueuedFinalizedUpload)
    : run (list (result PublishError UploadCompletion) * Publisher) :=
  match queue with
  | [] => Ret ([], pub)
  | u :: queue' =>
      '(r, pub) ← enqueue_queued_finalized true pub u;
      '(rs, pub) ← consume_queue pub queue';
      Ret (r :: rs, pub)
  end.

End node.

(** ** Lemmas on the queue *)

Section lemmas.
Context `{LazyKey} `{ConsensusLib}.

Lemma build_queued_Ok sw tw blk hp now u :
  build_queued_finalized_upload sw tw blk hp now = Ret (Ok u) →
  q_block u = blk ∧ q_state_start u = sw ∧ q_transaction_start u = tw ∧ sw < state_end u ∧
  q_finalized_ts_micros u = now.
Proof.
  unfold build_queued_finalized_upload. destruct (validate_writer_range _ _ _); [|done].
  intros (r & _ & Hk)%bind_Ret. destruct r as [e|]; [|done].
  destruct (build_state_delta sw blk hp) as [delta|] eqn:Ed; [|done]. cbn in Hk. injection Hk as <-.
  split_and!; try done. unfold build_state_delta in Ed. destruct (_ && _); [done|].
  unfold load_state_ops in Ed. unfold state_end. cbn [q_block].
  destruct (checked_sub _ _) as [c|] eqn:Ec; [|done]. apply checked_sub_Some in Ec as [-> Hle].
  cbn in Ed. destruct (Z.eqb_spec (range_end (state_range (header (inner blk))) - sw) 0); [done|lia].
Qed.

Lemma contiguous_last s t q s' t' :
  contiguous s t q s' t' → q ≠ [] → 0 < s' ∧ ∃ u, last q = Some u ∧ s' = state_end u ∧ transaction_end u = Ret t'.
Proof.
  induction 1 as [s t|u q t1 s' t' Hu Hc IH]; [done|]. intros _. destruct q as [|u' q].
  - inversion Hc; subst. split; [|by exists u].
    unfold state_end. destruct (range_bounds (state_range (header (inner (q_block u))))) as ([? _] & _ & ?). lia.
  - destruct IH as (Hs & x & Hl & ? & ?); [done|]. split; [done|]. by exists x.
Qed.

Lemma contiguous_drop k s t q s' t' :
  contiguous s t q s' t' → ∃ s1 t1, contiguous s1 t1 (drop k q) s' t' ∧ contiguous s t (take k q) s1 t1.
Proof.
  intros Hc. revert k. induction Hc as [s t|u q t1 s' t' Hu Hc IH]; intros k.
  - exists s, t. rewrite drop_nil, take_nil. split; constructor.
  - destruct k as [|k]; [exists (q_state_start u), (q_transaction_start u); split; [by econstructor|constructor]|].
    destruct (IH k) as (s1 & t2 & Hd & Ht). exists s1, t2. split; [done|]. by econstructor.
Qed.

(** Contiguous pieces are determined by their entries. *)
Lemma contiguous_end_unique s t q s1 t1 s2 t2 :
  contiguous s t q s1 t1 → contiguous s t q s2 t2 → s1 = s2 ∧ t1 = t2.
Proof.
  induction 1 as [s t|u q t' s1 t1 Hu Hc IH]; intros Hc2; [by inversion Hc2; subst|].
  apply IH. inversion Hc2 as [|? ? x ? ? Hx]; subst. by replace t' with x by congruence.
Qed.

Lemma scan_spec s t q s' t' c :
  contiguous s t q s' t' →
  scan_finalized_queue_cursor c q = Ret (match q with [] => c | _ => Some (mkCursor s' t') end).
Proof.
  intros Hc. revert c. induction Hc as [s t|u q t1 s' t' Hu Hc IH]; intros c; [done|].
  cbn [scan_finalized_queue_cursor]. unfold cursor_from_upload. rewrite Hu. cbn [mbind run_bind].
  rewrite IH. destruct q; [|done]. inversion Hc. by subst.
Qed.

(** The order of frontiers: the state cursor first. *)
Definition cursor_le (a b : FinalizedUploadCursor) : Prop :=
  state_next a < state_next b ∨ (state_next a = state_next b ∧ transaction_next a ≤ transaction_next b).

Lemma cursor_max_le a b : cursor_le a b → cursor_max a b = b.
Proof.
  intros Hle. unfold cursor_max, cursor_le in *. destruct a as [a1 a2], b as [b1 b2]; cbn in *.
  destruct (Z.ltb_spec a1 b1); [done|]. destruct (Z.eqb_spec b1 a1); [|lia].
  destruct (Z.ltb_spec a2 b2); [done|]. cbn. f_equal; lia.
Qed.

(** The invariant of a node: the queue is one piece of both logs that ends at
    the producer's cursor, or at the cursor about to be recorded; the metadata
    never runs ahead of it. *)
Definition cursor_ok (c : FinalizedUploadCursor) : Prop := 0 ≤ state_next c ∧ 0 ≤ transaction_next c.
Record node_inv (n : Node) (s t s' t' : Z) : Prop := {
  ni_chain : contiguous s t (n_queue n) s' t';
  ni_forward : Forall upload_forward (n_queue n);
  ni_end : n_queue n ≠ [] → default (n_cursor n) (n_pending n) = mkCursor s' t';
  ni_cursor : cursor_ok (n_cursor n);
  ni_pending : ∀ p, n_pending n = Some p → cursor_ok p ∧ state_next (n_cursor n) < state_next p;
  ni_meta : ∀ m, n_meta n = Some m → cursor_ok m ∧ state_next m ≤ state_next (n_cursor n);
  ni_meta_end : n_queue n ≠ [] → ∀ m, n_meta n = Some m → cursor_le m (mkCursor s' t')
}.

Lemma node_restart_inv n s t s' t' :
  node_inv n s t s' t' →
  ∃ n', node_restart n = Ret n' ∧ node_inv n' s t s' t' ∧ n_queue n' = n_queue n ∧ n_pending n' = None ∧
    n_meta n' = Some (n_cursor n') ∧
    n_cursor n' = match n_queue n with [] => default cursor_default (n_meta n) | _ => mkCursor s' t' end.
Proof.
  intros [Hc Hf He Hcur Hp Hm Hme]. unfold node_restart. rewrite (scan_spec _ _ _ _ _ _ Hc).
  cbn [mbind run_bind]. unfold recovered_finalized_upload_cursor.
  eexists. split; [reflexivity|].
  set (c := cursor_max _ _).
  assert (c = match n_queue n with [] => default cursor_default (n_meta n) | _ => mkCursor s' t' end
          ∧ cursor_ok c) as [Hceq Hok].
  { unfold c. destruct (n_queue n) as [|u q] eqn:Eq.
    - cbn [default]. destruct (n_meta n) as [[a b]|] eqn:Em; cbn [default id]; [|by split].
      destruct (Hm _ eq_refl) as [[Ha Hb] _]. cbn in Ha, Hb. unfold cursor_max. cbn.
      destruct (Z.ltb_spec a 0); [lia|]. destruct (Z.ltb_spec b 0); [lia|].
      rewrite andb_false_r. by split.
    - cbn [default id].
      assert (cursor_le (default cursor_default (n_meta n)) (mkCursor s' t')) as Hle.
      { destruct (n_meta n) as [m|] eqn:Em; cbn; [by apply Hme|].
        left. cbn. by apply (contiguous_last _ _ _ _ _ Hc). }
      rewrite (cursor_max_le _ _ Hle). split; [done|]. rewrite <- He by done.
      destruct (n_pending n) as [p|] eqn:Ep; cbn; [|done]. by apply Hp. }
  split; [|by split_and!]. split; cbn [n_queue n_pending n_cursor n_meta default]; try done.
  - intros Hne. rewrite Hceq. by destruct (n_queue n).
  - intros m [= <-]. done.
  - intros Hne m [= <-]. rewrite Hceq. destruct (n_queue n); [done|]. right. cbn. lia.
Qed.

Lemma cursor_from_upload_Ret u c :
  cursor_from_upload u = Ret c ↔ state_end u = state_next c ∧ transaction_end u = Ret (transaction_next c).
Proof.
  unfold cursor_from_upload. destruct (transaction_end u); cbn; [|naive_solver].
  destruct c; cbn. naive_solver.
Qed.

(** Building does not touch the durable parts. *)
Lemma producer_build_Ret n blk hp now remote o n' :
  producer_build n blk hp now remote = Ret (o, n') →
  (o = None ∧ (n' = n ∨ (state_next (n_cursor n) = 0 ∧
     n' = mkNode (n_queue n) (n_meta n) (mkCursor remote.1 remote.2) (n_pending n)))) ∨
  (n' = n ∧ ∃ u, o = Some u ∧ q_block u = blk ∧ q_state_start u = state_next (n_cursor n) ∧
     q_transaction_start u = transaction_next (n_cursor n) ∧ state_next (n_cursor n) < state_end u).
Proof.
  unfold producer_build. intros (r & Hb & Hk)%bind_Ret. destruct r as [u|e].
  - injection Hk as <- <-. apply build_queued_Ok in Hb as (? & ? & ? & ? & _). right. split; [done|]. by exists u.
  - left. destruct e; repeat (case_match; zbool); simplify_eq; auto.
Qed.

Lemma producer_write_inv n s t s' t' u b n' :
  node_inv n s t s' t' → n_pending n = None →
  q_state_start u = state_next (n_cursor n) → q_transaction_start u = transaction_next (n_cursor n) →
  state_next (n_cursor n) < state_end u → producer_write n u b = Ret n' →
  ∃ s t s' t', node_inv n' s t s' t'.
Proof.
  intros [Hc Hf He Hcur Hp Hm Hme] Hpend Hs Ht Hlt (c & [Hcs Hct]%cursor_from_upload_Ret & Hw)%bind_Ret.
  destruct b; [|injection Hw as <-; by exists s, t, s', t'; split]. injection Hw as <-.
  apply transaction_end_gt in Hct as Hgt. destruct Hcur as [Hcur1 Hcur2].
  assert (contiguous (if n_queue n then q_state_start u else s) (if n_queue n then q_transaction_start u else t)
    (n_queue n ++ [u]) (state_end u) (transaction_next c)) as Hchain.
  { rewrite Hpend in He. cbn in He. destruct (n_queue n) as [|u0 q] eqn:Eq.
    - eapply contiguous_cons; [done|constructor].
    - specialize (He ltac:(done)). rewrite He in Hs, Ht. cbn in Hs, Ht.
      by eapply contiguous_snoc. }
  eexists _, _, _, _. split; cbn [n_queue n_pending n_cursor n_meta default id]; [exact Hchain| | |done| |done|].
  - apply Forall_app. split; [done|]. apply Forall_singleton. unfold upload_forward. lia.
  - intros _. destruct c; cbn in *. by subst.
  - intros p [= <-]. unfold cursor_ok. lia.
  - intros _ m Hmeta. destruct (Hm m Hmeta) as [_ Hle]. left. cbn. lia.
Qed.

Lemma node_step_inv n s t s' t' n' :
  node_inv n s t s' t' → node_step n n' → ∃ s t s' t', node_inv n' s t s' t'.
Proof.
  intros Hinv Hstep. destruct Hstep as [n blk hp now remote o n' Hr1 Hr2 Hp Hb
    |n blk hp now remote u n' w n'' Hp Hb Hw|n synced|n floor|n n' Hr].
  - apply producer_build_Ret in Hb as [(-> & [->|[Hz ->]])|[-> _]]; [by exists s, t, s', t'| |by exists s, t, s', t'].
    destruct Hinv as [Hc Hf He Hcur Hpd Hm Hme].
    assert (n_queue n = []) as Eq.
    { destruct (n_queue n) as [|u q] eqn:Eq; [done|]. destruct (contiguous_last _ _ _ _ _ Hc ltac:(done)) as [Hpos _].
      rewrite Hp in He. cbn in He. specialize (He ltac:(done)). rewrite He in Hz. cbn in Hz. lia. }
    exists s, t, s', t'. split; cbn [n_queue n_pending n_cursor n_meta default]; try done.
    + intros p Hpp. by rewrite Hp in Hpp.
    + intros m Hmeta. destruct (Hm m Hmeta) as [? ?]. split; [done|]. cbn. lia.
  - apply producer_build_Ret in Hb as [(? & _)|(-> & u' & [= <-] & _ & Hs & Ht & Hlt)]; [done|].
    by eapply producer_write_inv.
  - unfold producer_persist. destruct (n_pending n) as [p|] eqn:Ep; [|by exists s, t, s', t'].
    destruct synced; [|by exists s, t, s', t']. destruct Hinv as [Hc Hf He Hcur Hpd Hm Hme].
    destruct (Hpd p Ep) as [Hok Hlt]. rewrite Ep in He. cbn in He.
    exists s, t, s', t'. split; cbn [n_queue n_pending n_cursor n_meta default]; try done.
    + intros m [= <-]. split; [done|lia].
    + intros Hne m [= <-]. rewrite He by done. right. cbn. lia.
  - destruct Hinv as [Hc Hf He Hcur Hpd Hm Hme]. destruct (contiguous_drop floor _ _ _ _ _ Hc) as (s1 & t1 & Hd & _).
    assert (drop floor (n_queue n) ≠ [] → n_queue n ≠ []) as Hne by (intros Hd' Hq; apply Hd'; by rewrite Hq, drop_nil).
    exists s1, t1, s', t'. split; cbn [queue_ack n_queue n_pending n_cursor n_meta]; auto. by apply Forall_drop.
  - destruct (node_restart_inv n s t s' t' Hinv) as (n1 & Hr1 & Hinv1 & _). rewrite Hr in Hr1. injection Hr1 as <-.
    by exists s, t, s', t'.
Qed.

Lemma node_reachable_inv n : node_reachable n → ∃ s t s' t', node_inv n s t s' t'.
Proof.
  induction 1 as [n Hr|n n' _ (s & t & s' & t' & IH) Hs]; [|by eapply node_step_inv].
  exists 0, 0, 0, 0. injection Hr as <-. split; cbn; try done; [apply contiguous_nil|].
  intros m [= <-]. done.
Qed.

(** The consumer after a restart: entries the remote store has are completed
    at once, the others queued in order. *)
Lemma consume_contiguous s t q s' t' p :
  contiguous s t q s' t' →
  consume_queue (mkPublisher s t p) q
  = Ret (replicate (length q) (Ok Queued), mkPublisher s' t' (p ++ q)).
Proof.
  intros Hc. revert p. induction Hc as [s t|u q t1 s' t' Hu Hc IH]; intros p; [by rewrite app_nil_r|].
  apply transaction_end_gt in Hu as Hgt. cbn [consume_queue]. unfold enqueue_queued_finalized. rewrite Hu.
  cbn [mbind run_bind state_next_location transaction_next_location prepare_queue].
  rewrite (proj2 (Z.leb_gt t1 _)) by lia. rewrite andb_false_r, !Z.eqb_refl. cbn [negb mbind run_bind].
  rewrite IH. cbn. by rewrite <- app_assoc.
Qed.

Lemma consume_covered pub q rest rs pub' :
  (∀ u, u ∈ q → state_end u ≤ state_next_location pub ∧
     ∃ e, transaction_end u = Ret e ∧ e ≤ transaction_next_location pub) →
  consume_queue pub rest = Ret (rs, pub') →
  consume_queue pub (q ++ rest) = Ret (replicate (length q) (Ok Completed) ++ rs, pub').
Proof.
  intros Hin Hr. induction q as [|u q IH]; [done|]. cbn [app consume_queue].
  destruct (Hin u) as (Hs & e & He & Hle); [left|]. unfold enqueue_queued_finalized. rewrite He.
  cbn [mbind run_bind]. rewrite (proj2 (Z.leb_le _ _) Hs), (proj2 (Z.leb_le _ _) Hle). cbn [andb mbind run_bind].
  rewrite IH by (intros u' Hu; apply Hin; by right). done.
Qed.
End lemmas.

(** ** Properties *)

Section codec_property.
Context `{LazyKey} `{ConsensusLib} `{!VarCodec (AnyOperation bytes)}.

Lemma vec_size {A} `{VarCodec A} (l : list A) :
  zlen (write_vec vwrite l) = encode_size_len (zlen l) + sumZ (vsize <$> l).
Proof.
  rewrite write_vec_spec, zlen_app. unfold encode_size_len. f_equal.
  induction l as [|a l IH]; cbn; [done|]. by rewrite zlen_app, IH, vsize_vwrite.
Qed.

(** The queue's entries survive the disk: an entry writes without
    panicking to [encode_size] bytes, and reading them back under a
    configuration that admits its lengths gives the same block up to the lazy
    decoding of its body, timestamp, cursors and state operations; and
    whatever the reader accepts is the writing of what it returns. *)
Theorem queued_upload_roundtrip cfg :
  (∀ u rest,
    q_block u = seal_block (inner (q_block u)) → header_wf (header (inner (q_block u))) →
    Forall lst_wf (body (inner (q_block u))) →
    cfg_lo (qc_block cfg) ≤ zlen (body (inner (q_block u))) ≤ cfg_hi (qc_block cfg) →
    zlen (body (inner (q_block u))) < 2 ^ 32 →
    is_i64 (q_finalized_ts_micros u) → is_u64 (q_state_start u) → is_u64 (q_transaction_start u) →
    qc_ops_lo cfg ≤ zlen (q_state_delta u) ≤ qc_ops_hi cfg → zlen (q_state_delta u) < 2 ^ 32 →
    Forall vvalid (q_state_delta u) →
    ∃ b u', write_queued u = Ret b ∧ queued_encode_size u = Ret (zlen b) ∧
      read_queued cfg (b ++ rest) = Ok (u', rest) ∧
      header (inner (q_block u')) = header (inner (q_block u)) ∧ seal (q_block u') = seal (q_block u) ∧
      Forall2 lst_same (body (inner (q_block u))) (body (inner (q_block u'))) ∧
      q_finalized_ts_micros u' = q_finalized_ts_micros u ∧ q_state_start u' = q_state_start u ∧
      q_transaction_start u' = q_transaction_start u ∧ q_state_delta u' = q_state_delta u) ∧
  (∀ buf u rest, read_queued cfg buf = Ok (u, rest) →
     ∃ b, write_queued u = Ret b ∧ buf = b ++ rest ∧ is_i64 (q_finalized_ts_micros u) ∧
       q_block u = seal_block (inner (q_block u))).
Proof.
  split.
  - intros u rest Hseal Hh Hb Hc Hn Hts Hs Ht Hdc Hdn Hdv.
    destruct (write_block_spec _ Hb) as [Hw Hsz].
    unfold write_queued, queued_encode_size, write_sealed_block. rewrite Hw, Hsz. cbn [mbind run_bind].
    set (wire := write_header _ ++ write_vec lst_wire _).
    destruct (read_write_block (qc_block cfg) (inner (q_block u))
      (write_i64 (q_finalized_ts_micros u) ++ write_uint 8 (q_state_start u)
       ++ write_uint 8 (q_transaction_start u) ++ write_vec vwrite (q_state_delta u) ++ rest))
      as (b' & Hr & Hhd & Hbody); [done..|].
    destruct (read_write_vec vread vwrite (=) (qc_ops_lo cfg) (qc_ops_hi cfg) (q_state_delta u) rest)
      as (delta & Hrd & Heq); [done|done| |].
    { intros a bs Ha. rewrite Forall_forall in Hdv. exists a. split; [|done]. apply vread_vwrite. by apply Hdv. }
    apply list_eq_Forall2 in Heq as <-.
    eexists _, (mkQueued (seal_block b') _ _ _ _). split; [reflexivity|]. split.
    { f_equal. unfold write_i64. rewrite !zlen_app, vec_size.
      assert (∀ x, zlen (write_uint 8 x) = 8) as Hu by (intros; unfold zlen; by rewrite write_uint_length).
      rewrite !Hu. unfold wire. rewrite zlen_app. lia. }
    split.
    { unfold read_queued, read_sealed_block. rewrite <- !app_assoc. unfold wire. rewrite <- app_assoc, Hr.
      cbn [mbind result_bind]. rewrite read_write_i64 by done. cbn [mbind result_bind].
      rewrite !read_write_u64 by done. cbn [mbind result_bind].
      rewrite read_write_u64 by done. cbn [mbind result_bind]. by rewrite Hrd. }
    cbn. split_and!; try done. rewrite Hseal. cbn. by rewrite Hhd.
  - intros buf u rest. unfold read_queued, read_sealed_block.
    intros ([b b1] & ([b0 b0'] & Hr & [= <- <-])%bind_Ok & Hk)%bind_Ok.
    apply read_block_canonical in Hr as (Hh & Hb & _ & _ & ->).
    apply bind_Ok in Hk as ([ts b2] & [Hts ->]%read_i64_canonical & Hk).
    apply bind_Ok in Hk as ([s b3] & [Hs ->]%read_uint_canonical & Hk).
    apply bind_Ok in Hk as ([t b4] & [Ht ->]%read_uint_canonical & Hk).
    apply bind_Ok in Hk as ([delta b5] & Hd & [= <- <-]).
    apply (read_vec_canonical _ vwrite vvalid) in Hd as (_ & _ & _ & ->); [|apply vread_canonical].
    unfold write_queued, write_sealed_block. cbn [q_block seal_block inner].
    destruct (write_block_spec _ Hb) as [-> _]. cbn. eexists. split_and!; [reflexivity| |done|done].
    by rewrite <- !app_assoc.
Qed.
End codec_property.

Section properties.
Context `{LazyKey} `{ConsensusLib}.

(** C30. The queue never has a gap: whatever mixture of builds, failed and
    successful writes, metadata syncs, acknowledgements, adopted remote
    cursors and crashes a node goes through, its unacknowledged entries are
    one contiguous piece of both logs.  A restart never panics, keeps them and
    resumes the producer where they end; and a publisher whose remote cursors
    stand at any boundary between entries marks the entries before it as
    completed and queues exactly the others, in order. *)
Theorem upload_queue_contiguous n :
  node_reachable n →
  ∃ s t s' t', contiguous s t (n_queue n) s' t' ∧ Forall upload_forward (n_queue n) ∧
    (n_queue n ≠ [] → default (n_cursor n) (n_pending n) = mkCursor s' t') ∧
    (∃ n', node_restart n = Ret n' ∧ n_queue n' = n_queue n ∧ n_pending n' = None ∧
       n_meta n' = Some (n_cursor n') ∧
       n_cursor n' = match n_queue n with [] => default cursor_default (n_meta n) | _ => mkCursor s' t' end) ∧
    (∀ k sk tk, (k ≤ length (n_queue n))%nat → contiguous s t (take k (n_queue n)) sk tk →
       consume_queue (mkPublisher sk tk []) (n_queue n)
       = Ret (replicate k (Ok Completed) ++ replicate (length (n_queue n) - k) (Ok Queued),
              mkPublisher s' t' (drop k (n_queue n)))).
Proof.
  intros (s & t & s' & t' & Hinv)%node_reachable_inv. exists s, t, s', t'.
  destruct (node_restart_inv n s t s' t' Hinv) as (n' & Hr & _ & Hq & Hp & Hm & Hc).
  destruct Hinv as [Hch Hf He _ _ _ _]. split_and!; [done..|by exists n'|].
  intros k sk tk Hk Hck. destruct (contiguous_drop k _ _ _ _ _ Hch) as (s1 & t1 & Hd & Ht).
  destruct (contiguous_end_unique _ _ _ _ _ _ _ Hck Ht) as [-> ->].
  rewrite <- (take_drop k (n_queue n)) at 1.
  erewrite consume_covered; [| |by apply consume_contiguous].
  - rewrite length_take_le, length_drop by done. done.
  - intros u Hu. apply (contiguous_bounds _ _ _ _ _ Ht); [by apply Forall_take|done].
Qed.

(** The next block gets queued: when a block follows the producer's
    cursors and the local database can prove its operations, every sequence of
    rounds of the loop queues it as soon as one queue write succeeds, and the
    producer then stands, durably, at the block's ends; until then nothing
    changes. *)
Theorem next_block_queued n blk start rounds :
  let h := header (inner blk) in
  let c := n_cursor n in
  cursor_at (transaction_next c) (height h) start → 0 ≤ transaction_next c →
  range_end (transactions_range h) = start + zlen (body (inner blk)) + 1 →
  range_end (transactions_range h) ≤ u64_max →
  (state_next c = 0 → height h ≤ 1) → 0 ≤ state_next c < range_end (state_range h) →
  Forall (λ r, is_Some (r_proof r (range_end (state_range h)) (state_next c)
                          (range_end (state_range h) - state_next c))) rounds →
  let next := mkCursor (range_end (state_range h)) (range_end (transactions_range h)) in
  if existsb r_written rounds
  then ∃ u, q_block u = blk ∧
    enqueue_loop n blk rounds = Ret (true, mkNode (n_queue n ++ [u]) (Some next) next None)
  else enqueue_loop n blk rounds = Ret (false, n).
Proof.
  intros h c Hcur Ht He Hmax Hs Hst Hproof next.
  assert (∀ r, r ∈ rounds → ∃ u, producer_build n blk (r_proof r) (r_now r) (r_remote r) = Ret (Some u, n) ∧
    q_block u = blk ∧ cursor_from_upload u = Ret next) as Hbuild.
  { intros r Hr. rewrite Forall_forall in Hproof. destruct (Hproof r Hr) as [ops Hops].
    unfold producer_build, build_queued_finalized_upload, validate_writer_range. fold h c.
    assert ((state_next c =? 0) && (1 <? height h) = false) as Hz.
    { destruct (Z.eqb_spec (state_next c) 0); [|done]. cbn. apply Z.ltb_ge. auto. }
    rewrite Hz, (proj2 (Z.ltb_ge _ _)) by lia.
    rewrite (upload_end_spec blk (transaction_next c) start) by done. cbn [mbind run_bind].
    unfold build_state_delta, load_state_ops. fold h. rewrite Hz.
    rewrite (proj2 (checked_sub_Some _ _ (range_end (state_range h) - state_next c))) by lia.
    cbn [mbind option_bind]. rewrite (proj2 (Z.eqb_neq _ _)) by lia. rewrite Hops.
    cbn. eexists. split; [reflexivity|]. split; [done|].
    apply cursor_from_upload_Ret. split; [done|]. unfold transaction_end. cbn [q_block q_transaction_start].
    rewrite (upload_end_spec blk (transaction_next c) start) by done. done. }
  clear Hproof. induction rounds as [|r rounds IH]; cbn [existsb enqueue_loop]; [done|].
  destruct (Hbuild r) as (u & -> & Hu & Hnext); [left|]. cbn [mbind run_bind].
  unfold producer_write. rewrite Hnext. cbn [mbind run_bind]. destruct (r_written r); cbn [orb].
  - exists u. by split.
  - cbn [mbind run_bind]. apply IH. intros r' Hr'. apply Hbuild. by right.
Qed.

(** A refused build leaves the producer where it is, once its state cursor
    has left zero. *)
Lemma enqueue_loop_stuck n blk rounds e :
  state_next (n_cursor n) ≠ 0 →
  (∀ hp now, build_queued_finalized_upload (state_next (n_cursor n)) (transaction_next (n_cursor n)) blk hp now
             = Ret (Err (e hp now))) →
  enqueue_loop n blk rounds = Ret (false, n).
Proof.
  intros Hs Hb. induction rounds as [|r rounds IH]; [done|]. cbn [enqueue_loop]. unfold producer_build.
  rewrite Hb. cbn [mbind run_bind]. rewrite (proj2 (Z.eqb_neq _ _) Hs).
  destruct (e (r_proof r) (r_now r)); cbn; exact IH.
Qed.

Lemma transaction_upload_end_Ok w blk e :
  transaction_upload_end w blk = Ret (Ok e) → 0 ≤ w →
  range_end (transactions_range (header (inner blk))) = e ∧
  e = w + zlen (body (inner blk)) + (if w =? 0 then 2 else 1) ∧ e ≤ u64_max.
Proof.
  unfold transaction_upload_end. destruct (_ && _); [done|].
  intros (n & [Hn Hle]%expect_Ret%checked_add_Some & Hk)%bind_Ret Hw.
  apply bind_Ret in Hk as (n' & Hn' & Hk).
  apply bind_Ret in Hk as (b & [Hb _]%expect_Ret%checked_sub_Some & Hk).
  destruct (Z.eqb_spec w b) as [->|]; cbn [negb] in Hk; [|done].
  apply bind_Ret in Hk as (e' & [He Hmax]%expect_Ret%checked_add_Some & [= ->]).
  destruct (Z.eqb_spec b 0).
  - apply expect_Ret, checked_add_Some in Hn'. lia.
  - injection Hn' as ->. lia.
Qed.

(** A queued block is refused where it ends, and a block is refused before
    the place where it starts. *)
Lemma transaction_upload_end_again w blk e :
  transaction_upload_end w blk = Ret (Ok e) → 0 ≤ w →
  ∃ er, transaction_upload_end e blk = Ret (Err er).
Proof.
  intros Hw Hb. apply transaction_upload_end_Ok in Hw as (Hr & He & Hmax); [|done].
  pose proof (zlen_nonneg (body (inner blk))). unfold transaction_upload_end.
  destruct (_ && _); [by eexists|]. destruct (Z.eqb_spec e 0); [destruct (w =? 0); lia|].
  rewrite (proj2 (checked_add_Some _ _ _)) by (split; [reflexivity|destruct (w =? 0); lia]).
  cbn [expect mbind run_bind].
  rewrite (proj2 (checked_sub_Some _ _ (e - (zlen (body (inner blk)) + 1)))) by (destruct (w =? 0); lia).
  cbn [expect mbind run_bind]. rewrite (proj2 (Z.eqb_neq _ _)) by lia. by eexists.
Qed.

Lemma transaction_upload_end_before w w' blk e :
  transaction_upload_end w blk = Ret (Ok e) → 0 ≤ w' < w → (w' = 0 → 2 ≤ w) →
  ∃ er, transaction_upload_end w' blk = Ret (Err er).
Proof.
  intros Hw Hb Hz. apply transaction_upload_end_Ok in Hw as (Hr & He & Hmax); [|lia].
  rewrite (proj2 (Z.eqb_neq w 0)) in He by lia.
  pose proof (zlen_nonneg (body (inner blk))). unfold transaction_upload_end.
  destruct (_ && _); [by eexists|].
  rewrite (proj2 (checked_add_Some _ _ _)) by (split; [reflexivity|lia]). cbn [expect mbind run_bind].
  destruct (Z.eqb_spec w' 0) as [->|].
  - rewrite (proj2 (checked_add_Some _ _ _)) by (split; [reflexivity|lia]). cbn [expect mbind run_bind].
    rewrite (proj2 (checked_sub_Some _ _ (w - 1))) by lia. cbn [expect mbind run_bind].
    rewrite (proj2 (Z.eqb_neq 0 _)) by lia. by eexists.
  - cbn [mbind run_bind]. rewrite (proj2 (checked_sub_Some _ _ w)) by lia. cbn [expect mbind run_bind].
    rewrite (proj2 (Z.eqb_neq _ _)) by lia. by eexists.
Qed.

(** A build fails when the transaction range does not match. *)
Lemma build_queued_refused sw tw blk er :
  transaction_upload_end tw blk = Ret (Err er) →
  ∃ e, ∀ hp now, build_queued_finalized_upload sw tw blk hp now = Ret (Err e).
Proof.
  intros Ht. unfold build_queued_finalized_upload. destruct (validate_writer_range _ _ _); [|by eexists].
  rewrite Ht. by exists er.
Qed.

(** C40. Two crash points stop the producer for good.  Take an upload that was
    just written to the queue by a producer past the first block whose
    metadata is up to date.  If the node stops before the finalized block is
    acknowledged and the entry is still queued, the recovered cursor is past
    the block, so when the block is delivered again the loop never returns.
    If the entry was uploaded and acknowledged before the metadata was
    written, the recovered cursor is before the block, and the loop never
    returns on the block that follows it.  Whether the block is delivered again
    or not, one of the two points blocks the finalization hook. *)
Theorem crash_window_stalls n blk hp now remote u n1 next rounds :
  0 < state_next (n_cursor n) → 0 ≤ transaction_next (n_cursor n) →
  n_queue n = [] → n_meta n = Some (n_cursor n) →
  producer_build n blk hp now remote = Ret (Some u, n) → producer_write n u true = Ret n1 →
  (∃ n2, node_restart n1 = Ret n2 ∧ n_queue n2 = [u] ∧
     enqueue_loop n2 blk rounds = Ret (false, n2)) ∧
  (∃ n3, node_restart (queue_ack n1 1) = Ret n3 ∧ n_queue n3 = [] ∧ n_cursor n3 = n_cursor n ∧
     ∀ t e, transaction_end u = Ret t → transaction_upload_end t next = Ret (Ok e) →
     enqueue_loop n3 next rounds = Ret (false, n3)).
Proof.
  intros Hs Ht Hq Hm Hb Hw.
  apply producer_build_Ret in Hb as [(? & _)|(_ & u' & [= <-] & <- & Hus & Hut & Hlt)]; [done|].
  apply bind_Ret in Hw as (c & Hc & Hw). injection Hw as <-. pose proof Hc as [Hce Hct]%cursor_from_upload_Ret.
  pose proof (transaction_end_gt _ _ Hct) as Hgt.
  unfold transaction_end in Hct. apply bind_Ret in Hct as (r & Hend & Hr). destruct r as [e0|]; [|done].
  injection Hr as ->. rewrite Hut in Hend. split.
  - eexists. split; [unfold node_restart; cbn [n_queue n_meta]; rewrite Hq; cbn [app scan_finalized_queue_cursor];
      rewrite Hc; reflexivity|].
    unfold recovered_finalized_upload_cursor. rewrite Hm. cbn [default id n_queue].
    rewrite cursor_max_le by (left; lia). split; [done|].
    destruct (transaction_upload_end_again _ _ _ Hend Ht) as [er Her].
    destruct (build_queued_refused (state_next c) _ _ _ Her) as [e He].
    apply (enqueue_loop_stuck _ _ _ (λ _ _, e)); cbn [n_cursor]; [lia|done].
  - eexists. split; [unfold node_restart; cbn [queue_ack n_queue n_meta]; rewrite Hq; reflexivity|].
    cbn [n_queue n_cursor]. unfold recovered_finalized_upload_cursor. rewrite Hm. cbn [default id].
    assert (cursor_max (n_cursor n) cursor_default = n_cursor n) as Hmax.
    { unfold cursor_max. cbn [state_next transaction_next cursor_default].
      rewrite (proj2 (Z.ltb_ge _ _)) by lia. rewrite (proj2 (Z.eqb_neq _ _)) by lia. done. }
    rewrite Hmax. split_and!; [done..|]. intros t e Htu Hnext.
    assert (t = transaction_next c) as -> by (unfold transaction_end in Htu; rewrite Hut, Hend in Htu; by injection Htu).
    apply transaction_upload_end_Ok in Hend as (_ & Hlen & _); [|done].
    pose proof (zlen_nonneg (body (inner (q_block u)))).
    destruct (transaction_upload_end_before _ (transaction_next (n_cursor n)) _ _ Hnext) as [er Her].
    { destruct (Z.eqb_spec (transaction_next (n_cursor n)) 0); lia. }
    { intros Hz. rewrite Hz in Hlen. cbn in Hlen. lia. }
    destruct (build_queued_refused (state_next (n_cursor n)) _ _ _ Her) as [er' Her'].
    apply (enqueue_loop_stuck _ _ _ (λ _ _, er')); cbn [n_cursor]; [lia|done].
Qed.
End properties.

(** ** A concrete operation codec and witnesses *)

(** Updates of fixed width only. *)
Definition op_valid (op : AnyOperation bytes) : Prop :=
  match op with Update k v => length k = 32%nat ∧ length v = 24%nat | _ => False end.
Definition op_write (op : AnyOperation bytes) : bytes := match op with Update k v => k ++ v | _ => [] end.
Definition op_read : reader (AnyOperation bytes) := fun buf =>
  if decide (length buf < 56)%nat then Err EndOfBuffer
  else Ok (Update (take 32 buf) (take 24 (drop 32 buf)), drop 56 buf).
#[export] Program Instance conc_op_codec : VarCodec (AnyOperation bytes) := {|
  vvalid := op_valid; vsize op := zlen (op_write op); vwrite := op_write; vread := op_read |}.
Next Obligation. done. Qed.
Next Obligation.
  intros [k|k v|m f] rest; [done| |done]. intros [Hk Hv]. unfold op_read, op_write.
  rewrite <- app_assoc. rewrite decide_False by (rewrite !length_app; lia).
  rewrite take_app_length', drop_app_length', take_app_length' by done.
  rewrite app_assoc, drop_app_length' by (rewrite length_app; lia). done.
Qed.
Next Obligation.
  intros buf a rest. unfold op_read. destruct (decide (length buf < 56)%nat) as [|Hl]; [done|].
  intros [= <- <-]. unfold op_valid, op_write. rewrite !length_take, length_drop. split; [lia|].
  rewrite <- (take_drop 32 buf) at 1. rewrite <- app_assoc. f_equal.
  rewrite <- (take_drop 24 (drop 32 buf)) at 1. f_equal. by rewrite drop_drop.
Qed.

Definition sample_queued : QueuedFinalizedUpload :=
  mkQueued (seal_block sample_block) (-5) 0 7 [Update (replicate 32 x01) (replicate 24 x02)].

Lemma queued_upload_roundtrip_witness :
  ∃ b u', write_queued sample_queued = Ret b ∧
    read_queued queue_cfg_default (b ++ [x09]) = Ok (u', [x09]) ∧ q_finalized_ts_micros u' = -5.
Proof.
  destruct (proj1 (queued_upload_roundtrip queue_cfg_default) sample_queued [x09])
    as (b & u' & Hw & _ & Hr & _ & _ & _ & Ht & _).
  - reflexivity.
  - by split.
  - apply block_new_wf. repeat constructor; try done; apply lazy_new_wf; done.
  - done.
  - done.
  - unfold is_i64. cbn. lia.
  - done.
  - done.
  - done.
  - done.
  - repeat constructor.
  - exists b, u'. split; [exact Hw|]. split; [exact Hr|exact Ht].
Defined.

Definition sample_start : Node := mkNode [] (Some cursor_default) cursor_default None.
Definition sample_proof : Z → Z → Z → option (list (AnyOperation Account)) := λ _ _ _, Some [].
Definition sample_first : SealedBlock := q_block (sample_upload 1 0 5 0).
Definition sample_second : SealedBlock := q_block (sample_upload 2 5 9 2).

Lemma sample_build n blk :
  is_ret_some (r ← producer_build n blk sample_proof 0 (0, 0); Ret r.1) = true →
  ∃ u, producer_build n blk sample_proof 0 (0, 0) = Ret (Some u, n).
Proof.
  destruct (producer_build n blk sample_proof 0 (0, 0)) as [[o n']|] eqn:E; [|done].
  destruct o as [u|]; [|done]. intros _. exists u.
  by apply producer_build_Ret in E as [(? & _)|(-> & _)].
Qed.

Lemma upload_queue_contiguous_witness :
  ∃ n, n_queue n ≠ [] ∧ ∃ s t s' t', contiguous s t (n_queue n) s' t'.
Proof.
  destruct (sample_build sample_start sample_first) as [u Hu]; [vm_compute; reflexivity|].
  destruct (is_ret_inv (producer_write sample_start u true)) as [n Hn].
  { apply producer_build_Ret in Hu as [(? & _)|(_ & u' & [= <-] & Hb & Hs & Ht & _)]; [done|].
    unfold producer_write, cursor_from_upload, transaction_end. rewrite Hb, Ht. vm_compute. reflexivity. }
  exists n. assert (node_reachable n) as Hr.
  { eapply reachable_step; [apply reachable_start; reflexivity|].
    eapply step_write; [reflexivity|exact Hu|exact Hn]. }
  split.
  - apply bind_Ret in Hn as (c & _ & Hn). injection Hn as <-. cbn. by destruct (n_queue sample_start).
  - destruct (upload_queue_contiguous n Hr) as (s & t & s' & t' & Hc & _). by exists s, t, s', t'.
Defined.

Lemma next_block_queued_witness :
  ∃ u, q_block u = sample_first ∧
    enqueue_loop sample_start sample_first
      [mkRound sample_proof 3 (0, 0) false; mkRound sample_proof 4 (0, 0) true]
    = Ret (true, mkNode [u] (Some (mkCursor 5 2)) (mkCursor 5 2) None).
Proof.
  refine (next_block_queued sample_start sample_first 1
    [mkRound sample_proof 3 (0, 0) false; mkRound sample_proof 4 (0, 0) true] _ _ _ _ _ _ _).
  - right. split_and!; done.
  - done.
  - vm_compute. reflexivity.
  - vm_compute. discriminate.
  - done.
  - vm_compute. split; [discriminate|reflexivity].
  - repeat constructor; by eexists.
Defined.

Lemma crash_window_stalls_witness :
  ∃ n n1 n2, node_restart n1 = Ret n2 ∧ n_cursor n = mkCursor 5 2 ∧
    enqueue_loop n2 sample_second [mkRound sample_proof 3 (0, 0) true] = Ret (false, n2).
Proof.
  set (n := mkNode [] (Some (mkCursor 5 2)) (mkCursor 5 2) None).
  destruct (sample_build n sample_second) as [u Hu]; [vm_compute; reflexivity|].
  destruct (is_ret_inv (producer_write n u true)) as [n1 Hn].
  { apply producer_build_Ret in Hu as [(? & _)|(_ & u' & [= <-] & Hb & Hs & Ht & _)]; [done|].
    unfold producer_write, cursor_from_upload, transaction_end. rewrite Hb, Ht. vm_compute. reflexivity. }
  destruct (crash_window_stalls n sample_second sample_proof 0 (0, 0) u n1 sample_first
    [mkRound sample_proof 3 (0, 0) true] ltac:(done) ltac:(done) eq_refl eq_refl Hu Hn) as [(n2 & Hr & _ & Hl) _].
  exists n, n1, n2. split; [exact Hr|]. split; [reflexivity|exact Hl].
Defined.
