(* ===== verification/Consumer.v ===== *)
(** * The consumer of the upload queue (bin/validator/src/run.rs)

    [run_finalized_upload_consumer] reads the durable queue in order, starts
    each entry on the publisher, keeps a bounded number of them active, and
    acknowledges an entry when its upload is complete.  A crash loses
    everything but the queue, its acknowledgement floor and the remote store.
    The model runs the consumer on the publisher's cursors (Indexer.v) and the
    commit pipeline (CommitPipeline.v); the theorem shows that nothing
    acknowledged is missing from the store and that the publisher never finds
    itself out of step with the queue, across any number of crashes. *)

From stdpp Require Import prelude gmap list strings relations.
From S2P Require Import Prelude Interfaces Concrete Transaction Database Block Execution Application Indexer Lookup Writers CommitPipeline CommitInvariant Lockstep UploadQueue.

Section consumer.
Context `{LazyKey} `{ConsensusLib} {Row : Type}.
Context {SW : QmdbWriter Row (AnyOperation bytes)} {TW : QmdbWriter Row (KeylessOperation digest)}
  {Q : SqlBatchWriter Row}.
Notation Pipeline := (Pipeline (SW := SW) (TW := TW) (Q := Q)).

(** The queue: every entry ever written, by position, and the floor below which
    entries are acknowledged for good.  The consumer: its read position, the
    active uploads with what the publisher answered, the positions it
    acknowledged and the blocks it gave to the certificate reporter.  The
    publisher and its tasks. *)
Record Consumer := mkConsumer {
  cs_entries : list QueuedFinalizedUpload; cs_floor : nat;
  cs_read : nat; cs_active : list (nat * UploadCompletion); cs_acked : gset nat; cs_reported : list nat;
  cs_publisher : Publisher; cs_pipe : Pipeline }.

(** [start_queued_upload] on the next entry: one round of its loop, none when
    there is no entry or the publisher refuses it for now. *)
Definition start_queued_upload (c : Consumer) : run (option Consumer) :=
  match cs_entries c !! cs_read c with
  | None => Ret None
  | Some u =>
      '(r, publisher) ← enqueue_queued_finalized (pl_preparing (cs_pipe c)) (cs_publisher c) u;
      match r with
      | Err _ => Ret None
      | Ok completion =>
          let pipe := cs_pipe c in
          let pipe :=
            match completion with
            | Completed => pipe
            | Queued =>
                with_queue pipe (pl_open pipe)
                  (pl_queue pipe ++ [mkPendingQueued (height (header (inner (q_block u)))) u (cs_read c)])
                  (pl_preparing pipe)
            end in
          Ret (Some (mkConsumer (cs_entries c) (cs_floor c) (S (cs_read c))
                       (cs_active c ++ [(cs_read c, completion)]) (cs_acked c) (cs_reported c) publisher pipe))
      end
  end.

(** [UploadCompletion::wait] returns true: the upload was complete, or its
    completion was sent. *)
Definition upload_done (c : Consumer) (a : nat * UploadCompletion) : Prop :=
  match a.2 with Completed => True | Queued => a.1 ∈ pl_sent (cs_pipe c) end.

(** An active upload ends: its block goes to the certificate reporter and its
    entry is acknowledged. *)
Definition finish_upload (c : Consumer) (before : list (nat * UploadCompletion)) (position : nat)
    (after : list (nat * UploadCompletion)) : Consumer :=
  mkConsumer (cs_entries c) (cs_floor c) (cs_read c) (before ++ after) (cs_acked c ∪ {[position]})
    (cs_reported c ++ [position]) (cs_publisher c) (cs_pipe c).

(** [ack_finalized_queue_entry] made the acknowledgements durable. *)
Definition sync_floor (c : Consumer) (floor : nat) : Consumer :=
  mkConsumer (cs_entries c) floor (cs_read c) (cs_active c) (cs_acked c) (cs_reported c) (cs_publisher c) (cs_pipe c).

(** The producer writes an entry. *)
Definition append_entry (c : Consumer) (u : QueuedFinalizedUpload) : Consumer :=
  mkConsumer (cs_entries c ++ [u]) (cs_floor c) (cs_read c) (cs_active c) (cs_acked c) (cs_reported c)
    (cs_publisher c) (cs_pipe c).

Definition with_pipe (c : Consumer) (pipe : Pipeline) : Consumer :=
  mkConsumer (cs_entries c) (cs_floor c) (cs_read c) (cs_active c) (cs_acked c) (cs_reported c) (cs_publisher c) pipe.

(** [Publisher::connect] on the recovered writers: the cursors follow the
    watermarks. *)
Definition connect (st : Writer SW) (tx : Writer TW) (sqlw : BatchWriter Q) (store : list (list Row))
    : Publisher * Pipeline :=
  (mkPublisher (next_writer_location (latest_published_watermark SW st))
     (next_writer_location (latest_published_watermark TW tx)) [],
   pipeline_start st tx sqlw store).

(** A node starts, or starts again: reading resumes at the floor. *)
Definition consumer_start (entries : list QueuedFinalizedUpload) (floor : nat)
    (st : Writer SW) (tx : Writer TW) (sqlw : BatchWriter Q) (store : list (list Row)) : Consumer :=
  let '(publisher, pipe) := connect st tx sqlw store in
  mkConsumer entries floor floor [] ∅ [] publisher pipe.

Variables (LS : QmdbWriterLaws SW) (LT : QmdbWriterLaws TW) (LQ : SqlWriterLaws Q).
Variables (max_in_flight_commits max_active : nat) (state0 transaction0 : Z).

(** An entry the producer may write: the fields of an upload within their
    widths, its state operations counted by its range. *)
Record entry_well (u : QueuedFinalizedUpload) : Prop := {
  ew_upload n : upload_well (mkPendingQueued (height (header (inner (q_block u)))) u n);
  ew_delta : zlen (q_state_delta u) = state_end u - q_state_start u;
  ew_start : 0 ≤ q_state_start u ∧ 0 ≤ q_transaction_start u }.

(** A step of the tasks behind the publisher. *)
Definition pipe_step (p p' : Pipeline) : Prop :=
  committer_step max_in_flight_commits p (Ret p') ∨ task_step p (Ret p') ∨
  ∃ up rest, pl_preparing p = true ∧ pl_queue p = up :: rest ∧ p' = (preparer_round p up rest).2.

(** What the loop of the consumer and the tasks do. *)
Inductive consumer_work (c : Consumer) : Consumer → Prop :=
| consumer_starts c' :
    (length (cs_active c) < max_active)%nat → start_queued_upload c = Ret (Some c') → consumer_work c c'
| consumer_pipe pipe : pipe_step (cs_pipe c) pipe → consumer_work c (with_pipe c pipe)
| consumer_joins before a after :
    cs_active c = before ++ a :: after → upload_done c a → consumer_work c (finish_upload c before a.1 after).

(** What else happens to a node: the producer writes, acknowledgements become
    durable, the node crashes and restarts. *)
Inductive consumer_step (c : Consumer) : Consumer → Prop :=
| consumer_works c' : consumer_work c c' → consumer_step c c'
| consumer_append u s t :
    entry_well u → contiguous state0 transaction0 (cs_entries c ++ [u]) s t → consumer_step c (append_entry c u)
| consumer_syncs floor :
    (cs_floor c ≤ floor)%nat → (∀ i, (cs_floor c ≤ i < floor)%nat → i ∈ cs_acked c) →
    consumer_step c (sync_floor c floor)
| consumer_crash st tx sqlw :
    recovered LS LT (read_pair LS LT (concat (pl_store (cs_pipe c)))) st tx (pl_store (cs_pipe c)) →
    sql_buffer LQ sqlw = [] →
    consumer_step c (consumer_start (cs_entries c) (cs_floor c) st tx sqlw (pl_store (cs_pipe c))).

(** A location a watermark can have. *)
Definition location_ok (o : option Z) : Prop := ∀ l, o = Some l → 0 ≤ l < u64_max.

(** The node first starts on an empty queue and a store whose logs end where
    the first entry will start. *)
Inductive consumer_reachable : Consumer → Prop :=
| consumer_reach_start st tx sqlw store :
    recovered LS LT (read_pair LS LT (concat store)) st tx store → sql_buffer LQ sqlw = [] →
    location_ok (read_pair LS LT (concat store)).1 → location_ok (read_pair LS LT (concat store)).2 →
    next_writer_location (read_pair LS LT (concat store)).1 = state0 →
    next_writer_location (read_pair LS LT (concat store)).2 = transaction0 →
    consumer_reachable (consumer_start [] 0 st tx sqlw store)
| consumer_reach_step c c' : consumer_reachable c → consumer_step c c' → consumer_reachable c'.

(** The rows of an entry, at the locations it states. *)
Definition entry_rows (u : QueuedFinalizedUpload) (x : PendingPreparedQmdbUpload) : list Row :=
  (sql_encode LQ <$> sql (pp_block_rows x) ++ pp_account_rows x)
  ++ operation_rows LS (q_state_start u) (pp_state_delta x)
  ++ operation_rows LT (q_transaction_start u) (pp_transaction_ops x).
Definition entry_stored (store : list (list Row)) (u : QueuedFinalizedUpload) : Prop :=
  ∃ x, expand_queued_finalized_upload u = Ret (Ok x) ∧ entry_rows u x ⊆ concat store.

(** ** Chains of entries *)

Lemma contiguous_entry s t es s' t' i e s1 t1 :
  contiguous s t es s' t' → es !! i = Some e → contiguous s t (take i es) s1 t1 →
  q_state_start e = s1 ∧ q_transaction_start e = t1 ∧
  ∃ te, transaction_end e = Ret te ∧ contiguous s t (take (S i) es) (state_end e) te.
Proof.
  intros Hc. revert i. induction Hc as [s t|u us t2 s' t' Hu Hc IH]; intros i Hi Ht; [done|].
  destruct i as [|i]; cbn in Hi, Ht.
  - injection Hi as <-. inversion Ht; subst. split_and!; [done..|]. exists t2. split; [done|]. cbn. rewrite take_0.
    eapply contiguous_cons; [done|constructor].
  - inversion Ht as [|? ? x ? ? Hx Ht']; subst. rewrite Hu in Hx. injection Hx as <-.
    destruct (IH i Hi Ht') as (? & ? & te & Hte & Hct). split_and!; [done..|]. exists te. split; [done|].
    cbn [take]. by eapply contiguous_cons.
Qed.

Lemma contiguous_take s t es s' t' n :
  contiguous s t es s' t' → ∃ s1 t1, contiguous s t (take n es) s1 t1.
Proof. intros Hc. destruct (contiguous_drop n _ _ _ _ _ Hc) as (s1 & t1 & _ & Ht). by exists s1, t1. Qed.

Lemma transaction_end_Ret u e :
  transaction_end u = Ret e → transaction_upload_end (q_transaction_start u) (q_block u) = Ret (Ok e).
Proof.
  unfold transaction_end. intros (r & Hr & Ho%expect_Ret)%bind_Ret. destruct r; [|done]. by injection Ho as ->.
Qed.

(** The operations an entry expands to fill its ranges. *)
Lemma expand_lengths u x e :
  expand_queued_finalized_upload u = Ret (Ok x) → transaction_end u = Ret e → entry_well u →
  pp_state_delta x ≠ [] ∧ pp_transaction_ops x ≠ [] ∧
  zlen (pp_state_delta x) = state_end u - q_state_start u ∧
  zlen (pp_transaction_ops x) = e - q_transaction_start u.
Proof.
  intros Hx He%transaction_end_Ret [Hw Hd [_ Hs]].
  destruct (upload_expands (mkPendingQueued (height (header (inner (q_block u)))) u 0) x (Hw _) Hx) as (Hn & Hn' & _).
  split_and!; [done..| |].
  - apply bind_Ret in Hx as (rows & _ & Hx). apply bind_Ret in Hx as (r & _ & Hx). destruct r; [|done].
    injection Hx as <-. exact Hd.
  - apply transaction_upload_end_Ok in He as (He & _ & _); [|done].
    apply bind_Ret in Hx as (rows & _ & Hx). apply bind_Ret in Hx as (r & Hr & Hx). destruct r as [ops|]; [|done].
    injection Hx as <-. cbn [pp_transaction_ops]. unfold build_transaction_upload_from_digests in Hr.
    destruct (_ && _); [done|]. unfold transaction_ops_from_digests in Hr.
    apply bind_Ret in Hr as (start & [-> _]%expect_Ret%checked_sub_Some & Hr).
    destruct (Z.eqb_spec (q_transaction_start u) (range_end (transactions_range (header (inner (q_block u)))) -
      zlen ((if q_transaction_start u =? 0 then [Commit 0] else []) ++ (Append <$> transaction_digests rows)
             ++ [Commit (range_start (transactions_range (header (inner (q_block u)))))]))) as [Heq|]; [|done].
    injection Hr as <-. lia.
Qed.

(** ** The frontier of the logs *)

Lemma next_writer_ok o : location_ok o → next_writer_location o = default (-1) o + 1.
Proof.
  intros Ho. destruct o as [l|]; [|done]. specialize (Ho l eq_refl). cbn. unfold wrap64, u64_max in *.
  rewrite Z.mod_small by lia. done.
Qed.

Lemma latest_is {Op} {W : QmdbWriter Row Op} (L : QmdbWriterLaws W) w ups marked store :
  writer_inv L w ups marked true store → wv_latest (writer_view L w) = latest_location W <$> ups.
Proof.
  intros Hw. apply list_eq_same_length with (length ups); [by rewrite length_fmap|by apply (wi_length _ _ _ _ _ _ Hw)|].
  intros i x y Hi Hx Hy. apply list_lookup_fmap_Some in Hy as (u & -> & Hu).
  destruct (wi_upload _ _ _ _ _ _ Hw i u Hu) as [_ Hl]. congruence.
Qed.

(** Where a writer reserves next: after the last upload of the session. *)
Lemma next_location_log {Op} {W : QmdbWriter Row Op} (L : QmdbWriterLaws W) w ups marked store (a : option Z) :
  writer_inv L w ups marked true store →
  (ups = [] → wv_published (writer_view L w) = a) →
  (∀ u l, last ups = Some u → wv_published (writer_view L w) = Some l → l ≤ latest_location W u) →
  next_location (writer_view L w) = match last ups with Some u => latest_location W u | None => default (-1) a end + 1.
Proof.
  intros Hw He Hl. unfold next_location. rewrite (latest_is _ _ _ _ _ Hw), list_max_app.
  destruct (last ups) as [u|] eqn:Eu.
  - assert (list_max (latest_location W <$> ups) = Some (latest_location W u)) as Hm.
    { rewrite last_lookup in Eu. pose proof (wi_sorted _ _ _ _ _ _ Hw) as Hs. rewrite (latest_is _ _ _ _ _ Hw) in Hs.
      rewrite <- (firstn_all (latest_location W <$> ups)). rewrite length_fmap.
      destruct (length ups) as [|n] eqn:En; [by destruct ups|]. cbn [pred] in Eu. apply list_max_take; [done|].
      by rewrite list_lookup_fmap, Eu. }
    rewrite Hm. destruct (wv_published (writer_view L w)) as [l|] eqn:Ep; cbn; [|done].
    specialize (Hl u l eq_refl eq_refl). by rewrite Z.max_l.
  - apply last_None in Eu as ->. rewrite He by done. cbn. by destruct a.
Qed.

Variable LR : StoreLaws LS LT LQ.
Implicit Types (p : Pipeline) (sp : option Z * option Z).

(** Both writers of a running session reserve after its last upload. *)
Lemma session_frontier p sent pending flight sp :
  pipeline_inv LS LT LQ p sent pending flight → lockstep LS LT LQ sp p → pl_preparing p = true →
  match last (pl_log p) with
  | Some u =>
      next_location (writer_view LS (pl_state p)) = latest_location SW (pq_state u) + 1 ∧
      next_location (writer_view LT (pl_transactions p)) = latest_location TW (pq_transactions u) + 1
  | None =>
      next_location (writer_view LS (pl_state p)) = default (-1) sp.1 + 1 ∧
      next_location (writer_view LT (pl_transactions p)) = default (-1) sp.2 + 1
  end.
Proof.
  intros Hinv [[Hb Hb'] [k Hk] _ _] Hprep.
  pose proof (pi_state _ _ _ _ _ _ _ Hinv) as Hst. pose proof (pi_transactions _ _ _ _ _ _ _ Hinv) as Htx.
  rewrite Hprep in Hst, Htx.
  assert (pl_log p = [] → published_pair LS LT p = sp) as Hnil.
  { intros Hl. destruct k as [i|]; [|done]. destruct Hk as (u & Hu & _). by rewrite Hl in Hu. }
  assert (∀ u l, last (pl_log p) = Some u →
    (wv_published (writer_view LS (pl_state p)) = Some l → l ≤ latest_location SW (pq_state u)) ∧
    (wv_published (writer_view LT (pl_transactions p)) = Some l → l ≤ latest_location TW (pq_transactions u))) as Hle.
  { intros u l Hu. rewrite last_lookup in Hu.
    destruct (log_entry _ _ _ _ _ _ _ _ _ Hinv Hu) as (_ & _ & Hu1%list_elem_of_lookup_2 & Hu2%list_elem_of_lookup_2).
    destruct k as [i|].
    - destruct Hk as (x & Hx & [= -> ->]). apply lookup_lt_Some in Hx as Hlt.
      destruct (decide (i = pred (length (pl_log p)))) as [->|Hne].
      + rewrite Hu in Hx. injection Hx as <-. split; intros [= <-]; done.
      + destruct (log_sorted _ _ _ _ _ _ _ _ _ _ _ Hinv Hx Hu) as [? ?]; [lia|]. split; intros [= <-]; lia.
    - cbn in Hk. unfold published_pair in Hk. rewrite <- Hk in Hb, Hb'. cbn in Hb, Hb'.
      split; intros Hl; apply Z.lt_le_incl; [by apply (Hb l)|by apply (Hb' l)]. }
  assert (last (pq_state <$> pl_log p) = pq_state <$> last (pl_log p)) as E1 by apply fmap_last.
  assert (last (pq_transactions <$> pl_log p) = pq_transactions <$> last (pl_log p)) as E2 by apply fmap_last.
  rewrite (next_location_log LS _ _ _ _ sp.1 Hst), (next_location_log LT _ _ _ _ sp.2 Htx), E1, E2;
    [by destruct (last (pl_log p))| | | |].
  - intros Hl%fmap_nil_inv. by rewrite <- (Hnil Hl).
  - rewrite E2. intros u l (x & Hx & ->)%fmap_Some. by apply Hle.
  - intros Hl%fmap_nil_inv. by rewrite <- (Hnil Hl).
  - rewrite E1. intros u l (x & Hx & ->)%fmap_Some. by apply Hle.
Qed.

(** A completed upload is at or below the watermarks a reader of the store
    finds. *)
Lemma sent_below p sent pending flight sp i u k :
  pipeline_inv LS LT LQ p sent pending flight → lockstep LS LT LQ sp p → u ∈ sent → pl_log p !! i = Some u →
  at_upload (pl_log p) sp k (read_pair LS LT (concat (pl_store p))) → ∃ n, k = Some n ∧ (i ≤ n)%nat.
Proof.
  intros Hinv [[Hb _] _ _ _] Hu Hi Hk.
  destruct (log_entry _ _ _ _ _ _ _ _ _ Hinv Hi) as (_ & _ & Hl%list_elem_of_lookup_2 & _).
  destruct (pi_published _ _ _ _ _ _ _ Hinv u Hu) as [(l & El & Hle) _].
  assert (∃ m, (read_pair LS LT (concat (pl_store p))).1 = Some m ∧ l ≤ m) as (m & Hm & Hlm).
  { destruct (wi_published _ _ _ _ _ _ (pi_state _ _ _ _ _ _ _ Hinv) l El) as [Hall|(_ & f & <- & Hf)].
    - specialize (Hall _ Hl). lia.
    - apply list_max_ge. pose proof (watermark_rows_read LS f) as Hr.
      pose proof (list_max_spec (omap (row_watermark LS) (watermark_rows LS f))) as Hs. rewrite Hr in Hs.
      destruct Hs as [(r & Hin & Hrow)%list_elem_of_omap _]. apply list_elem_of_omap. exists r. split; [by apply Hf|done]. }
  destruct k as [n|].
  - destruct Hk as (x & Hx & Hr). rewrite Hr in Hm. injection Hm as <-. exists n. split; [done|].
    destruct (decide (i ≤ n)%nat); [done|].
    destruct (log_sorted _ _ _ _ _ _ _ _ _ _ _ Hinv Hx Hi); lia.
  - cbn in Hk. rewrite Hk in Hm. specialize (Hb _ _ Hm Hl). lia.
Qed.

(** ** The invariant of a session *)

(** What the preparer makes of an entry. *)
Definition prepared_from (e : QueuedFinalizedUpload) (u : PreparedQmdbUpload (SW := SW) (TW := TW)) : Prop :=
  latest_location SW (pq_state u) + 1 = state_end e ∧
  transaction_end e = Ret (latest_location TW (pq_transactions u) + 1) ∧
  ∃ x, expand_queued_finalized_upload e = Ret (Ok x) ∧ rows_of_upload LS LT LQ u = entry_rows e x.

Definition pending_from (n : nat) (es : list QueuedFinalizedUpload) : list PendingQueuedFinalizedUpload :=
  imap (λ i e, mkPendingQueued (height (header (inner (q_block e)))) e (n + i)) es.

(** The entries [a] to [b] of the queue. *)
Definition segment (c : Consumer) (a b : nat) : list QueuedFinalizedUpload := take (b - a) (drop a (cs_entries c)).

(** A session that started on the watermarks [sp], which end the first [base]
    entries: those are stored, and the uploads of the session are the entries
    that follow, in order. *)
Record session (c : Consumer) (base : nat) sp : Prop := {
  si_chain : ∃ s t, contiguous state0 transaction0 (cs_entries c) s t;
  si_well : Forall entry_well (cs_entries c);
  si_locations : location_ok sp.1 ∧ location_ok sp.2;
  si_base : (base ≤ length (cs_entries c))%nat ∧
    contiguous state0 transaction0 (take base (cs_entries c)) (next_writer_location sp.1) (next_writer_location sp.2);
  si_floor i : (i < cs_floor c)%nat → (i < base)%nat ∨ i ∈ pl_sent (cs_pipe c);
  si_reach : ∃ st tx sqlw store, recovered LS LT sp st tx store ∧ sql_buffer LQ sqlw = [] ∧
    reachable max_in_flight_commits st tx sqlw store (cs_pipe c);
  si_open : pl_open (cs_pipe c) = true;
  si_read : (cs_read c ≤ length (cs_entries c))%nat;
  si_publisher :
    contiguous state0 transaction0 (take (base `max` cs_read c) (cs_entries c))
      (state_next_location (cs_publisher c)) (transaction_next_location (cs_publisher c));
  si_log i u : pl_log (cs_pipe c) !! i = Some u →
    pq_completion u = (base + i)%nat ∧ ∃ e, cs_entries c !! (base + i)%nat = Some e ∧ prepared_from e u;
  si_queue : pl_preparing (cs_pipe c) = true →
    let n := (base + length (pl_log (cs_pipe c)))%nat in
    (n ≤ base `max` cs_read c)%nat ∧
    pl_queue (cs_pipe c) = pending_from n (segment c n (base `max` cs_read c));
  si_active a : a ∈ cs_active c →
    match a.2 with Completed => (a.1 < base)%nat | Queued => (base ≤ a.1 < cs_read c)%nat end;
  si_cover i : (i < cs_read c)%nat → (i < cs_floor c)%nat ∨ i ∈ cs_acked c ∨ i ∈ (cs_active c).*1;
  si_acked i : i ∈ cs_acked c → (i < base)%nat ∨ i ∈ pl_sent (cs_pipe c);
  si_stored i e : (i < base)%nat → cs_entries c !! i = Some e → entry_stored (pl_store (cs_pipe c)) e }.

(** *** Steps *)

Lemma take_app_le' {A} (l l' : list A) n : (n ≤ length l)%nat → take n (l ++ l') = take n l.
Proof. intros Hn. rewrite take_app. replace (n - length l)%nat with O by lia. by rewrite take_0, app_nil_r. Qed.

Lemma segment_append c u a b : (b ≤ length (cs_entries c))%nat → segment (append_entry c u) a b = segment c a b.
Proof.
  intros Hb. unfold segment. cbn. destruct (decide (a ≤ length (cs_entries c))%nat).
  - rewrite drop_app_le by done. apply take_app_le'. rewrite length_drop. lia.
  - replace (b - a)%nat with O by lia. done.
Qed.

Lemma append_session c base sp u s t :
  session c base sp → entry_well u → contiguous state0 transaction0 (cs_entries c ++ [u]) s t →
  session (append_entry c u) base sp.
Proof.
  intros [Hch Hw Hloc [Hb Hbc] Hfl Hre Ho Hr Hpub Hlog Hq Hact Hcov Hack Hst] Hu Hc.
  assert (base `max` cs_read c ≤ length (cs_entries c))%nat as Hmax by lia.
  constructor; cbn [append_entry cs_entries cs_floor cs_read cs_active cs_acked cs_publisher cs_pipe]; try done.
  - by exists s, t.
  - apply Forall_app. split; [done|by constructor].
  - rewrite length_app. split; [lia|]. by rewrite take_app_le'.
  - rewrite length_app. lia.
  - by rewrite take_app_le'.
  - intros i x Hx. destruct (Hlog i x Hx) as (Hc' & e & He & Hp). split; [done|]. exists e. split; [|done].
    by apply lookup_app_l_Some.
  - intros Hp. destruct (Hq Hp) as [Hn ->]. split; [done|]. by rewrite segment_append.
  - intros i e Hi He. rewrite lookup_app_l in He by lia. by eapply Hst.
Qed.

Lemma finish_session c base sp before a after :
  session c base sp → cs_active c = before ++ a :: after → upload_done c a →
  session (finish_upload c before a.1 after) base sp.
Proof.
  intros [Hch Hw Hloc Hb Hfl Hre Ho Hr Hpub Hlog Hq Hact Hcov Hack Hst] Hc Hd.
  constructor; cbn [finish_upload cs_entries cs_floor cs_read cs_active cs_acked cs_publisher cs_pipe]; try done.
  - intros x Hx. apply Hact. rewrite Hc. apply elem_of_app. apply elem_of_app in Hx as [?|?]; [by left|right; by right].
  - intros i Hi. destruct (Hcov i Hi) as [?|[?|Hin]]; [by left|right; left; set_solver|right].
    rewrite Hc, fmap_app, fmap_cons, elem_of_app, elem_of_cons in Hin. rewrite fmap_app, elem_of_app. set_solver.
  - intros i [Hi|Hi%elem_of_singleton]%elem_of_union; [by apply Hack|]. subst i.
    assert (a ∈ cs_active c) as Ha by (rewrite Hc; apply elem_of_app; right; left).
    unfold upload_done in Hd. specialize (Hact a Ha). destruct a as [pos []]; cbn in *; [by left|by right].
Qed.

Lemma sync_session c base sp floor :
  session c base sp → (cs_floor c ≤ floor)%nat → (∀ i, (cs_floor c ≤ i < floor)%nat → i ∈ cs_acked c) →
  session (sync_floor c floor) base sp.
Proof.
  intros [Hch Hw Hloc Hb Hfl Hre Ho Hr Hpub Hlog Hq Hact Hcov Hack Hst] Hle Hall.
  constructor; cbn [sync_floor cs_entries cs_floor cs_read cs_active cs_acked cs_publisher cs_pipe]; try done.
  - intros i Hi. destruct (decide (i < cs_floor c)%nat); [by apply Hfl|]. apply Hack, Hall. lia.
  - intros i Hi. destruct (Hcov i Hi) as [?|?]; [left; lia|by right].
Qed.

(** The publisher's answer to the next entry: it is covered, or it fits. *)
Lemma start_answer c base sp u open :
  session c base sp → cs_entries c !! cs_read c = Some u →
  if decide (cs_read c < base)%nat
  then enqueue_queued_finalized open (cs_publisher c) u = Ret (Ok Completed, cs_publisher c)
  else ∃ te, transaction_end u = Ret te ∧
    contiguous state0 transaction0 (take (S (cs_read c)) (cs_entries c)) (state_end u) te ∧
    enqueue_queued_finalized open (cs_publisher c) u
    = Ret (if open then (Ok Queued, mkPublisher (state_end u) te (prepare_queue (cs_publisher c) ++ [u]))
           else (Err (CommitterStopped (height (header (inner (q_block u))))), cs_publisher c)).
Proof.
  intros [(s & t & Hch) Hw Hloc Hb Hfl Hre Ho Hr Hpub Hlog Hq Hact Hcov Hack Hst] Hu.
  assert (Forall upload_forward (cs_entries c)) as Hf.
  { eapply Forall_impl; [exact Hw|]. intros e [_ Hd _]. unfold upload_forward. pose proof (zlen_nonneg (q_state_delta e)). lia. }
  unfold enqueue_queued_finalized. destruct (decide _) as [Hlt|Hge].
  - rewrite Nat.max_l in Hpub by lia. apply (contiguous_bounds _ _ _ _ _) in Hpub as (_ & _ & Hin); [|by apply Forall_take].
    destruct (Hin u) as (Hs & te & -> & Hte). { apply list_elem_of_lookup. exists (cs_read c). by rewrite lookup_take_lt. }
    cbn [mbind run_bind]. by rewrite (proj2 (Z.leb_le _ _) Hs), (proj2 (Z.leb_le _ _) Hte).
  - rewrite Nat.max_r in Hpub by lia. destruct (contiguous_entry _ _ _ _ _ _ _ _ _ Hch Hu Hpub) as (E1 & E2 & te & Hte & Hct).
    exists te. split; [done|]. split; [done|]. rewrite Hte. cbn [mbind run_bind].
    apply transaction_end_gt in Hte. rewrite (proj2 (Z.leb_gt te _)) by lia. rewrite andb_false_r, E1, E2, !Z.eqb_refl.
    by destruct open.
Qed.

Lemma pending_from_app n es es' :
  pending_from n (es ++ es') = pending_from n es ++ pending_from (n + length es) es'.
Proof.
  unfold pending_from. rewrite imap_app. f_equal. apply imap_ext. intros i e _. cbn. by rewrite Nat.add_assoc.
Qed.

Lemma segment_snoc c a b u :
  (a ≤ b)%nat → cs_entries c !! b = Some u → segment c a (S b) = segment c a b ++ [u].
Proof.
  intros Hab Hu. unfold segment. replace (S b - a)%nat with (S (b - a)) by lia.
  apply take_S_r. rewrite lookup_drop. by replace (a + (b - a))%nat with b by lia.
Qed.

Lemma segment_length c a b : (b ≤ length (cs_entries c))%nat → length (segment c a b) = (b - a)%nat.
Proof. intros Hb. unfold segment. rewrite length_take, length_drop. lia. Qed.

Lemma cover_snoc (floor read : nat) (acked : gset nat) (active : list (nat * UploadCompletion)) a :
  (∀ i, (i < read)%nat → (i < floor)%nat ∨ i ∈ acked ∨ i ∈ active.*1) →
  ∀ i, (i < S read)%nat → (i < floor)%nat ∨ i ∈ acked ∨ i ∈ (active ++ [(read, a)]).*1.
Proof.
  intros Hc i Hi. rewrite fmap_app, elem_of_app. destruct (decide (i = read)) as [->|]; [right; right; right; by left|].
  destruct (Hc i ltac:(lia)) as [?|[?|?]]; auto.
Qed.

(** The consumer starts an entry. *)
Lemma start_session c base sp c' :
  session c base sp → start_queued_upload c = Ret (Some c') → session c' base sp.
Proof.
  intros Hs Hc. unfold start_queued_upload in Hc. destruct (cs_entries c !! cs_read c) as [u|] eqn:Hu; [|done].
  pose proof (start_answer c base sp u (pl_preparing (cs_pipe c)) Hs Hu) as Ha.
  destruct Hs as [Hch Hw Hloc [Hb Hbc] Hfl Hre Ho Hr Hpub Hlog Hq Hact Hcov Hack Hst].
  apply lookup_lt_Some in Hu as Hlt. destruct (decide (cs_read c < base)%nat) as [Hold|Hnew].
  - rewrite Ha in Hc. cbn [mbind run_bind] in Hc. injection Hc as <-.
    assert (base `max` S (cs_read c) = base `max` cs_read c)%nat as Em by lia.
    constructor; cbn [cs_entries cs_floor cs_read cs_active cs_acked cs_publisher cs_pipe]; rewrite ?Em; try done.
    + intros a [Hin| ->%list_elem_of_singleton]%elem_of_app; [|done]. specialize (Hact a Hin). destruct a.2; lia.
    + by apply cover_snoc.
  - destruct Ha as (te & Hte & Hct & Ha). rewrite Ha in Hc.
    destruct (pl_preparing (cs_pipe c)) eqn:Eprep; cbn [mbind run_bind] in Hc; [|done]. injection Hc as <-.
    destruct (Hq eq_refl) as [Hn Hqueue]. rewrite (Nat.max_r base (cs_read c)) in Hn, Hqueue by lia.
    assert (base `max` S (cs_read c) = S (cs_read c))%nat as Em by lia.
    constructor; cbn [cs_entries cs_floor cs_read cs_active cs_acked cs_publisher cs_pipe with_queue pl_sent pl_log
      pl_open pl_store pl_preparing pl_queue state_next_location transaction_next_location]; rewrite ?Em; try done.
    + destruct Hre as (st & tx & sqlw & store & Hrec & Hsq & Hre). exists st, tx, sqlw, store. split; [done|]. split; [done|].
      eapply reach_step; [exact Hre| |].
      * right. right. rewrite Ho.
        pose proof (preparer_offer (cs_pipe c) (mkPendingQueued (height (header (inner (q_block u)))) u (cs_read c)) Ho) as Hof.
        rewrite Eprep in Hof. exact Hof.
      * cbn [with_queue pl_queue]. apply Forall_app. split.
        -- destruct (reachable_inv LS LT LQ _ _ _ _ _ _ (recovered_start LS LT LQ sp _ _ _ _ Hrec Hsq) Hre) as [? _]. done.
        -- constructor; [|constructor]. rewrite Forall_lookup in Hw. by apply (ew_upload u (Hw _ _ Hu)).
    + intros _. split; [lia|].
      match goal with |- context [segment ?x ?a ?b] => change (segment x a b) with (segment c a b) end.
      rewrite (segment_snoc c _ _ u) by done. rewrite pending_from_app, Hqueue.
      rewrite segment_length by lia. f_equal. unfold pending_from. cbn. do 2 f_equal. lia.
    + intros a [Hin| ->%list_elem_of_singleton]%elem_of_app; [|cbn; lia]. specialize (Hact a Hin). destruct a.2; lia.
    + by apply cover_snoc.
Qed.

(** The writers reserve where the next entry of the session starts. *)
Lemma frontier_contiguous c base sp sent pending flight :
  session c base sp → pipeline_inv LS LT LQ (cs_pipe c) sent pending flight → lockstep LS LT LQ sp (cs_pipe c) →
  pl_preparing (cs_pipe c) = true →
  contiguous state0 transaction0 (take (base + length (pl_log (cs_pipe c))) (cs_entries c))
    (next_location (writer_view LS (pl_state (cs_pipe c))))
    (next_location (writer_view LT (pl_transactions (cs_pipe c)))).
Proof.
  intros [(s & t & Hch) _ [Hloc Hloc'] [_ Hbc] _ _ _ _ _ Hlog _ _ _ _ _] Hinv Hlk Hprep.
  pose proof (session_frontier _ _ _ _ _ Hinv Hlk Hprep) as Hf. destruct (last (pl_log (cs_pipe c))) as [u|] eqn:El.
  - destruct Hf as [-> ->]. rewrite last_lookup in El. apply lookup_lt_Some in El as Hlt.
    destruct (Hlog _ _ El) as (_ & e & He & Hs & Ht & _).
    destruct (contiguous_take _ _ _ _ _ (base + pred (length (pl_log (cs_pipe c)))) Hch) as (s1 & t1 & Hc1).
    destruct (contiguous_entry _ _ _ _ _ _ _ _ _ Hch He Hc1) as (_ & _ & te & Hte & Hc2).
    rewrite Ht in Hte. injection Hte as <-. rewrite Hs.
    by replace (base + length (pl_log (cs_pipe c)))%nat with (S (base + pred (length (pl_log (cs_pipe c))))) by lia.
  - apply last_None in El as ->. destruct Hf as [-> ->]. cbn [length].
    rewrite Nat.add_0_r, <- (next_writer_ok sp.1), <- (next_writer_ok sp.2) by done. done.
Qed.

(** The first entry that waits for the preparer. *)
Lemma queue_head c base sp e rest :
  session c base sp → pl_preparing (cs_pipe c) = true → pl_queue (cs_pipe c) = e :: rest →
  let n := (base + length (pl_log (cs_pipe c)))%nat in
  ∃ en, cs_entries c !! n = Some en ∧ e = mkPendingQueued (height (header (inner (q_block en)))) en n ∧
    (S n ≤ base `max` cs_read c)%nat ∧ rest = pending_from (S n) (segment c (S n) (base `max` cs_read c)).
Proof.
  intros Hs Hprep Hq n. destruct (si_queue _ _ _ Hs Hprep) as [Hn Hqueue]. fold n in Hn, Hqueue.
  rewrite Hq in Hqueue. unfold segment in Hqueue. destruct (drop n (cs_entries c)) as [|en es] eqn:Ed.
  { by rewrite take_nil in Hqueue. }
  destruct (base `max` cs_read c - n)%nat as [|d] eqn:Em; [done|]. cbn [take] in Hqueue. unfold pending_from in Hqueue.
  rewrite imap_cons in Hqueue. injection Hqueue as -> ->. exists en.
  assert (cs_entries c !! n = Some en) as He by (rewrite <- (Nat.add_0_r n), <- lookup_drop, Ed; done).
  split_and!; [done|by rewrite Nat.add_0_r|lia|]. unfold pending_from, segment.
  assert (drop (S n) (cs_entries c) = es) as -> by (rewrite <- Nat.add_1_r, <- drop_drop, Ed; done).
  replace (base `max` cs_read c - S n)%nat with d by lia. apply imap_ext. intros i x _. cbn.
  by rewrite Nat.add_succ_r.
Qed.

(** What the preparer makes of it. *)
Lemma preparer_round_log c base sp sent pending flight e rest :
  session c base sp → pipeline_inv LS LT LQ (cs_pipe c) sent pending flight → lockstep LS LT LQ sp (cs_pipe c) →
  pl_preparing (cs_pipe c) = true → pl_queue (cs_pipe c) = e :: rest →
  let p' := (preparer_round (cs_pipe c) e rest).2 in
  let n := (base + length (pl_log (cs_pipe c)))%nat in
  pl_sent p' = pl_sent (cs_pipe c) ∧ pl_store p' = pl_store (cs_pipe c) ∧
  ((pl_log p' = pl_log (cs_pipe c) ∧ pl_preparing p' = false) ∨
   ∃ u en, pl_log p' = pl_log (cs_pipe c) ++ [u] ∧ cs_entries c !! n = Some en ∧ pq_completion u = n ∧
     prepared_from en u).
Proof.
  intros Hs Hinv Hlk Hprep Hq p' n. destruct (queue_head _ _ _ _ _ Hs Hprep Hq) as (en & Hen & He & _ & _). fold n in Hen, He.
  pose proof (frontier_contiguous _ _ _ _ _ _ Hs Hinv Hlk Hprep) as Hfr. fold n in Hfr.
  destruct Hs as [(s & t & Hch) Hw _ _ _ _ _ _ _ _ _ _ _ _ _].
  destruct (contiguous_entry _ _ _ _ _ _ _ _ _ Hch Hen Hfr) as (E1 & E2 & te & Hte & _).
  rewrite Forall_lookup in Hw. specialize (Hw n en Hen).
  subst p'. unfold preparer_round, prepare_or_panic, prepare_qmdb_upload. rewrite He. cbn [pu_upload pu_height pu_completion].
  destruct (expand_queued_finalized_upload en) as [[x|err]|err] eqn:Ex; [|by split_and!; [..|left]..].
  destruct (expand_lengths _ _ _ Ex Hte Hw) as (Hne & Hne' & Hl & Hl'). unfold prepare_prepared_qmdb_upload.
  destruct (prepare_upload SW _ (pp_state_delta x)) as [[su|e1] sw'] eqn:Es; cbn [mbind result_bind];
    destruct (prepare_upload TW _ (pp_transaction_ops x)) as [[tu|e2] tw'] eqn:Et; cbn [mbind result_bind];
    try by split_and!; [..|left].
  split_and!; [done..|right]. eexists _, en. split; [reflexivity|]. split; [done|]. split; [done|].
  destruct (prepare_ok LS _ _ _ _ Es Hne) as (_ & Hls & Hrs & _), (prepare_ok LT _ _ _ _ Et Hne') as (_ & Hlt & Hrt & _).
  unfold prepared_from, rows_of_upload, entry_rows. cbn [pq_state pq_transactions pq_sql_rows].
  split; [rewrite Hls, Hl, E1; lia|]. split; [rewrite Hte, Hlt, Hl', E2; f_equal; lia|].
  exists x. split; [done|]. by rewrite Hrs, Hrt, E1, E2.
Qed.

(** The invariants of the pipeline hold in a session. *)
Lemma session_pipe c base sp :
  session c base sp →
  ∃ sent pending flight, pipeline_inv LS LT LQ (cs_pipe c) sent pending flight ∧ lockstep LS LT LQ sp (cs_pipe c) ∧
    Forall upload_well (pl_queue (cs_pipe c)).
Proof.
  intros Hs. destruct (si_reach _ _ _ Hs) as (st & tx & sqlw & store & Hrec & Hsq & Hre).
  destruct (reachable_inv LS LT LQ _ _ _ _ _ _ (recovered_start LS LT LQ sp _ _ _ _ Hrec Hsq) Hre)
    as (Hw & _ & sent & pending & flight & Hinv).
  exists sent, pending, flight. split; [done|]. split; [|done]. by eapply reachable_lockstep.
Qed.

(** A step of the tasks that handles no entry. *)
Lemma frame_session c base sp p' :
  session c base sp → same_session (cs_pipe c) p' → pipeline_step max_in_flight_commits (cs_pipe c) p' →
  session (with_pipe c p') base sp.
Proof.
  intros Hs [Elog Equeue Eprep Eopen Hsent Hstore] Hstep. destruct (session_pipe _ _ _ Hs) as (_ & _ & _ & _ & _ & Hwq).
  destruct Hs as [Hch Hw Hloc Hb Hfl Hre Ho Hr Hpub Hlog Hq Hact Hcov Hack Hst].
  constructor; cbn [with_pipe cs_entries cs_floor cs_read cs_active cs_acked cs_publisher cs_pipe];
    rewrite ?Elog, ?Equeue, ?Eprep, ?Eopen; try done.
  - intros i Hi. destruct (Hfl i Hi); [by left|right; by apply Hsent].
  - destruct Hre as (st & tx & sqlw & store & Hrec & Hsq & Hre). exists st, tx, sqlw, store. split_and!; [done..|].
    eapply reach_step; [exact Hre|exact Hstep|by rewrite Equeue].
  - intros i Hi. destruct (Hack i Hi); [by left|right; by apply Hsent].
  - intros i e Hi He. destruct (Hst i e Hi He) as (x & Hx & Hsub). exists x. split; [done|]. by etrans.
Qed.

Lemma preparer_session c base sp up rest :
  session c base sp → pl_preparing (cs_pipe c) = true → pl_queue (cs_pipe c) = up :: rest →
  session (with_pipe c (preparer_round (cs_pipe c) up rest).2) base sp.
Proof.
  intros Hs Hprep Hqu. destruct (session_pipe _ _ _ Hs) as (sent & pending & flight & Hinv & Hlk & Hwq).
  destruct (preparer_round_log _ _ _ _ _ _ _ _ Hs Hinv Hlk Hprep Hqu) as (Es & Est & Hlog').
  destruct (queue_head _ _ _ _ _ Hs Hprep Hqu) as (en & Hen & _ & Hn & Hrest).
  destruct (preparer_round_fields (cs_pipe c) up rest) as (Eq & Eo & _).
  assert (pipeline_step max_in_flight_commits (cs_pipe c) (preparer_round (cs_pipe c) up rest).2) as Hstep
    by (right; right; by apply preparer_next).
  destruct Hs as [Hch Hw Hloc Hb Hfl Hre Ho Hr Hpub Hlog Hq Hact Hcov Hack Hst].
  constructor; cbn [with_pipe cs_entries cs_floor cs_read cs_active cs_acked cs_publisher cs_pipe];
    rewrite ?Es, ?Est, ?Eo, ?Eq; try done.
  - destruct Hre as (st & tx & sqlw & store & Hrec & Hsq & Hre). exists st, tx, sqlw, store. split_and!; [done..|].
    eapply reach_step; [exact Hre|exact Hstep|]. rewrite Eq, Hqu in *. by inversion Hwq.
  - intros i u Hu. destruct Hlog' as [[El _]|(u' & en' & El & He' & Hc & Hp)]; rewrite El in Hu; [by apply Hlog|].
    apply lookup_snoc_Some in Hu as [[_ Hu]|[-> <-]]; [by apply Hlog|]. split; [done|]. by exists en'.
  - intros Hp. destruct Hlog' as [[_ Hf]|(u' & en' & -> & _)]; [congruence|]. rewrite length_app. cbn [length].
    rewrite Nat.add_1_r, Nat.add_succ_r. split; [lia|]. exact Hrest.
Qed.

Lemma pipe_session c base sp p' : session c base sp → pipe_step (cs_pipe c) p' → session (with_pipe c p') base sp.
Proof.
  intros Hs [Hc|[Ht|(up & rest & Hp & Hq & ->)]].
  - apply frame_session; [done|by eapply committer_same|by left].
  - apply frame_session; [done|by apply task_same|right; by left].
  - by apply preparer_session.
Qed.

(** Where the store stands in the queue: at or after everything completed. *)
Lemma store_boundary c base sp :
  session c base sp →
  let sp' := read_pair LS LT (concat (pl_store (cs_pipe c))) in
  ∃ base', (base ≤ base' ≤ length (cs_entries c))%nat ∧ location_ok sp'.1 ∧ location_ok sp'.2 ∧
    contiguous state0 transaction0 (take base' (cs_entries c)) (next_writer_location sp'.1) (next_writer_location sp'.2) ∧
    (∀ i, i ∈ pl_sent (cs_pipe c) → (i < base')%nat) ∧
    (∀ i e, (i < base')%nat → cs_entries c !! i = Some e → entry_stored (pl_store (cs_pipe c)) e).
Proof.
  intros Hs sp'. destruct (session_pipe _ _ _ Hs) as (sent & pending & flight & Hinv & Hlk & _).
  pose proof Hlk as [_ _ _ (k & Hk & Hup)].
  destruct Hs as [(s & t & Hch) Hw [Hl1 Hl2] [Hb Hbc] Hfl Hre Ho Hr Hpub Hlog Hq Hact Hcov Hack Hst].
  assert (∀ i, i ∈ pl_sent (cs_pipe c) → ∃ n, k = Some n ∧ (i < S (base + n))%nat) as Hsent.
  { intros i Hi. rewrite (pi_sent _ _ _ _ _ _ _ Hinv) in Hi. apply list_elem_of_fmap in Hi as (u & -> & Hu).
    destruct (persisted_sets _ _ _ _ _ _ _ Hinv) as (_ & _ & Hsub).
    assert (u ∈ pl_log (cs_pipe c)) as [j Hj]%list_elem_of_lookup by (apply Hsub, elem_of_app; by left).
    destruct (sent_below _ _ _ _ _ _ _ _ Hinv Hlk Hu Hj Hk) as (n & -> & Hle).
    destruct (Hlog j u Hj) as [-> _]. exists n. split; [done|lia]. }
  destruct k as [n|].
  - destruct Hk as (u & Hu & Hsp). fold sp' in Hsp. destruct (Hlog n u Hu) as (_ & e & He & Hs1 & Ht1 & _).
    destruct (contiguous_take _ _ _ _ _ (base + n) Hch) as (s1 & t1 & Hc1).
    destruct (contiguous_entry _ _ _ _ _ _ _ _ _ Hch He Hc1) as (_ & E2 & te & Hte & Hc2).
    rewrite Ht1 in Hte. injection Hte as <-. apply lookup_lt_Some in He as Hlt.
    pose proof Ht1 as Hgt%transaction_end_gt. rewrite Forall_lookup in Hw. destruct (Hw _ _ He) as [_ _ [Hq1 Hq2]].
    apply transaction_end_Ret, transaction_upload_end_Ok in Ht1 as (_ & _ & Hmax); [|done].
    pose proof (range_bounds (state_range (header (inner (q_block e))))) as ([? _] & [_ Hmax'] & Hpos).
    fold (state_end e) in Hmax', Hpos.
    assert (location_ok sp'.1 ∧ location_ok sp'.2) as [Hok Hok']
      by (rewrite Hsp; split; intros l [= <-]; lia).
    exists (S (base + n)). split; [lia|]. split; [done|]. split; [done|]. split; [|split].
    + rewrite (next_writer_ok _ Hok), (next_writer_ok _ Hok'), Hsp. cbn [ends_of fst snd default from_option id]. by rewrite Hs1.
    + intros i Hi. destruct (Hsent i Hi) as (n' & [= <-] & ?). done.
    + intros i x Hi Hx. destruct (decide (i < base)%nat); [by eapply Hst|].
      destruct (lookup_lt_is_Some_2 (pl_log (cs_pipe c)) (i - base)) as [y Hy]; [apply lookup_lt_Some in Hu; lia|].
      destruct (Hlog _ _ Hy) as (_ & x' & Hx' & _ & _ & z & Hz & Hrows).
      replace (base + (i - base))%nat with i in Hx' by lia. rewrite Hx in Hx'. injection Hx' as <-.
      exists z. split; [done|]. rewrite <- Hrows. apply (Hup n (i - base)%nat); [done|lia|done].
  - cbn in Hk. fold sp' in Hk. exists base. rewrite Hk. split_and!; try done; [].
    intros i Hi. by destruct (Hsent i Hi) as (n & ? & _).
Qed.

Lemma crash_session c base sp st tx sqlw :
  let sp' := read_pair LS LT (concat (pl_store (cs_pipe c))) in
  session c base sp → recovered LS LT sp' st tx (pl_store (cs_pipe c)) → sql_buffer LQ sqlw = [] →
  ∃ base', session (consumer_start (cs_entries c) (cs_floor c) st tx sqlw (pl_store (cs_pipe c))) base' sp'.
Proof.
  intros sp' Hs Hrec Hsq. destruct (store_boundary _ _ _ Hs) as (base' & Hle & Hl1 & Hl2 & Hc & Hsent & Hst).
  destruct Hs as [Hch Hw Hloc Hb Hfl Hre Ho Hr Hpub Hlog Hq Hact Hcov Hack _]. exists base'.
  assert (cs_floor c ≤ base')%nat as Hf.
  { destruct (decide (cs_floor c ≤ base')%nat); [done|]. destruct (Hfl base') as [?|?%Hsent]; lia. }
  destruct Hrec as [Hv Hv' Hrd]. fold sp' in Hv, Hv'.
  constructor; cbn; rewrite ?(published_ok LS), ?(published_ok LT), ?Hv, ?Hv', ?(Nat.max_l _ _ Hf); try done; try lia.
  - split; [lia|done].
  - exists st, tx, sqlw, (pl_store (cs_pipe c)). split_and!; [by constructor|done|constructor].
  - intros _. rewrite Nat.add_0_r. split; [done|]. unfold segment. by rewrite Nat.sub_diag.
  - by intros a ?%not_elem_of_nil.
Qed.

Lemma start_session_ok st tx sqlw store :
  let sp := read_pair LS LT (concat store) in
  recovered LS LT sp st tx store → sql_buffer LQ sqlw = [] → location_ok sp.1 → location_ok sp.2 →
  next_writer_location sp.1 = state0 → next_writer_location sp.2 = transaction0 →
  session (consumer_start [] 0 st tx sqlw store) 0 sp.
Proof.
  intros sp Hrec Hsq H1' H2' E1 E2. pose proof Hrec as [Hv Hv' Hrd]. fold sp in Hv, Hv'.
  clearbody sp. constructor; cbn; rewrite ?(published_ok LS), ?(published_ok LT), ?Hv, ?Hv'; cbn [wv_published]; try done; try lia.
  - exists state0, transaction0. constructor.
  - split; [done|]. rewrite E1, E2. constructor.
  - exists st, tx, sqlw, store. split_and!; [done..|constructor].
  - rewrite E1, E2. constructor.
  - by intros a ?%not_elem_of_nil.
Qed.

Lemma work_session c c' base sp : session c base sp → consumer_work c c' → session c' base sp.
Proof.
  intros Hs [c1 _ Hc|p Hp|before a after Ha Hd]; [by eapply start_session|by apply pipe_session|by apply finish_session].
Qed.

Lemma consumer_step_session c c' base sp :
  session c base sp → consumer_step c c' → ∃ base' sp', session c' base' sp'.
Proof.
  intros Hs [c1 Hw|u s t Hu Hc|floor Hle Hall|st tx sqlw Hrec Hsq].
  - exists base, sp. by eapply work_session.
  - exists base, sp. by eapply append_session.
  - exists base, sp. by apply sync_session.
  - destruct (crash_session c base sp st tx sqlw Hs Hrec Hsq) as [base' Hs']. by eexists _, _.
Qed.

Lemma consumer_session c : consumer_reachable c → ∃ base sp, session c base sp.
Proof.
  induction 1 as [st tx sqlw store Hrec Hsq Hl1 Hl2 E1 E2|c c' _ (base & sp & Hs) Hstep].
  - eexists 0%nat, _. by apply start_session_ok.
  - by eapply consumer_step_session.
Qed.

Lemma acked_below c base sp resume i :
  session c base sp → (∀ i, i ∈ pl_sent (cs_pipe c) → (i < resume)%nat) → (base ≤ resume)%nat →
  (i < cs_floor c)%nat ∨ i ∈ cs_acked c → (i < resume)%nat.
Proof.
  intros Hs Hsent Hle [Hi|Hi]; [apply (si_floor _ _ _ Hs) in Hi|apply (si_acked _ _ _ Hs) in Hi];
    (destruct Hi as [?|?%Hsent]; [lia|done]).
Qed.

(** ** Draining the queue *)

(** With no commit in flight no completion is held back. *)
Lemma reachable_pending st tx sqlw store p :
  start_ok LS LT LQ st tx sqlw → reachable max_in_flight_commits st tx sqlw store p →
  pl_commits p = [] → pl_pending p = [].
Proof.
  intros Hs. induction 1 as [|p p' Hr IH Hstep _]; [done|]. intros Hc.
  destruct (reachable_inv LS LT LQ _ _ _ _ _ _ Hs Hr) as (_ & _ & sent & pending & flight & Hinv).
  destruct Hstep as [Hcom|[Ht|Hp]].
  - inversion Hcom as [u rest _ _ _ Hp|done rest _ _ Hk Hp|_ _ _ Hnil Hp].
    + unfold stage_and_spawn_commit in Hp. apply bind_Ret in Hp as ([b w] & _ & [= <-]).
      cbn in Hc. by apply app_eq_nil in Hc as [_ ?].
    + destruct (commits_permuted _ _ _ _ _ _ _ _ Hinv Hk) as (f1 & Hinv1 & _).
      destruct (marks_inv _ _ _ _ _ _ _ _ _ Hinv1) as (q2 & f2 & Hinv2 & Hlen).
      destruct (flush_and_complete_inv _ _ _ _ _ _ _ Hinv2) as (p1 & s3 & q3 & Hp1 & Hinv3 & Hf & Hdrained).
      change (join_commits p done rest = Ret p') in Hp. unfold join_commits in Hp. fold (with_commits (fold_left mark_committed_batch done p) rest) in Hp.
      rewrite Hp1 in Hp. injection Hp as <-. destruct Hf as (_ & _ & _ & _ & Ec & _). rewrite Hc in Ec. cbn in Ec.
      rewrite (pi_pending _ _ _ _ _ _ _ Hinv3), Hdrained; [done|]. rewrite <- Ec in Hlen. by apply length_zero_iff_nil.
    + destruct (finish_inv _ _ _ _ _ _ _ Hinv Hnil) as (p1 & s1 & Hp1 & Hinv1 & _). rewrite Hp1 in Hp. injection Hp as <-.
      by rewrite (pi_pending _ _ _ _ _ _ _ Hinv1).
  - inversion Ht as [before b after _ Hp]. unfold finish_commit in Hp. apply bind_Ret in Hp as ([x y] & _ & [= <-]).
    cbn in Hc. by apply app_eq_nil in Hc as [_ ?].
  - destruct Hp as [up Ho|Ho|up rest Hb Hq|Hb Ho Hq]; try by apply IH.
    destruct (preparer_round_fields p up rest) as (_ & _ & _ & E & ->). rewrite E in Hc. by apply IH.
Qed.

(** With nothing ready and nothing in flight every upload is completed. *)
Lemma reachable_drained st tx sqlw store p :
  start_ok LS LT LQ st tx sqlw → reachable max_in_flight_commits st tx sqlw store p →
  pl_ready p = [] → pl_commits p = [] → pl_sent p ≡ₚ pq_completion <$> pl_log p.
Proof.
  intros Hs Hr Hre Hc. destruct (reachable_inv LS LT LQ _ _ _ _ _ _ Hs Hr) as (_ & _ & sent & pending & flight & Hinv).
  rewrite <- (completions_accounted _ _ _ _ _ _ _ Hinv). unfold all_completions.
  by rewrite Hc, Hre, (reachable_pending _ _ _ _ _ Hs Hr Hc), !app_nil_r.
Qed.

(** Tasks that cannot move have completed everything. *)
Lemma pipe_stuck st tx sqlw store p :
  start_ok LS LT LQ st tx sqlw → (0 < max_in_flight_commits)%nat → reachable max_in_flight_commits st tx sqlw store p →
  pl_preparing p = true → (∀ p', ¬ pipe_step p p') →
  pl_queue p = [] ∧ pl_sent p ≡ₚ pq_completion <$> pl_log p.
Proof.
  intros Hs Hmax Hr Hprep Hnf.
  destruct (reachable_inv LS LT LQ _ _ _ _ _ _ Hs Hr) as (_ & Hstop & sent & pending & flight & Hinv).
  assert (pl_running p = true) as Hrun.
  { destruct (pl_running p) eqn:E; [done|]. destruct (proj1 Hstop E) as [? _]. congruence. }
  assert (pl_queue p = []) as Hq.
  { destruct (pl_queue p) as [|up rest] eqn:E; [done|]. exfalso. eapply Hnf. right. right. by exists up, rest. }
  destruct (stuck_tasks LS LT LQ max_in_flight_commits _ _ _ _ Hinv Hstop) as [Hcom Htask];
    [intros p' Hp'; apply (Hnf p'); by left|intros p' Hp'; apply (Hnf p'); right; by left|].
  destruct (committer_idle max_in_flight_commits p Hmax Hrun Hcom Htask) as (_ & Hre & Hc).
  split; [done|]. by eapply reachable_drained.
Qed.

Lemma pipe_work p p' sent pending flight :
  pipeline_inv LS LT LQ p sent pending flight → pipe_step p p' → (work p' < work p)%nat.
Proof.
  intros Hinv [Hc|[Ht|(up & rest & Hb & Hq & ->)]].
  - by eapply committer_work.
  - by eapply task_work.
  - by apply round_work.
Qed.

(** The work left for the consumer. *)
Definition backlog (c : Consumer) : nat :=
  8 * (length (cs_entries c) - cs_read c) + length (cs_active c) + work (cs_pipe c).

Lemma work_backlog c c' base sp :
  session c base sp → consumer_work c c' → (backlog c' < backlog c)%nat ∧ cs_entries c' = cs_entries c.
Proof.
  intros Hs Hw. destruct (session_pipe _ _ _ Hs) as (sent & pending & flight & Hinv & _ & _). unfold backlog.
  destruct Hw as [c' _ Hc|p Hp|before a after Ha Hd].
  - unfold start_queued_upload in Hc. destruct (cs_entries c !! cs_read c) as [u|] eqn:Hu; [|done].
    apply lookup_lt_Some in Hu. apply bind_Ret in Hc as ([[r|] pub] & _ & Hc); [|done]. injection Hc as <-.
    cbn [cs_entries cs_read cs_active cs_pipe]. rewrite length_app. cbn [length]. split; [|done].
    destruct r; [lia|]. unfold work. cbn [with_queue pl_queue pl_ready pl_commits pl_preparing pl_running].
    rewrite length_app. cbn [length]. lia.
  - pose proof (pipe_work _ _ _ _ _ Hinv Hp). cbn [with_pipe cs_entries cs_read cs_active cs_pipe]. split; [lia|done].
  - rewrite Ha. cbn [finish_upload cs_entries cs_read cs_active cs_pipe]. rewrite !length_app. cbn [length]. split; [lia|done].
Qed.

(** The publisher takes the next entry while the preparer runs. *)
Lemma start_possible c base sp e :
  session c base sp → cs_entries c !! cs_read c = Some e → pl_preparing (cs_pipe c) = true →
  ∃ c', start_queued_upload c = Ret (Some c').
Proof.
  intros Hs He Hp. unfold start_queued_upload. rewrite He, Hp.
  pose proof (start_answer c base sp e true Hs He) as Ha. destruct (decide _).
  - rewrite Ha. cbn. by eexists.
  - destruct Ha as (te & _ & _ & ->). cbn. by eexists.
Qed.

(** A consumer that cannot move has acknowledged everything. *)
Lemma drained_acked c base sp i :
  session c base sp → (0 < max_in_flight_commits)%nat → (0 < max_active)%nat → nf consumer_work c →
  pl_preparing (cs_pipe c) = true → (i < length (cs_entries c))%nat → (i < cs_floor c)%nat ∨ i ∈ cs_acked c.
Proof.
  intros Hs Hmax Hact Hnf Hprep Hi. destruct (si_reach _ _ _ Hs) as (st & tx & sqlw & store & Hrec & Hsq & Hre).
  destruct (pipe_stuck _ _ _ _ _ (recovered_start LS LT LQ sp _ _ _ _ Hrec Hsq) Hmax Hre Hprep) as [Hq Hsent].
  { intros p' Hp. apply Hnf. eexists. by apply consumer_pipe. }
  destruct (si_queue _ _ _ Hs Hprep) as [Hn Hqueue]. rewrite Hq in Hqueue. apply (f_equal length) in Hqueue.
  pose proof (si_read _ _ _ Hs) as Hread. pose proof (si_base _ _ _ Hs) as [Hbase _].
  unfold pending_from in Hqueue. rewrite length_imap, segment_length in Hqueue by lia. cbn [length] in Hqueue.
  assert (cs_active c = []) as Ha.
  { destruct (cs_active c) as [|a after] eqn:Ea; [done|]. exfalso. apply Hnf. eexists.
    apply (consumer_joins c [] a after Ea). pose proof (si_active _ _ _ Hs a) as Hr. rewrite Ea in Hr. specialize (Hr ltac:(left)).
    unfold upload_done. destruct a as [pos []]; cbn in *; [done|].
    destruct (lookup_lt_is_Some_2 (pl_log (cs_pipe c)) (pos - base)) as [u Hu]; [lia|].
    destruct (si_log _ _ _ Hs _ _ Hu) as [Hc _]. rewrite Hsent. apply list_elem_of_fmap. exists u.
    split; [lia|by eapply list_elem_of_lookup_2]. }
  assert (cs_read c = length (cs_entries c)) as Hr.
  { destruct (cs_entries c !! cs_read c) as [e|] eqn:Ee; [|apply lookup_ge_None in Ee; lia]. exfalso.
    destruct (start_possible _ _ _ _ Hs Ee Hprep) as [c' Hc']. apply Hnf. exists c'. apply consumer_starts; [|done].
    rewrite Ha. cbn. lia. }
  destruct (si_cover _ _ _ Hs i) as [?|[?|Hin]]; [lia|by left|by right|]. rewrite Ha in Hin. by apply not_elem_of_nil in Hin.
Qed.

(** C16. The index survives crashes.  In every state of the node, however entries
    are written, started, prepared, committed, joined and acknowledged and
    however often it crashes in between: every entry that was acknowledged is
    in the store, with all its SQL rows and its operations at the locations it
    states; as long as the preparer runs, the publisher takes the next entry,
    without panic and without finding itself out of step; and a restart at this
    point would recover cursors that lie between two entries on both logs, at or
    after every acknowledged one, so that it completes the entries before them
    at once and queues exactly the others, in order. *)
Theorem index_survives_crashes c :
  consumer_reachable c →
  (∀ i e, (i < cs_floor c)%nat ∨ i ∈ cs_acked c → cs_entries c !! i = Some e →
     entry_stored (pl_store (cs_pipe c)) e) ∧
  (∀ e, cs_entries c !! cs_read c = Some e → pl_preparing (cs_pipe c) = true →
     ∃ c', start_queued_upload c = Ret (Some c')) ∧
  let sp := read_pair LS LT (concat (pl_store (cs_pipe c))) in
  let s := next_writer_location sp.1 in
  let t := next_writer_location sp.2 in
  ∃ resume s' t', (cs_floor c ≤ resume ≤ length (cs_entries c))%nat ∧ (∀ i, i ∈ cs_acked c → (i < resume)%nat) ∧
    consume_queue (mkPublisher s t []) (drop (cs_floor c) (cs_entries c))
    = Ret (replicate (resume - cs_floor c) (Ok Completed) ++ replicate (length (cs_entries c) - resume) (Ok Queued),
           mkPublisher s' t' (drop resume (cs_entries c))).
Proof.
  intros (base & sp & Hs)%consumer_session. pose proof (store_boundary _ _ _ Hs) as (resume & Hle & Hl1 & Hl2 & Hc & Hsent & Hst).
  pose proof (λ i, acked_below _ _ _ _ i Hs Hsent (proj1 Hle)) as Hres.
  split; [|split].
  - intros i e Hi He. eapply Hst; [by apply Hres|done].
  - intros e. by eapply start_possible.
  - cbn zeta. destruct (si_chain _ _ _ Hs) as (s' & t' & Hch). exists resume, s', t'.
    assert (cs_floor c ≤ resume)%nat as Hf.
    { destruct (decide (cs_floor c ≤ resume)%nat); [done|]. specialize (Hres resume). lia. }
    split; [lia|]. split; [by intros i Hi; apply Hres; right|].
    destruct (contiguous_drop resume _ _ _ _ _ Hch) as (s1 & t1 & Hd & Ht).
    destruct (contiguous_end_unique _ _ _ _ _ _ _ Hc Ht) as [-> ->].
    assert (drop (cs_floor c) (cs_entries c)
      = drop (cs_floor c) (take resume (cs_entries c)) ++ drop resume (cs_entries c)) as ->.
    { rewrite <- (take_drop resume (cs_entries c)) at 1. apply drop_app_le. rewrite length_take. lia. }
    erewrite consume_covered; [| |by apply consume_contiguous].
    + by rewrite length_drop, length_take_le, length_drop by lia.
    + intros u Hu. apply (contiguous_bounds _ _ _ _ _ Ht).
      * apply Forall_take. eapply Forall_impl; [exact (si_well _ _ _ Hs)|]. intros e [_ Hlen _].
        unfold upload_forward. pose proof (zlen_nonneg (q_state_delta e)). lia.
      * apply list_elem_of_lookup in Hu as [j Hj]. rewrite lookup_drop in Hj. by eapply list_elem_of_lookup_2.
Qed.

(** The queue drains.  From any state of the node, as long as it does not
    crash, the consumer and the publisher's tasks take finitely many steps
    before they need a new entry, in every order; and when they are done, every
    entry is acknowledged and in the store, unless the preparer has stopped on
    an entry that does not expand or that a writer refused. *)
Theorem queue_drains c :
  consumer_reachable c → (0 < max_in_flight_commits)%nat → (0 < max_active)%nat →
  sn consumer_work c ∧
  ∀ c', rtc consumer_work c c' → nf consumer_work c' → pl_preparing (cs_pipe c') = true →
    cs_entries c' = cs_entries c ∧
    ∀ i e, cs_entries c !! i = Some e →
      ((i < cs_floor c')%nat ∨ i ∈ cs_acked c') ∧ entry_stored (pl_store (cs_pipe c')) e.
Proof.
  intros (base & sp & Hs)%consumer_session Hmax Hact. split.
  - remember (backlog c) as k eqn:Hk. revert c Hs Hk.
    induction (lt_wf k) as [k _ IH]. intros c Hs ->. constructor. intros c' Hstep.
    destruct (work_backlog _ _ _ _ Hs Hstep) as [Hlt _]. eapply IH; [exact Hlt|by eapply work_session|done].
  - intros c' Hrtc Hnf Hprep.
    assert (session c' base sp ∧ cs_entries c' = cs_entries c) as [Hs' He].
    { clear Hnf Hprep. induction Hrtc as [|c1 c2 c3 Hstep _ IH]; [done|].
      destruct (work_backlog _ _ _ _ Hs Hstep) as [_ <-]. apply IH. by eapply work_session. }
    split; [done|]. rewrite <- He. intros i e Hi.
    assert ((i < cs_floor c')%nat ∨ i ∈ cs_acked c') as Hack.
    { apply lookup_lt_Some in Hi. by eapply drained_acked. }
    split; [done|]. destruct (store_boundary _ _ _ Hs') as (resume & [Hle _] & _ & _ & _ & Hsent & Hst).
    eapply Hst; [|exact Hi]. by apply (acked_below _ _ _ _ _ Hs' Hsent Hle Hack).
Qed.
End consumer.

(** ** Witnesses *)

Definition sample_entry : QueuedFinalizedUpload :=
  mkQueued sample_child 17 0 0 (replicate 4 (Update (replicate 32 x01) (replicate 24 x02)) ++ [CommitFloor None 0]).

Notation SampleConsumer := (Consumer (SW := sample_writer true) (TW := sample_writer false) (Q := sample_sql)).
Notation sample_consumer_reachable :=
  (consumer_reachable (sample_writer_laws true) (sample_writer_laws false) sample_sql_laws 2 2 0 0).

Definition sample_node : SampleConsumer :=
  append_entry (consumer_start (SW := sample_writer true) (TW := sample_writer false) (Q := sample_sql)
    [] 0 sample_view sample_view [] []) sample_entry.

Lemma sample_entry_end : transaction_end sample_entry = Ret 4.
Proof. vm_compute. reflexivity. Qed.

Lemma sample_entry_well : entry_well sample_entry.
Proof.
  constructor.
  - intros n. constructor.
    + split; apply Z.leb_le; vm_compute; reflexivity.
    + cbn. lia.
    + apply Z.leb_le. vm_compute. reflexivity.
    + done.
    + cbn [pu_upload sample_entry q_state_delta]. intros k v [Hin|Hin]%elem_of_app.
      * apply elem_of_replicate in Hin as [[= -> _] _]. done.
      * apply list_elem_of_singleton in Hin. discriminate Hin.
  - apply Z.eqb_eq. vm_compute. reflexivity.
  - cbn. lia.
Qed.

Lemma sample_node_reachable : sample_consumer_reachable sample_node.
Proof.
  eapply consumer_reach_step.
  - apply (consumer_reach_start (sample_writer_laws true) (sample_writer_laws false) sample_sql_laws 2 2 0 0
      sample_view sample_view [] []); try done; by constructor.
  - eapply (consumer_append _ _ _ _ _ _ _ _ sample_entry); [exact sample_entry_well|].
    exact (contiguous_cons sample_entry [] 4 _ _ sample_entry_end (contiguous_nil _ _)).
Qed.

Lemma index_survives_crashes_witness : ∃ c', start_queued_upload sample_node = Ret (Some c').
Proof.
  destruct (index_survives_crashes _ _ _ _ _ _ _ sample_store_laws sample_node sample_node_reachable) as (_ & Hstart & _).
  apply (Hstart sample_entry); reflexivity.
Defined.

Lemma queue_drains_witness :
  sn (consumer_work (SW := sample_writer true) (TW := sample_writer false) (Q := sample_sql) 2 2) sample_node.
Proof.
  refine (proj1 (queue_drains _ _ _ _ _ _ _ sample_store_laws sample_node sample_node_reachable _ _)); lia.
Defined.
