(* ===== verification/Backpressure.v ===== *)
(** * The bounded channels of the commit pipeline (crates/indexer/src/publisher/qmdb.rs)

    [Publisher::connect] gives both channels of the pipeline, and the set of
    commits in flight, one capacity.  A send on a full channel waits: the
    publisher until the preparer takes an upload, the preparer, holding the
    upload it prepared, until the committer does.  CommitPipeline.v lets both
    sends succeed at once.  Here they wait; the theorem shows that this refines
    the pipeline without bounds, so that all it guarantees carries over, that
    the uploads held in memory are bounded, and that waiting never turns into a
    deadlock. *)

From stdpp Require Import prelude gmap list strings relations.
From S2P Require Import Prelude Interfaces Concrete Transaction Database Block Application Indexer Lookup Writers CommitPipeline CommitInvariant Lockstep Consumer.

Section backpressure.
Context `{LazyKey} `{ConsensusLib} {Row : Type}.
Context {SW : QmdbWriter Row (AnyOperation bytes)} {TW : QmdbWriter Row (KeylessOperation digest)}
  {Q : SqlBatchWriter Row}.
Notation Pipeline := (Pipeline (SW := SW) (TW := TW) (Q := Q)).
Notation Prepared := (PreparedQmdbUpload (SW := SW) (TW := TW)).

(** The capacity of the channels and of the set of commits. *)
Variable buffer : nat.

(** The pipeline, its [pl_ready] the contents of the channel to the committer,
    and the upload the preparer is waiting to send. *)
Record Bounded := mkBounded { bd_pipe : Pipeline; bd_held : option Prepared }.

(** A channel that takes one more message. *)
Definition has_room {A} (channel : list A) : Prop := (length channel < buffer)%nat.

(** The preparer takes an upload and prepares it, up to the send: how it comes
    out of it, and what the other tasks see. *)
Definition prepare_next (b : Bounded) (up : PendingQueuedFinalizedUpload)
    (rest : list PendingQueuedFinalizedUpload) : run unit * Bounded :=
  let p := bd_pipe b in
  let '(r, st, tx) := prepare_or_panic (pl_state p) (pl_transactions p) up in
  match r with
  | Ret u =>
      (Ret (),
       mkBounded (mkPipeline (pl_open p) rest true (pl_ready p) st tx (pl_sql p) (pl_commits p) (pl_pending p)
                    (pl_store p) (pl_sent p) (pl_running p) (pl_log p ++ [u])) (Some u))
  | Panic why =>
      (Panic why,
       mkBounded (mkPipeline (pl_open p) rest false (pl_ready p) st tx (pl_sql p) (pl_commits p) (pl_pending p)
                    (pl_store p) (pl_sent p) (pl_running p) (pl_log p)) None)
  end.

Definition with_ready (p : Pipeline) (ready : list Prepared) : Pipeline :=
  mkPipeline (pl_open p) (pl_queue p) (pl_preparing p) ready (pl_state p) (pl_transactions p) (pl_sql p)
    (pl_commits p) (pl_pending p) (pl_store p) (pl_sent p) (pl_running p) (pl_log p).

(** The send of the preparer, which panics once the committer is gone. *)
Definition send_prepared (b : Bounded) (u : Prepared) : run Bounded :=
  if pl_running (bd_pipe b)
  then Ret (mkBounded (with_ready (bd_pipe b) (pl_ready (bd_pipe b) ++ [u])) None)
  else Panic "QMDB committer stopped".

(** What the preparer, the committer and the commit tasks do on their own.  A
    preparer that panics has both outcomes: its panic, and what it leaves to the
    tasks that go on. *)
Inductive bounded_work (b : Bounded) : run Bounded → Prop :=
| bounded_prepare up rest :
    pl_preparing (bd_pipe b) = true → bd_held b = None → pl_queue (bd_pipe b) = up :: rest →
    bounded_work b (Ret (prepare_next b up rest).2)
| bounded_die up rest why :
    pl_preparing (bd_pipe b) = true → bd_held b = None → pl_queue (bd_pipe b) = up :: rest →
    (prepare_next b up rest).1 = Panic why → bounded_work b (Panic why)
| bounded_send u :
    bd_held b = Some u → has_room (pl_ready (bd_pipe b)) ∨ pl_running (bd_pipe b) = false →
    bounded_work b (send_prepared b u)
| bounded_exit :
    pl_preparing (bd_pipe b) = true → bd_held b = None → pl_open (bd_pipe b) = false →
    pl_queue (bd_pipe b) = [] →
    bounded_work b (Ret (mkBounded (with_queue (bd_pipe b) false [] false) None))
| bounded_commit r :
    committer_step buffer (bd_pipe b) r → bounded_work b (p ← r; Ret (mkBounded p (bd_held b)))
| bounded_task r :
    task_step (bd_pipe b) r → bounded_work b (p ← r; Ret (mkBounded p (bd_held b))).

(** The publisher sends an upload when the channel has room, or shuts down. *)
Inductive bounded_feed (b : Bounded) : Bounded → Prop :=
| bounded_offer up :
    pl_open (bd_pipe b) = true → pl_preparing (bd_pipe b) = true → has_room (pl_queue (bd_pipe b)) →
    bounded_feed b (mkBounded (with_queue (bd_pipe b) true (pl_queue (bd_pipe b) ++ [up]) true) (bd_held b))
| bounded_close :
    pl_open (bd_pipe b) = true →
    bounded_feed b (mkBounded (with_queue (bd_pipe b) false (pl_queue (bd_pipe b)) (pl_preparing (bd_pipe b)))
                      (bd_held b)).

Definition bounded_step (b b' : Bounded) : Prop := bounded_work b (Ret b') ∨ bounded_feed b b'.
Definition bounded_moves (b b' : Bounded) : Prop := bounded_work b (Ret b').

Definition bounded_start (st : Writer SW) (tx : Writer TW) (sqlw : BatchWriter Q) (store : list (list Row))
    : Bounded :=
  mkBounded (pipeline_start st tx sqlw store) None.

Inductive bounded_reachable (st : Writer SW) (tx : Writer TW) (sqlw : BatchWriter Q) (store : list (list Row))
    : Bounded → Prop :=
| bounded_reach_start : bounded_reachable st tx sqlw store (bounded_start st tx sqlw store)
| bounded_reach_step b b' :
    bounded_reachable st tx sqlw store b → bounded_step b b' → Forall upload_well (pl_queue (bd_pipe b')) →
    bounded_reachable st tx sqlw store b'.

(** ** The refinement *)

(** What the pipeline without bounds holds: the upload the preparer waits with
    is the last one ready. *)
Definition extend (held : option Prepared) (p : Pipeline) : Pipeline :=
  with_ready p (pl_ready p ++ option_list held).
Definition unbounded (b : Bounded) : Pipeline := extend (bd_held b) (bd_pipe b).

Lemma extend_None p : extend None p = p.
Proof. destruct p. unfold extend, with_ready. cbn. by rewrite app_nil_r. Qed.

(** The committer does not look behind the head of its channel. *)
Lemma extend_marks h done p :
  fold_left mark_committed_batch done (extend h p) = extend h (fold_left mark_committed_batch done p).
Proof. revert p. induction done as [|[b s] done IH]; [done|]. intros p. cbn [fold_left]. apply (IH (mark_committed_batch p (b, s))). Qed.

Lemma extend_complete h p : complete_uploads (extend h p) = extend h (complete_uploads p).
Proof.
  unfold complete_uploads. cbn [extend with_ready pl_pending pl_state pl_transactions].
  by destruct (complete_published_uploads (pl_pending p) _ _).
Qed.

Lemma extend_flush h p : flush_qmdb_watermarks (extend h p) = p' ← flush_qmdb_watermarks p; Ret (extend h p').
Proof.
  unfold flush_qmdb_watermarks. cbn [extend with_ready pl_state pl_transactions pl_store].
  destruct (expect (ok (prepare_flush SW _)) _) as [s|?]; [|done].
  destruct (expect (ok (prepare_flush TW _)) _) as [t|?]; [|done]. cbn [mbind run_bind].
  destruct s as [s|], t as [t|]; [..|done];
    (destruct (expect (ok (stage_optional (stage_flush SW _) _)) _) as [?|?]; [|done]);
    (destruct (expect (ok (stage_optional (stage_flush TW _) _)) _) as [?|?]; [|done]); cbn [mbind run_bind];
    by destruct (commit_required_batch _ _) as [[? ?]|?].
Qed.

Lemma extend_flush_and_complete h p :
  flush_and_complete_published_uploads (extend h p)
  = p' ← flush_and_complete_published_uploads p; Ret (extend h p').
Proof.
  unfold flush_and_complete_published_uploads. rewrite extend_complete.
  change (pl_pending (extend h (complete_uploads p))) with (pl_pending (complete_uploads p)).
  destruct (pl_pending (complete_uploads p)); [done|]. rewrite extend_flush.
  destruct (flush_qmdb_watermarks _) as [p'|w]; [|done]. cbn [mbind run_bind]. by rewrite extend_complete.
Qed.

Lemma extend_join h p done rest :
  join_commits (extend h p) done rest = p' ← join_commits p done rest; Ret (extend h p').
Proof. unfold join_commits. rewrite extend_marks. apply (extend_flush_and_complete h (with_commits _ _)). Qed.

Lemma extend_recv h p u rest :
  stage_and_spawn_commit (extend h p) u (rest ++ option_list h)
  = p' ← stage_and_spawn_commit p u rest; Ret (extend h p').
Proof.
  unfold stage_and_spawn_commit. change (prepare_commit_batch (extend h p)) with (prepare_commit_batch p).
  cbn [extend with_ready pl_commits]. by destruct (expect _ _) as [[? ?]|?].
Qed.

Lemma extend_committer h p r :
  (pl_preparing p = false → h = None) → committer_step buffer p r →
  committer_step buffer (extend h p) (p' ← r; Ret (extend h p')).
Proof.
  intros Hh [u rest Hrun Hlt Hre|done rest Hrun Hne Hk|Hrun Hb Hre Hc].
  - rewrite <- extend_recv. apply committer_recv; [done..|]. cbn. by rewrite Hre.
  - rewrite <- extend_join. by apply committer_join.
  - rewrite (Hh Hb), extend_None.
    replace (p' ← finish_committer p; Ret (extend None p')) with (finish_committer p)
      by (destruct (finish_committer p); cbn; [by rewrite extend_None|done]).
    by apply committer_stop.
Qed.

Lemma extend_task h p r : task_step p r → task_step (extend h p) (p' ← r; Ret (extend h p')).
Proof.
  intros [before b after Hc].
  replace (p' ← finish_commit p before b after; Ret (extend h p')) with (finish_commit (extend h p) before b after)
    by (unfold finish_commit; cbn [extend with_ready pl_store]; by destruct (commit_required_batch _ _) as [[? ?]|?]).
  by apply task_finishes.
Qed.

Lemma extend_prepare b up rest :
  bd_held b = None → (prepare_next b up rest).1 = (preparer_round (unbounded b) up rest).1 ∧
  unbounded (prepare_next b up rest).2 = (preparer_round (unbounded b) up rest).2.
Proof.
  intros Hh. unfold unbounded, prepare_next, preparer_round. rewrite Hh, extend_None.
  destruct (prepare_or_panic _ _ _) as [[[u|why] st] tx]; (split; [done|]); cbn; unfold extend, with_ready; cbn; by rewrite ?app_nil_r.
Qed.

(** ** The invariant *)

Variables (LS : QmdbWriterLaws SW) (LT : QmdbWriterLaws TW) (LQ : SqlWriterLaws Q).

Record bounded_inv (st : Writer SW) (tx : Writer TW) (sqlw : BatchWriter Q) (store : list (list Row)) (b : Bounded)
    : Prop := {
  bi_refines : reachable buffer st tx sqlw store (unbounded b);
  bi_queue : (length (pl_queue (bd_pipe b)) ≤ buffer)%nat;
  bi_ready : (length (pl_ready (bd_pipe b)) ≤ buffer)%nat;
  bi_held : pl_preparing (bd_pipe b) = false → bd_held b = None }.

(** A round of the preparer leaves the channel to the committer alone. *)
Lemma prepare_next_fields b up rest :
  let b' := (prepare_next b up rest).2 in
  pl_queue (bd_pipe b') = rest ∧ pl_ready (bd_pipe b') = pl_ready (bd_pipe b) ∧
  pl_running (bd_pipe b') = pl_running (bd_pipe b) ∧ pl_open (bd_pipe b') = pl_open (bd_pipe b) ∧
  (pl_preparing (bd_pipe b') = false → bd_held b' = None).
Proof. unfold prepare_next. by destruct (prepare_or_panic _ _ _) as [[[] ?] ?]. Qed.

(** A committer or a task leaves the channel to the preparer alone, and puts
    nothing on its own. *)
Definition committer_frame (p p' : Pipeline) : Prop :=
  pl_queue p' = pl_queue p ∧ pl_preparing p' = pl_preparing p ∧ pl_open p' = pl_open p ∧
  (length (pl_ready p') ≤ length (pl_ready p))%nat.

Lemma committer_frames p p' sent pending flight :
  pipeline_inv LS LT LQ p sent pending flight → committer_step buffer p (Ret p') → committer_frame p p'.
Proof.
  intros Hinv Hstep. inversion Hstep as [u rest Hrun Hlt Hready Hp'|done rest Hrun Hne Hk Hp'|Hrun Hprep Hready Hc Hp'].
  - unfold stage_and_spawn_commit in Hp'. apply bind_Ret in Hp' as ([b sqlw] & _ & [= <-]).
    split_and!; [done..|]. cbn [pl_ready]. rewrite Hready. cbn [length]. lia.
  - destruct (join_inv _ _ _ _ _ _ _ _ _ Hinv Hk) as (p1 & ? & ? & ? & Hp1 & _ & F1 & F2 & F3 & F4 & _).
    rewrite Hp1 in Hp'. injection Hp' as <-. unfold committer_frame. by rewrite F1, F2, F3, F4.
  - destruct (finish_inv _ _ _ _ _ _ _ Hinv Hc) as (p1 & ? & Hp1 & _ & _ & Ho & Hq & Hb & Hre & _).
    rewrite Hp1 in Hp'. injection Hp' as <-. unfold committer_frame. by rewrite Ho, Hq, Hb, Hre.
Qed.

Lemma task_frames p p' : task_step p (Ret p') → committer_frame p p'.
Proof.
  intros Hstep. inversion Hstep as [before b after Hc Hp']. unfold finish_commit in Hp'.
  apply bind_Ret in Hp' as ([store seq] & _ & [= <-]). by split_and!.
Qed.

(** A frame of the extended pipeline is one of the pipeline. *)
Lemma extend_frame h p p' : committer_frame (extend h p) (extend h p') → committer_frame p p'.
Proof. intros (E1 & E2 & E3 & E4). cbn in *. rewrite !length_app in E4. split_and!; [done..|lia]. Qed.

(** What a task does on its own: nothing the pipeline without bounds sees, a
    send, or a step of that pipeline. *)
Definition refines_step (b b' : Bounded) : Prop :=
  (unbounded b' = unbounded b ∧ bd_held b ≠ None ∧ bd_held b' = None) ∨
  (pipeline_step buffer (unbounded b) (unbounded b') ∧ (work (unbounded b') < work (unbounded b))%nat).

(** A step of the committer or of a commit task returns, and is one of the
    pipeline without bounds. *)
Lemma lift_step st tx sqlw store b r :
  start_ok LS LT LQ st tx sqlw → bounded_inv st tx sqlw store b →
  committer_step buffer (bd_pipe b) r ∨ task_step (bd_pipe b) r →
  ∃ p', r = Ret p' ∧ refines_step b (mkBounded p' (bd_held b)) ∧ committer_frame (bd_pipe b) p'.
Proof.
  intros Hs [Hr _ _ Hh] Hstep. destruct (reachable_inv LS LT LQ _ _ _ _ _ _ Hs Hr) as (_ & Hstop & sn & pd & fl & Hinv).
  destruct Hstep as [Hc|Ht].
  - apply (extend_committer _ _ _ Hh) in Hc. change (extend _ _) with (unbounded b) in Hc at 1.
    destruct (committer_inv LS LT LQ buffer _ _ _ _ _ Hinv Hstop Hc) as (p1 & _ & _ & _ & Hp1 & _).
    apply bind_Ret in Hp1 as (p' & -> & _). cbn [mbind run_bind] in Hc. exists p'. split; [done|].
    destruct (committer_work LS LT LQ buffer _ _ _ _ _ Hinv Hc) as [Hw _].
    split; [right; split; [by left|done]|]. eapply extend_frame, committer_frames; done.
  - apply (extend_task (bd_held b)) in Ht. change (extend _ _) with (unbounded b) in Ht at 1.
    destruct (task_inv LS LT LQ buffer _ _ _ _ _ Hinv Hstop Ht) as (p1 & Hp1 & _).
    apply bind_Ret in Hp1 as (p' & -> & _). cbn [mbind run_bind] in Ht. exists p'. split; [done|].
    destruct (task_work _ _ Ht) as [Hw _].
    split; [right; split; [right; by left|done]|]. by eapply extend_frame, task_frames.
Qed.

Lemma refines_reachable st tx sqlw store b b' :
  reachable buffer st tx sqlw store (unbounded b) → Forall upload_well (pl_queue (bd_pipe b')) →
  refines_step b b' → reachable buffer st tx sqlw store (unbounded b').
Proof. intros Hr Hw [[-> _]|[Hs _]]; [done|]. by eapply reach_step. Qed.

(** What a step of the tasks has to show. *)
Record work_ok (st : Writer SW) (tx : Writer TW) (sqlw : BatchWriter Q) (store : list (list Row)) (b b' : Bounded)
    : Prop := {
  wo_refines : refines_step b b';
  wo_inv : bounded_inv st tx sqlw store b';
  wo_open : pl_open (bd_pipe b') = pl_open (bd_pipe b) }.

Lemma prepare_ok st tx sqlw store b up rest :
  bounded_inv st tx sqlw store b → Forall upload_well (pl_queue (bd_pipe b)) →
  pl_preparing (bd_pipe b) = true → bd_held b = None → pl_queue (bd_pipe b) = up :: rest →
  work_ok st tx sqlw store b (prepare_next b up rest).2.
Proof.
  intros [Hr Hq Hre Hh] Hwell Hb Hn Hqu. destruct (prepare_next_fields b up rest) as (E1 & E2 & E3 & E4 & E5).
  assert (refines_step b (prepare_next b up rest).2) as Href.
  { right. rewrite (proj2 (extend_prepare _ up rest Hn)). split; [right; right; by apply preparer_next|by apply round_work]. }
  split; [done| |done]. rewrite Hqu in *. constructor; rewrite ?E1, ?E2; [|cbn in Hq; lia|done..].
  eapply refines_reachable; [exact Hr|rewrite E1; by inversion Hwell|done].
Qed.

Lemma send_ok st tx sqlw store b u :
  bounded_inv st tx sqlw store b → bd_held b = Some u → has_room (pl_ready (bd_pipe b)) →
  work_ok st tx sqlw store b (mkBounded (with_ready (bd_pipe b) (pl_ready (bd_pipe b) ++ [u])) None).
Proof.
  intros [Hr Hq Hre Hh] Hu Hroom.
  assert (unbounded (mkBounded (with_ready (bd_pipe b) (pl_ready (bd_pipe b) ++ [u])) None) = unbounded b) as Hsame
    by (unfold unbounded; rewrite Hu; cbn [bd_pipe bd_held]; by rewrite extend_None).
  split; [left; split; [done|by rewrite Hu]| |done]. constructor; [by rewrite Hsame|done| |done].
  cbn [bd_pipe with_ready pl_ready]. rewrite length_app. unfold has_room in Hroom. cbn [length]. lia.
Qed.

Lemma exit_ok st tx sqlw store b :
  bounded_inv st tx sqlw store b → pl_preparing (bd_pipe b) = true → bd_held b = None →
  pl_open (bd_pipe b) = false → pl_queue (bd_pipe b) = [] →
  work_ok st tx sqlw store b (mkBounded (with_queue (bd_pipe b) false [] false) None).
Proof.
  intros [Hr Hq Hre Hh] Hb Hn Ho Hqu.
  assert (refines_step b (mkBounded (with_queue (bd_pipe b) false [] false) None)) as Href.
  { right. unfold unbounded in *. rewrite Hn in *. cbn [bd_pipe bd_held]. rewrite !extend_None in *.
    split; [right; right; by apply preparer_exit|by apply exit_work]. }
  split; [done| |by rewrite Ho]. constructor; [|cbn; lia|done..].
  eapply refines_reachable; [exact Hr|constructor|done].
Qed.

Lemma lift_ok st tx sqlw store b r :
  start_ok LS LT LQ st tx sqlw → bounded_inv st tx sqlw store b → Forall upload_well (pl_queue (bd_pipe b)) →
  committer_step buffer (bd_pipe b) r ∨ task_step (bd_pipe b) r →
  ∃ b', (p ← r; Ret (mkBounded p (bd_held b))) = Ret b' ∧ work_ok st tx sqlw store b b'.
Proof.
  intros Hs Hi Hwell Hstep. destruct (lift_step _ _ _ _ _ _ Hs Hi Hstep) as (p' & -> & Hp & E1 & E2 & E3 & E4).
  destruct Hi as [Hr Hq Hre Hh]. eexists. split; [reflexivity|]. split; [done| |done].
  constructor; cbn [bd_pipe bd_held]; rewrite ?E1, ?E2; [|done|lia|done].
  eapply refines_reachable; [exact Hr|cbn [bd_pipe]; by rewrite E1|done].
Qed.

(** The preparer is about to panic. *)
Definition dying (b : Bounded) : Prop :=
  ∃ up rest, pl_preparing (bd_pipe b) = true ∧ bd_held b = None ∧ pl_queue (bd_pipe b) = up :: rest ∧
    unpreparable (bd_pipe b) up.

Lemma dying_panics b : dying b ↔ ∃ up rest why, pl_preparing (bd_pipe b) = true ∧ bd_held b = None ∧
  pl_queue (bd_pipe b) = up :: rest ∧ (prepare_next b up rest).1 = Panic why.
Proof.
  split.
  - intros (up & rest & Hb & Hn & Hq & Hu). exists up, rest. change (unpreparable (bd_pipe b) up) with
      (unpreparable (unbounded b) up) in Hu. apply (preparer_round_panics _ _ rest) in Hu as [why Hw].
    exists why. split_and!; [done..|]. by rewrite (proj1 (extend_prepare b up rest Hn)).
  - intros (up & rest & why & Hb & Hn & Hq & Hp). exists up, rest. split_and!; [done..|].
    change (unpreparable (unbounded b) up). apply (preparer_round_panics _ _ rest). exists why.
    by rewrite <- (proj1 (extend_prepare b up rest Hn)).
Qed.

(** The tasks keep the invariant, and only the preparer panics. *)
Lemma bounded_work_inv st tx sqlw store b r :
  start_ok LS LT LQ st tx sqlw → bounded_inv st tx sqlw store b → bounded_work b r →
  (∃ b', r = Ret b' ∧ work_ok st tx sqlw store b b') ∨ (∃ why, r = Panic why ∧ dying b).
Proof.
  intros Hs Hi Hwork.
  destruct (reachable_inv LS LT LQ _ _ _ _ _ _ Hs (bi_refines _ _ _ _ _ Hi)) as (Hwell & [Hstop _] & _).
  change (pl_queue (unbounded b)) with (pl_queue (bd_pipe b)) in Hwell.
  destruct Hwork as [up rest Hb Hn Hqu|up rest why Hb Hn Hqu Hp|u Hu Hroom|Hb Hn Ho Hqu|r' Hc|r' Ht].
  2: { right. exists why. split; [done|]. apply dying_panics. by exists up, rest, why. }
  all: left.
  - eexists. split; [reflexivity|]. by apply prepare_ok.
  - unfold send_prepared. destruct (pl_running (bd_pipe b)) eqn:Hrun.
    + eexists. split; [reflexivity|]. apply send_ok; [done..|]. by destruct Hroom.
    + destruct (Hstop Hrun) as (Hb & _). by rewrite (bi_held _ _ _ _ _ Hi Hb) in Hu.
  - eexists. split; [reflexivity|]. by apply exit_ok.
  - apply lift_ok; [done..|by left].
  - apply lift_ok; [done..|by right].
Qed.

Lemma bounded_work_moves st tx sqlw store b b' :
  start_ok LS LT LQ st tx sqlw → bounded_inv st tx sqlw store b → bounded_moves b b' → work_ok st tx sqlw store b b'.
Proof. intros Hs Hi Hm. by destruct (bounded_work_inv _ _ _ _ _ _ Hs Hi Hm) as [(? & [= <-] & ?)|(? & ? & _)]. Qed.

Lemma bounded_feed_inv st tx sqlw store b b' :
  bounded_inv st tx sqlw store b → Forall upload_well (pl_queue (bd_pipe b')) → bounded_feed b b' →
  bounded_inv st tx sqlw store b'.
Proof.
  intros [Hr Hq Hre Hh] Hwell Hf. revert Hwell. destruct Hf as [up Ho Hb Hroom|Ho]; intros Hwell; (constructor; [|cbn|done|done]).
  - eapply (reach_step _ _ _ _ _ (unbounded b)); [done| |exact Hwell]. right. right.
    pose proof (preparer_offer (unbounded b) up Ho) as Hoffer. cbn in Hoffer. by rewrite Hb in Hoffer.
  - rewrite length_app. unfold has_room in Hroom. cbn [length]. lia.
  - eapply (reach_step _ _ _ _ _ (unbounded b)); [done| |exact Hwell]. right. right. by apply (preparer_close (unbounded b)).
  - done.
Qed.

Lemma bounded_reachable_inv st tx sqlw store b :
  start_ok LS LT LQ st tx sqlw → bounded_reachable st tx sqlw store b → bounded_inv st tx sqlw store b.
Proof.
  intros Hs. induction 1 as [|b b' _ IH [Hw|Hf] Hwell].
  - constructor; [|cbn; lia..|done]. unfold unbounded, bounded_start. cbn [bd_pipe bd_held]. rewrite extend_None. constructor.
  - by destruct (bounded_work_moves _ _ _ _ _ _ Hs IH Hw).
  - by eapply bounded_feed_inv.
Qed.

(** ** No deadlock *)

(** The work left, the send of the preparer included. *)
Definition bounded_left (b : Bounded) : nat :=
  2 * work (unbounded b) + match bd_held b with Some _ => 1 | None => 0 end.

Lemma refines_left b b' : refines_step b b' → (bounded_left b' < bounded_left b)%nat.
Proof.
  unfold bounded_left. intros [(E & Hn & Hn')|[_ Hlt]].
  - rewrite E, Hn'. destruct (bd_held b); [lia|done].
  - destruct (bd_held b), (bd_held b'); lia.
Qed.

Lemma bounded_sn st tx sqlw store b :
  start_ok LS LT LQ st tx sqlw → bounded_inv st tx sqlw store b → sn bounded_moves b.
Proof.
  intros Hs. remember (bounded_left b) as k eqn:Hk. revert b Hk. induction (lt_wf k) as [k _ IH]. intros b -> Hi.
  constructor. intros b' Hstep. destruct (bounded_work_moves _ _ _ _ _ _ Hs Hi Hstep) as [Href Hi' _].
  eapply IH; [by apply refines_left|done|done].
Qed.

Lemma bounded_moves_inv st tx sqlw store b b' :
  start_ok LS LT LQ st tx sqlw → bounded_inv st tx sqlw store b → rtc bounded_moves b b' →
  bounded_inv st tx sqlw store b'.
Proof.
  intros Hs Hi Hrtc. revert Hi. induction Hrtc as [|b1 b2 b3 Hstep _ IH]; [done|]. intros Hi. apply IH.
  by destruct (bounded_work_moves _ _ _ _ _ _ Hs Hi Hstep).
Qed.

(** Tasks that cannot move hold nothing back: they wait for the publisher, or
    they are gone. *)
Lemma bounded_stuck st tx sqlw store b :
  start_ok LS LT LQ st tx sqlw → (0 < buffer)%nat → bounded_inv st tx sqlw store b → nf bounded_moves b →
  bd_held b = None ∧ pl_ready (bd_pipe b) = [] ∧ pl_commits (bd_pipe b) = [] ∧
  pl_running (bd_pipe b) = pl_preparing (bd_pipe b) ∧
  (pl_preparing (bd_pipe b) = true → pl_open (bd_pipe b) = true ∧ pl_queue (bd_pipe b) = []).
Proof.
  intros Hs Hbuf Hi Hnf. destruct (reachable_inv LS LT LQ _ _ _ _ _ _ Hs (bi_refines _ _ _ _ _ Hi)) as (_ & [Hstop _] & _).
  assert (∀ r, ¬ bounded_work b r) as Hno.
  { intros r Hr. apply Hnf. destruct (bounded_work_inv _ _ _ _ _ _ Hs Hi Hr) as [(b' & -> & _)|(why & _ & Hd)]; [by exists b'|].
    destruct Hd as (up & rest & Hb & Hn & Hq & _). eexists. by apply (bounded_prepare _ up rest). }
  destruct (pl_running (bd_pipe b)) eqn:Hrun.
  - destruct (committer_idle buffer (bd_pipe b) Hbuf Hrun) as (Hb & Hre & Hc);
      [intros r Hr; eapply Hno; by apply bounded_commit|intros r Hr; eapply Hno; by apply bounded_task|].
    assert (bd_held b = None) as Hn.
    { destruct (bd_held b) as [u|] eqn:Hu; [exfalso|done]. eapply Hno, bounded_send; [done|]. left. by rewrite Hre. }
    split_and!; [done..|]. intros _. destruct (pl_queue (bd_pipe b)) as [|up rest] eqn:Hq.
    + split; [|done]. destruct (pl_open (bd_pipe b)) eqn:Ho; [done|exfalso]. by eapply Hno, bounded_exit.
    + exfalso. by eapply Hno, bounded_prepare.
  - destruct (Hstop Hrun) as (Hb & Hre & Hc & _). cbn in Hb, Hre, Hc. apply app_eq_nil in Hre as [Hre _]. rewrite Hb.
    split_and!; [by apply (bi_held _ _ _ _ _ Hi)|done..].
Qed.

(** C29. Bounded channels lose nothing and never deadlock.  In every state the
    tasks reach, the pipeline with bounded channels is one the pipeline without
    bounds reaches, so that what is shown of completions and durability holds of
    it; a task panics exactly when the preparer takes an upload that does not
    expand or that a writer refuses, and the others go on; at most three
    channels of uploads and the one the preparer holds are in memory; and
    without new uploads the tasks take finitely many steps, in any order, until
    none is left: then every upload handed over is completed, the publisher's
    next send finds room unless the preparer is gone, and after a shutdown the
    committer has stopped. *)
Theorem backpressure_drains st tx sqlw store b :
  start_ok LS LT LQ st tx sqlw → (0 < buffer)%nat → bounded_reachable st tx sqlw store b →
  reachable buffer st tx sqlw store (unbounded b) ∧
  ((∃ why, bounded_work b (Panic why)) ↔ dying b) ∧
  (length (pl_queue (bd_pipe b)) + length (option_list (bd_held b)) + length (pl_ready (bd_pipe b))
   + length (pl_commits (bd_pipe b)) ≤ 3 * buffer + 1)%nat ∧
  sn bounded_moves b ∧
  ∀ b', rtc bounded_moves b b' → nf bounded_moves b' →
    pl_sent (bd_pipe b') ≡ₚ pq_completion <$> pl_log (bd_pipe b') ∧
    (pl_preparing (bd_pipe b') = true → pl_open (bd_pipe b') = true ∧ has_room (pl_queue (bd_pipe b'))) ∧
    (pl_open (bd_pipe b') = false → pl_running (bd_pipe b') = false).
Proof.
  intros Hs Hbuf Hr. pose proof (bounded_reachable_inv _ _ _ _ _ Hs Hr) as Hi.
  destruct (reachable_inv LS LT LQ _ _ _ _ _ _ Hs (bi_refines _ _ _ _ _ Hi)) as (_ & [_ Hmax] & _).
  split; [apply Hi|]. split.
  { split; [intros [why Hw]; by destruct (bounded_work_inv _ _ _ _ _ _ Hs Hi Hw) as [(? & ? & _)|(? & _ & ?)]|].
    intros (up & rest & why & Hb & Hn & Hq & Hp)%dying_panics. exists why. by eapply bounded_die. }
  split.
  { change (pl_commits (unbounded b)) with (pl_commits (bd_pipe b)) in Hmax. destruct Hi as [_ Hq Hre _].
    assert (length (option_list (bd_held b)) ≤ 1)%nat by (destruct (bd_held b); cbn; lia). lia. }
  split; [by eapply bounded_sn|]. intros b' Hrtc Hnf.
  pose proof (bounded_moves_inv _ _ _ _ _ _ Hs Hi Hrtc) as Hi'.
  destruct (bounded_stuck _ _ _ _ _ Hs Hbuf Hi' Hnf) as (Hn & Hre & Hc & Hrun & Hidle).
  pose proof (bi_refines _ _ _ _ _ Hi') as Hr'. unfold unbounded in Hr'. rewrite Hn, extend_None in Hr'.
  split; [by eapply reachable_drained|]. split.
  - intros Hb. destruct (Hidle Hb) as [Ho Hq]. split; [done|]. by rewrite Hq.
  - intros Ho. rewrite Hrun. destruct (pl_preparing (bd_pipe b')) eqn:Hb; [|done]. destruct (Hidle eq_refl). congruence.
Qed.

End backpressure.

(** ** Witness *)

(** Channels of one place: an upload is offered, and the preparer holds it. *)
Notation SampleBounded :=
  (Bounded (SW := sample_writer true) (TW := sample_writer false) (Q := sample_sql)).
Notation sample_bounded_reachable :=
  (bounded_reachable (SW := sample_writer true) (TW := sample_writer false) (Q := sample_sql) 1
     sample_view sample_view [] []).
Definition sample_bounded : SampleBounded := mkBounded (with_queue sample_pipeline true [sample_up] true) None.
Definition sample_held : SampleBounded := (prepare_next sample_bounded sample_up []).2.

Lemma sample_held_reachable : sample_bounded_reachable sample_held.
Proof.
  destruct (prepare_next_fields sample_bounded sample_up []) as (Hq & _).
  eapply bounded_reach_step; [eapply bounded_reach_step; [apply bounded_reach_start| |]| |].
  - right. refine (bounded_offer 1 (mkBounded sample_pipeline None) sample_up _ _ _); [done|done|unfold has_room; cbn; lia].
  - repeat constructor; apply sample_up_well.
  - left. by apply (bounded_prepare 1 sample_bounded sample_up []).
  - fold sample_held in Hq. rewrite Hq. constructor.
Qed.

Lemma sample_holds : (if bd_held sample_held then true else false) = true.
Proof. vm_compute. reflexivity. Qed.

Lemma backpressure_drains_witness : bd_held sample_held ≠ None ∧ sn (bounded_moves 1) sample_held.
Proof.
  split; [pose proof sample_holds as Hh; destruct (bd_held sample_held); done|].
  refine (proj1 (proj2 (proj2 (proj2 (backpressure_drains _ _ _ _ _ _ _ _ _ sample_start_ok _ sample_held_reachable))))).
  lia.
Defined.
