(* ===== verification/BoundedConsumer.v ===== *)
(** * The consumer over bounded channels (bin/validator/src/run.rs, crates/indexer/src/publisher/qmdb.rs)

    The consumer of the upload queue (Consumer.v) on the pipeline whose channels
    are bounded (Backpressure.v): an entry is started only when the channel to
    the preparer takes it, and the preparer waits with the upload it prepared
    when the channel to the committer is full.  The whole refines the consumer
    over unbounded channels, so that nothing acknowledged is lost, and it still
    drains the queue. *)

From stdpp Require Import prelude gmap list strings relations.
From S2P Require Import Prelude Interfaces Concrete Transaction Database Block Execution Application Indexer Lookup Writers CommitPipeline CommitInvariant Lockstep UploadQueue Consumer Backpressure.

Section bounded.
Context `{LazyKey} `{ConsensusLib} {Row : Type}.
Context {SW : QmdbWriter Row (AnyOperation bytes)} {TW : QmdbWriter Row (KeylessOperation digest)}
  {Q : SqlBatchWriter Row}.
Notation Pipeline := (Pipeline (SW := SW) (TW := TW) (Q := Q)).
Notation Prepared := (PreparedQmdbUpload (SW := SW) (TW := TW)).
Notation Consumer := (Consumer (SW := SW) (TW := TW) (Q := Q)).
Notation Bounded := (Bounded (SW := SW) (TW := TW) (Q := Q)).
Variables (LS : QmdbWriterLaws SW) (LT : QmdbWriterLaws TW) (LQ : SqlWriterLaws Q).
Variables (buffer max_active : nat) (state0 transaction0 : Z).

(** The consumer, its pipeline holding the contents of the channels, and the
    upload the preparer waits with. *)
Record BoundedConsumer := mkBoundedConsumer { bc_node : Consumer; bc_held : option Prepared }.

Definition bc_pipe (b : BoundedConsumer) : Bounded := mkBounded (cs_pipe (bc_node b)) (bc_held b).

(** The loop of the consumer and the tasks: an entry that goes through the
    pipeline needs room in its first channel. *)
Inductive bounded_consumer_work (b : BoundedConsumer) : BoundedConsumer → Prop :=
| bounded_consumer_starts c' :
    (length (cs_active (bc_node b)) < max_active)%nat → start_queued_upload (bc_node b) = Ret (Some c') →
    cs_pipe c' = cs_pipe (bc_node b) ∨ has_room buffer (pl_queue (cs_pipe (bc_node b))) →
    bounded_consumer_work b (mkBoundedConsumer c' (bc_held b))
| bounded_consumer_pipe p :
    bounded_moves buffer (bc_pipe b) p →
    bounded_consumer_work b (mkBoundedConsumer (with_pipe (bc_node b) (bd_pipe p)) (bd_held p))
| bounded_consumer_joins before a after :
    cs_active (bc_node b) = before ++ a :: after → upload_done (bc_node b) a →
    bounded_consumer_work b (mkBoundedConsumer (finish_upload (bc_node b) before a.1 after) (bc_held b)).

(** What else happens to the node; a crash loses what the channels and the
    preparer hold. *)
Inductive bounded_consumer_step (b : BoundedConsumer) : BoundedConsumer → Prop :=
| bounded_consumer_works b' : bounded_consumer_work b b' → bounded_consumer_step b b'
| bounded_consumer_append u s t :
    entry_well u → contiguous state0 transaction0 (cs_entries (bc_node b) ++ [u]) s t →
    bounded_consumer_step b (mkBoundedConsumer (append_entry (bc_node b) u) (bc_held b))
| bounded_consumer_syncs floor :
    (cs_floor (bc_node b) ≤ floor)%nat →
    (∀ i, (cs_floor (bc_node b) ≤ i < floor)%nat → i ∈ cs_acked (bc_node b)) →
    bounded_consumer_step b (mkBoundedConsumer (sync_floor (bc_node b) floor) (bc_held b))
| bounded_consumer_crash st tx sqlw :
    let store := pl_store (cs_pipe (bc_node b)) in
    recovered LS LT (read_pair LS LT (concat store)) st tx store → sql_buffer LQ sqlw = [] →
    bounded_consumer_step b
      (mkBoundedConsumer (consumer_start (cs_entries (bc_node b)) (cs_floor (bc_node b)) st tx sqlw store) None).

Inductive bounded_consumer_reachable : BoundedConsumer → Prop :=
| bounded_consumer_reach_start st tx sqlw store :
    recovered LS LT (read_pair LS LT (concat store)) st tx store → sql_buffer LQ sqlw = [] →
    location_ok (read_pair LS LT (concat store)).1 → location_ok (read_pair LS LT (concat store)).2 →
    next_writer_location (read_pair LS LT (concat store)).1 = state0 →
    next_writer_location (read_pair LS LT (concat store)).2 = transaction0 →
    bounded_consumer_reachable (mkBoundedConsumer (consumer_start [] 0 st tx sqlw store) None)
| bounded_consumer_reach_step b b' :
    bounded_consumer_reachable b → bounded_consumer_step b b' → bounded_consumer_reachable b'.

(** ** The refinement *)

(** The consumer with everything its pipeline holds. *)
Definition lift (h : option Prepared) (c : Consumer) : Consumer := with_pipe c (extend h (cs_pipe c)).
Definition unbounded_consumer (b : BoundedConsumer) : Consumer := lift (bc_held b) (bc_node b).

Lemma lift_None c : lift None c = c.
Proof. destruct c. unfold lift. cbn. by rewrite extend_None. Qed.

Lemma lift_start h c :
  start_queued_upload (lift h c)
  = match start_queued_upload c with Ret r => Ret (option_map (lift h) r) | Panic why => Panic why end.
Proof.
  unfold start_queued_upload. cbn [lift with_pipe cs_entries cs_read cs_publisher cs_pipe].
  destruct (cs_entries c !! cs_read c) as [u|]; [|done].
  change (pl_preparing (extend h (cs_pipe c))) with (pl_preparing (cs_pipe c)).
  destruct (enqueue_queued_finalized _ _ _) as [[[[]|] pub]|]; done.
Qed.

(** Steps of the tasks on an open channel. *)
Lemma bounded_pipe_step (p p' : Bounded) :
  (pl_preparing (bd_pipe p) = false → bd_held p = None) → pl_open (bd_pipe p) = true → bounded_moves buffer p p' →
  (unbounded p' = unbounded p ∧ bd_held p ≠ None ∧ bd_held p' = None) ∨ pipe_step buffer (unbounded p) (unbounded p').
Proof.
  intros Hh Ho Hm. inversion Hm as [up rest Hb Hn Hq Hp'| |u Hu Hroom Hp'|Hb Hn Hcl Hq Hp'|r Hc Hp'|r Ht Hp'].
  - right. right. right. exists up, rest. rewrite (proj2 (extend_prepare _ up rest Hn)). done.
  - left. unfold send_prepared in Hp'. destruct (pl_running (bd_pipe p)); [|done]. injection Hp' as <-.
    unfold unbounded. rewrite Hu. cbn [bd_pipe bd_held]. rewrite extend_None. done.
  - congruence.
  - apply bind_Ret in Hp' as (p1 & -> & [= <-]). right. left. by apply (extend_committer buffer _ _ _ Hh) in Hc.
  - apply bind_Ret in Hp' as (p1 & -> & [= <-]). right. right. left. by apply (extend_task (bd_held p)) in Ht.
Qed.

Definition refines_work (b b' : BoundedConsumer) : Prop :=
  (unbounded_consumer b' = unbounded_consumer b ∧ bc_held b ≠ None ∧ bc_held b' = None) ∨
  consumer_work buffer max_active (unbounded_consumer b) (unbounded_consumer b').

Lemma bounded_work_refines b b' :
  (pl_preparing (cs_pipe (bc_node b)) = false → bc_held b = None) → pl_open (cs_pipe (bc_node b)) = true →
  bounded_consumer_work b b' → refines_work b b'.
Proof.
  intros Hh Ho [c' Hact Hc _|p Hp|before a after Ha Hd].
  - right. apply consumer_starts; [done|]. unfold unbounded_consumer. cbn [bc_node bc_held]. by rewrite lift_start, Hc.
  - destruct (bounded_pipe_step (bc_pipe b) p Hh Ho Hp) as [(E & Hn & Hn')|Hs]; [left|right].
    + split; [|done]. unfold unbounded_consumer, lift. cbn [bc_node bc_held].
      change (extend (bd_held p) (cs_pipe (with_pipe (bc_node b) (bd_pipe p)))) with (unbounded p). by rewrite E.
    + by apply (consumer_pipe _ _ (unbounded_consumer b) (unbounded p)).
  - right. by apply (consumer_joins _ _ (unbounded_consumer b) before a after).
Qed.

(** ** The invariant *)

Variable LR : StoreLaws LS LT LQ.
Notation consumer_reachable := (consumer_reachable LS LT LQ buffer max_active state0 transaction0).

Record bounded_consumer_inv (b : BoundedConsumer) : Prop := {
  bn_refines : consumer_reachable (unbounded_consumer b);
  bn_queue : (length (pl_queue (cs_pipe (bc_node b))) ≤ buffer)%nat;
  bn_ready : (length (pl_ready (cs_pipe (bc_node b))) ≤ buffer)%nat;
  bn_held : pl_preparing (cs_pipe (bc_node b)) = false → bc_held b = None }.

(** The pipeline of the consumer is one of Backpressure.v, its channel open. *)
Lemma consumer_bounded b :
  bounded_consumer_inv b →
  pl_open (cs_pipe (bc_node b)) = true ∧
  ∃ st tx sqlw store, start_ok LS LT LQ st tx sqlw ∧ bounded_inv buffer st tx sqlw store (bc_pipe b).
Proof.
  intros [Hr Hq Hre Hh]. destruct (consumer_session LS LT LQ buffer max_active state0 transaction0 LR _ Hr) as (base & sp & Hs).
  split; [exact (si_open _ _ _ _ _ _ _ _ _ Hs)|].
  destruct (si_reach _ _ _ _ _ _ _ _ _ Hs) as (st & tx & sqlw & store & Hrec & Hsq & Hreach).
  exists st, tx, sqlw, store. split; [by eapply recovered_start|]. by constructor.
Qed.

Lemma start_keeps (c c' : Consumer) :
  start_queued_upload c = Ret (Some c') →
  cs_pipe c' = cs_pipe c ∨
  ∃ up, cs_pipe c' = with_queue (cs_pipe c) (pl_open (cs_pipe c)) (pl_queue (cs_pipe c) ++ [up]) (pl_preparing (cs_pipe c)).
Proof.
  unfold start_queued_upload. destruct (cs_entries c !! cs_read c) as [u|]; [|done].
  intros ([[r|] pub] & _ & Hc)%bind_Ret; [|done]. injection Hc as <-. destruct r; [by left|right; by eexists].
Qed.

Lemma bounded_consumer_work_inv b b' :
  bounded_consumer_inv b → bounded_consumer_work b b' → bounded_consumer_inv b' ∧ refines_work b b'.
Proof.
  intros Hi Hw. destruct (consumer_bounded b Hi) as (Ho & st & tx & sqlw & store & Hstart & Hb).
  pose proof Hi as [Hr Hq Hre Hh]. pose proof (bounded_work_refines b b' Hh Ho Hw) as Href. split; [|done].
  assert (consumer_reachable (unbounded_consumer b')) as Hr'.
  { destruct Href as [[-> _]|Hs]; [done|]. eapply consumer_reach_step; [exact Hr|by apply consumer_works]. }
  destruct Hw as [c' _ Hc Hroom|p Hp|before a after _ _].
  - constructor; [done|..]; cbn [bc_node bc_held];
      destruct (start_keeps _ _ Hc) as [->|[up E]]; try done; rewrite E; cbn [with_queue pl_queue pl_ready pl_preparing]; try done.
    rewrite length_app. cbn [length]. destruct Hroom as [Hroom|Hroom]; [|unfold has_room in Hroom; lia].
    rewrite E in Hroom. apply (f_equal (λ p, length (pl_queue p))) in Hroom. cbn in Hroom. rewrite length_app in Hroom. cbn in Hroom. lia.
  - destruct (bounded_work_moves buffer LS LT LQ _ _ _ _ _ _ Hstart Hb Hp) as [_ [_ Hq' Hre' Hh'] _]. by constructor.
  - by constructor.
Qed.

Lemma bounded_consumer_reachable_inv b : bounded_consumer_reachable b → bounded_consumer_inv b.
Proof.
  induction 1 as [st tx sqlw store|b b' _ IH Hstep].
  - constructor; [|cbn; lia..|done]. unfold unbounded_consumer. cbn [bc_node bc_held]. rewrite lift_None. by constructor.
  - pose proof IH as [Hr Hq Hre Hh].
    destruct Hstep as [b' Hw|u s t Hu Hc|floor Hle Hall|st tx sqlw store Hrec Hsq].
    + by apply (bounded_consumer_work_inv b b').
    + constructor; [|done..]. eapply consumer_reach_step; [exact Hr|].
      by apply (consumer_append _ _ _ _ _ _ _ (unbounded_consumer b) u s t).
    + constructor; [|done..]. eapply consumer_reach_step; [exact Hr|].
      by apply (consumer_syncs _ _ _ _ _ _ _ (unbounded_consumer b) floor).
    + constructor; [|cbn; lia..|done]. unfold unbounded_consumer at 1. cbn [bc_node bc_held]. rewrite lift_None.
      eapply consumer_reach_step; [exact Hr|]. by apply (consumer_crash _ _ _ _ _ _ _ (unbounded_consumer b) st tx sqlw).
Qed.

(** ** Draining *)

Definition bounded_backlog (b : BoundedConsumer) : nat :=
  2 * backlog (unbounded_consumer b) + match bc_held b with Some _ => 1 | None => 0 end.

Lemma refines_work_backlog b b' :
  bounded_consumer_inv b → refines_work b b' →
  (bounded_backlog b' < bounded_backlog b)%nat ∧ cs_entries (bc_node b') = cs_entries (bc_node b).
Proof.
  intros [Hr _ _ _] Href. unfold bounded_backlog. destruct Href as [(E & Hn & Hn')|Hs].
  - rewrite E, Hn'. split; [destruct (bc_held b); [lia|done]|]. exact (f_equal cs_entries E).
  - destruct (consumer_session LS LT LQ buffer max_active state0 transaction0 LR _ Hr) as (base & sp & Hse).
    destruct (work_backlog LS LT LQ buffer max_active state0 transaction0 LR _ _ _ _ Hse Hs) as [Hlt He].
    split; [destruct (bc_held b), (bc_held b'); lia|exact He].
Qed.

Lemma bounded_consumer_sn b : bounded_consumer_inv b → sn bounded_consumer_work b.
Proof.
  remember (bounded_backlog b) as k eqn:Hk. revert b Hk. induction (lt_wf k) as [k _ IH]. intros b -> Hi.
  constructor. intros b' Hstep. destruct (bounded_consumer_work_inv b b' Hi Hstep) as [Hi' Href].
  eapply IH; [by apply refines_work_backlog|done|done].
Qed.

(** A consumer that cannot move over bounded channels cannot over unbounded
    ones. *)
Lemma bounded_consumer_stuck b :
  bounded_consumer_inv b → (0 < buffer)%nat → nf bounded_consumer_work b → pl_preparing (cs_pipe (bc_node b)) = true →
  bc_held b = None ∧ nf (consumer_work buffer max_active) (bc_node b).
Proof.
  intros Hi Hbuf Hnf Hprep. destruct (consumer_bounded b Hi) as (_ & st & tx & sqlw & store & Hstart & Hb).
  destruct (bounded_stuck buffer LS LT LQ _ _ _ _ _ Hstart Hbuf Hb) as (Hn & _ & _ & _ & Hidle).
  { intros [p Hp]. apply Hnf. eexists. by apply bounded_consumer_pipe. }
  cbn in Hn. split; [done|]. destruct (Hidle Hprep) as [_ Hq]. cbn in Hq. intros [c' Hw]. apply Hnf.
  destruct Hw as [c' Hact Hc|p Hp|before a after Ha Hd].
  - eexists. apply (bounded_consumer_starts b c'); [done|done|]. right. by rewrite Hq.
  - destruct Hp as [Hc|[Ht|(up & rest & _ & Hq' & _)]]; [| |congruence].
    + eexists. apply (bounded_consumer_pipe b (mkBounded p (bc_held b))). exact (bounded_commit buffer (bc_pipe b) (Ret p) Hc).
    + eexists. apply (bounded_consumer_pipe b (mkBounded p (bc_held b))). exact (bounded_task buffer (bc_pipe b) (Ret p) Ht).
  - eexists. by apply (bounded_consumer_joins b before a after).
Qed.

(** C17. The queue drains through bounded channels.  Every state of the node, with
    its channels of any positive capacity and through any crashes, is one of the
    node over unbounded channels, so that what is acknowledged is in the store;
    as long as it does not crash, the consumer and the tasks take finitely many
    steps, in every order, before they need a new entry: waiting for room never
    turns into a deadlock; and when they are done, every entry is acknowledged
    and in the store, unless the preparer has stopped on an entry that does not
    expand or that a writer refused. *)
Theorem bounded_queue_drains b :
  bounded_consumer_reachable b → (0 < buffer)%nat → (0 < max_active)%nat →
  consumer_reachable (unbounded_consumer b) ∧
  sn bounded_consumer_work b ∧
  ∀ b', rtc bounded_consumer_work b b' → nf bounded_consumer_work b' → pl_preparing (cs_pipe (bc_node b')) = true →
    cs_entries (bc_node b') = cs_entries (bc_node b) ∧
    ∀ i e, cs_entries (bc_node b) !! i = Some e →
      ((i < cs_floor (bc_node b'))%nat ∨ i ∈ cs_acked (bc_node b')) ∧
      entry_stored LS LT LQ (pl_store (cs_pipe (bc_node b'))) e.
Proof.
  intros Hi%bounded_consumer_reachable_inv Hbuf Hact. split; [apply Hi|]. split; [by apply bounded_consumer_sn|].
  intros b' Hrtc Hnf Hprep.
  assert (bounded_consumer_inv b' ∧ cs_entries (bc_node b') = cs_entries (bc_node b)) as [Hi' <-].
  { clear Hnf Hprep. induction Hrtc as [|b1 b2 b3 Hstep _ IH]; [done|].
    destruct (bounded_consumer_work_inv _ _ Hi Hstep) as [Hi2 Href].
    destruct (refines_work_backlog _ _ Hi Href) as [_ <-]. by apply IH. }
  destruct (bounded_consumer_stuck b' Hi' Hbuf Hnf Hprep) as [Hn Hnf'].
  pose proof (bn_refines _ Hi') as Hr. unfold unbounded_consumer in Hr. rewrite Hn, lift_None in Hr. split; [done|].
  by apply (queue_drains LS LT LQ buffer max_active state0 transaction0 LR _ Hr Hbuf Hact).
Qed.

End bounded.

(** ** Witness *)

Notation sample_bounded_consumer_reachable :=
  (bounded_consumer_reachable (sample_writer_laws true) (sample_writer_laws false) sample_sql_laws 1 2 0 0).

Definition sample_bounded_node
    : BoundedConsumer (SW := sample_writer true) (TW := sample_writer false) (Q := sample_sql) :=
  mkBoundedConsumer sample_node None.

Lemma sample_bounded_node_reachable : sample_bounded_consumer_reachable sample_bounded_node.
Proof.
  eapply bounded_consumer_reach_step.
  - apply (bounded_consumer_reach_start (sample_writer_laws true) (sample_writer_laws false) sample_sql_laws 1 2 0 0
      sample_view sample_view [] []); try done; by constructor.
  - eapply (bounded_consumer_append _ _ _ _ _ _ _ (mkBoundedConsumer _ None) sample_entry); [exact sample_entry_well|].
    exact (contiguous_cons sample_entry [] 4 _ _ sample_entry_end (contiguous_nil _ _)).
Qed.

Lemma bounded_queue_drains_witness :
  sn (bounded_consumer_work (SW := sample_writer true) (TW := sample_writer false) (Q := sample_sql) 1 2)
    sample_bounded_node.
Proof.
  refine (proj1 (proj2 (bounded_queue_drains _ _ _ _ _ _ _ sample_store_laws sample_bounded_node
    sample_bounded_node_reachable _ _))); lia.
Defined.
