(* ===== verification/Connect.v ===== *)
(** * Connecting the publisher (crates/indexer/src/publisher/qmdb.rs, bin/validator/src/run.rs)

    [Publisher::connect]: the two namespaces of the store, the recovery of the
    writers from their watermarks and the cursors it resumes at; the loop of
    [LazyPublisher] around it; retried commits and the end of the tasks.  The
    theorem shows where a node resumes, and up to which size of the log it can
    resume at all. *)

From stdpp Require Import prelude list strings.
From S2P Require Import Prelude Interfaces Concrete Transaction Block Indexer Lookup Writers CommitPipeline CommitInvariant Lockstep Consumer.

(** ** The store's client library *)

(** Clients of a store at a URL, narrowed to the keys with a prefix: a value
    that fits its reserved bits is one. *)
Class StoreLib := {
  StoreClient : Type;
  StoreKeyPrefix : Type;
  client_new : string → StoreClient;
  key_prefix_new : Z → Z → option StoreKeyPrefix;
  with_key_prefix : StoreClient → StoreKeyPrefix → StoreClient;
  client_url : StoreClient → string;
  client_prefix : StoreClient → option (Z * Z);
  client_new_law url : client_url (client_new url) = url ∧ client_prefix (client_new url) = None;
  key_prefix_law bits value :
    0 < bits ≤ 16 → 0 ≤ value < 2 ^ bits →
    ∃ p, key_prefix_new bits value = Some p ∧
      ∀ c, client_url (with_key_prefix c p) = client_url c ∧ client_prefix (with_key_prefix c p) = Some (bits, value)
}.

(** ** Definitions *)

Definition STATE_QMDB_PREFIX_VALUE : Z := 8.
Definition TRANSACTIONS_QMDB_PREFIX_VALUE : Z := 9.
Definition STORE_PREFIX_RESERVED_BITS : Z := 4.
Definition MAX_BUFFERED_QMDB_UPLOADS : Z := 64.

(** [recover_writer_state]: [fetch] reads the checkpoint of the operations up
    to a watermark, at most so many. *)
Definition recover_writer_state {C W} (empty : W) (from_checkpoint : C → result string W) (watermark : option Z)
    (fetch : Z → Z → result string C) : result PublishError W :=
  match watermark with
  | None => Ok empty
  | Some watermark =>
      max ← recover_checkpoint_size watermark;
      checkpoint ← map_err Qmdb (fetch watermark max);
      map_err Qmdb (from_checkpoint checkpoint)
  end.

Section clients.
Context `{StoreLib}.

Definition state_qmdb_prefix : option StoreKeyPrefix :=
  key_prefix_new STORE_PREFIX_RESERVED_BITS STATE_QMDB_PREFIX_VALUE.
Definition transactions_qmdb_prefix : option StoreKeyPrefix :=
  key_prefix_new STORE_PREFIX_RESERVED_BITS TRANSACTIONS_QMDB_PREFIX_VALUE.
Definition state_qmdb_client (client : StoreClient) : result PublishError StoreClient :=
  with_key_prefix client <$> ok_or state_qmdb_prefix Prefix.
Definition transactions_qmdb_client (client : StoreClient) : result PublishError StoreClient :=
  with_key_prefix client <$> ok_or transactions_qmdb_prefix Prefix.
End clients.

(** What the library makes of a checkpoint, and a writer of that state. *)
Record Recovery `{StoreLib} {Row Op} (W : QmdbWriter Row Op) := mkRecovery {
  Checkpoint : Type;
  WriterState : Type;
  state_empty : WriterState;
  from_checkpoint : Checkpoint → result string WriterState;
  writer_new : StoreClient → WriterState → Writer W }.
Arguments Checkpoint {_ Row Op W}.
Arguments WriterState {_ Row Op W}.
Arguments state_empty {_ Row Op W}.
Arguments from_checkpoint {_ Row Op W}.
Arguments writer_new {_ Row Op W}.

(** What a log's clients read during one attempt to connect. *)
Record LogReads `{StoreLib} (C : Type) := mkLogReads {
  writer_location_watermark : StoreClient → result string (option Z);
  operation_range_checkpoint : StoreClient → Z → Z → Z → result string C }.
Arguments mkLogReads {_ C}.
Arguments writer_location_watermark {_ C}.
Arguments operation_range_checkpoint {_ C}.

(** [recover_state_writer_state] and [recover_transaction_writer_state]. *)
Definition recover_log `{StoreLib} {Row Op} {W : QmdbWriter Row Op} (R : Recovery W) (reads : LogReads (Checkpoint R))
    (client : StoreClient) : result PublishError (WriterState R) :=
  watermark ← map_err Qmdb (writer_location_watermark reads client);
  recover_writer_state (state_empty R) (from_checkpoint R) watermark
    (λ watermark max, operation_range_checkpoint reads client watermark 0 max).

Section connect.
Context `{LazyKey} `{ConsensusLib} `{StoreLib} {Row : Type}.
Context {SW : QmdbWriter Row (AnyOperation bytes)} {TW : QmdbWriter Row (KeylessOperation digest)}
  {Q : SqlBatchWriter Row}.
Variables (RS : Recovery SW) (RT : Recovery TW).

(** One attempt of [Publisher::connect]: [schema] is the SQL writer the schema
    gives, [store] what the store holds.  With the publisher, its tasks and the
    number of uploads in flight. *)
Record Attempt := mkAttempt {
  at_state : LogReads (Checkpoint RS); at_transactions : LogReads (Checkpoint RT);
  at_schema : StoreClient → result string (BatchWriter Q); at_store : list (list Row) }.
Definition publisher_connect (store_url : string) (buffer : Z) (a : Attempt)
    : result PublishError (Publisher * Pipeline (SW := SW) (TW := TW) (Q := Q) * Z) :=
  let commit_client := client_new store_url in
  state_client ← state_qmdb_client commit_client;
  transaction_client ← transactions_qmdb_client commit_client;
  sql_writer ← map_err Indexer.SqlSchema (at_schema a commit_client);
  state ← recover_log RS (at_state a) state_client;
  transactions ← recover_log RT (at_transactions a) transaction_client;
  let state_writer := writer_new RS state_client state in
  let transaction_writer := writer_new RT transaction_client transactions in
  let buffer := Z.max 1 (Z.min buffer MAX_BUFFERED_QMDB_UPLOADS) in
  Ok (connect state_writer transaction_writer sql_writer (at_store a), buffer).

(** [LazyPublisher::publisher]: the publisher kept so far, or the first
    connection that succeeds; none while every attempt failed. *)
Fixpoint lazy_publisher {P} (kept : option P) (attempts : list (result PublishError P)) : option P :=
  match kept, attempts with
  | Some p, _ => Some p
  | None, [] => None
  | None, Ok p :: _ => Some p
  | None, Err _ :: attempts' => lazy_publisher None attempts'
  end.
End connect.

(** [commit_with_retry] on what the store answers: the sequence number of the
    first success and the waits before it, in milliseconds. *)
Fixpoint commit_with_retry (attempt : Z) (answers : list (result string Z)) : option Z * list Z :=
  match answers with
  | [] => (None, [])
  | Ok seq :: _ => (Some seq, [])
  | Err _ :: answers' =>
      let attempt := Z.min (attempt + 1) (2 ^ 32 - 1) in
      let '(r, waits) := commit_with_retry attempt answers' in (r, retry_backoff attempt :: waits)
  end.

(** [await_qmdb_worker] and [Publisher::shutdown] on how the two tasks ended. *)
Inductive JoinResult : Type := JoinOk | JoinCancelled | JoinFailed (error : string).
Definition await_qmdb_worker (join : JoinResult) (name : string) : run unit :=
  match join with
  | JoinOk | JoinCancelled => Ret ()
  | JoinFailed error => Panic ("QMDB " +:+ name +:+ " worker task failed: " +:+ error)
  end.
Definition publisher_shutdown (prepare_join commit_join : option JoinResult) : run unit :=
  _ ← match prepare_join with Some j => await_qmdb_worker j "preparer" | None => Ret () end;
  match commit_join with Some j => await_qmdb_worker j "committer" | None => Ret () end.

(** [current_time_micros]; [elapsed] is none for a clock before the epoch, and
    the conversion keeps the low 64 bits. *)
Definition as_i64 (x : Z) : Z := let y := wrap64 x in if y <? 2 ^ 63 then y else y - 2 ^ 64.
Definition current_time_micros (elapsed : option Z) : Z := default 0 (as_i64 <$> elapsed).

(** ** Lemmas *)

Lemma retry_backoff_range attempt : 1 ≤ attempt → 200 ≤ retry_backoff attempt ≤ 2000.
Proof.
  intros Ha. unfold retry_backoff. rewrite Z.shiftl_1_l.
  assert (2 ^ 1 ≤ 2 ^ Z.min attempt 5) as H2 by (apply Z.pow_le_mono_r; lia). lia.
Qed.

Lemma commit_with_retry_first attempt failures seq rest :
  0 ≤ attempt →
  let '(r, waits) := commit_with_retry attempt ((Err <$> failures) ++ Ok seq :: rest) in
  r = Some seq ∧ length waits = length failures ∧ Forall (λ w, 200 ≤ w ≤ 2000) waits.
Proof.
  revert attempt. induction failures as [|e failures IH]; intros attempt Ha; cbn; [by repeat constructor|].
  specialize (IH (Z.min (attempt + 1) (2 ^ 32 - 1)) ltac:(lia)). destruct (commit_with_retry _ _) as [r waits].
  destruct IH as (-> & Hl & Hw). split_and!; [done|cbn; lia|]. constructor; [|done].
  by apply retry_backoff_range; lia.
Qed.

Section namespaces.
Context `{StoreLib}.

(** The two clients address the same store under different prefixes. *)
Lemma log_clients url :
  ∃ s t, state_qmdb_client (client_new url) = Ok s ∧ transactions_qmdb_client (client_new url) = Ok t ∧
    client_url s = url ∧ client_url t = url ∧
    client_prefix s = Some (STORE_PREFIX_RESERVED_BITS, STATE_QMDB_PREFIX_VALUE) ∧
    client_prefix t = Some (STORE_PREFIX_RESERVED_BITS, TRANSACTIONS_QMDB_PREFIX_VALUE).
Proof.
  destruct (client_new_law url) as [Hu _].
  destruct (key_prefix_law STORE_PREFIX_RESERVED_BITS STATE_QMDB_PREFIX_VALUE) as (p & Hp & Hc); [done..|].
  destruct (key_prefix_law STORE_PREFIX_RESERVED_BITS TRANSACTIONS_QMDB_PREFIX_VALUE) as (q & Hq & Hd); [done..|].
  unfold state_qmdb_client, transactions_qmdb_client, state_qmdb_prefix, transactions_qmdb_prefix.
  destruct (Hc (client_new url)) as [Hc1 Hc2]. destruct (Hd (client_new url)) as [Hd1 Hd2].
  rewrite Hp, Hq. eexists _, _. split_and!; [done..|congruence|congruence|exact Hc2|exact Hd2].
Qed.
End namespaces.

(** The number of locations a checkpoint is read for. *)
Lemma recover_checkpoint_size_ok w : 0 ≤ w → w + 1 < 2 ^ 32 → recover_checkpoint_size w = Ok (w + 1).
Proof.
  intros Hw Hl. unfold recover_checkpoint_size, checked_add. rewrite decide_True by (unfold u64_max; lia). cbn.
  by rewrite (proj2 (Z.ltb_lt _ _)).
Qed.

Lemma recover_checkpoint_size_large w : 2 ^ 32 - 1 ≤ w → ∃ n, recover_checkpoint_size w = Err (CheckpointTooLarge n).
Proof.
  intros Hw. unfold recover_checkpoint_size, checked_add. case_decide; cbn; [|by eexists].
  rewrite (proj2 (Z.ltb_ge _ _)) by lia. by eexists.
Qed.

Lemma lazy_publisher_failed {P} (attempts : list (result PublishError P)) :
  Forall (λ r, ∃ e, r = Err e) attempts → lazy_publisher None attempts = None.
Proof. induction 1 as [|r attempts [e ->] _ IH]; done. Qed.

(** A log read from the rows of the store, and the writer a checkpoint gives:
    nothing pending and published up to the watermark. *)
Record faithful_log `{StoreLib} {Row Op} {W : QmdbWriter Row Op} (L : QmdbWriterLaws W) (R : Recovery W)
    (reads : LogReads (Checkpoint R)) (client : StoreClient) (rows : list Row) : Prop := {
  fl_watermark : writer_location_watermark reads client = Ok (list_max (omap (row_watermark L) rows));
  fl_checkpoint w :
    list_max (omap (row_watermark L) rows) = Some w → 0 ≤ w → w + 1 < 2 ^ 32 →
    ∃ c s, operation_range_checkpoint reads client w 0 (w + 1) = Ok c ∧ from_checkpoint R c = Ok s ∧
      writer_view L (writer_new R client s) = mkView [] ∅ (Some w);
  fl_empty : writer_view L (writer_new R client (state_empty R)) = mkView [] ∅ None }.

(** A watermark that recovery can read up to. *)
Definition recoverable (watermark : option Z) : Prop := ∀ w, watermark = Some w → 0 ≤ w ∧ w + 1 < 2 ^ 32.

Lemma recover_log_ok `{StoreLib} {Row Op} {W : QmdbWriter Row Op} (L : QmdbWriterLaws W) (R : Recovery W)
    (reads : LogReads (Checkpoint R)) (client : StoreClient) (rows : list Row) :
  faithful_log L R reads client rows → recoverable (list_max (omap (row_watermark L) rows)) →
  ∃ s, recover_log R reads client = Ok s ∧
    writer_view L (writer_new R client s) = mkView [] ∅ (list_max (omap (row_watermark L) rows)).
Proof.
  intros [Hw Hc He] Hr. unfold recover_log, recover_writer_state. rewrite Hw. cbn [map_err mbind result_bind].
  destruct (list_max _) as [w|] eqn:E; [|by eexists]. destruct (Hr w eq_refl) as [H0 Hlt].
  destruct (Hc w eq_refl H0 Hlt) as (c & s & Hf & Hs & Hv). rewrite recover_checkpoint_size_ok by done.
  cbn [mbind result_bind]. rewrite Hf. cbn [map_err mbind result_bind]. rewrite Hs. by exists s.
Qed.

Lemma recover_log_large `{StoreLib} {Row Op} {W : QmdbWriter Row Op} (R : Recovery W)
    (reads : LogReads (Checkpoint R)) (client : StoreClient) w :
  writer_location_watermark reads client = Ok (Some w) → 2 ^ 32 - 1 ≤ w → ∃ e, recover_log R reads client = Err e.
Proof.
  intros Hw Hl. unfold recover_log, recover_writer_state. rewrite Hw. cbn [map_err mbind result_bind].
  destruct (recover_checkpoint_size_large w Hl) as [n ->]. by eexists.
Qed.

(** ** Properties *)

Section recovery.
Context `{LazyKey} `{ConsensusLib} `{StoreLib} {Row : Type}.
Context {SW : QmdbWriter Row (AnyOperation bytes)} {TW : QmdbWriter Row (KeylessOperation digest)}
  {Q : SqlBatchWriter Row}.
Variables (RS : Recovery SW) (RT : Recovery TW).
Variables (LS : QmdbWriterLaws SW) (LT : QmdbWriterLaws TW) (LQ : SqlWriterLaws Q).

(** An attempt that reads the rows of the store, through the client of each
    namespace. *)
Record faithful_attempt (url : string) (a : Attempt RS RT (Q := Q)) (s t : StoreClient) : Prop := {
  fa_state_client : state_qmdb_client (client_new url) = Ok s;
  fa_transactions_client : transactions_qmdb_client (client_new url) = Ok t;
  fa_state : faithful_log LS RS (at_state _ _ a) s (concat (at_store _ _ a));
  fa_transactions : faithful_log LT RT (at_transactions _ _ a) t (concat (at_store _ _ a)) }.

(** An attempt that finds a watermark past what recovery can read. *)
Definition oversized (s t : StoreClient) (a : Attempt RS RT (Q := Q)) : Prop :=
  (∃ w, writer_location_watermark (at_state _ _ a) s = Ok (Some w) ∧ 2 ^ 32 - 1 ≤ w) ∨
  (∃ w, writer_location_watermark (at_transactions _ _ a) t = Ok (Some w) ∧ 2 ^ 32 - 1 ≤ w).

Lemma connect_oversized url buffer a s t :
  state_qmdb_client (client_new url) = Ok s → transactions_qmdb_client (client_new url) = Ok t → oversized s t a →
  ∃ e, publisher_connect RS RT url buffer a = Err e.
Proof.
  intros Hs Ht Hlarge. unfold publisher_connect. rewrite Hs. cbn [mbind result_bind]. rewrite Ht. cbn [mbind result_bind].
  destruct (at_schema _ _ a (client_new url)); [|by eexists]. cbn [map_err mbind result_bind].
  destruct Hlarge as [(w & Hw & Hl)|(w & Hw & Hl)].
  - destruct (recover_log_large RS (at_state _ _ a) s w Hw Hl) as [e ->]. by eexists.
  - destruct (recover_log RS (at_state _ _ a) s); [|by eexists]. cbn [mbind result_bind].
    destruct (recover_log_large RT (at_transactions _ _ a) t w Hw Hl) as [e ->]. by eexists.
Qed.

(** C18. Where a restarted node resumes.  Connecting to a store whose two logs
    are shorter than 2 ^ 32 operations succeeds, and is the restart of the
    consumer's model: the writers hold nothing pending and are published up to
    the watermarks in the store, so the publisher takes the entries that follow
    them; between 1 and 64 uploads are in flight.  Once either log has reached
    2 ^ 32 operations no list of attempts connects, whatever the store answers
    otherwise: the node then waits for its publisher for ever. *)
Theorem recovery_window url buffer in_flight active state0 transaction0
    (c : Consumer (SW := SW) (TW := TW) (Q := Q)) a s t sqlw :
  faithful_attempt url a s t → at_store _ _ a = pl_store (cs_pipe c) →
  at_schema _ _ a (client_new url) = Ok sqlw → sql_buffer LQ sqlw = [] →
  let '(ws, wt) := read_pair LS LT (concat (at_store _ _ a)) in
  (recoverable ws → recoverable wt →
   ∃ st tx publisher pipe n,
     publisher_connect RS RT url buffer a = Ok (publisher, pipe, n) ∧ 1 ≤ n ≤ MAX_BUFFERED_QMDB_UPLOADS ∧
     (publisher, pipe) = connect st tx sqlw (at_store _ _ a) ∧
     state_next_location publisher = next_writer_location ws ∧
     transaction_next_location publisher = next_writer_location wt ∧
     consumer_step LS LT LQ in_flight active state0 transaction0 c
       (consumer_start (cs_entries c) (cs_floor c) st tx sqlw (at_store _ _ a))) ∧
  (∀ attempts, Forall (oversized s t) attempts →
     lazy_publisher None (publisher_connect RS RT url buffer <$> attempts) = None).
Proof.
  intros [Hs Ht Hfs Hft] Hstore Hsql Hq. unfold read_pair. split.
  - intros Hrs Hrt. destruct (recover_log_ok LS RS _ s _ Hfs Hrs) as (ss & Hrec1 & Hv1).
    destruct (recover_log_ok LT RT _ t _ Hft Hrt) as (ts & Hrec2 & Hv2).
    assert (recovered LS LT (read_pair LS LT (concat (at_store _ _ a))) (writer_new RS s ss) (writer_new RT t ts)
              (at_store _ _ a)) as Hre by by constructor.
    unfold publisher_connect. rewrite Hs. cbn [mbind result_bind]. rewrite Ht. cbn [mbind result_bind].
    rewrite Hsql. cbn [map_err mbind result_bind]. rewrite Hrec1. cbn [mbind result_bind]. rewrite Hrec2.
    cbn [mbind result_bind]. eexists (writer_new RS s ss), (writer_new RT t ts), _, _, _. split; [reflexivity|].
    split; [unfold MAX_BUFFERED_QMDB_UPLOADS; lia|]. split; [reflexivity|].
    cbn [state_next_location transaction_next_location].
    rewrite (published_ok LS), (published_ok LT), Hv1, Hv2. split_and!; [done..|].
    rewrite Hstore in Hre |- *. by apply consumer_crash.
  - intros attempts Hall. apply lazy_publisher_failed, Forall_fmap. eapply Forall_impl; [exact Hall|].
    intros a' Ha'. by eapply connect_oversized.
Qed.
End recovery.

(** ** Witnesses *)

#[export] Program Instance conc_store : StoreLib := {|
  StoreClient := string * option (Z * Z); StoreKeyPrefix := Z * Z;
  client_new url := (url, None); key_prefix_new b v := Some (b, v);
  with_key_prefix c p := (c.1, Some p); client_url := fst; client_prefix := snd |}.
Next Obligation. done. Qed.
Next Obligation. intros bits value _ _. by eexists. Qed.

(** A checkpoint is its watermark. *)
Definition sample_recovery {Op} (log : bool) : Recovery (sample_writer (Op := Op) log) :=
  mkRecovery _ _ _ (sample_writer log) Z (option Z) None (λ w, Ok (Some w)) (λ _ w, mkView [] ∅ w).
Definition sample_reads {Op} (log : bool) (rows : list SampleRow)
    : LogReads (Checkpoint (sample_recovery (Op := Op) log)) :=
  mkLogReads (λ _, Ok (list_max (omap (sample_read log) rows))) (λ _ w _ _, Ok w).
Definition sample_attempt (store : list (list SampleRow)) : Attempt (sample_recovery true) (sample_recovery false) (Q := sample_sql) :=
  mkAttempt (Q := sample_sql) _ _ (sample_reads true (concat store)) (sample_reads false (concat store))
    (λ _, Ok ([] : BatchWriter sample_sql)) store.

Lemma sample_log_faithful {Op} log client rows :
  faithful_log (sample_writer_laws (Op := Op) log) (sample_recovery log) (sample_reads log rows) client rows.
Proof. constructor; [done| |done]. intros w Hw _ _. by exists w, (Some w). Qed.

(** A store whose logs end at 4 and 7, and one with a log of 2 ^ 32
    operations. *)
Definition sample_store (state transactions : Z) : list (list SampleRow) :=
  [[SampleWatermark true state; SampleWatermark false transactions]].
Definition sample_stored (state transactions : Z) : SampleConsumer :=
  consumer_start (SW := sample_writer true) (TW := sample_writer false) (Q := sample_sql)
    [] 0 sample_view sample_view [] (sample_store state transactions).

Lemma recovery_window_witness :
  (∃ publisher pipe n,
     publisher_connect (sample_recovery true) (sample_recovery false) "http://store" 100 (sample_attempt (sample_store 4 7))
     = Ok (publisher, pipe, n) ∧ state_next_location publisher = 5 ∧ transaction_next_location publisher = 8) ∧
  lazy_publisher None (publisher_connect (sample_recovery true) (sample_recovery false) "http://store" 100
    <$> [sample_attempt (sample_store (2 ^ 32) 7); sample_attempt (sample_store (2 ^ 32) 7)]) = None.
Proof.
  assert (∀ store s t, state_qmdb_client (client_new "http://store") = Ok s →
    transactions_qmdb_client (client_new "http://store") = Ok t →
    faithful_attempt (sample_recovery true) (sample_recovery false) (sample_writer_laws true) (sample_writer_laws false)
      "http://store" (sample_attempt store) s t) as Hf
    by (intros; constructor; [done..|apply sample_log_faithful|apply sample_log_faithful]).
  destruct (log_clients "http://store") as (s & t & Hs & Ht & _).
  destruct (recovery_window (sample_recovery true) (sample_recovery false) (sample_writer_laws true)
    (sample_writer_laws false) sample_sql_laws "http://store" 100 2 2 0 0 (sample_stored 4 7)
    (sample_attempt (sample_store 4 7)) s t [] (Hf _ s t Hs Ht) eq_refl eq_refl eq_refl) as [Hok Hlarge].
  split.
  - edestruct Hok as (st & tx & publisher & pipe & n & Hc & _ & _ & H1 & H2 & _).
    { intros w Hw. vm_compute in Hw. injection Hw as <-. lia. }
    { intros w Hw. vm_compute in Hw. injection Hw as <-. lia. }
    exists publisher, pipe, n. split; [exact Hc|]. split; [exact H1|exact H2].
  - apply Hlarge. do 2 (constructor; [left; exists (2 ^ 32); split; [reflexivity|lia]|]). constructor.
Defined.
