(* ===== verification/Settings.v ===== *)
(** * A validator's settings (bin/validator/src/config.rs, run.rs)

    The YAML files a validator reads, the decoding of their keys, sockets and
    peers, the paths they are found under, and what [run_with_config] makes of
    them before it starts its tasks.  Derived deserializers are written field by
    field over a document type; what a file's text means, keys and key shares
    belong to libraries. *)

From Stdlib Require Import Floats.SpecFloat.
From stdpp Require Import prelude gmap list strings pretty.
From S2P Require Import Prelude Hex Interfaces Concrete Client Relayer Spammer.

(** ** Documents *)

(** The data model of serde_yaml. *)
Inductive Yaml : Type :=
| YNull
| YStr (s : string)
| YInt (n : Z)
| YFloat (x : f64)
| YSeq (l : list Yaml)
| YMap (l : list (string * Yaml)).

(** The text of a document, and the scalars a field accepts: of a string, an
    integer up to a bound, or a float. *)
Class YamlLib := {
  yaml_to_string : Yaml → string;
  yaml_from_str : string → option Yaml;
  de_string : Yaml → option string;
  de_uint : Z → Yaml → option Z;
  de_f64 : Yaml → option f64;
  yaml_law y : yaml_from_str (yaml_to_string y) = Some y;
  de_string_law s : de_string (YStr s) = Some s;
  de_uint_law m n : 0 ≤ n ≤ m → de_uint m (YInt n) = Some n;
  de_f64_law x : de_f64 (YFloat x) = Some x
}.

(** What [derive(Deserialize)] does with the members of a document: unknown
    fields are ignored, a repeated one is an error, a missing one takes its
    default or is an error. *)
Fixpoint field_values (k : string) (l : list (string * Yaml)) : list Yaml :=
  match l with
  | [] => []
  | (n, y) :: l' => if String.eqb n k then y :: field_values k l' else field_values k l'
  end.
Definition struct_fields (y : Yaml) : option (list (string * Yaml)) :=
  match y with YMap l => Some l | _ => None end.
Definition required {A} (de : Yaml → option A) (k : string) (l : list (string * Yaml)) : option A :=
  match field_values k l with [y] => de y | _ => None end.
Definition defaulted {A} (d : A) (de : Yaml → option A) (k : string) (l : list (string * Yaml)) : option A :=
  match field_values k l with [] => Some d | [y] => de y | _ => None end.
Definition de_seq {A} (de : Yaml → option A) (y : Yaml) : option (list A) :=
  match y with YSeq l => mapM de l | _ => None end.
Definition de_option {A} (de : Yaml → option A) (y : Yaml) : option (option A) :=
  match y with YNull => Some None | _ => Some <$> de y end.

Definition u16_max : Z := 2 ^ 16 - 1.
Definition u32_max : Z := 2 ^ 32 - 1.
Definition is_u16 (x : Z) : Prop := 0 ≤ x ≤ u16_max.
Definition is_u32 (x : Z) : Prop := 0 ≤ x ≤ u32_max.

(** ** Sockets *)

Inductive IpAddr : Type :=
| IpV4 (a b c d : Z)
| IpV6 (octets : bytes).
Record SocketAddr := mkSocket { sa_ip : IpAddr; sa_port : Z }.

(** The standard library's text of IPv6 addresses. *)
Class Ipv6Text := {
  ipv6_display : bytes → string;
  ipv6_socket : string → option SocketAddr
}.

Definition ip_display `{Ipv6Text} (ip : IpAddr) : string :=
  match ip with
  | IpV4 a b c d => pretty a +:+ "." +:+ pretty b +:+ "." +:+ pretty c +:+ "." +:+ pretty d
  | IpV6 o => ipv6_display o
  end.

(** [str::parse::<SocketAddr>]: four octets of at most three digits without
    leading zeros, and a port. *)
Fixpoint parse_digits (acc : Z) (l : bytes) : option Z :=
  match l with
  | [] => Some acc
  | b :: l' =>
      if (48 <=? byte_val b) && (byte_val b <=? 57)
      then parse_digits (acc * 10 + (byte_val b - 48)) l' else None
  end.
Definition read_number (max_digits : option nat) (allow_zero_prefix : bool) (max : Z) (l : bytes) : option Z :=
  if decide (l = []) then None
  else if negb allow_zero_prefix && bool_decide (head l = Some x30) && (1 <? length l)%nat then None
  else if match max_digits with Some d => (d <? length l)%nat | None => false end then None
  else n ← parse_digits 0 l; if n <=? max then Some n else None.
Definition read_octet : bytes → option Z := read_number (Some 3%nat) false 255.
Definition parse_ipv4 (l : bytes) : option IpAddr :=
  '(a, l) ← split_once_bytes x2e l;
  '(b, l) ← split_once_bytes x2e l;
  '(c, d) ← split_once_bytes x2e l;
  a ← read_octet a; b ← read_octet b; c ← read_octet c; d ← read_octet d;
  Some (IpV4 a b c d).
Definition parse_socket_v4 (l : bytes) : option SocketAddr :=
  '(ip, port) ← split_once_bytes x3a l;
  ip ← parse_ipv4 ip;
  port ← read_number None true u16_max port;
  Some (mkSocket ip port).
Definition socket_from_str `{Ipv6Text} (s : string) : option SocketAddr :=
  match parse_socket_v4 (bytes_of_string s) with
  | Some a => Some a
  | None => ipv6_socket s
  end.

(** ** Keys and key shares *)

(** commonware-formatting, and the distributed key generation of
    commonware-cryptography.  A deal over distinct participants succeeds and
    has one share for each; every value can be read back. *)
Class DkgLib `{Keys} := {
  hex : bytes → string;
  from_hex : string → option bytes;
  sk_write : ed_sk → bytes;
  sk_read : reader ed_sk;
  Share : Type;
  share_write : Share → bytes;
  share_read : reader Share;
  DkgOutput : Type;
  output_write : DkgOutput → bytes;
  output_read : Z → reader DkgOutput;
  output_public_key : DkgOutput → bytes;
  dkg_deal : Z → list ed_pk → option (DkgOutput * list (ed_pk * Share));
  hex_law b : from_hex (hex b) = Some b;
  hex_digits b : Forall (.∈ HEX) (bytes_of_string (hex b));
  hex_empty b : hex b = ""%string → b = [];
  sk_law k : sk_read (sk_write k) = Ok (k, []);
  share_law s : share_read (share_write s) = Ok (s, []);
  share_nonempty s : share_write s ≠ [];
  deal_law rng ps :
    ps ≠ [] → NoDup (fwrite <$> ps) →
    ∃ o shares, dkg_deal rng ps = Some (o, shares) ∧ shares.*1 ≡ₚ ps ∧
      output_read (zlen ps) (output_write o) = Ok (o, [])
}.

(** ** config.rs *)

Definition default_rayon_threads : Z := 2.
Definition default_metrics_port : Z := 9090.
Definition default_upload_buffer : Z := 64.
Definition default_max_propose_bytes : Z := 8 * 1024 * 1024.
Definition default_max_pool_bytes : Z := 64 * 1024 * 1024.
Definition default_prune_cadence_blocks : Z := 1024.
Definition default_relayer_retry_views : Z := 8.

Inductive StartupModeConfig : Type := MarshalSync | StateSync.
Record IndexerConfig := mkIndexerConfig { ix_chain_indexer_url : string; ix_upload_buffer : Z }.
Record RelayerLeaderConfig := mkLeaderConfig { rl_public_key : string; rl_url : string }.
Record RelayerConfig := mkRelayerConfig { rc_max_retry_views : Z; rc_leaders : list RelayerLeaderConfig }.
Record NamedBootstrapperEntry := mkBootstrapper { nb_public_key : string; nb_name : string }.
Record ValidatorConfig := mkValidatorConfig {
  vc_private_key : string; vc_dkg_output : string; vc_dkg_share : string;
  vc_startup : StartupModeConfig; vc_listen_port : Z; vc_genesis_leader : string;
  vc_partition_prefix : string; vc_num_validators : Z;
  vc_primary_validators : list string; vc_secondary_validators : list string;
  vc_log_level : string; vc_worker_threads : Z; vc_rayon_threads : Z;
  vc_http_port : Z; vc_metrics_port : Z; vc_max_propose_bytes : Z; vc_max_pool_bytes : Z;
  vc_prune_cadence_blocks : Z; vc_bootstrappers : list NamedBootstrapperEntry;
  vc_indexer : option IndexerConfig; vc_relayer : option RelayerConfig }.
Record PeerEntry := mkPeer { pe_name : string; pe_p2p : string; pe_http : string }.
Record PeersFile := mkPeers { pf_validators : list PeerEntry; pf_secondaries : list PeerEntry }.

Section derive.
Context `{YamlLib}.

Definition de_startup (y : Yaml) : option StartupModeConfig :=
  s ← de_string y;
  if String.eqb s "marshal_sync" then Some MarshalSync
  else if String.eqb s "state_sync" then Some StateSync else None.
Definition de_indexer (y : Yaml) : option IndexerConfig :=
  l ← struct_fields y;
  u ← required de_string "chain_indexer_url" l;
  b ← defaulted default_upload_buffer (de_uint u64_max) "upload_buffer" l;
  Some (mkIndexerConfig u b).
Definition de_leader (y : Yaml) : option RelayerLeaderConfig :=
  l ← struct_fields y;
  k ← required de_string "public_key" l; u ← required de_string "url" l;
  Some (mkLeaderConfig k u).
Definition de_relayer (y : Yaml) : option RelayerConfig :=
  l ← struct_fields y;
  m ← defaulted default_relayer_retry_views (de_uint u64_max) "max_retry_views" l;
  ls ← required (de_seq de_leader) "leaders" l;
  Some (mkRelayerConfig m ls).
Definition de_bootstrapper (y : Yaml) : option NamedBootstrapperEntry :=
  l ← struct_fields y;
  k ← required de_string "public_key" l; n ← required de_string "name" l;
  Some (mkBootstrapper k n).
Definition de_peer (y : Yaml) : option PeerEntry :=
  l ← struct_fields y;
  n ← required de_string "name" l; p ← required de_string "p2p" l; h ← required de_string "http" l;
  Some (mkPeer n p h).
Definition de_peers (y : Yaml) : option PeersFile :=
  l ← struct_fields y;
  v ← required (de_seq de_peer) "validators" l;
  s ← defaulted [] (de_seq de_peer) "secondaries" l;
  Some (mkPeers v s).
Definition de_validator (y : Yaml) : option ValidatorConfig :=
  l ← struct_fields y;
  private_key ← required de_string "private_key" l;
  dkg_output ← required de_string "dkg_output" l;
  dkg_share ← required de_string "dkg_share" l;
  startup ← defaulted MarshalSync de_startup "startup" l;
  listen_port ← required (de_uint u16_max) "listen_port" l;
  genesis_leader ← required de_string "genesis_leader" l;
  partition_prefix ← required de_string "partition_prefix" l;
  num_validators ← required (de_uint u32_max) "num_validators" l;
  primary_validators ← required (de_seq de_string) "primary_validators" l;
  secondary_validators ← required (de_seq de_string) "secondary_validators" l;
  log_level ← required de_string "log_level" l;
  worker_threads ← required (de_uint u64_max) "worker_threads" l;
  rayon_threads ← defaulted default_rayon_threads (de_uint u64_max) "rayon_threads" l;
  http_port ← required (de_uint u16_max) "http_port" l;
  metrics_port ← defaulted default_metrics_port (de_uint u16_max) "metrics_port" l;
  max_propose_bytes ← defaulted default_max_propose_bytes (de_uint u64_max) "max_propose_bytes" l;
  max_pool_bytes ← defaulted default_max_pool_bytes (de_uint u64_max) "max_pool_bytes" l;
  prune_cadence_blocks ←
    defaulted default_prune_cadence_blocks (de_uint u64_max) "prune_cadence_blocks" l;
  bootstrappers ← required (de_seq de_bootstrapper) "bootstrappers" l;
  indexer ← defaulted None (de_option de_indexer) "indexer" l;
  relayer ← defaulted None (de_option de_relayer) "relayer" l;
  Some (mkValidatorConfig private_key dkg_output dkg_share startup listen_port genesis_leader
    partition_prefix num_validators primary_validators secondary_validators log_level
    worker_threads rayon_threads http_port metrics_port max_propose_bytes max_pool_bytes
    prune_cadence_blocks bootstrappers indexer relayer).

(** The spammer's settings, as Spammer.v takes them. *)
Definition de_spammer (y : Yaml) : option SpammerConfig :=
  l ← struct_fields y;
  accounts ← required (de_uint u32_max) "accounts" l;
  value ← required (de_uint u64_max) "value" l;
  seed_offset ← required (de_uint u64_max) "seed_offset" l;
  rayon_threads ← defaulted DEFAULT_RAYON_THREADS (de_uint u64_max) "rayon_threads" l;
  http_port ← required (de_uint u16_max) "http_port" l;
  relayer_url ← required de_string "relayer_url" l;
  relayer_submitters ← defaulted 0 (de_uint u64_max) "relayer_submitters" l;
  presigned_batches ← defaulted DEFAULT_PRESIGNED_BATCHES (de_uint u64_max) "presigned_batches" l;
  primary_validators ← defaulted [] (de_seq de_string) "primary_validators" l;
  accounts_jitter ← defaulted (f64_of_usize 0) de_f64 "accounts_jitter" l;
  Some (mkSpammerConfig accounts value seed_offset rayon_threads http_port relayer_url
    relayer_submitters presigned_batches primary_validators accounts_jitter).

End derive.

(** ** Decoding *)

Section settings.
Context `{DkgLib} `{YamlLib} `{Ipv6Text}.

(** [struct DecodedConfig] and [LoadedConfig]. *)
Record DecodedConfig := mkDecoded {
  dc_signer : ed_sk; dc_public_key : ed_pk; dc_dkg_output : DkgOutput; dc_share : option Share;
  dc_genesis_leader : ed_pk; dc_listen_bind : SocketAddr; dc_listen_advertise : SocketAddr;
  dc_primary_participants : list ed_pk; dc_secondary_participants : list ed_pk;
  dc_bootstrappers : list (ed_pk * SocketAddr); dc_partition_prefix : string }.
Record LoadedConfig := mkLoaded {
  lc_decoded : DecodedConfig; lc_startup : StartupModeConfig; lc_log_level : string;
  lc_worker_threads : Z; lc_rayon_threads : Z; lc_http_listen : SocketAddr;
  lc_metrics_listen : SocketAddr; lc_max_propose_bytes : Z; lc_max_pool_bytes : Z;
  lc_prune_cadence_blocks : Z; lc_json_logs : bool; lc_deployer_managed : bool;
  lc_indexer : option IndexerConfig; lc_relayer : option RelayerConfig }.

Definition decode_hex (field_name hex_str : string) : run bytes :=
  expect (from_hex hex_str) ("bad " +:+ field_name +:+ " hex").
(** [T::read(&mut &bytes[..]).expect(..)] reads a prefix of the bytes. *)
Definition read_expect {A} (r : reader A) (b : bytes) (why : string) : run A :=
  match r b with Ok (a, _) => Ret a | Err _ => Panic why end.
Definition decode_private_key (hex_str : string) : run ed_sk :=
  b ← decode_hex "private_key" hex_str; read_expect sk_read b "failed to decode private key".
Definition decode_dkg_output (hex_str : string) (num_validators : Z) : run DkgOutput :=
  b ← decode_hex "dkg_output" hex_str;
  if num_validators =? 0 then Panic "value must be non-zero"
  else read_expect (output_read num_validators) b "failed to decode DKG output".
Definition decode_share_opt (hex_str : string) : run (option Share) :=
  if String.eqb hex_str "" then Ret None
  else b ← decode_hex "dkg_share" hex_str;
       s ← read_expect share_read b "failed to decode DKG share"; Ret (Some s).
Definition decode_public_key (field_name hex_str : string) : run ed_pk :=
  b ← decode_hex field_name hex_str; read_expect fread b "failed to decode public key".

Definition parse_socket (name socket : string) : run SocketAddr :=
  expect (socket_from_str socket) ("failed to parse " +:+ name +:+ " socket").

Definition resolve_named_http_url (url : string) (hosts : gmap string IpAddr) : string :=
  resolve_in_hosts (ip_display <$> hosts) url.

Definition any_address (port : Z) : string := "0.0.0.0:" +:+ pretty port.

Definition decode_with_network (config : ValidatorConfig) (public_listen : SocketAddr)
    (primary_participants secondary_participants : list ed_pk)
    (bootstrappers : list (ed_pk * SocketAddr)) (json_logs : bool) : run LoadedConfig :=
  signer ← decode_private_key (vc_private_key config);
  let public_key := ed_public_key signer in
  dkg_output ← decode_dkg_output (vc_dkg_output config) (vc_num_validators config);
  share ← decode_share_opt (vc_dkg_share config);
  if bool_decide (is_Some share) && bool_decide (is_Some (vc_relayer config))
  then Panic "relayer config is only valid on secondary validators"
  else if bool_decide (is_Some (vc_indexer config)) && bool_decide (is_Some (vc_relayer config))
  then Panic "relayer and indexer configs cannot be enabled on the same secondary"
  else
    genesis_leader ← decode_public_key "genesis_leader" (vc_genesis_leader config);
    listen_bind ← expect (socket_from_str (any_address (vc_listen_port config))) "bad listen port";
    http_listen ← expect (socket_from_str (any_address (vc_http_port config))) "bad HTTP listen port";
    metrics_listen ←
      expect (socket_from_str (any_address (vc_metrics_port config))) "bad metrics listen port";
    Ret (mkLoaded
      (mkDecoded signer public_key dkg_output share genesis_leader listen_bind public_listen
        primary_participants secondary_participants bootstrappers (vc_partition_prefix config))
      (vc_startup config) (vc_log_level config) (vc_worker_threads config) (vc_rayon_threads config)
      http_listen metrics_listen (vc_max_propose_bytes config) (vc_max_pool_bytes config)
      (vc_prune_cadence_blocks config) json_logs json_logs (vc_indexer config) (vc_relayer config)).

(** [Vec::contains]: keys are equal when their encodings are. *)
Definition contains_key (l : list ed_pk) (k : ed_pk) : bool := bool_decide (fwrite k ∈ fwrite <$> l).
Definition decode_participants (primary_hex secondary_hex : list string) (self_key : ed_pk)
    : run (list ed_pk * list ed_pk) :=
  primary ← mapM (decode_public_key "primary_validators") primary_hex;
  secondary ← mapM (decode_public_key "secondary_validators") secondary_hex;
  if negb (contains_key primary self_key) && negb (contains_key secondary self_key)
  then Panic ("self public key '" +:+ hex (fwrite self_key)
              +:+ "' not listed in primary_validators or secondary_validators")
  else Ret (primary, secondary).

Section files.
(** The file system, and the reader of the deployer's hosts file. *)
Variables (read_to_string : string → option string)
  (yaml_hosts : string → option (list (string * IpAddr))).

Definition load_validator_config (path : string) : run ValidatorConfig :=
  raw ← expect (read_to_string path) "failed to read config file";
  expect (yaml_from_str raw ≫= de_validator) "failed to parse config".

Definition peers_by_name (peers : PeersFile) : gmap string PeerEntry :=
  hosts_by_name ((λ p, (pe_name p, p)) <$> pf_validators peers ++ pf_secondaries peers).

Definition local_bootstrapper (peers : gmap string PeerEntry) (b : NamedBootstrapperEntry)
    : run (ed_pk * SocketAddr) :=
  public_key ← decode_public_key "bootstrapper public_key" (nb_public_key b);
  peer ← expect (peers !! nb_name b) ("missing bootstrapper peer '" +:+ nb_name b +:+ "'");
  address ← parse_socket "bootstrapper p2p" (pe_p2p peer);
  Ret (public_key, address).

Definition load_local_config (peers_path config_path : string) : run LoadedConfig :=
  config ← load_validator_config config_path;
  signer ← decode_private_key (vc_private_key config);
  let self_public_key := ed_public_key signer in
  let self_name := hex (fwrite self_public_key) in
  raw_peers ← expect (read_to_string peers_path) "failed to read peers file";
  peers ← expect (yaml_from_str raw_peers ≫= de_peers) "failed to parse peers file";
  '(primary, secondary) ←
    decode_participants (vc_primary_validators config) (vc_secondary_validators config) self_public_key;
  let peers := peers_by_name peers in
  self_peer ← expect (peers !! self_name) ("missing self peer '" +:+ self_name +:+ "'");
  public_listen ← parse_socket "self p2p" (pe_p2p self_peer);
  _ ← parse_socket "self http" (pe_http self_peer);
  bootstrappers ← mapM (local_bootstrapper peers) (vc_bootstrappers config);
  decode_with_network config public_listen primary secondary bootstrappers false.

(** The URLs of the indexer and of the relayer's leaders, resolved. *)
Definition resolve_urls (hosts : gmap string IpAddr) (c : ValidatorConfig) : ValidatorConfig :=
  mkValidatorConfig (vc_private_key c) (vc_dkg_output c) (vc_dkg_share c) (vc_startup c)
    (vc_listen_port c) (vc_genesis_leader c) (vc_partition_prefix c) (vc_num_validators c)
    (vc_primary_validators c) (vc_secondary_validators c) (vc_log_level c) (vc_worker_threads c)
    (vc_rayon_threads c) (vc_http_port c) (vc_metrics_port c) (vc_max_propose_bytes c)
    (vc_max_pool_bytes c) (vc_prune_cadence_blocks c) (vc_bootstrappers c)
    ((λ i, mkIndexerConfig (resolve_named_http_url (ix_chain_indexer_url i) hosts)
             (ix_upload_buffer i)) <$> vc_indexer c)
    ((λ r, mkRelayerConfig (rc_max_retry_views r)
             ((λ l, mkLeaderConfig (rl_public_key l) (resolve_named_http_url (rl_url l) hosts))
                <$> rc_leaders r)) <$> vc_relayer c).

Definition deployer_bootstrapper (hosts : gmap string IpAddr) (listen_port : Z)
    (b : NamedBootstrapperEntry) : run (ed_pk * SocketAddr) :=
  public_key ← decode_public_key "bootstrapper public_key" (nb_public_key b);
  ip ← expect (hosts !! nb_name b) ("missing bootstrapper host '" +:+ nb_name b +:+ "'");
  Ret (public_key, mkSocket ip listen_port).

Definition load_deployer_config (hosts_path config_path : string) : run LoadedConfig :=
  config ← load_validator_config config_path;
  signer ← decode_private_key (vc_private_key config);
  let self_public_key := ed_public_key signer in
  let self_name := hex (fwrite self_public_key) in
  raw_hosts ← expect (read_to_string hosts_path) "failed to read hosts file";
  hosts ← expect (yaml_hosts raw_hosts) "failed to parse hosts file";
  '(primary, secondary) ←
    decode_participants (vc_primary_validators config) (vc_secondary_validators config) self_public_key;
  let hosts := hosts_by_name hosts in
  let config := resolve_urls hosts config in
  self_ip ← expect (hosts !! self_name) ("missing self host '" +:+ self_name +:+ "'");
  let public_listen := mkSocket self_ip (vc_listen_port config) in
  bootstrappers ← mapM (deployer_bootstrapper hosts (vc_listen_port config)) (vc_bootstrappers config);
  decode_with_network config public_listen primary secondary bootstrappers true.

End files.

(** ** Paths *)

(** [Path::join]. *)
Definition is_absolute (p : string) : bool := bool_decide (head (bytes_of_string p) = Some x2f).
Definition path_join (dir file : string) : string :=
  if is_absolute file then file
  else if bool_decide (dir = ""%string) || bool_decide (last (bytes_of_string dir) = Some x2f)
  then dir +:+ file
  else dir +:+ "/" +:+ file.

(** [Path::parent]: the components but the last; repeated slashes and dots
    inside a path are not components. *)
Fixpoint split_slashes (cur : bytes) (l : bytes) : list bytes :=
  match l with
  | [] => [cur]
  | b :: l' => if decide (b = x2f) then cur :: split_slashes [] l' else split_slashes (cur ++ [b]) l'
  end.
Definition path_components (p : string) : list bytes :=
  match split_slashes [] (bytes_of_string p) with
  | [] => []
  | first :: rest =>
      filter (λ c, c ≠ []) [first] ++ filter (λ c, c ≠ [] ∧ c ≠ [x2e]) rest
  end.
Fixpoint join_slash (cs : list bytes) : bytes :=
  match cs with
  | [] => []
  | [c] => c
  | c :: cs' => c ++ x2f :: join_slash cs'
  end.
Definition path_parent (p : string) : option string :=
  match path_components p with
  | [] => None
  | cs => Some (string_of_bytes ((if is_absolute p then [x2f] else []) ++ join_slash (removelast cs)))
  end.

(** ** run.rs: what a node starts *)

Definition default_mempool_drop_grace_blocks (num_validators : Z) : run Z :=
  expect (if decide (num_validators * 2 ≤ u64_max) then Some (num_validators * 2) else None)
    "mempool drop grace block count overflowed".

(** The parallelism of the network and storage pools. *)
Definition buffer_pool_configs (worker_threads max_blocking_threads : Z) : run (Z * Z) :=
  storage ← expect (checked_add worker_threads max_blocking_threads)
    "storage buffer pool parallelism overflowed";
  if worker_threads =? 0 then Panic "network buffer pool parallelism is zero"
  else if storage =? 0 then Panic "storage buffer pool parallelism is zero"
  else Ret (worker_threads, storage).

(** The directory a node stores to, the server it runs, the observer it attaches to consensus, the indexer
    it starts and whether its mempool hears of finalized blocks. *)
Inductive Server : Type :=
| MempoolServer (listen : SocketAddr) (max_pool_bytes max_propose_bytes drop_grace_blocks : Z)
| RelayerServer (listen : SocketAddr) (relayer : RelayerConfig)
| NoServer.
Inductive SimplexObserver : Type := ObserveRelayer | ObserveIndexer.
Record NodePlan := mkPlan {
  np_storage : string; np_server : Server; np_indexer : option IndexerConfig;
  np_observer : option SimplexObserver; np_reports_to_mempool : bool; np_pools : Z * Z }.

(** [Set::try_collect] refuses repeated keys. *)
Definition try_collect (l : list ed_pk) : run (list ed_pk) :=
  if decide (NoDup (fwrite <$> l)) then Ret l else Panic "called `Result::unwrap()` on an `Err` value".

Definition maybe_build_indexer (is_primary : bool) (indexer : option IndexerConfig) : option IndexerConfig :=
  match indexer with None => None | Some cfg => if is_primary then None else Some cfg end.

(** The server of a primary, of a relayer and of another secondary. *)
Definition start_server (config : LoadedConfig) (is_primary : bool) (grace : Z) : Server :=
  if is_primary
  then MempoolServer (lc_http_listen config) (lc_max_pool_bytes config) (lc_max_propose_bytes config) grace
  else match lc_relayer config with
       | Some r => RelayerServer (lc_http_listen config) r
       | None => NoServer
       end.

(** A relayer observes consensus itself, else the indexer does. *)
Definition simplex_observer (config : LoadedConfig) (indexer : option IndexerConfig) : option SimplexObserver :=
  match lc_relayer config with
  | Some _ => Some ObserveRelayer
  | None => (λ _, ObserveIndexer) <$> indexer
  end.

Definition run_with_config (log_level_ok : string → bool) (max_blocking_threads : Z)
    (config : LoadedConfig) (config_path : string) : run NodePlan :=
  config_dir ← expect (path_parent config_path) "config file has no parent directory";
  let storage_dir := path_join config_dir (dc_partition_prefix (lc_decoded config)) in
  pools ← buffer_pool_configs (lc_worker_threads config) max_blocking_threads;
  if negb (log_level_ok (lc_log_level config)) then Panic "bad log_level in config"
  else if lc_rayon_threads config =? 0 then Panic "value must be non-zero"
  else
    let decoded := lc_decoded config in
    grace ← default_mempool_drop_grace_blocks (zlen (dc_primary_participants decoded));
    _ ← try_collect (dc_primary_participants decoded);
    _ ← try_collect (dc_secondary_participants decoded);
    let is_primary := bool_decide (is_Some (dc_share decoded)) in
    let server := start_server config is_primary grace in
    let indexer := maybe_build_indexer is_primary (lc_indexer config) in
    if lc_prune_cadence_blocks config =? 0 then Panic "prune_cadence_blocks must be non-zero"
    else Ret (mkPlan storage_dir server indexer (simplex_observer config indexer) is_primary pools).

End settings.

(** ** Lemmas on paths *)

(** A path that ends in neither a separator nor a dot names a file, which has a
    parent. *)
Lemma split_slashes_last cur l b :
  b ≠ x2f → ∃ ss s, split_slashes cur (l ++ [b]) = ss ++ [s ++ [b]].
Proof.
  intros Hb. revert cur. induction l as [|c l IH]; intros cur; cbn [app split_slashes].
  - exists [], cur. by rewrite decide_False.
  - case_decide; [|apply IH]. destruct (IH []) as (ss & s & ->). by exists (cur :: ss), s.
Qed.

Lemma path_parent_file p l b : bytes_of_string p = l ++ [b] → b ≠ x2f → b ≠ x2e → is_Some (path_parent p).
Proof.
  intros Hp Hf He. assert (∃ c, c ∈ path_components p) as [c Hc].
  { unfold path_components. rewrite Hp. destruct (split_slashes_last [] l b Hf) as (ss & s & ->).
    assert (s ++ [b] ≠ []) as Hn by by destruct s. exists (s ++ [b]). destruct ss as [|s0 ss]; cbn [app]; apply elem_of_app.
    - left. apply list_elem_of_filter. split; [done|by left].
    - right. apply list_elem_of_filter. split; [|apply elem_of_app; right; by left]. split; [done|].
      destruct s as [|? []]; intros [=]; congruence. }
  unfold path_parent. destruct (path_components p); [by apply not_elem_of_nil in Hc|by eexists].
Qed.

Lemma path_join_file dir file l b : bytes_of_string file = l ++ [b] → ∃ l', bytes_of_string (path_join dir file) = l' ++ [b].
Proof.
  intros Hf. unfold path_join. case_match; [by exists l|]. case_match; rewrite !bytes_of_string_app, Hf, ?app_assoc; by eexists.
Qed.

Lemma path_parent_forms :
  path_parent "/srv/out/node.yaml" = Some "/srv/out"%string ∧ path_parent "./out//node.yaml/" = Some "./out"%string ∧
  path_parent "node.yaml" = Some ""%string ∧ path_parent "/" = None ∧ path_parent "" = None.
Proof. by vm_compute. Qed.

(** The configuration files of the bundles have a directory. *)
Lemma yaml_file_parent dir name : is_Some (path_parent (path_join dir (name +:+ ".yaml"))).
Proof.
  destruct (path_join_file dir (name +:+ ".yaml") (bytes_of_string (name +:+ ".yam")) x6c) as [l Hl].
  { rewrite !bytes_of_string_app, <- app_assoc. done. }
  by eapply path_parent_file.
Qed.

(** ** Lemmas on text *)

Definition digit (b : byte) : Prop := 48 ≤ byte_val b ≤ 57.

Lemma parse_digits_digits l acc n : parse_digits acc l = Some n → Forall digit l.
Proof.
  revert acc. induction l as [|b l IH]; intros acc Hp; [constructor|]. cbn in Hp.
  case_match eqn:E; [|done]. zbool. constructor; [done|]. by eapply IH.
Qed.

Lemma parse_digits_char x acc l :
  (x < 10)%N →
  parse_digits acc (Strings.Ascii.byte_of_ascii (pretty_N_char x) :: l)
  = parse_digits (acc * 10 + Z.of_N x) l.
Proof.
  intros Hx.
  assert (x = 0 ∨ x = 1 ∨ x = 2 ∨ x = 3 ∨ x = 4 ∨ x = 5 ∨ x = 6 ∨ x = 7 ∨ x = 8 ∨ x = 9)%N
    as Hc by lia.
  repeat destruct Hc as [->|Hc]; try (subst; reflexivity).
Qed.

Lemma parse_digits_go x s :
  parse_digits 0 (bytes_of_string (pretty_N_go x s)) = parse_digits (Z.of_N x) (bytes_of_string s).
Proof.
  revert s. induction (N.lt_wf_0 x) as [x _ IH]; intros s.
  destruct (decide (x = 0)%N) as [->|Hx]; [by rewrite pretty_N_go_0|].
  rewrite pretty_N_go_step by lia. rewrite IH by (apply N.div_lt; lia).
  change (bytes_of_string (String ?c s)) with (Strings.Ascii.byte_of_ascii c :: bytes_of_string s).
  rewrite parse_digits_char by (apply N.mod_lt; lia). f_equal.
  pose proof (N.div_mod x 10 ltac:(lia)). lia.
Qed.

Lemma parse_digits_pretty n : 0 ≤ n → parse_digits 0 (bytes_of_string (pretty n)) = Some n.
Proof.
  intros Hn. destruct n as [|p|p]; [reflexivity| |lia].
  change (pretty (Z.pos p)) with (pretty (N.pos p)). unfold pretty, pretty_N. rewrite decide_False by done.
  by rewrite parse_digits_go.
Qed.

Lemma pretty_nonempty n : 0 ≤ n → bytes_of_string (pretty n) ≠ [].
Proof.
  intros Hn E. pose proof (parse_digits_pretty n Hn) as Hp. rewrite E in Hp. injection Hp as <-.
  vm_compute in E. discriminate.
Qed.

Lemma pretty_digits n : 0 ≤ n → Forall digit (bytes_of_string (pretty n)).
Proof. intros. eapply parse_digits_digits. by apply parse_digits_pretty. Qed.

Lemma read_port n : is_u16 n → read_number None true u16_max (bytes_of_string (pretty n)) = Some n.
Proof.
  intros [Hn Hm]. unfold read_number. rewrite decide_False by (by apply pretty_nonempty). cbn.
  rewrite parse_digits_pretty by done. cbn. by rewrite (proj2 (Z.leb_le _ _)).
Qed.

(** Splitting at a character that is absent or comes first. *)
Lemma split_once_absent c l : c ∉ l → split_once_bytes c l = None.
Proof.
  induction l as [|b l IH]; intros Hc; [done|]. apply not_elem_of_cons in Hc as [Hb Hl]. cbn.
  rewrite decide_False by congruence. by rewrite IH.
Qed.

Lemma split_once_first c a b : c ∉ a → split_once_bytes c (a ++ c :: b) = Some (a, b).
Proof.
  induction a as [|x a IH]; intros Hc; cbn; [by rewrite decide_True|].
  apply not_elem_of_cons in Hc as [Hx Ha]. rewrite decide_False by congruence. by rewrite IH.
Qed.

Lemma strip_prefix_app p s : strip_prefix p (p +:+ s) = Some s.
Proof.
  unfold strip_prefix. rewrite bytes_of_string_app.
  assert (∀ a b, strip_prefix_bytes a (a ++ b) = Some b) as ->; [|cbn; by rewrite string_of_bytes_of].
  intros a b. induction a as [|x a IH]; cbn; [by destruct b|]. by rewrite decide_True.
Qed.

Definition no_char (c : byte) (s : string) : Prop := c ∉ bytes_of_string s.

Lemma no_char_app c a b : no_char c a → no_char c b → no_char c (a +:+ b).
Proof. unfold no_char. rewrite bytes_of_string_app, elem_of_app. tauto. Qed.

Lemma no_char_pretty c n : ¬ digit c → 0 ≤ n → no_char c (pretty n).
Proof. intros Hc Hn Hin. apply Hc. pose proof (pretty_digits n Hn) as Hd. rewrite Forall_forall in Hd. by apply Hd. Qed.

Lemma socket_local ip port addr :
  no_char x3a ip → parse_ipv4 (bytes_of_string ip) = Some addr → is_u16 port →
  parse_socket_v4 (bytes_of_string (ip +:+ ":" +:+ pretty port)) = Some (mkSocket addr port).
Proof.
  intros Hc Hip Hp. unfold parse_socket_v4. rewrite !bytes_of_string_app.
  change (bytes_of_string ":" ++ ?l) with (x3a :: l). rewrite split_once_first by done. cbn.
  rewrite Hip. cbn. by rewrite read_port.
Qed.

(** A URL of the form the deployment tool writes resolves by its host. *)
Lemma resolve_host_url (hosts : gmap string string) host port :
  no_char x2f host → 0 ≤ port →
  resolve_in_hosts hosts ("http://" +:+ host +:+ ":" +:+ pretty port)
  = match hosts !! host with
    | Some ip => "http://" +:+ ip +:+ ":" +:+ pretty port
    | None => "http://" +:+ host +:+ ":" +:+ pretty port
    end.
Proof.
  intros Hs Hp. unfold resolve_in_hosts. rewrite strip_prefix_app.
  unfold split_once. rewrite split_once_absent; cbn [mbind option_bind].
  2:{ apply (no_char_app _ host); [done|]. apply (no_char_app _ ":"); [|apply no_char_pretty; [|done]].
      - unfold no_char. vm_compute. intros Hin. inversion Hin as [|? ? ? Hin']; inversion Hin'.
      - unfold digit. vm_compute. intros [H _]. by apply H. }
  unfold rsplit_once. rewrite !bytes_of_string_app, !reverse_app.
  change (reverse (bytes_of_string ":")) with [x3a]. rewrite <- app_assoc.
  change ([x3a] ++ ?l) with (x3a :: l). rewrite split_once_first.
  2:{ rewrite elem_of_reverse. apply (no_char_pretty x3a port); [|done].
      unfold digit. vm_compute. intros [_ H]. by apply H. }
  cbn [mbind option_bind]. rewrite !reverse_involutive, !string_of_bytes_of.
  destruct (hosts !! host); [|done]. f_equal. f_equal. f_equal.
  apply bytes_of_string_inj. by rewrite !bytes_of_string_app, app_nil_r.
Qed.

(** ** Lemmas on decoding *)

Lemma mapM_option_map {A B C} (f : B → option C) (h : A → B) (g : A → C) l :
  (∀ x, x ∈ l → f (h x) = Some (g x)) → mapM f (h <$> l) = Some (g <$> l).
Proof.
  intros Hf. apply mapM_Some. rewrite Forall2_fmap. apply Forall_Forall2_diag, Forall_forall, Hf.
Qed.

(** The map collected from pairs with distinct names. *)
Lemma hosts_by_name_app {A} (l : list (string * A)) k v :
  hosts_by_name (l ++ [(k, v)]) = <[k := v]> (hosts_by_name l).
Proof. unfold hosts_by_name. by rewrite fold_left_app. Qed.

Lemma hosts_by_name_lookup {A} (l : list (string * A)) k v :
  NoDup l.*1 → (k, v) ∈ l → hosts_by_name l !! k = Some v.
Proof.
  induction l as [|[k' v'] l IH] using rev_ind; intros Hn Hin; [by apply not_elem_of_nil in Hin|].
  rewrite hosts_by_name_app. rewrite fmap_app, NoDup_app in Hn. destruct Hn as (Hn & Hd & _).
  apply elem_of_app in Hin as [Hin|Hin%list_elem_of_singleton].
  - rewrite lookup_insert_ne; [by apply IH|]. intros ->. apply (Hd k); [|by left].
    apply list_elem_of_fmap. by exists (k, v).
  - injection Hin as -> ->. by rewrite lookup_insert_eq.
Qed.

Section decoding.
Context `{DkgLib} `{YamlLib} `{Ipv6Text}.

Lemma hex_inj a b : hex a = hex b → a = b.
Proof. intros E. pose proof (hex_law a) as Ha. rewrite E, hex_law in Ha. by injection Ha. Qed.

Lemma decode_hex_hex f b : decode_hex f (hex b) = Ret b.
Proof. unfold decode_hex. by rewrite hex_law. Qed.

Lemma decode_public_key_hex f k : decode_public_key f (hex (fwrite k)) = Ret k.
Proof.
  unfold decode_public_key. rewrite decode_hex_hex. cbn. unfold read_expect.
  rewrite <- (app_nil_r (fwrite k)), fread_fwrite by apply ed_pk_valid. done.
Qed.

Lemma decode_private_key_hex k : decode_private_key (hex (sk_write k)) = Ret k.
Proof. unfold decode_private_key. rewrite decode_hex_hex. cbn. unfold read_expect. by rewrite sk_law. Qed.

Lemma decode_share_hex s : decode_share_opt (hex (share_write s)) = Ret (Some s).
Proof.
  unfold decode_share_opt. destruct (String.eqb_spec (hex (share_write s)) "") as [E|_].
  - exfalso. by apply (share_nonempty s), hex_empty.
  - rewrite decode_hex_hex. cbn. unfold read_expect. by rewrite share_law.
Qed.

(** The text of an optional share: none is the empty string. *)
Definition share_text (s : option Share) : string :=
  match s with Some s => hex (share_write s) | None => "" end.

Lemma decode_share_text s : decode_share_opt (share_text s) = Ret s.
Proof. destruct s; [apply decode_share_hex|done]. Qed.

Lemma decode_output_hex n o :
  n ≠ 0 → output_read n (output_write o) = Ok (o, []) → decode_dkg_output (hex (output_write o)) n = Ret o.
Proof.
  intros Hn Ho. unfold decode_dkg_output. rewrite decode_hex_hex. cbn.
  rewrite (proj2 (Z.eqb_neq _ _)) by done. unfold read_expect. by rewrite Ho.
Qed.

Lemma decode_keys f ks : mapM (decode_public_key f) ((λ k, hex (fwrite k)) <$> ks) = Ret ks.
Proof.
  induction ks as [|k ks IH]; [done|]. cbn. rewrite decode_public_key_hex. cbn in *.
  fold (mapM (decode_public_key f)) in *. by rewrite IH.
Qed.

Lemma decode_participants_hex ps ss k :
  k ∈ ps ++ ss →
  decode_participants ((λ k, hex (fwrite k)) <$> ps) ((λ k, hex (fwrite k)) <$> ss) k = Ret (ps, ss).
Proof.
  intros Hk. unfold decode_participants. rewrite !decode_keys. cbn [mbind run_bind].
  assert (contains_key ps k || contains_key ss k = true) as Hc.
  { unfold contains_key. apply orb_true_iff. rewrite !bool_decide_eq_true.
    apply elem_of_app in Hk as [Hk|Hk]; [left|right]; by apply list_elem_of_fmap_2. }
  destruct (contains_key ps k), (contains_key ss k); done.
Qed.

Lemma parse_any port : is_u16 port → socket_from_str (any_address port) = Some (mkSocket (IpV4 0 0 0 0) port).
Proof.
  intros Hp. unfold socket_from_str, any_address.
  change ("0.0.0.0:" +:+ pretty port) with ("0.0.0.0" +:+ ":" +:+ pretty port).
  rewrite (socket_local "0.0.0.0" port (IpV4 0 0 0 0)); [done| |done|done].
  unfold no_char. apply (bool_decide_unpack _). vm_compute. done.
Qed.

(** The network-independent part of loading: what [decode_with_network] makes
    of a configuration with readable keys. *)
Definition decoded_config (c : ValidatorConfig) (signer : ed_sk) (o : DkgOutput) (share : option Share)
    (leader : ed_pk) (listen : SocketAddr) (ps ss : list ed_pk) (boots : list (ed_pk * SocketAddr))
    (json_logs : bool) : LoadedConfig :=
  let any port := mkSocket (IpV4 0 0 0 0) port in
  mkLoaded
    (mkDecoded signer (ed_public_key signer) o share leader (any (vc_listen_port c)) listen ps ss boots
       (vc_partition_prefix c))
    (vc_startup c) (vc_log_level c) (vc_worker_threads c) (vc_rayon_threads c) (any (vc_http_port c))
    (any (vc_metrics_port c)) (vc_max_propose_bytes c) (vc_max_pool_bytes c) (vc_prune_cadence_blocks c)
    json_logs json_logs (vc_indexer c) (vc_relayer c).

Lemma decode_with_network_ok c signer o share leader listen ps ss boots json_logs :
  vc_private_key c = hex (sk_write signer) → vc_dkg_output c = hex (output_write o) →
  vc_num_validators c ≠ 0 → output_read (vc_num_validators c) (output_write o) = Ok (o, []) →
  vc_dkg_share c = share_text share → vc_genesis_leader c = hex (fwrite leader) →
  is_u16 (vc_listen_port c) → is_u16 (vc_http_port c) → is_u16 (vc_metrics_port c) →
  (is_Some share → vc_relayer c = None) → (vc_indexer c = None ∨ vc_relayer c = None) →
  decode_with_network c listen ps ss boots json_logs
  = Ret (decoded_config c signer o share leader listen ps ss boots json_logs).
Proof.
  intros Hk Ho Hn Hr Hs Hl Hp1 Hp2 Hp3 Hx Hy. unfold decode_with_network.
  rewrite Hk, decode_private_key_hex. cbn [mbind run_bind].
  rewrite Ho, decode_output_hex by done. cbn [mbind run_bind].
  rewrite Hs, decode_share_text. cbn [mbind run_bind].
  replace (bool_decide (is_Some share) && bool_decide (is_Some (vc_relayer c))) with false.
  2:{ symmetry. apply andb_false_iff. rewrite !bool_decide_eq_false, <- !eq_None_not_Some.
      destruct share as [s|]; [right; by apply Hx|by left]. }
  replace (bool_decide (is_Some (vc_indexer c)) && bool_decide (is_Some (vc_relayer c))) with false.
  2:{ symmetry. apply andb_false_iff. by rewrite !bool_decide_eq_false, <- !eq_None_not_Some. }
  rewrite Hl, decode_public_key_hex. cbn [mbind run_bind]. rewrite !parse_any by done. done.
Qed.

(** The server, indexer and observer of a loaded node. *)
Definition node_server (c : LoadedConfig) (grace : Z) : Server :=
  match dc_share (lc_decoded c), lc_relayer c with
  | Some _, _ => MempoolServer (lc_http_listen c) (lc_max_pool_bytes c) (lc_max_propose_bytes c) grace
  | None, Some r => RelayerServer (lc_http_listen c) r
  | None, None => NoServer
  end.

Lemma run_with_config_ok log_level_ok blocking c path :
  is_Some (path_parent path) → log_level_ok (lc_log_level c) = true →
  0 < lc_worker_threads c → 0 ≤ blocking → lc_worker_threads c + blocking ≤ u64_max →
  lc_rayon_threads c ≠ 0 → lc_prune_cadence_blocks c ≠ 0 →
  zlen (dc_primary_participants (lc_decoded c)) * 2 ≤ u64_max →
  NoDup (fwrite <$> dc_primary_participants (lc_decoded c)) →
  NoDup (fwrite <$> dc_secondary_participants (lc_decoded c)) →
  ∃ plan, run_with_config log_level_ok blocking c path = Ret plan ∧
    np_server plan = node_server c (zlen (dc_primary_participants (lc_decoded c)) * 2) ∧
    np_indexer plan = (match dc_share (lc_decoded c) with Some _ => None | None => lc_indexer c end) ∧
    np_observer plan = (match lc_relayer c with Some _ => Some ObserveRelayer | None => (λ _, ObserveIndexer) <$> np_indexer plan end) ∧
    np_reports_to_mempool plan = bool_decide (is_Some (dc_share (lc_decoded c))).
Proof.
  intros [config_dir Hdir] Hlog Hw Hb Hwb Hr Hp Hg Hn1 Hn2. unfold run_with_config, buffer_pool_configs, checked_add.
  rewrite Hdir. cbn [mbind run_bind expect].
  rewrite decide_True by done. cbn [mbind run_bind expect].
  rewrite (proj2 (Z.eqb_neq (lc_worker_threads c) 0)), (proj2 (Z.eqb_neq (lc_worker_threads c + blocking) 0)) by lia. cbn [mbind run_bind].
  rewrite Hlog. cbn [negb]. rewrite (proj2 (Z.eqb_neq (lc_rayon_threads c) 0)) by done.
  unfold default_mempool_drop_grace_blocks. rewrite decide_True by done. cbn [mbind run_bind expect].
  unfold try_collect. rewrite !decide_True by done. cbn [mbind run_bind].
  rewrite (proj2 (Z.eqb_neq (lc_prune_cadence_blocks c) 0)) by done.
  eexists. split; [reflexivity|]. cbn. unfold node_server, maybe_build_indexer, start_server, simplex_observer.
  destruct (dc_share (lc_decoded c)), (lc_relayer c), (lc_indexer c); done.
Qed.

End decoding.

(** ** Concrete instances *)

#[export] Instance f64_eq_dec : EqDecision f64.
Proof. solve_decision. Defined.
#[export] Program Instance f64_countable : Countable f64 :=
  inj_countable
    (λ x, match x with
          | S754_zero s => inl (inl s)
          | S754_infinity s => inl (inr (Some s))
          | S754_nan => inl (inr None)
          | S754_finite s m e => inr (s, m, e)
          end)
    (λ c, Some match c with
          | inl (inl s) => S754_zero s
          | inl (inr (Some s)) => S754_infinity s
          | inl (inr None) => S754_nan
          | inr (s, m, e) => S754_finite s m e
          end) _.
Next Obligation. by intros []. Qed.

(** A document as a generic tree. *)
Definition yaml_leaf : Type := string + Z + f64.
Fixpoint yaml_tree (y : Yaml) : gen_tree yaml_leaf :=
  match y with
  | YNull => GenNode 0 []
  | YStr s => GenLeaf (inl (inl s))
  | YInt n => GenLeaf (inl (inr n))
  | YFloat x => GenLeaf (inr x)
  | YSeq l => GenNode 1 (map yaml_tree l)
  | YMap l => GenNode 2 (map (λ p, GenNode 3 [GenLeaf (inl (inl p.1)); yaml_tree p.2]) l)
  end.
Fixpoint tree_yaml (t : gen_tree yaml_leaf) : Yaml :=
  match t with
  | GenLeaf (inl (inl s)) => YStr s
  | GenLeaf (inl (inr n)) => YInt n
  | GenLeaf (inr x) => YFloat x
  | GenNode 1 l => YSeq (map tree_yaml l)
  | GenNode 2 l =>
      YMap (map (λ t, match t with GenNode _ [GenLeaf (inl (inl k)); y] => (k, tree_yaml y) | _ => (""%string, YNull) end) l)
  | GenNode _ _ => YNull
  end.

Lemma tree_yaml_tree y : tree_yaml (yaml_tree y) = y.
Proof.
  revert y. fix IH 1. intros [|s|n|x|l|l]; cbn; try reflexivity; f_equal.
  - induction l as [|y l IHl]; cbn; [reflexivity|]. by rewrite IH, IHl.
  - induction l as [|[k y] l IHl]; cbn; [reflexivity|]. by rewrite IH, IHl.
Qed.

(** The text of a document: the tokens of its tree, one after the other. *)
Definition token : Type := nat * nat + yaml_leaf.
Definition write_unary (n : nat) : bytes := replicate n x01 ++ [x00].
Fixpoint read_unary (l : bytes) : option (nat * bytes) :=
  match l with
  | [] => None
  | b :: l' => if decide (b = x00) then Some (O, l') else '(n, rest) ← read_unary l'; Some (S n, rest)
  end.
Definition write_blob (b : bytes) : bytes := write_unary (length b) ++ b.
Definition read_blob (l : bytes) : option (bytes * bytes) :=
  '(n, rest) ← read_unary l; Some (take n rest, drop n rest).
Definition write_token (t : token) : bytes :=
  match t with
  | inl (a, b) => x00 :: write_unary a ++ write_unary b
  | inr (inl (inl s)) => x01 :: write_blob (bytes_of_string s)
  | inr (inl (inr n)) => x02 :: write_blob (to_bits n)
  | inr (inr x) => x03 :: write_blob (to_bits x)
  end.
Definition read_token (l : bytes) : option (token * bytes) :=
  match l with
  | x00 :: l => '(a, l) ← read_unary l; '(b, l) ← read_unary l; Some (inl (a, b), l)
  | x01 :: l => '(b, l) ← read_blob l; Some (inr (inl (inl (string_of_bytes b))), l)
  | x02 :: l => '(b, l) ← read_blob l; n ← of_bits b; Some (inr (inl (inr n)), l)
  | x03 :: l => '(b, l) ← read_blob l; x ← of_bits b; Some (inr (inr x), l)
  | _ => None
  end.
Fixpoint read_tokens (fuel : nat) (l : bytes) : option (list token) :=
  match l, fuel with
  | [], _ => Some []
  | _, O => None
  | _, S fuel' => '(t, rest) ← read_token l; ts ← read_tokens fuel' rest; Some (t :: ts)
  end.

Lemma read_write_unary n rest : read_unary (write_unary n ++ rest) = Some (n, rest).
Proof. unfold write_unary. rewrite <- app_assoc. induction n as [|n IH]; [done|]. cbn in *. by rewrite IH. Qed.

Lemma read_write_blob b rest : read_blob (write_blob b ++ rest) = Some (b, rest).
Proof.
  unfold read_blob, write_blob. rewrite <- app_assoc, read_write_unary. cbn.
  by rewrite take_app_length, drop_app_length.
Qed.

Lemma read_write_token t rest : read_token (write_token t ++ rest) = Some (t, rest).
Proof.
  destruct t as [[a b]|[[s|n]|x]]; cbn.
  - rewrite <- app_assoc, read_write_unary. cbn. rewrite read_write_unary. done.
  - rewrite read_write_blob. cbn. by rewrite string_of_bytes_of.
  - rewrite read_write_blob. cbn. by rewrite of_to_bits.
  - rewrite read_write_blob. cbn. by rewrite of_to_bits.
Qed.

Lemma read_write_tokens ts fuel :
  (length (concat (map write_token ts)) ≤ fuel)%nat → read_tokens fuel (concat (map write_token ts)) = Some ts.
Proof.
  revert fuel. induction ts as [|t ts IH]; intros fuel Hf; [by destruct fuel|].
  cbn [map concat] in *. rewrite length_app in Hf.
  assert (1 ≤ length (write_token t))%nat as Ht by (destruct t as [[]|[[]|]]; cbn; lia).
  pose proof (read_write_token t (concat (map write_token ts))) as Hr.
  destruct (write_token t ++ concat (map write_token ts)) as [|b l] eqn:E;
    [by destruct (write_token t)|]. destruct fuel as [|fuel]; [lia|]. cbn [read_tokens].
  rewrite Hr. cbn. rewrite IH by lia. done.
Qed.

Definition conc_yaml_text (y : Yaml) : string :=
  string_of_bytes (concat (map write_token (gen_tree_to_list (yaml_tree y)))).
Definition conc_yaml_parse (s : string) : option Yaml :=
  let l := bytes_of_string s in
  ts ← read_tokens (length l) l; t ← gen_tree_of_list [] ts; Some (tree_yaml t).

Lemma conc_yaml_roundtrip y : conc_yaml_parse (conc_yaml_text y) = Some y.
Proof.
  unfold conc_yaml_parse, conc_yaml_text. rewrite bytes_of_string_of, read_write_tokens by done. cbn.
  rewrite <- (app_nil_r (gen_tree_to_list _)), gen_tree_of_to_list. cbn. by rewrite tree_yaml_tree.
Qed.

Definition conc_de_string (y : Yaml) : option string := match y with YStr s => Some s | _ => None end.
Definition conc_de_uint (m : Z) (y : Yaml) : option Z :=
  match y with YInt n => if decide (0 ≤ n ≤ m) then Some n else None | _ => None end.
Definition conc_de_f64 (y : Yaml) : option f64 :=
  match y with YFloat x => Some x | YInt n => Some (f64_of_usize n) | _ => None end.

#[export] Program Instance conc_yaml : YamlLib := {|
  yaml_to_string := conc_yaml_text; yaml_from_str := conc_yaml_parse;
  de_string := conc_de_string; de_uint := conc_de_uint; de_f64 := conc_de_f64 |}.
Next Obligation. apply conc_yaml_roundtrip. Qed.
Next Obligation. done. Qed.
Next Obligation. intros m n Hn. cbn. by rewrite decide_True. Qed.
Next Obligation. done. Qed.

#[export] Instance conc_ipv6 : Ipv6Text := {| ipv6_display := hex_lower; ipv6_socket _ := None |}.

Lemma hex_lower_digits b : Forall (.∈ HEX) (bytes_of_string (hex_lower b)).
Proof.
  rewrite hex_lower_bytes. induction b as [|x b IH]; [constructor|]. cbn [map concat app].
  destruct (byte_nibbles x) as (Hh & Hl & _).
  assert (∀ v, 0 ≤ v < 16 → hex_digit v ∈ HEX) as Hd.
  { intros v Hv. assert (v ∈ seqZ 0 16) as Hin by (apply elem_of_seqZ; lia). clear Hv Hh Hl IH.
    revert v Hin. apply Forall_forall.
    repeat (constructor; [apply (bool_decide_unpack _); vm_compute; exact I|]). constructor. }
  constructor; [by apply Hd|]. constructor; [by apply Hd|exact IH].
Qed.

(** A key is the bits of its seed, a deal gives every participant the share
    derived from its key, and the output lists the participants. *)
#[export] Program Instance conc_dkg : DkgLib := {|
  hex := hex_lower; from_hex s := ok (Hex.decode_hex s);
  sk_write := to_bits;
  sk_read b := (λ z, (z, [])) <$> ok_or (of_bits b) EndOfBuffer;
  Share := fb 32; share_write s := `s; share_read := fb_read 32;
  DkgOutput := list (fb 32); output_write o := concat (map fwrite o);
  output_read n := read_items fread (Z.to_nat n);
  output_public_key o := concat (map fwrite o);
  dkg_deal _ ps := Some (ps, (λ p, (p, fb_of 32 (x01 :: fwrite p))) <$> ps) |}.
Next Obligation. intros b. cbv beta. by rewrite decode_hex_lower. Qed.
Next Obligation. apply hex_lower_digits. Qed.
Next Obligation. intros b E. apply hex_lower_inj. by rewrite E. Qed.
Next Obligation. intros k. cbv beta. by rewrite of_to_bits. Qed.
Next Obligation.
  intros s. cbv beta. rewrite <- (app_nil_r (proj1_sig s)). exact (fread_fwrite (FixedCodec := fb_codec 32) s [] I).
Qed.
Next Obligation. intros s E. pose proof (fb_length 32 s) as Hl. assert (32 = 0)%nat as [=]. rewrite <- Hl. exact (f_equal length E). Qed.
Next Obligation.
  intros rng ps _ _. eexists _, _. split_and!; [reflexivity| |].
  - rewrite <- list_fmap_compose. cbn. by rewrite list_fmap_id.
  - cbv beta. unfold zlen. rewrite Nat2Z.id, <- (app_nil_r (concat _)).
    destruct (read_items_ok fread fwrite (=) ps []) as (l & Hl & Heq).
    + intros a b _. exists a. split; [|done]. by apply fread_fwrite.
    + apply list_eq_Forall2 in Heq as <-. exact Hl.
Qed.
