(* ===== verification/Deploy.v ===== *)
(** * Generated deployments (bin/deploy)

    The tool that writes a configuration bundle for a local or a remote
    network: keys and key shares, one YAML file per node, the peers file, the
    settings of the spammer and of the indexer services, and the instances of a
    remote deployment.  The theorems run the validator's own loader of
    Settings.v on what the tool writes. *)

From stdpp Require Import prelude gmap list strings pretty sorting.
From S2P Require Import Prelude Hex Interfaces Concrete Account Relayer Spammer Settings.

(** ** main.rs: arguments and files *)

Definition DEFAULT_BOOTSTRAPPERS : Z := 3.
Definition INDEXER_UPLOAD_BUFFER : Z := 64.
Definition SECONDARY_SEED_OFFSET : Z := 1000000.

(** [struct GenerateArgs], [LocalArgs] and [RemoteArgs]. *)
Record GenerateArgs := mkArgs {
  ga_validators : Z; ga_indexer : bool; ga_relayer : bool; ga_output_dir : string;
  ga_log_level : string; ga_worker_threads : Z; ga_rayon_threads : Z;
  ga_startup : StartupModeConfig; ga_spammer : bool; ga_spammer_accounts : Z;
  ga_spammer_value : Z; ga_spammer_seed_offset : Z; ga_spammer_rayon_threads : Z;
  ga_spammer_accounts_jitter : f64; ga_spammer_presigned_batches : Z }.
Record LocalArgs := mkLocal {
  la_base_port : Z; la_base_http_port : Z; la_base_metrics_port : Z;
  la_chain_indexer_port : Z; la_metadata_indexer_port : Z; la_qmdb_indexer_port : Z }.
Record RemoteArgs := mkRemote {
  ra_regions : list string; ra_instance_type : string; ra_storage_size : Z;
  ra_chain_indexer_instance_type : string; ra_chain_indexer_storage_size : Z;
  ra_chain_indexer_storage_iops : Z; ra_monitoring_instance_type : string;
  ra_monitoring_storage_size : Z; ra_dashboard : string; ra_listen_port : Z; ra_http_port : Z;
  ra_http_cidrs : list string; ra_chain_indexer_port : Z; ra_metadata_indexer_port : Z;
  ra_qmdb_indexer_port : Z; ra_profiling : bool; ra_spammer_instance_type : option string;
  ra_spammer_storage_size : Z }.

(** The validator's YAML as the tool writes it: no pruning cadence, and a
    relayer section without its number of retries. *)
Record BundleRelayer := mkBundleRelayer { br_leaders : list RelayerLeaderConfig }.
Record BundleValidator := mkBundleValidator {
  bv_private_key : string; bv_dkg_output : string; bv_dkg_share : string;
  bv_startup : StartupModeConfig; bv_listen_port : Z; bv_genesis_leader : string;
  bv_partition_prefix : string; bv_num_validators : Z;
  bv_primary_validators : list string; bv_secondary_validators : list string;
  bv_log_level : string; bv_worker_threads : Z; bv_rayon_threads : Z;
  bv_http_port : Z; bv_metrics_port : Z; bv_max_propose_bytes : Z; bv_max_pool_bytes : Z;
  bv_bootstrappers : list NamedBootstrapperEntry;
  bv_indexer : option IndexerConfig; bv_relayer : option BundleRelayer }.
Record PeersConfig := mkPeersConfig { pc_validators : list PeerEntry; pc_secondaries : list PeerEntry }.
Record ChainIndexerConfig := mkChainIndexer { ci_port : Z; ci_data_dir : string }.
Record ServiceConfig := mkService { sv_port : Z; sv_chain_indexer_url : string }.

(** [derive(Serialize)] with its [skip_serializing_if] attributes. *)
Definition ser_strings (l : list string) : Yaml := YSeq (YStr <$> l).
Definition ser_some {A} (k : string) (ser : A → Yaml) (o : option A) : list (string * Yaml) :=
  match o with Some a => [(k, ser a)] | None => [] end.
Definition ser_startup (s : StartupModeConfig) : Yaml :=
  YStr (match s with MarshalSync => "marshal_sync" | StateSync => "state_sync" end).
Definition ser_indexer (i : IndexerConfig) : Yaml :=
  YMap [("chain_indexer_url", YStr (ix_chain_indexer_url i)); ("upload_buffer", YInt (ix_upload_buffer i))].
Definition ser_leader (l : RelayerLeaderConfig) : Yaml :=
  YMap [("public_key", YStr (rl_public_key l)); ("url", YStr (rl_url l))].
Definition ser_relayer (r : BundleRelayer) : Yaml := YMap [("leaders", YSeq (ser_leader <$> br_leaders r))].
Definition ser_bootstrapper (b : NamedBootstrapperEntry) : Yaml :=
  YMap [("public_key", YStr (nb_public_key b)); ("name", YStr (nb_name b))].
Definition ser_validator (c : BundleValidator) : Yaml :=
  YMap ([("private_key", YStr (bv_private_key c)); ("dkg_output", YStr (bv_dkg_output c));
         ("dkg_share", YStr (bv_dkg_share c)); ("startup", ser_startup (bv_startup c));
         ("listen_port", YInt (bv_listen_port c)); ("genesis_leader", YStr (bv_genesis_leader c));
         ("partition_prefix", YStr (bv_partition_prefix c));
         ("num_validators", YInt (bv_num_validators c));
         ("primary_validators", ser_strings (bv_primary_validators c));
         ("secondary_validators", ser_strings (bv_secondary_validators c));
         ("log_level", YStr (bv_log_level c)); ("worker_threads", YInt (bv_worker_threads c));
         ("rayon_threads", YInt (bv_rayon_threads c)); ("http_port", YInt (bv_http_port c));
         ("metrics_port", YInt (bv_metrics_port c));
         ("max_propose_bytes", YInt (bv_max_propose_bytes c));
         ("max_pool_bytes", YInt (bv_max_pool_bytes c));
         ("bootstrappers", YSeq (ser_bootstrapper <$> bv_bootstrappers c))]
        ++ ser_some "indexer" ser_indexer (bv_indexer c)
        ++ ser_some "relayer" ser_relayer (bv_relayer c)).
Definition ser_peer (p : PeerEntry) : Yaml :=
  YMap [("name", YStr (pe_name p)); ("p2p", YStr (pe_p2p p)); ("http", YStr (pe_http p))].
Definition ser_peers (p : PeersConfig) : Yaml :=
  YMap [("validators", YSeq (ser_peer <$> pc_validators p));
        ("secondaries", YSeq (ser_peer <$> pc_secondaries p))].
Definition ser_chain_indexer (c : ChainIndexerConfig) : Yaml :=
  YMap [("port", YInt (ci_port c)); ("data_dir", YStr (ci_data_dir c))].
Definition ser_service (c : ServiceConfig) : Yaml :=
  YMap [("port", YInt (sv_port c)); ("chain_indexer_url", YStr (sv_chain_indexer_url c))].
Definition usize_is_zero (n : Z) : bool := n =? 0.
Definition ser_spammer (c : SpammerConfig) : Yaml :=
  YMap ([("accounts", YInt (sc_accounts c)); ("value", YInt (sc_value c));
         ("seed_offset", YInt (sc_seed_offset c)); ("rayon_threads", YInt (sc_rayon_threads c));
         ("http_port", YInt (sc_http_port c)); ("relayer_url", YStr (sc_relayer_url c))]
        ++ (if usize_is_zero (sc_relayer_submitters c) then []
            else [("relayer_submitters", YInt (sc_relayer_submitters c))])
        ++ [("presigned_batches", YInt (sc_presigned_batches c));
            ("primary_validators", ser_strings (sc_primary_validators c));
            ("accounts_jitter", YFloat (sc_accounts_jitter c))]).

(** [absolute_path]. *)
Definition absolute_path (current_dir path : string) : string :=
  if is_absolute path then path else path_join current_dir path.

Definition PEERS_CONFIG_FILE : string := "peers.yaml".
Definition SPAMMER_CONFIG_FILE : string := "spammer.yaml".
Definition CHAIN_INDEXER_CONFIG_FILE : string := "chain-indexer.yaml".
Definition METADATA_INDEXER_CONFIG_FILE : string := "metadata-indexer.yaml".
Definition QMDB_INDEXER_CONFIG_FILE : string := "qmdb-indexer.yaml".
Definition DEPLOYER_CONFIG_FILE : string := "config.yaml".
Definition DASHBOARD_FILE : string := "dashboard.json".
Definition SIMPLEX_VERIFICATION_MATERIAL_FILE : string := "simplex-verification-material.hex".
Definition CHAIN_INDEXER_DATA_DIR : string := "chain-indexer".
Definition VALIDATOR_BINARY_FILE : string := "validator".
Definition SPAMMER_BINARY_FILE : string := "spammer".
Definition CHAIN_INDEXER_BINARY_FILE : string := "chain-indexer".
Definition METADATA_INDEXER_BINARY_FILE : string := "metadata-indexer".
Definition QMDB_INDEXER_BINARY_FILE : string := "qmdb-indexer".
Definition CHAIN_INDEXER_HOST : string := "chain-indexer".
Definition METADATA_INDEXER_HOST : string := "metadata-indexer".
Definition QMDB_INDEXER_HOST : string := "qmdb-indexer".

Inductive SecondaryRole : Type := IndexerRole | RelayerRole.
Definition secondary_roles (args : GenerateArgs) : list SecondaryRole :=
  (if ga_indexer args then [IndexerRole] else []) ++ (if ga_relayer args then [RelayerRole] else []).
Definition total_secondaries (args : GenerateArgs) : Z := zlen (secondary_roles args) mod 2 ^ 32.

Definition validate_generate_args (args : GenerateArgs) : run () :=
  if negb (negb (ga_spammer args) || ga_relayer args) then Panic "--spammer requires --relayer" else Ret ().

(** [as u16] and the two additions on [u16]. *)
Definition as_u16 (x : Z) : Z := x mod 2 ^ 16.
Definition checked_add_u16 (a b : Z) : option Z := if decide (a + b ≤ u16_max) then Some (a + b) else None.
Definition add_u16 (a b : Z) : Z := (a + b) mod 2 ^ 16.

(** The writes of a run, in order, and the files they leave. *)
Definition files (writes : list (string * string)) : gmap string string :=
  fold_left (λ m '(p, t), <[p := t]> m) writes ∅.

Section deploy.
Context `{DkgLib} `{YamlLib}.

(** ** main.rs: key material *)

(** [struct ClusterMaterial]; the shares are keyed by the encoded key. *)
Record ClusterMaterial := mkMaterial {
  cm_signers : list ed_sk; cm_public_keys : list ed_pk;
  cm_secondary_signers : list ed_sk; cm_secondary_public_keys : list ed_pk;
  cm_dkg_output : DkgOutput; cm_shares : gmap bytes Share; cm_genesis_leader : string }.

Definition pk_hex (k : ed_pk) : string := hex (fwrite k).
Definition primary_hex (m : ClusterMaterial) : list string := pk_hex <$> cm_public_keys m.
Definition secondary_hex (m : ClusterMaterial) : list string := pk_hex <$> cm_secondary_public_keys m.
Definition simplex_verification_material_hex (m : ClusterMaterial) : string :=
  hex (output_public_key (cm_dkg_output m)).

Definition build_cluster_material (signers secondary_signers : list ed_sk) (rng : Z) : run ClusterMaterial :=
  let public_keys := ed_public_key <$> signers in
  let secondary_public_keys := ed_public_key <$> secondary_signers in
  participants ← try_collect public_keys;
  '(dkg_output, raw_shares) ← expect (dkg_deal rng participants) "DKG deal failed";
  let shares := fold_left (λ m '(k, s), <[fwrite k := s]> m) raw_shares ∅ in
  leader ← expect (head public_keys) "index out of bounds";
  Ret (mkMaterial signers public_keys secondary_signers secondary_public_keys dkg_output shares
         (pk_hex leader)).

(** [test_rng] is the deterministic generator of commonware-utils. *)
Definition generate_local_cluster_material (test_rng validators secondaries : Z) : run ClusterMaterial :=
  build_cluster_material (ed_from_seed <$> seqZ 0 validators)
    ((λ index, ed_from_seed (SECONDARY_SEED_OFFSET + index)) <$> seqZ 0 secondaries) test_rng.

(** The keys drawn at random, sorted by public key. *)
Definition sort_by_key (key_leb : ed_pk → ed_pk → bool) (l : list ed_sk) : list ed_sk :=
  merge_sort (λ a b, Is_true (key_leb (ed_public_key a) (ed_public_key b))) l.
Definition generate_remote_cluster_material (key_leb : ed_pk → ed_pk → bool) (os_rng : Z)
    (random : Z → ed_sk) (validators secondaries : Z) : run ClusterMaterial :=
  build_cluster_material (sort_by_key key_leb (random <$> seqZ 0 validators))
    (sort_by_key key_leb (random <$> seqZ validators secondaries)) os_rng.

Definition simplex_verification_material_from_config (read_to_string : string → option string)
    (config_path : string) : run string :=
  raw ← expect (read_to_string config_path) "failed to read validator config";
  '(out, n) ← expect (y ← yaml_from_str raw; l ← struct_fields y;
                      o ← required de_string "dkg_output" l;
                      n ← required (de_uint u32_max) "num_validators" l; Some (o, n))
                "failed to parse validator config";
  b ← expect (from_hex out) "bad dkg_output hex";
  if n =? 0 then Panic "value must be non-zero"
  else
    o ← read_expect (output_read n) b "failed to decode dkg_output";
    Ret (hex (output_public_key o)).

Definition default_bootstrappers (public_keys : list ed_pk) : list NamedBootstrapperEntry :=
  (λ k, mkBootstrapper (pk_hex k) (pk_hex k))
    <$> take (Z.to_nat (Z.min DEFAULT_BOOTSTRAPPERS (zlen public_keys))) public_keys.

Definition config_write (file : string) (config : BundleValidator) : string * string :=
  (file, yaml_to_string (ser_validator config)).

(** ** local.rs *)

Record GeneratedValidator := mkGenerated {
  gv_config_file : string; gv_config : BundleValidator; gv_peer : PeerEntry }.
Definition generated_write (g : GeneratedValidator) : string * string :=
  config_write (gv_config_file g) (gv_config g).

Definition local_address (port : Z) : string := "127.0.0.1:" +:+ pretty port.
Definition local_url (port : Z) : string := "http://127.0.0.1:" +:+ pretty port.

Section local.
Variables (args : GenerateArgs) (local : LocalArgs) (output_dir : string) (m : ClusterMaterial).

Definition build_validator (index : Z) : run GeneratedValidator :=
  public_key ← expect (cm_public_keys m !! Z.to_nat index) "index out of bounds";
  share ← expect (cm_shares m !! fwrite public_key) "missing share for validator";
  listen_port ← expect (checked_add_u16 (la_base_port local) (as_u16 index)) "listen port overflow";
  http_port ← expect (checked_add_u16 (la_base_http_port local) (as_u16 index)) "http port overflow";
  metrics_port ← expect (checked_add_u16 (la_base_metrics_port local) (as_u16 index)) "metrics port overflow";
  signer ← expect (cm_signers m !! Z.to_nat index) "index out of bounds";
  Ret (mkGenerated (path_join output_dir ("validator-" +:+ pretty index +:+ ".yaml"))
    (mkBundleValidator (hex (sk_write signer)) (hex (output_write (cm_dkg_output m)))
      (hex (share_write share)) (ga_startup args) listen_port (cm_genesis_leader m)
      ("validator-" +:+ pretty index) (ga_validators args) (primary_hex m) (secondary_hex m)
      (ga_log_level args) (ga_worker_threads args) (ga_rayon_threads args) http_port metrics_port
      default_max_propose_bytes default_max_pool_bytes (default_bootstrappers (cm_public_keys m))
      None None)
    (mkPeer (pk_hex public_key) (local_address listen_port) (local_address http_port))).
Definition build_validators : run (list GeneratedValidator) :=
  mapM build_validator (seqZ 0 (ga_validators args)).

Definition local_indexer_config (indexer_port : Z) : IndexerConfig :=
  mkIndexerConfig (local_url indexer_port) INDEXER_UPLOAD_BUFFER.
Definition local_relayer_config : run BundleRelayer :=
  leaders ← mapM (λ '(index, public_key),
      port ← expect (checked_add_u16 (la_base_http_port local) (as_u16 index)) "validator http port overflow";
      Ret (mkLeaderConfig public_key (local_url port)))
    (zip (seqZ 0 (zlen (primary_hex m))) (primary_hex m));
  Ret (mkBundleRelayer leaders).

Definition build_secondary (index : Z) (role : SecondaryRole) : run GeneratedValidator :=
  let primary_span := as_u16 (ga_validators args) in
  public_key ← expect (cm_secondary_public_keys m !! Z.to_nat index) "index out of bounds";
  offset ← expect (checked_add_u16 primary_span (as_u16 index)) "secondary port offset overflow";
  listen_port ← expect (checked_add_u16 (la_base_port local) offset) "secondary listen port overflow";
  http_port ← expect (checked_add_u16 (la_base_http_port local) offset) "secondary http port overflow";
  metrics_port ← expect (checked_add_u16 (la_base_metrics_port local) offset) "secondary metrics port overflow";
  signer ← expect (cm_secondary_signers m !! Z.to_nat index) "index out of bounds";
  relayer ← match role with RelayerRole => r ← local_relayer_config; Ret (Some r) | IndexerRole => Ret None end;
  Ret (mkGenerated (path_join output_dir ("secondary-" +:+ pretty index +:+ ".yaml"))
    (mkBundleValidator (hex (sk_write signer)) (hex (output_write (cm_dkg_output m))) ""
      (ga_startup args) listen_port (cm_genesis_leader m)
      ("secondary-" +:+ pretty index) (ga_validators args) (primary_hex m) (secondary_hex m)
      (ga_log_level args) (ga_worker_threads args) (ga_rayon_threads args) http_port metrics_port
      default_max_propose_bytes default_max_pool_bytes (default_bootstrappers (cm_public_keys m))
      (match role with IndexerRole => Some (local_indexer_config (la_chain_indexer_port local)) | RelayerRole => None end)
      relayer)
    (mkPeer (pk_hex public_key) (local_address listen_port) (local_address http_port))).
Definition build_secondaries : run (list GeneratedValidator) :=
  mapM (λ '(index, role), build_secondary index role)
    (zip (seqZ 0 (zlen (secondary_roles args))) (secondary_roles args)).

Definition relayer_http_port : option Z :=
  if ga_relayer args
  then Some (add_u16 (add_u16 (la_base_http_port local) (as_u16 (ga_validators args)))
               (if ga_indexer args then 1 else 0))
  else None.

End local.

(** [generate]: the writes of the bundle; [exists] says whether the output
    directory was there. *)
Definition generate_local (current_dir : string) (output_exists : bool) (test_rng : Z)
    (args : GenerateArgs) (local : LocalArgs) : run (list (string * string)) :=
  _ ← validate_generate_args args;
  if ga_validators args <? 1 then Panic "need at least one validator"
  else
    let output_dir := absolute_path current_dir (ga_output_dir args) in
    if output_exists then Panic "output directory already exists"
    else
      material ← generate_local_cluster_material test_rng (ga_validators args) (total_secondaries args);
      validators ← build_validators args local output_dir material;
      secondaries ← build_secondaries args local output_dir material;
      let peers := mkPeersConfig (gv_peer <$> validators) (gv_peer <$> secondaries) in
      Ret ((generated_write <$> validators) ++ (generated_write <$> secondaries)
           ++ [(path_join output_dir PEERS_CONFIG_FILE, yaml_to_string (ser_peers peers));
               (path_join output_dir SIMPLEX_VERIFICATION_MATERIAL_FILE,
                simplex_verification_material_hex material)]).

(** [local_run_commands]: one shell command per process.  Floats print as the
    standard library does. *)
Definition node_command (path peers_path : string) : string :=
  "cargo run --release --bin constantinople -- --config " +:+ path +:+ " --peers " +:+ peers_path.
Definition indexer_commands (output_dir : string) (args : GenerateArgs) (local : LocalArgs)
    (simplex_verification_material : string) : list string :=
  let store := pretty (la_chain_indexer_port local) in
  let data_dir := path_join output_dir CHAIN_INDEXER_DATA_DIR in
  let relayer_env :=
    match relayer_http_port args local with
    | Some port => " VITE_MEMPOOL_URL=http://127.0.0.1:" +:+ pretty port
    | None => ""%string
    end in
  ["cargo run --release -p constantinople-indexer --bin " +:+ CHAIN_INDEXER_BINARY_FILE
     +:+ " -- --port " +:+ store +:+ " --data-dir " +:+ data_dir;
   "cargo run --release -p constantinople-indexer --bin " +:+ METADATA_INDEXER_BINARY_FILE
     +:+ " -- --store-url http://127.0.0.1:" +:+ store +:+ " --port " +:+ pretty (la_metadata_indexer_port local);
   "cargo run --release -p constantinople-indexer --bin " +:+ QMDB_INDEXER_BINARY_FILE
     +:+ " -- --store-url http://127.0.0.1:" +:+ store +:+ " --port " +:+ pretty (la_qmdb_indexer_port local);
   "VITE_SQL_URL=http://127.0.0.1:" +:+ pretty (la_metadata_indexer_port local)
     +:+ " VITE_QMDB_URL=http://127.0.0.1:" +:+ pretty (la_qmdb_indexer_port local)
     +:+ " VITE_STORE_URL=http://127.0.0.1:" +:+ store
     +:+ " VITE_SIMPLEX_VERIFICATION_MATERIAL=" +:+ simplex_verification_material
     +:+ relayer_env +:+ " npm --prefix explorer run dev"].
Definition spammer_command (f64_display : f64 → string) (args : GenerateArgs) (local : LocalArgs)
    (relayer_targets : list string) : run string :=
  let targets := String.concat "," relayer_targets in
  relayer_port ← expect (relayer_http_port args local) "--spammer requires a relayer secondary";
  let network_source :=
    "--relayer-url http://127.0.0.1:" +:+ pretty relayer_port
    +:+ " --relayer-submitters " +:+ pretty (ga_validators args)
    +:+ " --relayer-targets " +:+ targets in
  Ret ("cargo run --release --bin constantinople-spammer -- " +:+ network_source
    +:+ " --accounts " +:+ pretty (ga_spammer_accounts args)
    +:+ " --value " +:+ pretty (ga_spammer_value args)
    +:+ " --seed-offset " +:+ pretty (ga_spammer_seed_offset args)
    +:+ " --rayon-threads " +:+ pretty (ga_spammer_rayon_threads args)
    +:+ " --accounts-jitter " +:+ f64_display (ga_spammer_accounts_jitter args)
    +:+ " --presigned-batches " +:+ pretty (ga_spammer_presigned_batches args)).
Definition local_run_commands (f64_display : f64 → string) (output_dir : string) (args : GenerateArgs)
    (local : LocalArgs) (relayer_targets : list string) (simplex_verification_material : string)
    : run (list string) :=
  let peers_path := path_join output_dir PEERS_CONFIG_FILE in
  let nodes name n :=
    (λ index, node_command (path_join output_dir (name +:+ "-" +:+ pretty index +:+ ".yaml")) peers_path)
      <$> seqZ 0 n in
  let commands :=
    nodes "validator"%string (ga_validators args) ++ nodes "secondary"%string (total_secondaries args)
    ++ (if ga_indexer args then indexer_commands output_dir args local simplex_verification_material else []) in
  if ga_spammer args
  then c ← spammer_command f64_display args local relayer_targets; Ret (commands ++ [c])
  else Ret commands.

(** ** remote.rs *)

Section remote.
Variables (args : GenerateArgs) (remote : RemoteArgs) (output_dir : string) (m : ClusterMaterial).
(** [METRICS_PORT] of commonware-deployer. *)
Variable METRICS_PORT : Z.

Record RemoteValidator := mkRemoteValidator {
  rv_public_key_hex : string; rv_config_name : string; rv_config_file : string;
  rv_config : BundleValidator }.
Definition remote_write (g : RemoteValidator) : string * string :=
  config_write (rv_config_file g) (rv_config g).

Definition remote_validator (index : Z) : run RemoteValidator :=
  public_key ← expect (cm_public_keys m !! Z.to_nat index) "index out of bounds";
  let public_key_hex := pk_hex public_key in
  share ← expect (cm_shares m !! fwrite public_key) "missing share for validator";
  signer ← expect (cm_signers m !! Z.to_nat index) "index out of bounds";
  let config_name := public_key_hex +:+ ".yaml" in
  Ret (mkRemoteValidator public_key_hex config_name (path_join output_dir config_name)
    (mkBundleValidator (hex (sk_write signer)) (hex (output_write (cm_dkg_output m)))
      (hex (share_write share)) (ga_startup args) (ra_listen_port remote) (cm_genesis_leader m)
      ("validator-" +:+ pretty index) (ga_validators args) (primary_hex m) (secondary_hex m)
      (ga_log_level args) (ga_worker_threads args) (ga_rayon_threads args) (ra_http_port remote)
      METRICS_PORT default_max_propose_bytes default_max_pool_bytes
      (default_bootstrappers (cm_public_keys m)) None None)).
Definition remote_validators : run (list RemoteValidator) :=
  mapM remote_validator (seqZ 0 (ga_validators args)).

Definition chain_indexer_url : string :=
  "http://" +:+ CHAIN_INDEXER_HOST +:+ ":" +:+ pretty (ra_chain_indexer_port remote).
Definition remote_indexer_config : IndexerConfig := mkIndexerConfig chain_indexer_url INDEXER_UPLOAD_BUFFER.
Definition host_url (public_key : string) : string :=
  "http://" +:+ public_key +:+ ":" +:+ pretty (ra_http_port remote).
Definition remote_relayer_config : BundleRelayer :=
  mkBundleRelayer ((λ public_key, mkLeaderConfig public_key (host_url public_key)) <$> primary_hex m).

Definition remote_secondary (index : Z) (role : SecondaryRole) : run RemoteValidator :=
  public_key ← expect (cm_secondary_public_keys m !! Z.to_nat index) "index out of bounds";
  let public_key_hex := pk_hex public_key in
  signer ← expect (cm_secondary_signers m !! Z.to_nat index) "index out of bounds";
  let config_name := public_key_hex +:+ ".yaml" in
  Ret (mkRemoteValidator public_key_hex config_name (path_join output_dir config_name)
    (mkBundleValidator (hex (sk_write signer)) (hex (output_write (cm_dkg_output m))) ""
      (ga_startup args) (ra_listen_port remote) (cm_genesis_leader m)
      ("secondary-" +:+ pretty index) (ga_validators args) (primary_hex m) (secondary_hex m)
      (ga_log_level args) (ga_worker_threads args) (ga_rayon_threads args) (ra_http_port remote)
      METRICS_PORT default_max_propose_bytes default_max_pool_bytes
      (default_bootstrappers (cm_public_keys m))
      (match role with IndexerRole => Some remote_indexer_config | RelayerRole => None end)
      (match role with RelayerRole => Some remote_relayer_config | IndexerRole => None end))).
Definition remote_secondaries : run (list RemoteValidator) :=
  mapM (λ '(index, role), remote_secondary index role)
    (zip (seqZ 0 (zlen (secondary_roles args))) (secondary_roles args)).

Definition relayer_url : run string :=
  public_key ← expect (cm_secondary_public_keys m !! (if ga_indexer args then 1%nat else 0%nat))
    "index out of bounds";
  Ret (host_url (pk_hex public_key)).
Definition remote_spammer_config : run SpammerConfig :=
  url ← relayer_url;
  Ret (mkSpammerConfig (ga_spammer_accounts args) (ga_spammer_value args) (ga_spammer_seed_offset args)
         (ga_spammer_rayon_threads args) (ra_http_port remote) url (ga_validators args)
         (ga_spammer_presigned_batches args) (primary_hex m) (ga_spammer_accounts_jitter args)).

Definition chain_indexer_config : option ChainIndexerConfig :=
  if ga_indexer args then Some (mkChainIndexer (ra_chain_indexer_port remote) CHAIN_INDEXER_DATA_DIR) else None.
Definition metadata_indexer_config : option ServiceConfig :=
  if ga_indexer args then Some (mkService (ra_metadata_indexer_port remote) chain_indexer_url) else None.
Definition qmdb_indexer_config : option ServiceConfig :=
  if ga_indexer args then Some (mkService (ra_qmdb_indexer_port remote) chain_indexer_url) else None.

End remote.

(** commonware-deployer's configuration, less the storage throughput and the
    monitoring's iops, which the tool always leaves empty. *)
Record InstanceConfig := mkInstance {
  in_name : string; in_region : string; in_availability_zone_group : option string;
  in_instance_type : string; in_storage_size : Z; in_storage_class : string;
  in_storage_iops : option Z; in_binary : string; in_config : string; in_profiling : bool }.
Record PortConfig := mkPort { po_protocol : string; po_port : Z; po_cidr : string }.
Record MonitoringConfig := mkMonitoring {
  mo_instance_type : string; mo_storage_size : Z; mo_storage_class : string; mo_dashboard : string }.
Record DeployerConfig := mkDeployer {
  de_tag : string; de_monitoring : MonitoringConfig; de_instances : list InstanceConfig;
  de_ports : list PortConfig }.

Definition STORAGE_CLASS : string := "gp3".
Definition CHAIN_INDEXER_STORAGE_CLASS : string := "io2".
Definition EXOWARE_AVAILABILITY_ZONE_GROUP : string := "exoware".

Definition port_configs (remote : RemoteArgs) (indexer_enabled : bool) : list PortConfig :=
  let everywhere p := mkPort "tcp" p "0.0.0.0/0" in
  [everywhere (ra_listen_port remote)]
  ++ (if indexer_enabled
      then [everywhere (ra_chain_indexer_port remote); everywhere (ra_metadata_indexer_port remote);
            everywhere (ra_qmdb_indexer_port remote)]
      else [])
  ++ ((λ cidr, mkPort "tcp" (ra_http_port remote) cidr) <$> ra_http_cidrs remote).

(** [regions[index % regions.len()]] of a non-empty list, and [regions[0]]. *)
Definition region_of (remote : RemoteArgs) (index : nat) : string :=
  default ""%string (ra_regions remote !! (index mod length (ra_regions remote))%nat).
Definition shared_indexer_region (remote : RemoteArgs) : string := region_of remote 0.

Definition node_instance (remote : RemoteArgs) (region : string) (zone_group : option string)
    (g : RemoteValidator) : InstanceConfig :=
  mkInstance (rv_public_key_hex g) region zone_group (ra_instance_type remote) (ra_storage_size remote) STORAGE_CLASS None VALIDATOR_BINARY_FILE
    (rv_config_name g) (ra_profiling remote).
Definition secondary_instance (args : GenerateArgs) (remote : RemoteArgs) (index : nat)
    (g : RemoteValidator) : InstanceConfig :=
  node_instance remote
    (if ga_indexer args then shared_indexer_region remote else region_of remote index)
    ((λ _, EXOWARE_AVAILABILITY_ZONE_GROUP) <$> bv_indexer (rv_config g)) g.
Definition service_instances (remote : RemoteArgs) : list InstanceConfig :=
  let region := shared_indexer_region remote in
  [mkInstance CHAIN_INDEXER_HOST region (Some EXOWARE_AVAILABILITY_ZONE_GROUP)
     (ra_chain_indexer_instance_type remote) (ra_chain_indexer_storage_size remote)
     CHAIN_INDEXER_STORAGE_CLASS (Some (ra_chain_indexer_storage_iops remote))
     CHAIN_INDEXER_BINARY_FILE CHAIN_INDEXER_CONFIG_FILE false;
   mkInstance METADATA_INDEXER_HOST region (Some EXOWARE_AVAILABILITY_ZONE_GROUP)
     (ra_instance_type remote) (ra_storage_size remote) STORAGE_CLASS None
     METADATA_INDEXER_BINARY_FILE METADATA_INDEXER_CONFIG_FILE false;
   mkInstance QMDB_INDEXER_HOST region (Some EXOWARE_AVAILABILITY_ZONE_GROUP)
     (ra_instance_type remote) (ra_storage_size remote) STORAGE_CLASS None
     QMDB_INDEXER_BINARY_FILE QMDB_INDEXER_CONFIG_FILE false].
Definition build_deployer_config (tag : string) (args : GenerateArgs) (remote : RemoteArgs)
    (validators secondaries : list RemoteValidator) : DeployerConfig :=
  mkDeployer tag
    (mkMonitoring (ra_monitoring_instance_type remote) (ra_monitoring_storage_size remote) STORAGE_CLASS
       DASHBOARD_FILE)
    (imap (λ index g, node_instance remote (region_of remote index) None g) validators
     ++ imap (secondary_instance args remote) secondaries
     ++ (if ga_indexer args then service_instances remote else [])
     ++ (if ga_spammer args
         then [mkInstance "spammer" (region_of remote 0) None
                 (default (ra_instance_type remote) (ra_spammer_instance_type remote))
                 (ra_spammer_storage_size remote) STORAGE_CLASS None SPAMMER_BINARY_FILE
                 SPAMMER_CONFIG_FILE false]
         else []))
    (port_configs remote (ga_indexer args)).

Definition optional_write {A} (path : string) (ser : A → Yaml) (o : option A) : list (string * string) :=
  match o with Some c => [(path, yaml_to_string (ser c))] | None => [] end.

(** [generate]: the writes and the deployer's configuration; [dashboard] is
    the text copied and [deployer_yaml] the library's serializer. *)
Definition generate_remote (key_leb : ed_pk → ed_pk → bool) (os_rng : Z) (random : Z → ed_sk)
    (METRICS_PORT : Z) (current_dir : string) (output_exists : bool) (dashboard tag : string)
    (deployer_yaml : DeployerConfig → string) (args : GenerateArgs) (remote : RemoteArgs)
    : run (list (string * string) * DeployerConfig) :=
  _ ← validate_generate_args args;
  if ga_validators args <? 1 then Panic "need at least one validator"
  else if bool_decide (ra_regions remote = []) then Panic "need at least one region"
  else if ga_validators args <? zlen (ra_regions remote) then Panic "need at least one validator per region"
  else
    let output_dir := absolute_path current_dir (ga_output_dir args) in
    if output_exists then Panic "output directory already exists"
    else
      material ← generate_remote_cluster_material key_leb os_rng random (ga_validators args) (total_secondaries args);
      validators ← remote_validators args remote output_dir material METRICS_PORT;
      secondaries ← remote_secondaries args remote output_dir material METRICS_PORT;
      spammer ← (if ga_spammer args
                 then c ← remote_spammer_config args remote material; Ret (Some c) else Ret None);
      let deployer := build_deployer_config tag args remote validators secondaries in
      Ret ((remote_write <$> validators) ++ (remote_write <$> secondaries)
           ++ optional_write (path_join output_dir CHAIN_INDEXER_CONFIG_FILE) ser_chain_indexer
                (chain_indexer_config args remote)
           ++ optional_write (path_join output_dir METADATA_INDEXER_CONFIG_FILE) ser_service
                (metadata_indexer_config args remote)
           ++ optional_write (path_join output_dir QMDB_INDEXER_CONFIG_FILE) ser_service
                (qmdb_indexer_config args remote)
           ++ optional_write (path_join output_dir SPAMMER_CONFIG_FILE) ser_spammer spammer
           ++ [(path_join output_dir SIMPLEX_VERIFICATION_MATERIAL_FILE,
                simplex_verification_material_hex material);
               (path_join output_dir DASHBOARD_FILE, dashboard);
               (path_join output_dir DEPLOYER_CONFIG_FILE, deployer_yaml deployer)],
           deployer).

End deploy.

(** ** The validator reads what the tool writes *)

Definition validator_config_of (c : BundleValidator) : ValidatorConfig :=
  mkValidatorConfig (bv_private_key c) (bv_dkg_output c) (bv_dkg_share c) (bv_startup c)
    (bv_listen_port c) (bv_genesis_leader c) (bv_partition_prefix c) (bv_num_validators c)
    (bv_primary_validators c) (bv_secondary_validators c) (bv_log_level c) (bv_worker_threads c)
    (bv_rayon_threads c) (bv_http_port c) (bv_metrics_port c) (bv_max_propose_bytes c)
    (bv_max_pool_bytes c) default_prune_cadence_blocks (bv_bootstrappers c) (bv_indexer c)
    ((λ r, mkRelayerConfig default_relayer_retry_views (br_leaders r)) <$> bv_relayer c).

Record bundle_wf (c : BundleValidator) : Prop := {
  bw_listen : is_u16 (bv_listen_port c); bw_http : is_u16 (bv_http_port c);
  bw_metrics : is_u16 (bv_metrics_port c); bw_num : is_u32 (bv_num_validators c);
  bw_workers : is_u64 (bv_worker_threads c); bw_rayon : is_u64 (bv_rayon_threads c);
  bw_propose : is_u64 (bv_max_propose_bytes c); bw_pool : is_u64 (bv_max_pool_bytes c);
  bw_buffer i : bv_indexer c = Some i → is_u64 (ix_upload_buffer i) }.

(** Look the fields of a written structure up. *)
Ltac fields := repeat match goal with
  | |- context [required ?de ?k ?l] =>
      let v := eval cbv [field_values app ser_some String.eqb Ascii.eqb Bool.eqb] in (field_values k l) in
      change (required de k l) with (match v with [y] => de y | _ => None end); cbv iota beta
  | |- context [defaulted ?d ?de ?k ?l] =>
      let v := eval cbv [field_values app ser_some String.eqb Ascii.eqb Bool.eqb] in (field_values k l) in
      change (defaulted d de k l) with (match v with [] => Some d | [y] => de y | _ => None end); cbv iota beta
  end.

Section derive.
Context `{YamlLib}.

Lemma de_ser_strings l : de_seq de_string (ser_strings l) = Some l.
Proof.
  cbn. rewrite <- (list_fmap_id l) at 2. apply mapM_option_map. intros. apply de_string_law.
Qed.

Lemma de_ser_leaders l : de_seq de_leader (YSeq (ser_leader <$> l)) = Some l.
Proof.
  cbn. rewrite <- (list_fmap_id l) at 2. apply mapM_option_map. intros [k u] _. cbn.
  by rewrite !de_string_law.
Qed.

Lemma de_ser_bootstrappers l : de_seq de_bootstrapper (YSeq (ser_bootstrapper <$> l)) = Some l.
Proof.
  cbn. rewrite <- (list_fmap_id l) at 2. apply mapM_option_map. intros [k u] _. cbn.
  by rewrite !de_string_law.
Qed.

Lemma de_ser_startup s : de_startup (ser_startup s) = Some s.
Proof. unfold de_startup, ser_startup. rewrite de_string_law. by destruct s. Qed.

Lemma de_ser_indexer i : is_u64 (ix_upload_buffer i) → de_option de_indexer (ser_indexer i) = Some (Some i).
Proof.
  intros Hi. destruct i as [u b]. cbn. rewrite de_string_law. cbn. unfold defaulted. cbn.
  by rewrite de_uint_law.
Qed.

Lemma de_ser_relayer r :
  de_option de_relayer (ser_relayer r) = Some (Some (mkRelayerConfig default_relayer_retry_views (br_leaders r))).
Proof.
  unfold ser_relayer, de_option, de_relayer. cbn [struct_fields mbind option_bind]. fields.
  cbn [mbind option_bind]. by rewrite de_ser_leaders.
Qed.

Lemma de_ser_peers p : de_peers (ser_peers p) = Some (mkPeers (pc_validators p) (pc_secondaries p)).
Proof.
  assert (∀ l, de_seq de_peer (YSeq (ser_peer <$> l)) = Some l) as Hl.
  { intros l. cbn. rewrite <- (list_fmap_id l) at 2. apply mapM_option_map. intros [n a b] _. cbn.
    by rewrite !de_string_law. }
  unfold de_peers, ser_peers. cbn [struct_fields mbind option_bind]. fields. by rewrite !Hl.
Qed.

Lemma de_ser_validator c : bundle_wf c → de_validator (ser_validator c) = Some (validator_config_of c).
Proof.
  intros [Hl Hh Hm Hn Hw Hr Hp Hq Hb]. unfold is_u16, is_u32, is_u64 in *.
  destruct c as [pk out sh st lp gl pre num prim sec log w ray http met mpr mpo boots ix rl].
  cbn in Hl, Hh, Hm, Hn, Hw, Hr, Hp, Hq, Hb. unfold ser_validator. cbn -[de_validator ser_some app].
  unfold de_validator. cbn [struct_fields mbind option_bind].
  assert (∀ i, ix = Some i → de_option de_indexer (ser_indexer i) = Some (Some i)) as Hix
    by (intros; apply de_ser_indexer, Hb; done).
  destruct ix as [ix|], rl as [rl|]; fields; rewrite ?de_ser_startup, ?de_ser_strings, ?de_ser_bootstrappers, ?de_string_law, ?de_uint_law by done;
    cbn [mbind option_bind]; rewrite ?Hix, ?de_ser_relayer by done; reflexivity.
Qed.
End derive.

(** ** Key material, files and sequences of steps *)

Lemma files_lookup writes p t : NoDup writes.*1 → (p, t) ∈ writes → files writes !! p = Some t.
Proof. apply (hosts_by_name_lookup writes). Qed.

Lemma mapM_run_Forall2 {A B} (f : A → run B) (P : A → B → Prop) l :
  (∀ x, x ∈ l → ∃ y, f x = Ret y ∧ P x y) → ∃ ys, mapM f l = Ret ys ∧ Forall2 P l ys.
Proof.
  induction l as [|x l IH]; intros Hf; [by exists []|].
  destruct (Hf x) as (y & Hy & HP); [left|]. destruct IH as (ys & Hys & HPs); [intros; apply Hf; by right|].
  exists (y :: ys). split; [|by constructor]. cbn. rewrite Hy. cbn. fold (mapM f l). by rewrite Hys.
Qed.

Lemma mapM_run_imap {A B C} (f : B → run C) (g : A → B) (h : nat → A → C) l :
  (∀ i x, l !! i = Some x → f (g x) = Ret (h i x)) → mapM f (g <$> l) = Ret (imap h l).
Proof.
  revert h. induction l as [|x l IH]; intros h Hf; [done|]. cbn. rewrite (Hf 0%nat) by done. cbn.
  fold (mapM f (g <$> l)). by rewrite (IH (h ∘ S)) by (intros i y Hi; by apply (Hf (S i))).
Qed.

(** The image of related lists under functions that agree on related items. *)
Lemma Forall2_fmap_eq {A B C} (P : A → B → Prop) (f : A → C) (g : B → C) l k :
  Forall2 P l k → (∀ x y, P x y → f x = g y) → g <$> k = f <$> l.
Proof. intros HP Hfg. induction HP as [|x y l k Hxy]; [done|]. cbn. f_equal; [|done]. symmetry. by apply Hfg. Qed.

Lemma default_bootstrappers_take `{DkgLib} ks :
  default_bootstrappers ks = (λ k, mkBootstrapper (pk_hex k) (pk_hex k)) <$> take 3 ks.
Proof.
  unfold default_bootstrappers, DEFAULT_BOOTSTRAPPERS, zlen. f_equal.
  destruct (decide (length ks ≤ 3)%nat).
  - rewrite !take_ge by lia. done.
  - by replace (Z.to_nat (Z.min 3 (Z.of_nat (length ks)))) with 3%nat by lia.
Qed.

Section material.
Context `{DkgLib}.

Record material_ok (m : ClusterMaterial) (signers secondary_signers : list ed_sk) : Prop := {
  mo_signers : cm_signers m = signers;
  mo_keys : cm_public_keys m = ed_public_key <$> signers;
  mo_secondary_signers : cm_secondary_signers m = secondary_signers;
  mo_secondary_keys : cm_secondary_public_keys m = ed_public_key <$> secondary_signers;
  mo_output : output_read (zlen signers) (output_write (cm_dkg_output m)) = Ok (cm_dkg_output m, []);
  mo_share k : k ∈ cm_public_keys m → is_Some (cm_shares m !! fwrite k);
  mo_deal : ∃ rng shares, dkg_deal rng (cm_public_keys m) = Some (cm_dkg_output m, shares) ∧
    ∀ k s, cm_shares m !! k = Some s → s ∈ shares.*2;
  mo_leader : ∃ leader, head (cm_public_keys m) = Some leader ∧ cm_genesis_leader m = pk_hex leader }.

Lemma collect_shares_lookup (l : list (ed_pk * Share)) (m : gmap bytes Share) k :
  k ∈ l.*1 ∨ is_Some (m !! fwrite k) →
  is_Some (fold_left (λ m '(k, s), <[fwrite k := s]> m) l m !! fwrite k).
Proof.
  revert m. induction l as [|[k' s] l IH]; intros m [Hk|Hk]; cbn in *; [by apply not_elem_of_nil in Hk|done| |].
  - apply IH. apply elem_of_cons in Hk as [->|Hk]; [right; by rewrite lookup_insert_eq|by left].
  - apply IH. right. destruct (decide (fwrite k' = fwrite k)) as [->|]; [by rewrite lookup_insert_eq|].
    by rewrite lookup_insert_ne.
Qed.

Lemma collect_shares_dealt (l : list (ed_pk * Share)) (m : gmap bytes Share) k s :
  fold_left (λ m '(k, s), <[fwrite k := s]> m) l m !! k = Some s → s ∈ l.*2 ∨ m !! k = Some s.
Proof.
  revert m. induction l as [|[k' s'] l IH]; intros m Hs; cbn in *; [by right|].
  apply IH in Hs as [Hs|Hs]; [left; by right|]. rewrite lookup_insert_Some in Hs.
  destruct Hs as [[_ <-]|[_ Hs]]; [left; by left|by right].
Qed.

Lemma build_cluster_material_ok signers secondary_signers rng :
  signers ≠ [] → NoDup (fwrite <$> (ed_public_key <$> signers)) →
  ∃ m, build_cluster_material signers secondary_signers rng = Ret m ∧ material_ok m signers secondary_signers.
Proof.
  intros Hne Hnd. destruct signers as [|sk sks]; [done|].
  destruct (deal_law rng (ed_public_key <$> sk :: sks)) as (o & shares & Hd & Hp & Ho); [done|done|].
  unfold build_cluster_material, try_collect. rewrite decide_True by done. cbn [mbind run_bind].
  rewrite Hd. cbn [mbind run_bind expect head fmap list_fmap]. eexists. split; [reflexivity|].
  constructor; try done.
  - cbn [cm_dkg_output]. rewrite <- Ho. f_equal. unfold zlen. by rewrite length_fmap.
  - intros k Hk. cbn [cm_shares]. apply collect_shares_lookup. left. by rewrite Hp.
  - exists rng, shares. split; [exact Hd|]. intros k s [?|Hs]%collect_shares_dealt; [done|by rewrite lookup_empty in Hs].
  - cbn. by eexists.
Qed.

End material.

Definition any_ip (port : Z) : SocketAddr := mkSocket (IpV4 0 0 0 0) port.

(** The settings of a bundle that do not depend on the target. *)
Record args_ok (log_level_ok : string → bool) (blocking : Z) (args : GenerateArgs) : Prop := {
  ao_validators : 1 ≤ ga_validators args < 2 ^ 16;
  ao_spammer : ga_spammer args = true → ga_relayer args = true;
  ao_workers : 0 < ga_worker_threads args;
  ao_blocking : 0 ≤ blocking;
  ao_threads : ga_worker_threads args + blocking ≤ u64_max;
  ao_rayon : 0 < ga_rayon_threads args ≤ u64_max;
  ao_log : log_level_ok (ga_log_level args) = true }.

Lemma secondary_roles_short args : zlen (secondary_roles args) ≤ 2.
Proof. unfold secondary_roles. destruct (ga_indexer args), (ga_relayer args); vm_compute; discriminate. Qed.

Lemma string_app_assoc (a b c : string) : (a +:+ b) +:+ c = a +:+ b +:+ c.
Proof. induction a as [|x a IH]; [done|]. exact (f_equal (String x) IH). Qed.

Lemma path_join_inj dir a b :
  is_absolute a = false → is_absolute b = false → path_join dir a = path_join dir b → a = b.
Proof.
  unfold path_join. intros -> ->. case_match; intros E%(f_equal bytes_of_string);
    rewrite !bytes_of_string_app in E; apply bytes_of_string_inj.
  - by apply app_inv_head in E.
  - by do 2 apply app_inv_head in E.
Qed.

Lemma decode_pk_hex `{DkgLib} f k : decode_public_key f (pk_hex k) = Ret k.
Proof. apply decode_public_key_hex. Qed.

(** ** The relayer of a bundle knows its leaders *)

Lemma insert_leader_perm x l : insert_leader x l ≡ₚ x :: l.
Proof.
  induction l as [|y l IH]; [done|]. cbn. destruct (leader_leb x y); [done|].
  rewrite IH. apply Permutation_swap.
Qed.

Lemma sort_leaders_perm l : sort_leaders l ≡ₚ l.
Proof. unfold sort_leaders. induction l as [|x l IH]; [done|]. cbn. by rewrite insert_leader_perm, IH. Qed.

Lemma trim_url_port (u : string) p : 0 ≤ p → trim_end_slashes (u +:+ pretty p) = u +:+ pretty p.
Proof.
  intros Hp. unfold trim_end_slashes. rewrite bytes_of_string_app, reverse_app.
  pose proof (pretty_digits p Hp) as Hd. pose proof (pretty_nonempty p Hp) as Hne.
  assert (drop_slashes (reverse (bytes_of_string (pretty p)) ++ reverse (bytes_of_string u))
          = reverse (bytes_of_string (pretty p)) ++ reverse (bytes_of_string u)) as ->.
  { destruct (reverse (bytes_of_string (pretty p))) as [|b l] eqn:E.
    - apply (f_equal reverse) in E. by rewrite reverse_involutive in E.
    - cbn. assert (digit b) as [Hb _]; [|by rewrite (proj2 (Z.eqb_neq _ _)) by lia].
      rewrite Forall_forall in Hd. apply Hd. apply elem_of_reverse. rewrite E. left. }
  rewrite <- reverse_app, reverse_involutive, <- bytes_of_string_app. apply string_of_bytes_of.
Qed.

Section leaders.
Context `{DkgLib}.

Lemma hex_lowercase b : to_lowercase (hex b) = hex b.
Proof.
  unfold to_lowercase. rewrite <- (string_of_bytes_of (hex b)) at 2. f_equal.
  rewrite <- list_fmap_id. apply list_fmap_ext. intros i x Hi. pose proof (hex_digits b) as Hd.
  rewrite Forall_forall in Hd. specialize (Hd x (list_elem_of_lookup_2 _ _ _ Hi)). clear Hi.
  revert x Hd. apply Forall_forall. repeat (constructor; [vm_compute; reflexivity|]). constructor.
Qed.

Lemma hex_no_char c b : c ∉ HEX → no_char c (hex b).
Proof. intros Hc Hin. apply Hc. pose proof (hex_digits b) as Hd. rewrite Forall_forall in Hd. by apply Hd. Qed.

Definition leader_config (u : nat → ed_pk → string) (p : nat → Z) (ks : list ed_pk) : list (string * string) :=
  imap (λ i k, (pk_hex k, u i k +:+ pretty (p i))) ks.

Lemma normalized_leader_found u p ks :
  (∀ i, (i < length ks)%nat → 0 ≤ p i) → NoDup (fwrite <$> ks) →
  ∃ ls, normalize_leaders from_hex (leader_config u p ks) = Ret ls ∧
    ∀ i k, ks !! i = Some k →
      leader_by_id ls (pk_hex k) = Some (mkLeader (pk_hex k) (fwrite k) (u i k +:+ pretty (p i))).
Proof.
  intros Hp Hnd. set (norm i k := mkLeader (pk_hex k) (fwrite k) (u i k +:+ pretty (p i))).
  assert (mapM (normalize_leader from_hex) (leader_config u p ks) = Ret (imap norm ks)) as Hm.
  { unfold leader_config. rewrite <- (list_fmap_id (imap _ ks)).
    rewrite (mapM_run_imap _ _ (λ i c, match ks !! i with Some k => norm i k | None => mkLeader c.1 [] c.2 end)).
    - f_equal. apply list_eq. intros i. rewrite !list_lookup_imap. by destruct (ks !! i).
    - intros i c Hi. rewrite list_lookup_imap in Hi. destruct (ks !! i) as [k|] eqn:E; [|done]. injection Hi as <-.
      unfold normalize_leader. cbn [fst snd id]. unfold pk_hex. rewrite hex_lowercase, hex_law. cbn [mbind run_bind expect].
      rewrite trim_url_port; [done|]. apply lookup_lt_Some in E. by apply Hp. }
  exists (sort_leaders (imap norm ks)). split; [unfold normalize_leaders; by rewrite Hm|].
  intros i k Hi. unfold leader_by_id. set (P := λ l : Leader, public_key l = pk_hex k).
  assert (norm i k ∈ sort_leaders (imap norm ks)) as Hin.
  { rewrite sort_leaders_perm. apply list_elem_of_lookup. exists i. by rewrite list_lookup_imap, Hi. }
  destruct (list_find_elem_of P _ _ Hin) as [[j y] Hy]; [done|]. rewrite Hy. cbn. f_equal.
  apply list_find_Some in Hy as (Hj & HP & _). apply list_elem_of_lookup_2 in Hj.
  rewrite sort_leaders_perm in Hj. apply list_elem_of_lookup in Hj as [i' Hi'].
  rewrite list_lookup_imap in Hi'. destruct (ks !! i') as [k'|] eqn:E; [|done]. injection Hi' as <-.
  apply hex_inj in HP. assert (i' = i) as ->.
  { eapply (NoDup_lookup _ _ _ (fwrite k) Hnd); rewrite list_lookup_fmap; [rewrite E|rewrite Hi]; cbn; by rewrite <- ?HP. }
  rewrite Hi in E. by injection E as ->.
Qed.

End leaders.

(** The verification material can be read back from a node's file. *)
Lemma simplex_material_read `{DkgLib} `{YamlLib} fs path c m signers secondary_signers :
  material_ok m signers secondary_signers → fs path = Some (yaml_to_string (ser_validator c)) → bundle_wf c →
  bv_dkg_output c = hex (output_write (cm_dkg_output m)) → bv_num_validators c = zlen signers → signers ≠ [] →
  simplex_verification_material_from_config fs path = Ret (simplex_verification_material_hex m).
Proof.
  intros Hok Hfs Hwf Ho Hn Hne. unfold simplex_verification_material_from_config. rewrite Hfs.
  cbn [mbind run_bind expect]. rewrite yaml_law. cbn [mbind option_bind]. unfold ser_validator.
  cbn [struct_fields mbind option_bind]. destruct (bv_indexer c), (bv_relayer c); fields;
    rewrite de_string_law; cbn [mbind option_bind]; rewrite de_uint_law by apply Hwf; cbn [mbind option_bind run_bind expect].
  all: rewrite Ho, hex_law; cbn [mbind run_bind expect]; rewrite Hn.
  all: rewrite (proj2 (Z.eqb_neq _ _)) by (destruct signers; [done|unfold zlen; cbn; lia]).
  all: unfold read_expect; by rewrite (mo_output _ _ _ Hok).
Qed.

(** A sample command line. *)
Definition sample_args : GenerateArgs :=
  mkArgs 3 true true "out" "info" 2 2 MarshalSync true 10 1 1000 2 sample_half 16.
Definition any_level (s : string) : bool := true.

Lemma sample_args_ok : args_ok any_level 512 sample_args.
Proof. constructor; try done; vm_compute; try split; try discriminate; reflexivity. Qed.
