(* ===== verification/LocalBundle.v ===== *)
(** * Local bundles (bin/deploy/src/local.rs)

    What a bundle generated for one machine contains, that every node of it
    loads its own file and starts, and when the ports it assigns are distinct. *)

From stdpp Require Import prelude gmap list strings pretty sorting.
From S2P Require Import Prelude Hex Interfaces Concrete Account Relayer Spammer Settings Deploy.

(** ** Loading a local bundle *)

Section local_loading.
Context `{DkgLib} `{YamlLib} `{Ipv6Text}.

Variables (args : GenerateArgs) (local : LocalArgs) (m : ClusterMaterial) (leader : ed_pk).

(** The configuration of the node at an offset of the port ranges. *)
Definition local_config (offset : Z) (signer : ed_sk) (share : option Share) (prefix : string)
    (indexer : option IndexerConfig) (relayer : option BundleRelayer) : BundleValidator :=
  mkBundleValidator (hex (sk_write signer)) (hex (output_write (cm_dkg_output m))) (share_text share)
    (ga_startup args) (la_base_port local + offset) (cm_genesis_leader m) prefix (ga_validators args)
    (primary_hex m) (secondary_hex m) (ga_log_level args) (ga_worker_threads args) (ga_rayon_threads args)
    (la_base_http_port local + offset) (la_base_metrics_port local + offset) default_max_propose_bytes
    default_max_pool_bytes (default_bootstrappers (cm_public_keys m)) indexer relayer.

Definition local_peer (k : ed_pk) (offset : Z) : PeerEntry :=
  mkPeer (pk_hex k) (local_address (la_base_port local + offset)) (local_address (la_base_http_port local + offset)).

(** What the node at an offset runs with. *)
Definition loopback (port : Z) : SocketAddr := mkSocket (IpV4 127 0 0 1) port.
Definition local_node (offset : Z) (signer : ed_sk) (share : option Share) (prefix : string)
    (indexer : option IndexerConfig) (relayer : option RelayerConfig) : LoadedConfig :=
  mkLoaded
    (mkDecoded signer (ed_public_key signer) (cm_dkg_output m) share leader
       (any_ip (la_base_port local + offset)) (loopback (la_base_port local + offset))
       (cm_public_keys m) (cm_secondary_public_keys m)
       (imap (λ i k, (k, loopback (la_base_port local + Z.of_nat i))) (take 3 (cm_public_keys m))) prefix)
    (ga_startup args) (ga_log_level args) (ga_worker_threads args) (ga_rayon_threads args)
    (any_ip (la_base_http_port local + offset)) (any_ip (la_base_metrics_port local + offset))
    default_max_propose_bytes default_max_pool_bytes default_prune_cadence_blocks false false
    indexer relayer.

(** The port ranges of [count] nodes fit. *)
Definition ports_fit (count : Z) : Prop :=
  0 ≤ la_base_port local ∧ la_base_port local + count ≤ 2 ^ 16 ∧
  0 ≤ la_base_http_port local ∧ la_base_http_port local + count ≤ 2 ^ 16 ∧
  0 ≤ la_base_metrics_port local ∧ la_base_metrics_port local + count ≤ 2 ^ 16.

Lemma parse_loopback port : is_u16 port → socket_from_str (local_address port) = Some (loopback port).
Proof.
  intros Hp. unfold socket_from_str, local_address.
  change ("127.0.0.1:" +:+ pretty port) with ("127.0.0.1" +:+ ":" +:+ pretty port).
  rewrite (socket_local "127.0.0.1" port (IpV4 127 0 0 1)); [done| |done|done].
  unfold no_char. apply (bool_decide_unpack _). vm_compute. done.
Qed.

Variable peers : PeersConfig.
Let entries : list PeerEntry := pc_validators peers ++ pc_secondaries peers.

Lemma peer_lookup k offset :
  NoDup (pe_name <$> entries) → local_peer k offset ∈ entries →
  peers_by_name (mkPeers (pc_validators peers) (pc_secondaries peers)) !! pk_hex k = Some (local_peer k offset).
Proof.
  intros Hn Hin. unfold peers_by_name. cbn. fold entries. apply hosts_by_name_lookup.
  - rewrite <- list_fmap_compose. exact Hn.
  - apply list_elem_of_fmap. by exists (local_peer k offset).
Qed.

Lemma load_local_node fs peers_path config_path count offset signer share prefix indexer relayer :
  fs peers_path = Some (yaml_to_string (ser_peers peers)) →
  fs config_path = Some (yaml_to_string (ser_validator (local_config offset signer share prefix indexer relayer))) →
  ports_fit count → 0 ≤ offset < count → 0 < ga_validators args ≤ u32_max →
  zlen (cm_public_keys m) = ga_validators args → (length (take 3 (cm_public_keys m)) ≤ Z.to_nat count)%nat →
  is_u64 (ga_worker_threads args) → is_u64 (ga_rayon_threads args) →
  (∀ i, indexer = Some i → is_u64 (ix_upload_buffer i)) →
  (is_Some share → relayer = None) → (indexer = None ∨ relayer = None) →
  output_read (ga_validators args) (output_write (cm_dkg_output m)) = Ok (cm_dkg_output m, []) →
  cm_genesis_leader m = pk_hex leader →
  ed_public_key signer ∈ cm_public_keys m ++ cm_secondary_public_keys m →
  NoDup (pe_name <$> entries) → local_peer (ed_public_key signer) offset ∈ entries →
  (∀ i k, cm_public_keys m !! i = Some k → local_peer k (Z.of_nat i) ∈ entries) →
  load_local_config fs peers_path config_path
  = Ret (local_node offset signer share prefix indexer
           ((λ r, mkRelayerConfig default_relayer_retry_views (br_leaders r)) <$> relayer)).
Proof.
  intros Hfp Hfc (Hl0 & Hl & Hh0 & Hh & Hm0 & Hm) Ho Hn Hlen Hb Hw Hr Hix Hrel Hex Hout Hlead Hself Hnd Hpeer Hprim.
  assert (bundle_wf (local_config offset signer share prefix indexer relayer)) as Hwf.
  { constructor; cbn; try done; unfold is_u16, is_u32, is_u64, u16_max, u64_max, u32_max,
      default_max_propose_bytes, default_max_pool_bytes in *; lia. }
  assert (∀ x, 0 ≤ x < count → is_u16 (la_base_port local + x)) as Hport
    by (unfold is_u16, u16_max; lia).
  unfold load_local_config, load_validator_config. rewrite Hfc. cbn [mbind run_bind expect].
  rewrite yaml_law. cbn [mbind option_bind]. rewrite de_ser_validator by done. cbn [mbind run_bind expect].
  cbn [validator_config_of vc_private_key local_config bv_private_key]. rewrite decode_private_key_hex.
  cbn [mbind run_bind]. rewrite Hfp. cbn [mbind run_bind expect]. rewrite yaml_law. cbn [mbind option_bind].
  rewrite de_ser_peers. cbn [mbind run_bind expect].
  cbn [validator_config_of local_config vc_primary_validators vc_secondary_validators bv_primary_validators bv_secondary_validators].
  change (primary_hex m) with ((λ k, hex (fwrite k)) <$> cm_public_keys m).
  change (secondary_hex m) with ((λ k, hex (fwrite k)) <$> cm_secondary_public_keys m).
  rewrite decode_participants_hex by done.
  cbn [mbind run_bind]. fold (pk_hex (ed_public_key signer)). rewrite (peer_lookup _ offset) by done.
  cbn [mbind run_bind expect]. unfold parse_socket. cbn [pe_p2p pe_http local_peer].
  rewrite (parse_loopback (la_base_port local + offset)) by (by apply Hport). cbn [mbind run_bind expect].
  rewrite (parse_loopback (la_base_http_port local + offset)) by (unfold is_u16, u16_max in *; lia). cbn [mbind run_bind expect].
  cbn [validator_config_of local_config vc_bootstrappers bv_bootstrappers]. rewrite default_bootstrappers_take.
  rewrite (mapM_run_imap _ _ (λ i k, (k, loopback (la_base_port local + Z.of_nat i)))).
  2:{ intros i k Hi. unfold local_bootstrapper. cbn [nb_public_key nb_name].
      rewrite decode_pk_hex. cbn [mbind run_bind].
      assert (cm_public_keys m !! i = Some k) as Hk.
      { apply lookup_take_Some in Hi. tauto. }
      rewrite (peer_lookup _ (Z.of_nat i)); [|done|by apply Hprim]. cbn [mbind run_bind expect].
      unfold parse_socket. cbn [pe_p2p local_peer]. rewrite parse_loopback; [done|].
      apply lookup_lt_Some in Hi. apply Hport. lia. }
  cbn [mbind run_bind].
  rewrite (decode_with_network_ok _ signer (cm_dkg_output m) share leader); try done; cbn.
  - lia.
  - apply Hwf.
  - apply Hwf.
  - apply Hwf.
  - intros Hs. by rewrite Hrel.
  - destruct Hex as [->| ->]; [by left|by right].
Qed.

End local_loading.

(** ** Generating a local bundle *)

Lemma mapM_zip_seqZ {A B} (f : Z * A → run B) (h : nat → A → B) l :
  (∀ i x, l !! i = Some x → f (Z.of_nat i, x) = Ret (h i x)) → mapM f (zip (seqZ 0 (zlen l)) l) = Ret (imap h l).
Proof.
  intros Hf.
  assert (zip (seqZ 0 (zlen l)) l = (λ p : nat * A, (Z.of_nat p.1, p.2)) <$> imap pair l) as ->.
  { apply list_eq. intros i. rewrite list_lookup_fmap, list_lookup_imap.
    destruct (l !! i) as [x|] eqn:E; cbn.
    - apply lookup_zip_Some. split; [|done]. apply lookup_seqZ. apply lookup_lt_Some in E. unfold zlen. cbn. lia.
    - apply lookup_ge_None. rewrite length_zip_with. apply lookup_ge_None in E. lia. }
  rewrite (mapM_run_imap _ _ (λ _ p, h p.1 p.2)).
  - f_equal. apply list_eq. intros i. rewrite !list_lookup_imap. by destruct (l !! i).
  - intros i [j x] Hi. rewrite list_lookup_imap in Hi. destruct (l !! i) eqn:E; [|done].
    injection Hi as <- <-. by apply Hf.
Qed.

Definition config_name (prefix : string) (i : Z) : string := prefix +:+ pretty i +:+ ".yaml".

#[export] Instance config_name_inj prefix : Inj (=) (=) (config_name prefix).
Proof. intros i j E%string_app_cancel. by apply (inj pretty) in E. Qed.

(** The name of a node differs from the other files of the bundle. *)
Lemma local_names_distinct n s :
  NoDup ((config_name "validator-" <$> seqZ 0 n) ++ (config_name "secondary-" <$> seqZ 0 s)
         ++ [PEERS_CONFIG_FILE; SIMPLEX_VERIFICATION_MATERIAL_FILE]).
Proof.
  apply NoDup_app. split; [apply NoDup_fmap, NoDup_seqZ; apply _|]. split.
  - intros x (i & -> & _)%list_elem_of_fmap [(j & Hj & _)%list_elem_of_fmap|Hx]%elem_of_app; [done|].
    apply elem_of_cons in Hx as [|Hx%list_elem_of_singleton]; done.
  - apply NoDup_app. split; [apply NoDup_fmap, NoDup_seqZ; apply _|]. split.
    + intros x (i & -> & _)%list_elem_of_fmap Hx.
      apply elem_of_cons in Hx as [|Hx%list_elem_of_singleton]; done.
    + apply (bool_decide_unpack _). vm_compute. done.
Qed.

Lemma local_names_relative n s name :
  name ∈ (config_name "validator-" <$> seqZ 0 n) ++ (config_name "secondary-" <$> seqZ 0 s)
         ++ [PEERS_CONFIG_FILE; SIMPLEX_VERIFICATION_MATERIAL_FILE] →
  is_absolute name = false.
Proof.
  assert (∀ p i, is_absolute p = false → bytes_of_string p ≠ [] → is_absolute (config_name p i) = false) as Hp.
  { intros p i Hp Hne. unfold is_absolute, config_name in *. rewrite bytes_of_string_app.
    destruct (bytes_of_string p); [done|exact Hp]. }
  intros [(i & -> & _)%list_elem_of_fmap|[(i & -> & _)%list_elem_of_fmap|Hx]%elem_of_app]%elem_of_app.
  - apply Hp; [reflexivity|done].
  - apply Hp; [reflexivity|done].
  - apply elem_of_cons in Hx as [Hx|Hx%list_elem_of_singleton]; rewrite Hx; reflexivity.
Qed.

Section local_bundle.
Context `{DkgLib} `{YamlLib} `{Ipv6Text}.
Variables (args : GenerateArgs) (local : LocalArgs) (dir : string) (m : ClusterMaterial)
  (signers secondary_signers : list ed_sk).
Hypothesis Hm : material_ok m signers secondary_signers.
Let n : Z := ga_validators args.
Let s : Z := zlen (secondary_roles args).
Hypothesis Hn : zlen signers = n.
Hypothesis Hs : zlen secondary_signers = s.
Hypothesis Hn16 : 1 ≤ n < 2 ^ 16.
Hypothesis Hports : ports_fit local (n + s).

Lemma as_u16_small x : 0 ≤ x < 2 ^ 16 → as_u16 x = x.
Proof. intros. by apply Z.mod_small. Qed.

Lemma checked_add_u16_ok a b : a + b < 2 ^ 16 → checked_add_u16 a b = Some (a + b).
Proof. intros. unfold checked_add_u16, u16_max. by rewrite decide_True by lia. Qed.

Definition validator_generated (i : Z) (g : GeneratedValidator) : Prop :=
  ∃ signer share, signers !! Z.to_nat i = Some signer ∧
    cm_shares m !! fwrite (ed_public_key signer) = Some share ∧
    g = mkGenerated (path_join dir (config_name "validator-" i))
          (local_config args local m i signer (Some share) ("validator-" +:+ pretty i) None None)
          (local_peer local (ed_public_key signer) i).

Lemma build_validators_ok :
  ∃ vs, build_validators args local dir m = Ret vs ∧ Forall2 validator_generated (seqZ 0 n) vs.
Proof.
  apply mapM_run_Forall2. intros i Hi%elem_of_seqZ. destruct Hports as (Hl0 & Hl & Hh0 & Hh & Hm0 & Hmt).
  pose proof (zlen_nonneg (secondary_roles args)).
  destruct (lookup_lt_is_Some_2 signers (Z.to_nat i)) as [signer Hsig]; [unfold zlen in Hn; lia|].
  assert (cm_public_keys m !! Z.to_nat i = Some (ed_public_key signer)) as Hk
    by (by rewrite (mo_keys _ _ _ Hm), list_lookup_fmap, Hsig).
  destruct (mo_share _ _ _ Hm (ed_public_key signer)) as [share Hshare]; [by eapply list_elem_of_lookup_2|].
  eexists. split; [|by exists signer, share].
  unfold build_validator. rewrite Hk. cbn [expect mbind run_bind]. rewrite Hshare. cbn [expect mbind run_bind].
  rewrite as_u16_small by lia. rewrite !checked_add_u16_ok by lia. cbn [expect mbind run_bind].
  rewrite (mo_signers _ _ _ Hm), Hsig. done.
Qed.

(** What the secondary of a role is given. *)
Definition local_indexer_of (role : SecondaryRole) : option IndexerConfig :=
  match role with
  | IndexerRole => Some (mkIndexerConfig (local_url (la_chain_indexer_port local)) INDEXER_UPLOAD_BUFFER)
  | RelayerRole => None
  end.
Definition local_leaders : list RelayerLeaderConfig :=
  imap (λ i k, mkLeaderConfig (pk_hex k) (local_url (la_base_http_port local + Z.of_nat i))) (cm_public_keys m).
Definition local_relayer_of (role : SecondaryRole) : option BundleRelayer :=
  match role with RelayerRole => Some (mkBundleRelayer local_leaders) | IndexerRole => None end.

Lemma local_relayer_config_ok : local_relayer_config local m = Ret (mkBundleRelayer local_leaders).
Proof.
  unfold local_relayer_config. destruct Hports as (_ & _ & Hh0 & Hh & _). pose proof (zlen_nonneg (secondary_roles args)).
  rewrite (mapM_zip_seqZ _ (λ i k, mkLeaderConfig k (local_url (la_base_http_port local + Z.of_nat i)))).
  - cbn. unfold local_leaders, primary_hex. do 2 f_equal. apply list_eq. intros i.
    rewrite !list_lookup_imap, list_lookup_fmap. by destruct (cm_public_keys m !! i).
  - intros i k Hi%lookup_lt_Some. unfold primary_hex in Hi. rewrite length_fmap, (mo_keys _ _ _ Hm), length_fmap in Hi.
    unfold zlen in Hn. rewrite as_u16_small by lia. by rewrite checked_add_u16_ok by (unfold s in *; lia).
Qed.

Definition secondary_generated (p : Z * SecondaryRole) (g : GeneratedValidator) : Prop :=
  ∃ signer, secondary_signers !! Z.to_nat p.1 = Some signer ∧ secondary_roles args !! Z.to_nat p.1 = Some p.2 ∧
    g = mkGenerated (path_join dir (config_name "secondary-" p.1))
          (local_config args local m (n + p.1) signer None ("secondary-" +:+ pretty p.1)
             (local_indexer_of p.2) (local_relayer_of p.2))
          (local_peer local (ed_public_key signer) (n + p.1)).

Lemma build_secondaries_ok :
  ∃ ss, build_secondaries args local dir m = Ret ss ∧
    Forall2 secondary_generated (zip (seqZ 0 s) (secondary_roles args)) ss.
Proof.
  apply mapM_run_Forall2. intros [j role] Hin. destruct Hports as (Hl0 & Hl & Hh0 & Hh & Hm0 & Hmt).
  apply list_elem_of_lookup in Hin as [i Hi]. apply lookup_zip_Some in Hi as [Hj Hrole].
  apply lookup_seqZ in Hj as [-> Hj]. cbn in Hj. pose proof (secondary_roles_short args).
  destruct (lookup_lt_is_Some_2 secondary_signers i) as [signer Hsig]; [unfold zlen in Hs; lia|].
  eexists. rewrite Z.add_0_l. split; [|exists signer; cbn; rewrite Nat2Z.id; done].
  unfold build_secondary. rewrite (mo_secondary_keys _ _ _ Hm), list_lookup_fmap, Nat2Z.id, Hsig.
  cbn [expect mbind run_bind option_fmap fmap option_map]. fold n.
  rewrite !as_u16_small by lia. do 4 (rewrite checked_add_u16_ok by lia; cbn [expect mbind run_bind]).
  rewrite (mo_secondary_signers _ _ _ Hm), Hsig. cbn [expect mbind run_bind].
  destruct role; [done|]. rewrite local_relayer_config_ok. done.
Qed.

Lemma validators_lookup vs i signer :
  Forall2 validator_generated (seqZ 0 n) vs → signers !! i = Some signer →
  ∃ share, cm_shares m !! fwrite (ed_public_key signer) = Some share ∧
    vs !! i = Some (mkGenerated (path_join dir (config_name "validator-" (Z.of_nat i)))
                      (local_config args local m (Z.of_nat i) signer (Some share)
                         ("validator-" +:+ pretty (Z.of_nat i)) None None)
                      (local_peer local (ed_public_key signer) (Z.of_nat i))).
Proof.
  intros Hv Hi. apply lookup_lt_Some in Hi as Hl.
  assert (seqZ 0 n !! i = Some (Z.of_nat i)) as Hq by (apply lookup_seqZ; unfold zlen in Hn; lia).
  destruct (Forall2_lookup_l _ _ _ _ _ Hv Hq) as (g & Hg & sk & share & Hsk & Hsh & ->).
  rewrite Nat2Z.id, Hi in Hsk. injection Hsk as <-. by exists share.
Qed.

Lemma secondaries_lookup ss j role signer :
  Forall2 secondary_generated (zip (seqZ 0 s) (secondary_roles args)) ss →
  secondary_signers !! j = Some signer → secondary_roles args !! j = Some role →
  ss !! j = Some (mkGenerated (path_join dir (config_name "secondary-" (Z.of_nat j)))
                    (local_config args local m (n + Z.of_nat j) signer None
                       ("secondary-" +:+ pretty (Z.of_nat j)) (local_indexer_of role) (local_relayer_of role))
                    (local_peer local (ed_public_key signer) (n + Z.of_nat j))).
Proof.
  intros Hv Hj Hr. apply lookup_lt_Some in Hr as Hl.
  assert (zip (seqZ 0 s) (secondary_roles args) !! j = Some (Z.of_nat j, role)) as Hq.
  { apply lookup_zip_Some. split; [|done]. apply lookup_seqZ. unfold s, zlen. lia. }
  destruct (Forall2_lookup_l _ _ _ _ _ Hv Hq) as (g & Hg & sk & Hsk & _ & ->).
  cbn in Hsk, Hg. rewrite Nat2Z.id, Hj in Hsk. injection Hsk as <-. done.
Qed.

Lemma bundle_lengths vs ss :
  Forall2 validator_generated (seqZ 0 n) vs →
  Forall2 secondary_generated (zip (seqZ 0 s) (secondary_roles args)) ss →
  length vs = length signers ∧ length ss = length secondary_signers.
Proof.
  intros Hv%Forall2_length Hw%Forall2_length. rewrite length_seqZ in Hv.
  rewrite length_zip_with, length_seqZ in Hw. unfold s, zlen in *. lia.
Qed.

Lemma bundle_peers vs ss :
  Forall2 validator_generated (seqZ 0 n) vs →
  Forall2 secondary_generated (zip (seqZ 0 s) (secondary_roles args)) ss →
  gv_peer <$> vs = imap (λ i sk, local_peer local (ed_public_key sk) (Z.of_nat i)) signers ∧
  gv_peer <$> ss = imap (λ j sk, local_peer local (ed_public_key sk) (n + Z.of_nat j)) secondary_signers.
Proof.
  intros Hv Hw. destruct (bundle_lengths _ _ Hv Hw) as [Hlv Hlw].
  split; apply list_eq; intros i; rewrite list_lookup_fmap, list_lookup_imap.
  - destruct (signers !! i) as [sk|] eqn:E.
    + by destruct (validators_lookup _ _ _ Hv E) as (share & _ & ->).
    + apply lookup_ge_None in E. by rewrite (lookup_ge_None_2 vs) by lia.
  - destruct (secondary_signers !! i) as [sk|] eqn:E.
    + destruct (lookup_lt_is_Some_2 (secondary_roles args) i) as [role Hrole].
      { apply lookup_lt_Some in E. unfold s, zlen in Hs. lia. }
      by rewrite (secondaries_lookup _ _ _ _ Hw E Hrole).
    + apply lookup_ge_None in E. by rewrite (lookup_ge_None_2 ss) by lia.
Qed.

(** The peers file lists every node under its own name. *)
Lemma bundle_peer_names :
  pe_name <$> imap (λ i sk, local_peer local (ed_public_key sk) (Z.of_nat i)) signers
          ++ imap (λ j sk, local_peer local (ed_public_key sk) (n + Z.of_nat j)) secondary_signers
  = hex <$> (fwrite <$> (ed_public_key <$> signers ++ secondary_signers)).
Proof.
  rewrite !fmap_app. f_equal; apply list_eq; intros i; rewrite !list_lookup_fmap, list_lookup_imap;
    by destruct (_ !! i).
Qed.

Definition bundle_writes (vs ss : list GeneratedValidator) : list (string * string) :=
  (generated_write <$> vs) ++ (generated_write <$> ss)
  ++ [(path_join dir PEERS_CONFIG_FILE, yaml_to_string (ser_peers (mkPeersConfig (gv_peer <$> vs) (gv_peer <$> ss))));
      (path_join dir SIMPLEX_VERIFICATION_MATERIAL_FILE, simplex_verification_material_hex m)].

Lemma bundle_files vs ss :
  Forall2 validator_generated (seqZ 0 n) vs →
  Forall2 secondary_generated (zip (seqZ 0 s) (secondary_roles args)) ss →
  NoDup (bundle_writes vs ss).*1.
Proof.
  intros Hv Hw.
  assert ((bundle_writes vs ss).*1
          = path_join dir <$> ((config_name "validator-" <$> seqZ 0 n) ++ (config_name "secondary-" <$> seqZ 0 s)
                               ++ [PEERS_CONFIG_FILE; SIMPLEX_VERIFICATION_MATERIAL_FILE])) as ->.
  { unfold bundle_writes. rewrite !fmap_app, <- !list_fmap_compose. f_equal; [|f_equal].
    - apply (Forall2_fmap_eq _ _ _ _ _ Hv). by intros i g (sk & share & _ & _ & ->).
    - rewrite (Forall2_fmap_eq _ (λ p, path_join dir (config_name "secondary-" p.1)) _ _ _ Hw)
        by (by intros p g (sk & _ & _ & ->)).
      change (path_join dir ∘ config_name "secondary-" <$> seqZ 0 s)
        with ((λ j, path_join dir (config_name "secondary-" j)) <$> seqZ 0 s).
      transitivity ((λ j, path_join dir (config_name "secondary-" j)) <$> (zip (seqZ 0 s) (secondary_roles args)).*1);
        [by rewrite <- list_fmap_compose|].
      rewrite fst_zip; [done|]. rewrite length_seqZ. unfold s, zlen. lia. }
  apply NoDup_fmap_2_strong; [|apply local_names_distinct].
  intros a b Ha Hb. apply path_join_inj; by eapply local_names_relative.
Qed.

End local_bundle.

(** ** Properties *)

Section local_property.
Context `{DkgLib} `{YamlLib} `{Ipv6Text}.

(** The signers of a local bundle, and the files a loader sees. *)
Definition local_signers (n : Z) : list ed_sk := ed_from_seed <$> seqZ 0 n.
Definition local_secondary_signers (s : Z) : list ed_sk :=
  (λ index, ed_from_seed (SECONDARY_SEED_OFFSET + index)) <$> seqZ 0 s.

Lemma generate_local_ok current_dir rng args local log_level_ok blocking :
  let n := ga_validators args in let s := zlen (secondary_roles args) in
  let dir := absolute_path current_dir (ga_output_dir args) in
  args_ok log_level_ok blocking args → ports_fit local (n + s) →
  NoDup (fwrite <$> (ed_public_key <$> local_signers n)) →
  ∃ m vs ss, generate_local_cluster_material rng n s = Ret m ∧
    material_ok m (local_signers n) (local_secondary_signers s) ∧
    generate_local current_dir false rng args local = Ret (bundle_writes dir m vs ss) ∧
    Forall2 (validator_generated args local dir m (local_signers n)) (seqZ 0 n) vs ∧
    Forall2 (secondary_generated args local dir m (local_secondary_signers s))
      (zip (seqZ 0 s) (secondary_roles args)) ss.
Proof.
  intros n s dir [Hn Hsp _ _ _ _ _] Hports Hnd. fold n in Hn.
  assert (zlen (local_signers n) = n) as Hl by (unfold local_signers, zlen; rewrite length_fmap, length_seqZ; lia).
  assert (zlen (local_secondary_signers s) = s) as Hls
    by (unfold local_secondary_signers, s, zlen; rewrite length_fmap, length_seqZ; lia).
  destruct (build_cluster_material_ok (local_signers n) (local_secondary_signers s) rng) as (m & Hm & Hok);
    [intros E; rewrite E in Hl; cbn in Hl; unfold zlen in Hl; cbn in Hl; lia|done|].
  destruct (build_validators_ok args local dir m _ _ Hok Hl Hn Hports) as (vs & Hv & Hvs).
  destruct (build_secondaries_ok args local dir m _ _ Hok Hl Hls Hn Hports) as (ss & Hw & Hws).
  exists m, vs, ss. split_and!; [exact Hm|exact Hok| |exact Hvs|exact Hws].
  unfold generate_local, validate_generate_args.
  replace (negb (negb (ga_spammer args) || ga_relayer args)) with false
    by (destruct (ga_spammer args); [by rewrite Hsp|done]).
  cbn [mbind run_bind]. rewrite (proj2 (Z.ltb_ge _ _)) by (fold n; lia). fold dir.
  assert (total_secondaries args = s) as ->.
  { pose proof (secondary_roles_short args).
    pose proof (zlen_nonneg (secondary_roles args)). apply Z.mod_small. lia. }
  fold n. change (generate_local_cluster_material rng n s) with (build_cluster_material (local_signers n) (local_secondary_signers s) rng).
  rewrite Hm. cbn [mbind run_bind]. rewrite Hv. cbn [mbind run_bind]. rewrite Hw. done.
Qed.

(** One node of a generated bundle loads what [local_node] says. *)
Lemma local_bundle_node_loads args local dir m signers secondary_signers leader vs ss log_level_ok blocking
    offset signer share prefix file indexer relayer :
  let n := ga_validators args in let s := zlen (secondary_roles args) in
  args_ok log_level_ok blocking args → ports_fit local (n + s) →
  material_ok m signers secondary_signers → zlen signers = n → zlen secondary_signers = s →
  NoDup (fwrite <$> (ed_public_key <$> signers ++ secondary_signers)) →
  cm_genesis_leader m = pk_hex leader →
  Forall2 (validator_generated args local dir m signers) (seqZ 0 n) vs →
  Forall2 (secondary_generated args local dir m secondary_signers) (zip (seqZ 0 s) (secondary_roles args)) ss →
  mkGenerated (path_join dir file) (local_config args local m offset signer share prefix indexer relayer)
    (local_peer local (ed_public_key signer) offset) ∈ vs ++ ss →
  0 ≤ offset < n + s → (∀ i, indexer = Some i → is_u64 (ix_upload_buffer i)) →
  (is_Some share → relayer = None) → (indexer = None ∨ relayer = None) →
  ed_public_key signer ∈ cm_public_keys m ++ cm_secondary_public_keys m →
  load_local_config (files (bundle_writes dir m vs ss) !!.) (path_join dir PEERS_CONFIG_FILE) (path_join dir file)
  = Ret (local_node args local m leader offset signer share prefix indexer
           ((λ r, mkRelayerConfig default_relayer_retry_views (br_leaders r)) <$> relayer)).
Proof.
  intros n s Hargs Hports Hok Hn Hs Hnd Hlead Hv Hw Hg Hoff Hix Hrel Hex Hself.
  destruct Hargs as [Hn16 _ Hwk Hb0 Hth Hry _]. fold n in Hn16.
  pose proof (bundle_files args local dir m signers secondary_signers vs ss Hv Hw) as Hfiles.
  pose proof (zlen_nonneg (secondary_roles args)) as Hs0. fold s in Hs0.
  destruct (bundle_peers args local dir m signers secondary_signers Hn Hs Hn16 vs ss Hv Hw) as [Hpv Hpw].
  pose proof (bundle_peer_names args local signers secondary_signers) as Hnames.
  assert (length (cm_public_keys m) = length signers) as Hlen by (by rewrite (mo_keys _ _ _ Hok), length_fmap).
  unfold u64_max in *.
  apply (load_local_node args local m leader (mkPeersConfig (gv_peer <$> vs) (gv_peer <$> ss)) _ _ _ (n + s));
    try done; fold n.
  - apply files_lookup; [done|]. unfold bundle_writes. rewrite !elem_of_app. right. right. left.
  - apply files_lookup; [done|]. unfold bundle_writes. rewrite app_assoc, <- fmap_app. apply elem_of_app. left.
    apply list_elem_of_fmap. eexists. split; [|exact Hg]. done.
  - unfold u32_max. lia.
  - unfold zlen in *. rewrite Hlen. done.
  - rewrite length_take. unfold zlen in Hn. lia.
  - unfold is_u64, u64_max. lia.
  - unfold is_u64, u64_max. lia.
  - rewrite <- Hn. apply (mo_output _ _ _ Hok).
  - cbn [pc_validators pc_secondaries]. rewrite Hpv, Hpw, Hnames. apply NoDup_fmap_2; [|done]. intros a b. apply hex_inj.
  - cbn [pc_validators pc_secondaries]. rewrite <- fmap_app. apply list_elem_of_fmap. eexists. split; [|exact Hg]. done.
  - intros i k Hi. cbn [pc_validators pc_secondaries]. rewrite Hpv. apply elem_of_app. left.
    rewrite (mo_keys _ _ _ Hok), list_lookup_fmap in Hi. destruct (signers !! i) as [sk|] eqn:E; [|done]. injection Hi as <-.
    apply list_elem_of_lookup. exists i. by rewrite list_lookup_imap, E.
Qed.

Lemma relayer_http_port_ok args local log_level_ok blocking j :
  args_ok log_level_ok blocking args → ports_fit local (ga_validators args + zlen (secondary_roles args)) →
  secondary_roles args !! j = Some RelayerRole →
  relayer_http_port args local = Some (la_base_http_port local + (ga_validators args + Z.of_nat j)).
Proof.
  intros [Hn _ _ _ _ _ _] (_ & _ & H0' & Hh & _). unfold relayer_http_port, add_u16, secondary_roles in *.
  destruct (ga_indexer args), (ga_relayer args); destruct j as [|[|j]]; try done; intros _;
    unfold zlen in Hh; cbn [length app] in Hh; rewrite as_u16_small by lia; f_equal;
    rewrite (Z.mod_small (la_base_http_port local + _)) by lia; rewrite Z.mod_small; lia.
Qed.

Lemma config_file_parent dir prefix i : is_Some (path_parent (path_join dir (config_name prefix i))).
Proof. unfold config_name. rewrite <- string_app_assoc. apply yaml_file_parent. Qed.

Lemma local_plan args local m leader log_level_ok blocking path offset signer share prefix indexer relayer :
  is_Some (path_parent path) → args_ok log_level_ok blocking args → NoDup (fwrite <$> cm_public_keys m) →
  NoDup (fwrite <$> cm_secondary_public_keys m) → zlen (cm_public_keys m) = ga_validators args →
  let c := local_node args local m leader offset signer share prefix indexer relayer in
  ∃ plan, run_with_config log_level_ok blocking c path = Ret plan ∧
    np_server plan = node_server c (ga_validators args * 2) ∧
    np_indexer plan = (match share with Some _ => None | None => indexer end) ∧
    np_reports_to_mempool plan = bool_decide (is_Some share).
Proof.
  intros Hpath [Hn _ Hw Hb Ht Hr Hlog] Hn1 Hn2 Hlen c.
  destruct (run_with_config_ok log_level_ok blocking c path)
    as (plan & Hp & Hs & Hi & _ & Hrep); try done.
  - cbn. lia.
  - change (zlen (cm_public_keys m) * 2 ≤ u64_max). rewrite Hlen. unfold u64_max. lia.
  - exists plan. split_and!; [done| |done..].
    rewrite Hs. change (dc_primary_participants (lc_decoded c)) with (cm_public_keys m). by rewrite Hlen.
Qed.

(** The relayer of the bundle finds every validator's mempool. *)
Lemma local_leaders_found args local m :
  ports_fit local (ga_validators args + zlen (secondary_roles args)) → NoDup (fwrite <$> cm_public_keys m) →
  ∃ ls, normalize_leaders from_hex ((λ l, (rl_public_key l, rl_url l)) <$> local_leaders local m) = Ret ls ∧
    ∀ i k, cm_public_keys m !! i = Some k →
      leader_by_id ls (pk_hex k)
      = Some (mkLeader (pk_hex k) (fwrite k) (local_url (la_base_http_port local + Z.of_nat i))).
Proof.
  intros Hports Hnd.
  destruct (normalized_leader_found (λ _ _, "http://127.0.0.1:"%string) (λ i, la_base_http_port local + Z.of_nat i)
    (cm_public_keys m)) as (ls & Hn & Hf); [intros; destruct Hports as (_ & _ & ? & _); lia|done|].
  exists ls. split; [|exact Hf]. rewrite <- Hn. f_equal.
  unfold local_leaders, leader_config. apply list_eq. intros i. rewrite list_lookup_fmap, !list_lookup_imap.
  by destruct (cm_public_keys m !! i).
Qed.

(** C11. A local bundle starts.  With port ranges that fit and distinct keys,
    the tool writes its bundle without panicking, and every node then loads its
    own file and starts without panicking: it holds its key and the key output
    all nodes share, knows the same participants, listens at its offset of the
    three port ranges and advertises the address the others bootstrap from.
    The validators hold their shares and serve their mempools; the indexer
    secondary serves nothing and uploads to the local store; the relayer
    secondary finds, under the key of each validator, the address where that
    validator's mempool listens, and the spammer is pointed at its port. *)
Theorem local_bundle_starts current_dir rng args local log_level_ok blocking :
  let n := ga_validators args in
  let signers := local_signers n in
  let secondary_signers := local_secondary_signers (zlen (secondary_roles args)) in
  let dir := absolute_path current_dir (ga_output_dir args) in
  args_ok log_level_ok blocking args → ports_fit local (n + zlen (secondary_roles args)) →
  NoDup (fwrite <$> (ed_public_key <$> signers ++ secondary_signers)) →
  ∃ writes m leader,
    generate_local current_dir false rng args local = Ret writes ∧
    material_ok m signers secondary_signers ∧ head (cm_public_keys m) = Some leader ∧
    let path prefix i := path_join dir (config_name prefix (Z.of_nat i)) in
    let load prefix i := load_local_config (files writes !!.) (path_join dir PEERS_CONFIG_FILE) (path prefix i) in
    (∀ i signer, signers !! i = Some signer →
       ∃ share plan,
         let c := local_node args local m leader (Z.of_nat i) signer (Some share)
                    ("validator-" +:+ pretty (Z.of_nat i)) None None in
         cm_shares m !! fwrite (ed_public_key signer) = Some share ∧
         load "validator-"%string i = Ret c ∧
         run_with_config log_level_ok blocking c (path "validator-"%string i) = Ret plan ∧
         np_server plan = MempoolServer (any_ip (la_base_http_port local + Z.of_nat i))
                            default_max_pool_bytes default_max_propose_bytes (n * 2) ∧
         np_reports_to_mempool plan = true) ∧
    (∀ j role signer, secondary_roles args !! j = Some role → secondary_signers !! j = Some signer →
       let http := la_base_http_port local + (n + Z.of_nat j) in
       ∃ c plan, load "secondary-"%string j = Ret c ∧
         dc_signer (lc_decoded c) = signer ∧ lc_http_listen c = any_ip http ∧
         run_with_config log_level_ok blocking c (path "secondary-"%string j) = Ret plan ∧
         np_reports_to_mempool plan = false ∧
         match role with
         | IndexerRole =>
             np_server plan = NoServer ∧
             np_indexer plan = Some (mkIndexerConfig (local_url (la_chain_indexer_port local)) INDEXER_UPLOAD_BUFFER)
         | RelayerRole =>
             relayer_http_port args local = Some http ∧
             ∃ r ls, np_server plan = RelayerServer (any_ip http) r ∧
               normalize_leaders from_hex ((λ l, (rl_public_key l, rl_url l)) <$> rc_leaders r) = Ret ls ∧
               ∀ i k, cm_public_keys m !! i = Some k →
                 leader_by_id ls (pk_hex k)
                 = Some (mkLeader (pk_hex k) (fwrite k) (local_url (la_base_http_port local + Z.of_nat i)))
         end).
Proof.
  intros n signers secondary_signers dir Hargs Hports Hnd.
  pose proof Hnd as Hnd'. rewrite !fmap_app, NoDup_app in Hnd'. destruct Hnd' as (Hnd1 & _ & Hnd2).
  destruct (generate_local_ok current_dir rng args local log_level_ok blocking Hargs Hports Hnd1)
    as (m & vs & ss & _ & Hok & Hgen & Hv & Hw). fold n signers secondary_signers dir in Hok, Hgen, Hv, Hw.
  destruct (mo_leader _ _ _ Hok) as (leader & Hhead & Hlead).
  exists (bundle_writes dir m vs ss), m, leader. split_and!; [done..|intros path load].
  assert (1 ≤ n < 2 ^ 16) as Hn by apply Hargs.
  assert (zlen signers = n) as Hl by (unfold signers, local_signers, zlen; rewrite length_fmap, length_seqZ; lia).
  assert (zlen secondary_signers = zlen (secondary_roles args)) as Hls.
  { unfold secondary_signers, local_secondary_signers, zlen. rewrite length_fmap, length_seqZ. lia. }
  assert (zlen (cm_public_keys m) = n) as Hlen by (rewrite (mo_keys _ _ _ Hok); unfold zlen in *; by rewrite length_fmap).
  rewrite <- (mo_keys _ _ _ Hok) in Hnd1. rewrite <- (mo_secondary_keys _ _ _ Hok) in Hnd2.
  pose proof (local_bundle_node_loads args local dir m signers secondary_signers leader vs ss log_level_ok blocking) as Hload.
  split.
  - intros i signer Hi. destruct (validators_lookup args local dir m signers Hl vs i signer Hv Hi) as (share & Hsh & Hg).
    destruct (local_plan args local m leader log_level_ok blocking (path "validator-"%string i) (Z.of_nat i) signer (Some share)
      ("validator-" +:+ pretty (Z.of_nat i)) None None (config_file_parent _ _ _) Hargs Hnd1 Hnd2 Hlen) as (plan & Hp & Hs & _ & Hr).
    apply list_elem_of_lookup_2 in Hg. apply lookup_lt_Some in Hi as Hil. unfold zlen in Hl.
    pose proof (zlen_nonneg (secondary_roles args)).
    exists share, plan. split_and!; [done| |done|by rewrite Hs|done].
    apply (Hload _ _ _ _ _ None None); try done; [apply elem_of_app; by left|lia|by left|].
    apply elem_of_app. left. rewrite (mo_keys _ _ _ Hok). by eapply list_elem_of_fmap_2, list_elem_of_lookup_2.
  - intros j role signer Hj Hi http.
    pose proof (secondaries_lookup args local dir m secondary_signers ss j role signer Hw Hi Hj) as Hg.
    fold n in Hg. apply list_elem_of_lookup_2 in Hg. apply lookup_lt_Some in Hj as Hjl.
    set (relayer := (λ r, mkRelayerConfig default_relayer_retry_views (br_leaders r)) <$> local_relayer_of local m role).
    destruct (local_plan args local m leader log_level_ok blocking (path "secondary-"%string j) (n + Z.of_nat j) signer None
      ("secondary-" +:+ pretty (Z.of_nat j)) (local_indexer_of local role) relayer (config_file_parent _ _ _) Hargs Hnd1 Hnd2 Hlen)
      as (plan & Hp & Hs & Hx & Hr).
    eexists _, plan. split.
    { apply (Hload (n + Z.of_nat j) signer None ("secondary-" +:+ pretty (Z.of_nat j)) _
        (local_indexer_of local role) (local_relayer_of local m role)); try done; [apply elem_of_app; right; exact Hg|unfold zlen; lia|..].
      - destruct role; [|done]. intros i [= <-]. done.
      - destruct role; [by right|by left].
      - apply elem_of_app. right. rewrite (mo_secondary_keys _ _ _ Hok).
        by eapply list_elem_of_fmap_2, list_elem_of_lookup_2. }
    split_and!; [done|done|exact Hp|done|]. destruct role; [by rewrite Hs, Hx|].
    split; [by eapply relayer_http_port_ok|].
    destruct (local_leaders_found args local m Hports Hnd1) as (ls & Hn' & Hf).
    eexists _, ls. split; [by rewrite Hs|]. split; [exact Hn'|exact Hf].
Qed.

(** The configuration files of the nodes of a bundle. *)
Definition node_files (args : GenerateArgs) : list string :=
  (config_name "validator-" <$> seqZ 0 (ga_validators args))
  ++ (config_name "secondary-" <$> seqZ 0 (zlen (secondary_roles args))).

(** Every node loads its file, with a dealt share or none, and gets past the
    checks of its start. *)
Lemma local_bundle_nodes current_dir rng args local log_level_ok blocking :
  let n := ga_validators args in
  let signers := local_signers n in
  let secondary_signers := local_secondary_signers (zlen (secondary_roles args)) in
  let dir := absolute_path current_dir (ga_output_dir args) in
  args_ok log_level_ok blocking args → ports_fit local (n + zlen (secondary_roles args)) →
  NoDup (fwrite <$> (ed_public_key <$> signers ++ secondary_signers)) →
  ∃ writes m leader,
    generate_local current_dir false rng args local = Ret writes ∧ material_ok m signers secondary_signers ∧
    ∀ file, file ∈ node_files args →
      ∃ offset signer share prefix indexer relayer plan,
        let c := local_node args local m leader offset signer share prefix indexer relayer in
        (∀ s, share = Some s → ∃ k, cm_shares m !! k = Some s) ∧
        load_local_config (files writes !!.) (path_join dir PEERS_CONFIG_FILE) (path_join dir file) = Ret c ∧
        run_with_config log_level_ok blocking c (path_join dir file) = Ret plan.
Proof.
  intros n signers secondary_signers dir Hargs Hports Hnd.
  pose proof Hnd as Hnd'. rewrite !fmap_app, NoDup_app in Hnd'. destruct Hnd' as (Hnd1 & _ & Hnd2).
  destruct (generate_local_ok current_dir rng args local log_level_ok blocking Hargs Hports Hnd1)
    as (m & vs & ss & _ & Hok & Hgen & Hv & Hw). fold n signers secondary_signers dir in Hok, Hgen, Hv, Hw.
  destruct (mo_leader _ _ _ Hok) as (leader & _ & Hlead).
  exists (bundle_writes dir m vs ss), m, leader. split_and!; [done..|].
  assert (1 ≤ n < 2 ^ 16) as Hn by apply Hargs.
  assert (length signers = Z.to_nat n) as Hl by (unfold signers, local_signers; by rewrite length_fmap, length_seqZ).
  assert (length secondary_signers = length (secondary_roles args)) as Hls.
  { unfold secondary_signers, local_secondary_signers, zlen. rewrite length_fmap, length_seqZ. lia. }
  assert (zlen (cm_public_keys m) = n) as Hlen by (rewrite (mo_keys _ _ _ Hok); unfold zlen; rewrite length_fmap; lia).
  rewrite <- (mo_keys _ _ _ Hok) in Hnd1. rewrite <- (mo_secondary_keys _ _ _ Hok) in Hnd2.
  pose proof (local_bundle_node_loads args local dir m signers secondary_signers leader vs ss log_level_ok blocking) as Hload.
  intros file [Hf|Hf]%elem_of_app; apply list_elem_of_fmap in Hf as (i & -> & [Hi Hil]%elem_of_seqZ);
    rewrite Z.add_0_l in Hil.
  - destruct (lookup_lt_is_Some_2 signers (Z.to_nat i)) as [signer Hs]; [fold n in Hil; lia|].
    destruct (validators_lookup args local dir m signers ltac:(unfold zlen; lia) vs _ signer Hv Hs) as (share & Hsh & Hg).
    rewrite Z2Nat.id in Hg by done. apply list_elem_of_lookup_2 in Hg. pose proof (zlen_nonneg (secondary_roles args)).
    destruct (local_plan args local m leader log_level_ok blocking (path_join dir (config_name "validator-" i)) i signer (Some share)
      ("validator-" +:+ pretty i) None None (config_file_parent _ _ _) Hargs Hnd1 Hnd2 Hlen) as (plan & Hp & _).
    eexists i, signer, (Some share), _, None, None, plan. split_and!; [by intros ? [= <-]; eexists| |exact Hp].
    apply (Hload _ _ _ _ _ None None); try done; [unfold zlen; lia..|apply elem_of_app; by left|fold n in Hil; lia|by left|].
    apply elem_of_app. left. rewrite (mo_keys _ _ _ Hok). by eapply list_elem_of_fmap_2, list_elem_of_lookup_2.
  - destruct (lookup_lt_is_Some_2 secondary_signers (Z.to_nat i)) as [signer Hs]; [unfold zlen in Hil; lia|].
    destruct (lookup_lt_is_Some_2 (secondary_roles args) (Z.to_nat i)) as [role Hr]; [unfold zlen in Hil; lia|].
    pose proof (secondaries_lookup args local dir m secondary_signers ss _ role signer Hw Hs Hr) as Hg.
    rewrite Z2Nat.id in Hg by done. apply list_elem_of_lookup_2 in Hg. fold n in Hg.
    set (relayer := (λ r, mkRelayerConfig default_relayer_retry_views (br_leaders r)) <$> local_relayer_of local m role).
    destruct (local_plan args local m leader log_level_ok blocking (path_join dir (config_name "secondary-" i)) (n + i) signer None
      ("secondary-" +:+ pretty i) (local_indexer_of local role) relayer (config_file_parent _ _ _) Hargs Hnd1 Hnd2 Hlen) as (plan & Hp & _).
    eexists (n + i), signer, None, _, _, relayer, plan. split_and!; [done| |exact Hp].
    apply (Hload _ _ None _ _ (local_indexer_of local role) (local_relayer_of local m role)); try done;
      [unfold zlen; lia..|apply elem_of_app; right; exact Hg|fold n; lia| | |].
    + destruct role; [|done]. intros ? [= <-]. done.
    + destruct role; [by right|by left].
    + apply elem_of_app. right. rewrite (mo_secondary_keys _ _ _ Hok). by eapply list_elem_of_fmap_2, list_elem_of_lookup_2.
Qed.

End local_property.

Section ports_property.
Context `{DkgLib} `{YamlLib} `{Ipv6Text}.

(** The ports a configuration binds, and those of the indexer services. *)
Definition config_ports (c : BundleValidator) : list Z :=
  [bv_listen_port c; bv_http_port c; bv_metrics_port c].
Definition service_ports (args : GenerateArgs) (local : LocalArgs) : list Z :=
  if ga_indexer args
  then [la_chain_indexer_port local; la_metadata_indexer_port local; la_qmdb_indexer_port local] else [].
Definition bundle_ports (args : GenerateArgs) (local : LocalArgs) (gs : list GeneratedValidator) : list Z :=
  concat (config_ports ∘ gv_config <$> gs) ++ service_ports args local.

(** Two ranges of [k] ports, or a port and a range, are disjoint. *)
Definition apart (k a b : Z) : Prop := k ≤ a - b ∨ k ≤ b - a.
Definition outside (k p a : Z) : Prop := p < a ∨ a + k ≤ p.

Lemma ports_perm (a b c : Z) (l : list Z) :
  concat ((λ i, [a + i; b + i; c + i]) <$> l)
  ≡ₚ ((λ i, a + i) <$> l) ++ ((λ i, b + i) <$> l) ++ ((λ i, c + i) <$> l).
Proof. induction l as [|i l IH]; [done|]. cbn. cbn in IH. rewrite IH. solve_Permutation. Qed.

Lemma range_elem a k p : p ∈ (λ i, a + i) <$> seqZ 0 k ↔ a ≤ p < a + k.
Proof.
  rewrite list_elem_of_fmap. setoid_rewrite elem_of_seqZ. split; [intros (i & -> & ?); lia|].
  intros. exists (p - a). lia.
Qed.

Lemma range_NoDup a k : NoDup ((λ i, a + i) <$> seqZ 0 k).
Proof. apply NoDup_fmap_2; [intros x y; lia|apply NoDup_seqZ]. Qed.

Lemma ranges_distinct a b c k services :
  1 ≤ k →
  NoDup (concat ((λ i, [a + i; b + i; c + i]) <$> seqZ 0 k) ++ services) ↔
  apart k a b ∧ apart k a c ∧ apart k b c ∧ NoDup services ∧
  ∀ p, p ∈ services → outside k p a ∧ outside k p b ∧ outside k p c.
Proof.
  intros Hk. rewrite (ports_perm a b c), !NoDup_app. setoid_rewrite elem_of_app. setoid_rewrite elem_of_app.
  setoid_rewrite range_elem. unfold apart, outside.
  pose proof (range_NoDup a k). pose proof (range_NoDup b k). pose proof (range_NoDup c k). split.
  - intros ((_ & Ha & _ & Hb & _) & Hs & Hn).
    pose proof (Ha a). pose proof (Ha b). pose proof (Ha c). pose proof (Hb b). pose proof (Hb c).
    split_and!; [lia..|done|]. intros p Hp.
    assert (¬ (a ≤ p < a + k) ∧ ¬ (b ≤ p < b + k) ∧ ¬ (c ≤ p < c + k)); [|lia].
    split_and!; intros Hin; apply (Hs p); tauto.
  - intros (Hab & Hac & Hbc & Hn & Hs). split_and!; try done.
    + intros p Hp [|]; lia.
    + intros p Hp. lia.
    + intros p Hp Hin. destruct (Hs p Hin) as (? & ? & ?). lia.
Qed.

(** The ports of a generated bundle are those of its offsets. *)
Lemma bundle_ports_ranges args local dir m signers secondary_signers vs ss :
  let n := ga_validators args in let s := zlen (secondary_roles args) in
  1 ≤ n →
  Forall2 (validator_generated args local dir m signers) (seqZ 0 n) vs →
  Forall2 (secondary_generated args local dir m secondary_signers) (zip (seqZ 0 s) (secondary_roles args)) ss →
  bundle_ports args local (vs ++ ss)
  = concat ((λ i, [la_base_port local + i; la_base_http_port local + i; la_base_metrics_port local + i])
              <$> seqZ 0 (n + s)) ++ service_ports args local.
Proof.
  intros n s Hn Hv Hw. unfold bundle_ports. do 2 f_equal.
  pose proof (zlen_nonneg (secondary_roles args)). rewrite seqZ_app by (unfold s; lia). rewrite !fmap_app. f_equal.
  - apply (Forall2_fmap_eq _ _ _ _ _ Hv). by intros i g (sk & sh & _ & _ & ->).
  - rewrite (Forall2_fmap_eq _ (λ p, [la_base_port local + (n + p.1); la_base_http_port local + (n + p.1);
        la_base_metrics_port local + (n + p.1)]) _ _ _ Hw) by (by intros p g (sk & _ & _ & ->)).
    transitivity ((λ i, [la_base_port local + (n + i); la_base_http_port local + (n + i);
        la_base_metrics_port local + (n + i)]) <$> (zip (seqZ 0 s) (secondary_roles args)).*1);
      [by rewrite <- list_fmap_compose|].
    rewrite fst_zip by (rewrite length_seqZ; unfold s, zlen; lia).
    replace (0 + n) with (n + 0) by lia. rewrite <- fmap_add_seqZ. by rewrite <- list_fmap_compose.
Qed.

(** The default ports of the command line. *)
Definition default_local : LocalArgs := mkLocal 9000 8080 9090 8090 8091 8092.

(** C38. When the ports of a local bundle are distinct.  Whatever the tool
    generates without overflowing, its nodes and the indexer's services bind
    pairwise distinct ports exactly when the three port ranges lie apart and
    the services' ports are distinct and outside them.  The tool checks none of
    this: with the ports of the command line's defaults, a bundle with an
    indexer is free of collisions only up to ten nodes, validators and
    secondaries together, and one without up to ninety. *)
Theorem local_ports_distinct current_dir rng args local log_level_ok blocking :
  let n := ga_validators args in
  let k := n + zlen (secondary_roles args) in
  args_ok log_level_ok blocking args → ports_fit local k →
  NoDup (fwrite <$> (ed_public_key <$> local_signers n)) →
  ∃ m vs ss,
    let dir := absolute_path current_dir (ga_output_dir args) in
    generate_local_cluster_material rng n (zlen (secondary_roles args)) = Ret m ∧
    build_validators args local dir m = Ret vs ∧ build_secondaries args local dir m = Ret ss ∧
    (NoDup (bundle_ports args local (vs ++ ss)) ↔
     apart k (la_base_port local) (la_base_http_port local) ∧
     apart k (la_base_port local) (la_base_metrics_port local) ∧
     apart k (la_base_http_port local) (la_base_metrics_port local) ∧
     NoDup (service_ports args local) ∧
     ∀ p, p ∈ service_ports args local →
       outside k p (la_base_port local) ∧ outside k p (la_base_http_port local) ∧
       outside k p (la_base_metrics_port local)) ∧
    (local = default_local →
     (NoDup (bundle_ports args local (vs ++ ss)) ↔ k ≤ if ga_indexer args then 10 else 90)).
Proof.
  intros n k Hargs Hports Hnd. set (s := zlen (secondary_roles args)). pose proof (ao_validators _ _ _ Hargs) as Hn.
  assert (zlen (local_signers n) = n) as Hl by (unfold local_signers, zlen; rewrite length_fmap, length_seqZ; lia).
  assert (zlen (local_secondary_signers s) = s) as Hls
    by (unfold local_secondary_signers, s, zlen; rewrite length_fmap, length_seqZ; lia).
  destruct (build_cluster_material_ok (local_signers n) (local_secondary_signers s) rng) as (m & Hm & Hok);
    [intros E; rewrite E in Hl; unfold zlen in Hl; cbn in Hl; lia|done|].
  set (dir := absolute_path current_dir (ga_output_dir args)).
  destruct (build_validators_ok args local dir m _ _ Hok Hl Hn Hports) as (vs & Hv & Hvs).
  destruct (build_secondaries_ok args local dir m _ _ Hok Hl Hls Hn Hports) as (ss & Hw & Hws).
  exists m, vs, ss. split_and!; [done..| |].
  all: rewrite (bundle_ports_ranges args local dir m _ _ vs ss) by (done || apply Hn); fold k.
  all: pose proof (zlen_nonneg (secondary_roles args)); rewrite ranges_distinct by lia.
  1: done.
  intros ->. unfold service_ports, apart, outside. cbn. destruct (ga_indexer args).
  - split; [intros (_ & _ & _ & _ & Hs); specialize (Hs 8090 ltac:(left)); lia|].
    intros Hk. split_and!; [lia..|apply (bool_decide_unpack _); vm_compute; done|].
    intros p Hp. rewrite !elem_of_cons, elem_of_nil in Hp. lia.
  - split; [lia|]. intros Hk. split_and!; [lia..|constructor|]. intros p Hp. by apply elem_of_nil in Hp.
Qed.

End ports_property.

(** ** Witnesses *)

Lemma sample_ports_fit : ports_fit default_local 5.
Proof. vm_compute. repeat split; discriminate. Qed.

Lemma local_bundle_starts_witness :
  ∃ writes c plan, generate_local "/srv" false 7 sample_args default_local = Ret writes ∧
    load_local_config (files writes !!.) "/srv/out/peers.yaml" "/srv/out/secondary-1.yaml" = Ret c ∧
    run_with_config any_level 512 c "/srv/out/secondary-1.yaml" = Ret plan ∧
    relayer_http_port sample_args default_local = Some 8084 ∧
    ∃ r, np_server plan = RelayerServer (any_ip 8084) r.
Proof.
  assert (NoDup (fwrite <$> (ed_public_key <$> local_signers 3 ++ local_secondary_signers 2))) as Hnd
    by (apply (bool_decide_unpack _); vm_compute; exact I).
  destruct (local_bundle_starts "/srv" 7 sample_args default_local any_level 512 sample_args_ok sample_ports_fit Hnd)
    as (writes & m & leader & Hgen & _ & _ & _ & Hs).
  destruct (Hs 1%nat RelayerRole (ed_from_seed (SECONDARY_SEED_OFFSET + 1)) eq_refl eq_refl)
    as (c & plan & Hload & _ & _ & Hrun & _ & Hport & r & ls & Hserver & _).
  exists writes, c, plan. split; [exact Hgen|]. split; [exact Hload|]. split; [exact Hrun|].
  split; [exact Hport|]. exists r. exact Hserver.
Defined.

Lemma sample_keys_distinct : NoDup (fwrite <$> (ed_public_key <$> local_signers 9)).
Proof. apply (bool_decide_unpack _). vm_compute. exact I. Qed.

(** Nine validators and the two secondaries on the default ports. *)
Definition crowded_args : GenerateArgs :=
  mkArgs 9 true true "out" "info" 2 2 MarshalSync false 10 1 1000 2 sample_half 16.

Lemma crowded_args_ok : args_ok any_level 512 crowded_args.
Proof. constructor; try done; vm_compute; try split; try discriminate; reflexivity. Qed.

Lemma crowded_ports_fit : ports_fit default_local 11.
Proof. vm_compute. repeat split; discriminate. Qed.

Lemma local_ports_distinct_witness :
  ∃ m vs ss,
    generate_local_cluster_material 7 9 2 = Ret m ∧
    build_validators crowded_args default_local "/srv/out" m = Ret vs ∧
    build_secondaries crowded_args default_local "/srv/out" m = Ret ss ∧
    ¬ NoDup (bundle_ports crowded_args default_local (vs ++ ss)).
Proof.
  destruct (local_ports_distinct "/srv" 7 crowded_args default_local any_level 512 crowded_args_ok crowded_ports_fit
    sample_keys_distinct) as (m & vs & ss & Hm & Hv & Hs & _ & Hd).
  exists m, vs, ss. split; [exact Hm|]. split; [exact Hv|]. split; [exact Hs|].
  intros Hn. apply (proj1 (Hd eq_refl)) in Hn. vm_compute in Hn. by apply Hn.
Defined.
