(* ===== verification/RemoteBundle.v ===== *)
(** * Remote bundles (bin/deploy/src/remote.rs)

    What a bundle generated for a deployment over several regions contains,
    that its instances find their files and start, that the relayer finds every
    validator and that the spammer finds the relayer. *)

From stdpp Require Import prelude gmap list strings pretty sorting.
From S2P Require Import Prelude Hex Interfaces Concrete Account Relayer Spammer Settings Deploy.

(** ** Loading a remote bundle *)

Section remote_loading.
Context `{DkgLib} `{YamlLib} `{Ipv6Text}.
Variables (args : GenerateArgs) (remote : RemoteArgs) (METRICS_PORT : Z) (m : ClusterMaterial) (leader : ed_pk)
  (hosts : gmap string IpAddr).

Definition remote_config (signer : ed_sk) (share : option Share) (prefix : string)
    (indexer : option IndexerConfig) (relayer : option BundleRelayer) : BundleValidator :=
  mkBundleValidator (hex (sk_write signer)) (hex (output_write (cm_dkg_output m))) (share_text share)
    (ga_startup args) (ra_listen_port remote) (cm_genesis_leader m) prefix (ga_validators args)
    (primary_hex m) (secondary_hex m) (ga_log_level args) (ga_worker_threads args) (ga_rayon_threads args)
    (ra_http_port remote) METRICS_PORT default_max_propose_bytes default_max_pool_bytes
    (default_bootstrappers (cm_public_keys m)) indexer relayer.

(** The address of a host, and the URL of one of its ports. *)
Definition host_ip (name : string) : IpAddr := default (IpV4 0 0 0 0) (hosts !! name).
Definition ip_url (name : string) (port : Z) : string :=
  "http://" +:+ ip_display (host_ip name) +:+ ":" +:+ pretty port.

(** What a node of the bundle runs with. *)
Definition remote_node (signer : ed_sk) (share : option Share) (prefix : string)
    (indexer : option IndexerConfig) (relayer : option RelayerConfig) : LoadedConfig :=
  let at_host k := mkSocket (host_ip (pk_hex k)) (ra_listen_port remote) in
  mkLoaded
    (mkDecoded signer (ed_public_key signer) (cm_dkg_output m) share leader (any_ip (ra_listen_port remote))
       (at_host (ed_public_key signer)) (cm_public_keys m) (cm_secondary_public_keys m)
       ((λ k, (k, at_host k)) <$> take 3 (cm_public_keys m)) prefix)
    (ga_startup args) (ga_log_level args) (ga_worker_threads args) (ga_rayon_threads args)
    (any_ip (ra_http_port remote)) (any_ip METRICS_PORT)
    default_max_propose_bytes default_max_pool_bytes default_prune_cadence_blocks true true
    indexer relayer.

Record remote_ports_ok : Prop := {
  rp_listen : is_u16 (ra_listen_port remote); rp_http : is_u16 (ra_http_port remote);
  rp_metrics : is_u16 METRICS_PORT; rp_chain : is_u16 (ra_chain_indexer_port remote) }.

(** A named URL of the bundle resolves to the host's address. *)
Lemma resolve_bundle_url name port :
  is_Some (hosts !! name) → no_char x2f name → 0 ≤ port →
  Settings.resolve_named_http_url ("http://" +:+ name +:+ ":" +:+ pretty port) hosts = ip_url name port.
Proof.
  intros [ip Hip] Hc Hp. unfold Settings.resolve_named_http_url. rewrite resolve_host_url by done.
  rewrite lookup_fmap, Hip. unfold ip_url, host_ip. by rewrite Hip.
Qed.

Lemma pk_hex_no_slash k : no_char x2f (pk_hex k).
Proof. apply hex_no_char. apply (bool_decide_unpack _). vm_compute. exact I. Qed.

Lemma chain_host_no_slash : no_char x2f CHAIN_INDEXER_HOST.
Proof. apply (bool_decide_unpack _). vm_compute. exact I. Qed.

(** The sections of a secondary's file and what they become. *)
Definition remote_indexer_of (role : option SecondaryRole) : option IndexerConfig :=
  match role with Some IndexerRole => Some (remote_indexer_config remote) | _ => None end.
Definition remote_relayer_of (role : option SecondaryRole) : option BundleRelayer :=
  match role with Some RelayerRole => Some (remote_relayer_config remote m) | _ => None end.
Definition loaded_indexer_of (role : option SecondaryRole) : option IndexerConfig :=
  match role with
  | Some IndexerRole =>
      Some (mkIndexerConfig (ip_url CHAIN_INDEXER_HOST (ra_chain_indexer_port remote)) INDEXER_UPLOAD_BUFFER)
  | _ => None
  end.
Definition loaded_relayer_of (role : option SecondaryRole) : option RelayerConfig :=
  match role with
  | Some RelayerRole =>
      Some (mkRelayerConfig default_relayer_retry_views
              ((λ k, mkLeaderConfig (pk_hex k) (ip_url (pk_hex k) (ra_http_port remote))) <$> cm_public_keys m))
  | _ => None
  end.

(** Resolving the URLs of a written configuration. *)
Lemma resolve_urls_ok signer share prefix role :
  remote_ports_ok → (∀ k, k ∈ cm_public_keys m → is_Some (hosts !! pk_hex k)) →
  (role = Some IndexerRole → is_Some (hosts !! CHAIN_INDEXER_HOST)) →
  let c := validator_config_of (remote_config signer share prefix (remote_indexer_of role) (remote_relayer_of role)) in
  vc_indexer (resolve_urls hosts c) = loaded_indexer_of role ∧
  vc_relayer (resolve_urls hosts c) = loaded_relayer_of role.
Proof.
  intros [_ [Hh _] _ [Hc _]] Hk Hix. destruct role as [[]|]; cbn; split; try done; f_equal.
  - unfold remote_indexer_config, chain_indexer_url. cbn.
    rewrite (resolve_bundle_url CHAIN_INDEXER_HOST); [done|by apply Hix|apply chain_host_no_slash|done].
  - f_equal. unfold remote_relayer_config, primary_hex. cbn. rewrite <- !list_fmap_compose.
    apply list_fmap_ext. intros i k Hi. cbn. unfold host_url.
    rewrite (resolve_bundle_url (pk_hex k)); [done| |apply pk_hex_no_slash|done].
    by eapply Hk, list_elem_of_lookup_2.
Qed.

Lemma load_remote_node fs yaml_hosts hosts_path config_path raw_hosts host_list signer share prefix role :
  fs hosts_path = Some raw_hosts → yaml_hosts raw_hosts = Some host_list → hosts_by_name host_list = hosts →
  fs config_path = Some (yaml_to_string (ser_validator
    (remote_config signer share prefix (remote_indexer_of role) (remote_relayer_of role)))) →
  remote_ports_ok → 0 < ga_validators args ≤ u32_max → zlen (cm_public_keys m) = ga_validators args →
  is_u64 (ga_worker_threads args) → is_u64 (ga_rayon_threads args) →
  (is_Some share → role = None) →
  output_read (ga_validators args) (output_write (cm_dkg_output m)) = Ok (cm_dkg_output m, []) →
  cm_genesis_leader m = pk_hex leader →
  ed_public_key signer ∈ cm_public_keys m ++ cm_secondary_public_keys m →
  (∀ k, k ∈ cm_public_keys m ++ cm_secondary_public_keys m → is_Some (hosts !! pk_hex k)) →
  (role = Some IndexerRole → is_Some (hosts !! CHAIN_INDEXER_HOST)) →
  load_deployer_config fs yaml_hosts hosts_path config_path
  = Ret (remote_node signer share prefix (loaded_indexer_of role) (loaded_relayer_of role)).
Proof.
  intros Hfh Hyh Hhosts Hfc Hports Hn Hlen Hw Hr Hrole Hout Hlead Hself Hall Hix.
  set (b := remote_config _ _ _ _ _) in Hfc. assert (bundle_wf b) as Hwf.
  { destruct Hports. constructor; cbn; try done; try (unfold is_u32, is_u64, u32_max, u64_max,
      default_max_propose_bytes, default_max_pool_bytes in *; lia).
    intros i Hi. destruct role as [[]|]; try done. cbn in Hi. injection Hi as <-. vm_compute. split; discriminate. }
  destruct (resolve_urls_ok signer share prefix role Hports) as [Hri Hrr];
    [intros k Hk; apply Hall, elem_of_app; by left|done|]. fold b in Hri, Hrr.
  unfold load_deployer_config, load_validator_config. rewrite Hfc. cbn [mbind run_bind expect].
  rewrite yaml_law. cbn [mbind option_bind]. rewrite de_ser_validator by done. cbn [mbind run_bind expect].
  set (c := validator_config_of b) in *.
  change (vc_private_key c) with (hex (sk_write signer)). rewrite decode_private_key_hex.
  cbn [mbind run_bind]. rewrite Hfh. cbn [mbind run_bind expect]. rewrite Hyh. cbn [mbind run_bind expect].
  change (vc_primary_validators c) with ((λ k, hex (fwrite k)) <$> cm_public_keys m).
  change (vc_secondary_validators c) with ((λ k, hex (fwrite k)) <$> cm_secondary_public_keys m).
  rewrite decode_participants_hex by done. cbn [mbind run_bind]. rewrite Hhosts.
  fold (pk_hex (ed_public_key signer)). destruct (Hall _ Hself) as [ip Hip]. rewrite Hip. cbn [mbind run_bind expect].
  change (vc_bootstrappers (resolve_urls hosts c)) with (default_bootstrappers (cm_public_keys m)).
  change (vc_listen_port (resolve_urls hosts c)) with (ra_listen_port remote).
  rewrite default_bootstrappers_take.
  rewrite (mapM_run_imap _ _ (λ _ k, (k, mkSocket (host_ip (pk_hex k)) (ra_listen_port remote)))).
  2:{ intros i k Hi. unfold deployer_bootstrapper. cbn [nb_public_key nb_name]. rewrite decode_pk_hex. cbn [mbind run_bind].
      destruct (Hall k) as [ip' Hip'].
      { apply elem_of_app. left. apply lookup_take_Some in Hi as [Hi _]. by eapply list_elem_of_lookup_2. }
      unfold host_ip. rewrite Hip'. done. }
  cbn [mbind run_bind].
  rewrite (decode_with_network_ok _ signer (cm_dkg_output m) share leader); try done; try apply Hports.
  - unfold decoded_config. rewrite Hri, Hrr. unfold remote_node.
    assert (host_ip (pk_hex (ed_public_key signer)) = ip) as -> by (unfold host_ip; by rewrite Hip). do 3 f_equal.
    apply list_eq. intros i. rewrite list_lookup_imap, list_lookup_fmap. by destruct (_ !! i).
  - cbn. lia.
  - intros Hs. rewrite Hrr. by rewrite Hrole.
  - rewrite Hri, Hrr. destruct role as [[]|]; [by right|by left..].
Qed.

End remote_loading.

(** ** Generating a remote bundle *)

Section remote_bundle.
Context `{DkgLib} `{YamlLib} `{Ipv6Text}.
Variables (args : GenerateArgs) (remote : RemoteArgs) (dir : string) (METRICS_PORT : Z) (m : ClusterMaterial)
  (signers secondary_signers : list ed_sk).
Hypothesis Hm : material_ok m signers secondary_signers.
Let n : Z := ga_validators args.
Hypothesis Hn : zlen signers = n.
Hypothesis Hs : zlen secondary_signers = zlen (secondary_roles args).
Hypothesis Hnd : NoDup (fwrite <$> (ed_public_key <$> signers ++ secondary_signers)).

Definition key_file (k : ed_pk) : string := pk_hex k +:+ ".yaml".
Definition remote_generated (signer : ed_sk) (share : option Share) (prefix : string)
    (role : option SecondaryRole) : RemoteValidator :=
  let k := ed_public_key signer in
  mkRemoteValidator (pk_hex k) (key_file k) (path_join dir (key_file k))
    (remote_config args remote METRICS_PORT m signer share prefix (remote_indexer_of remote role)
       (remote_relayer_of remote m role)).

Lemma remote_validators_ok :
  ∃ vs, remote_validators args remote dir m METRICS_PORT = Ret vs ∧ length vs = length signers ∧
    ∀ i signer, signers !! i = Some signer →
      ∃ share, cm_shares m !! fwrite (ed_public_key signer) = Some share ∧
        vs !! i = Some (remote_generated signer (Some share) ("validator-" +:+ pretty (Z.of_nat i)) None).
Proof.
  set (P i g := ∃ signer share, signers !! Z.to_nat i = Some signer ∧
    cm_shares m !! fwrite (ed_public_key signer) = Some share ∧
    g = remote_generated signer (Some share) ("validator-" +:+ pretty i) None).
  destruct (mapM_run_Forall2 (remote_validator args remote dir m METRICS_PORT) P (seqZ 0 n)) as (vs & Hv & HP).
  { intros i Hi%elem_of_seqZ. destruct (lookup_lt_is_Some_2 signers (Z.to_nat i)) as [signer Hsig]; [unfold zlen in Hn; lia|].
    assert (cm_public_keys m !! Z.to_nat i = Some (ed_public_key signer)) as Hk
      by (by rewrite (mo_keys _ _ _ Hm), list_lookup_fmap, Hsig).
    destruct (mo_share _ _ _ Hm (ed_public_key signer)) as [share Hshare]; [by eapply list_elem_of_lookup_2|].
    eexists. split; [|by exists signer, share]. unfold remote_validator. rewrite Hk. cbn [expect mbind run_bind].
    rewrite Hshare. cbn [expect mbind run_bind]. by rewrite (mo_signers _ _ _ Hm), Hsig. }
  exists vs. split; [exact Hv|]. split; [apply Forall2_length in HP; rewrite length_seqZ in HP; unfold zlen in Hn; lia|].
  intros i signer Hi. apply lookup_lt_Some in Hi as Hl.
  assert (seqZ 0 n !! i = Some (Z.of_nat i)) as Hq by (apply lookup_seqZ; unfold zlen in Hn; lia).
  destruct (Forall2_lookup_l _ _ _ _ _ HP Hq) as (g & Hg & sk & share & Hsk & Hsh & ->).
  rewrite Nat2Z.id, Hi in Hsk. injection Hsk as <-. by exists share.
Qed.

Lemma remote_secondaries_ok :
  ∃ ss, remote_secondaries args remote dir m METRICS_PORT = Ret ss ∧ length ss = length secondary_signers ∧
    ∀ j signer role, secondary_signers !! j = Some signer → secondary_roles args !! j = Some role →
      ss !! j = Some (remote_generated signer None ("secondary-" +:+ pretty (Z.of_nat j)) (Some role)).
Proof.
  destruct (mapM_run_Forall2 (λ '(index, role), remote_secondary args remote dir m METRICS_PORT index role)
    (λ p g, ∃ signer, secondary_signers !! Z.to_nat p.1 = Some signer ∧
      g = remote_generated signer None ("secondary-" +:+ pretty p.1) (Some p.2))
    (zip (seqZ 0 (zlen (secondary_roles args))) (secondary_roles args))) as (ss & Hv & HP).
  { intros [j role] Hin. apply list_elem_of_lookup in Hin as [i Hi]. apply lookup_zip_Some in Hi as [Hj Hrole].
    apply lookup_seqZ in Hj as [-> Hj]. cbn in Hj.
    destruct (lookup_lt_is_Some_2 secondary_signers i) as [signer Hsig]; [unfold zlen in *; lia|].
    eexists. rewrite Z.add_0_l. split; [|exists signer; cbn; rewrite Nat2Z.id; done].
    unfold remote_secondary. rewrite (mo_secondary_keys _ _ _ Hm), list_lookup_fmap, Nat2Z.id, Hsig.
    cbn [expect mbind run_bind option_fmap fmap option_map]. rewrite (mo_secondary_signers _ _ _ Hm), Hsig. by destruct role. }
  exists ss. split; [exact Hv|]. split.
  { apply Forall2_length in HP. rewrite length_zip_with, length_seqZ in HP. unfold zlen in *. lia. }
  intros j signer role Hj Hr. apply lookup_lt_Some in Hr as Hl.
  assert (zip (seqZ 0 (zlen (secondary_roles args))) (secondary_roles args) !! j = Some (Z.of_nat j, role)) as Hq.
  { apply lookup_zip_Some. split; [|done]. apply lookup_seqZ. unfold zlen. lia. }
  destruct (Forall2_lookup_l _ _ _ _ _ HP Hq) as (g & Hg & sk & Hsk & ->).
  cbn in Hsk, Hg. rewrite Nat2Z.id, Hj in Hsk. by injection Hsk as <-.
Qed.

(** The other files of the bundle. *)
Definition other_files (chain metadata qmdb spammer : bool) : list string :=
  (if chain then [CHAIN_INDEXER_CONFIG_FILE] else []) ++ (if metadata then [METADATA_INDEXER_CONFIG_FILE] else [])
  ++ (if qmdb then [QMDB_INDEXER_CONFIG_FILE] else []) ++ (if spammer then [SPAMMER_CONFIG_FILE] else [])
  ++ [SIMPLEX_VERIFICATION_MATERIAL_FILE; DASHBOARD_FILE; DEPLOYER_CONFIG_FILE].

Definition key_file_chars : bytes := HEX ++ bytes_of_string ".yaml".

Lemma key_file_Forall k : Forall (.∈ key_file_chars) (bytes_of_string (key_file k)).
Proof.
  unfold key_file, key_file_chars, pk_hex. rewrite bytes_of_string_app. apply Forall_app. split.
  - eapply Forall_impl; [apply hex_digits|]. intros b Hb. apply elem_of_app. by left.
  - apply Forall_forall. intros b Hb. apply elem_of_app. by right.
Qed.

Lemma other_files_ok i q : NoDup (other_files i i i q) ∧
  ∀ name, name ∈ other_files i i i q →
    is_absolute name = false ∧ ¬ Forall (.∈ key_file_chars) (bytes_of_string name).
Proof.
  split.
  - apply (bool_decide_unpack _). destruct i, q; vm_compute; exact I.
  - apply Forall_forall. destruct i, q;
      repeat (constructor; [split; [reflexivity|apply (bool_decide_unpack _); vm_compute; exact I]|]); constructor.
Qed.

Lemma key_file_relative k : is_absolute (key_file k) = false.
Proof.
  unfold is_absolute. apply bool_decide_eq_false. intros Hh. pose proof (key_file_Forall k) as Hf.
  destruct (bytes_of_string (key_file k)) as [|b l]; [done|]. injection Hh as ->.
  inversion_clear Hf as [|? ? Hb _]. revert Hb. apply (bool_decide_unpack _). vm_compute. exact I.
Qed.

#[export] Instance key_file_inj : Inj (λ a b, fwrite a = fwrite b) (=) key_file.
Proof.
  intros a b E%(f_equal bytes_of_string). unfold key_file in E. rewrite !bytes_of_string_app in E.
  apply app_inv_tail, bytes_of_string_inj in E. by apply hex_inj.
Qed.

(** The files of a bundle are written once each. *)
Lemma remote_files_NoDup i q :
  NoDup (path_join dir <$> (key_file <$> (ed_public_key <$> signers ++ secondary_signers)) ++ other_files i i i q).
Proof.
  destruct (other_files_ok i q) as [Ho Hf].
  apply NoDup_fmap_2_strong.
  - intros a b Ha Hb. apply path_join_inj.
    + apply elem_of_app in Ha as [(k & -> & _)%list_elem_of_fmap|Ha]; [apply key_file_relative|by apply Hf].
    + apply elem_of_app in Hb as [(k & -> & _)%list_elem_of_fmap|Hb]; [apply key_file_relative|by apply Hf].
  - apply NoDup_app. split; [|split; [|done]].
    + clear -Hnd. induction (ed_public_key <$> signers ++ secondary_signers) as [|k ks IH]; [constructor|].
      cbn in Hnd |- *. apply NoDup_cons in Hnd as [Hk Hks]. apply NoDup_cons. split; [|by apply IH].
      intros (k' & E%key_file_inj & Hin)%list_elem_of_fmap. apply Hk. rewrite E. by apply list_elem_of_fmap_2.
    + intros name (k & -> & _)%list_elem_of_fmap Hin. apply (proj2 (Hf _ Hin)), key_file_Forall.
Qed.

End remote_bundle.

Section remote_property.
Context `{DkgLib} `{YamlLib} `{Ipv6Text}.
Variables (key_leb : ed_pk → ed_pk → bool) (os_rng : Z) (random : Z → ed_sk) (METRICS_PORT : Z)
  (current_dir dashboard tag : string) (deployer_yaml : DeployerConfig → string)
  (args : GenerateArgs) (remote : RemoteArgs).
Let n : Z := ga_validators args.
Let s : Z := zlen (secondary_roles args).
Let dir : string := absolute_path current_dir (ga_output_dir args).

Definition remote_signers : list ed_sk := sort_by_key key_leb (random <$> seqZ 0 n).
Definition remote_secondary_signers : list ed_sk := sort_by_key key_leb (random <$> seqZ n s).

Lemma sort_signers_perm l : sort_by_key key_leb l ≡ₚ l.
Proof. apply merge_sort_Permutation. Qed.

Lemma remote_signers_length : 0 ≤ n → zlen remote_signers = n.
Proof.
  intros. unfold zlen, remote_signers. rewrite sort_signers_perm, length_fmap, length_seqZ. lia.
Qed.

Lemma remote_secondary_signers_length : zlen remote_secondary_signers = s.
Proof.
  unfold zlen, remote_secondary_signers. rewrite sort_signers_perm, length_fmap, length_seqZ. unfold s, zlen. lia.
Qed.

Lemma remote_keys_distinct :
  0 ≤ n → NoDup (fwrite <$> (ed_public_key <$> (random <$> seqZ 0 (n + s)))) →
  NoDup (fwrite <$> (ed_public_key <$> remote_signers ++ remote_secondary_signers)).
Proof.
  intros Hn. assert (0 ≤ s) as Hs0 by apply zlen_nonneg. rewrite seqZ_app, fmap_app by lia.
  intros Hnd'. unfold remote_signers, remote_secondary_signers. by rewrite !sort_signers_perm.
Qed.

Definition remote_writes (m : ClusterMaterial) (vs ss : list RemoteValidator) (spammer : option SpammerConfig)
    (deployer : DeployerConfig) : list (string * string) :=
  (remote_write <$> vs) ++ (remote_write <$> ss)
  ++ optional_write (path_join dir CHAIN_INDEXER_CONFIG_FILE) ser_chain_indexer (chain_indexer_config args remote)
  ++ optional_write (path_join dir METADATA_INDEXER_CONFIG_FILE) ser_service (metadata_indexer_config args remote)
  ++ optional_write (path_join dir QMDB_INDEXER_CONFIG_FILE) ser_service (qmdb_indexer_config args remote)
  ++ optional_write (path_join dir SPAMMER_CONFIG_FILE) ser_spammer spammer
  ++ [(path_join dir SIMPLEX_VERIFICATION_MATERIAL_FILE, simplex_verification_material_hex m);
      (path_join dir DASHBOARD_FILE, dashboard); (path_join dir DEPLOYER_CONFIG_FILE, deployer_yaml deployer)].

(** The key of the relayer secondary, and the spammer's settings. *)
Definition relayer_index : nat := if ga_indexer args then 1%nat else 0%nat.
Definition spammer_config_for (m : ClusterMaterial) (k : ed_pk) : SpammerConfig :=
  mkSpammerConfig (ga_spammer_accounts args) (ga_spammer_value args) (ga_spammer_seed_offset args)
    (ga_spammer_rayon_threads args) (ra_http_port remote) (host_url remote (pk_hex k)) n
    (ga_spammer_presigned_batches args) (primary_hex m) (ga_spammer_accounts_jitter args).

Lemma relayer_role_index : ga_relayer args = true → secondary_roles args !! relayer_index = Some RelayerRole.
Proof. unfold secondary_roles, relayer_index. intros ->. by destruct (ga_indexer args). Qed.

Lemma generate_remote_ok log_level_ok blocking :
  args_ok log_level_ok blocking args → ra_regions remote ≠ [] → zlen (ra_regions remote) ≤ n →
  NoDup (fwrite <$> (ed_public_key <$> (random <$> seqZ 0 (n + s)))) →
  ∃ m vs ss spammer,
    let deployer := build_deployer_config tag args remote vs ss in
    material_ok m remote_signers remote_secondary_signers ∧
    generate_remote key_leb os_rng random METRICS_PORT current_dir false dashboard tag deployer_yaml args remote
    = Ret (remote_writes m vs ss spammer deployer, deployer) ∧
    remote_validators args remote dir m METRICS_PORT = Ret vs ∧
    remote_secondaries args remote dir m METRICS_PORT = Ret ss ∧
    (if ga_spammer args
     then ∃ signer, remote_secondary_signers !! relayer_index = Some signer ∧
            spammer = Some (spammer_config_for m (ed_public_key signer))
     else spammer = None).
Proof.
  intros Hargs Hr Hrn Hnd. pose proof (ao_validators _ _ _ Hargs) as Hn. fold n in Hn.
  pose proof (remote_signers_length ltac:(lia)) as Hl. pose proof remote_secondary_signers_length as Hls.
  pose proof (remote_keys_distinct ltac:(lia) Hnd) as Hd. pose proof Hd as Hd'.
  rewrite !fmap_app, NoDup_app in Hd'. destruct Hd' as (Hd1 & _ & _).
  destruct (build_cluster_material_ok remote_signers remote_secondary_signers os_rng) as (m & Hm & Hok);
    [intros E; rewrite E in Hl; unfold zlen in Hl; cbn in Hl; lia|done|].
  destruct (remote_validators_ok args remote dir METRICS_PORT m _ _ Hok Hl) as (vs & Hv & _).
  destruct (remote_secondaries_ok args remote dir METRICS_PORT m _ _ Hok Hls) as (ss & Hw & _).
  assert (∃ spammer,
    (if ga_spammer args then c ← remote_spammer_config args remote m; Ret (Some c) else Ret None) = Ret spammer ∧
    (if ga_spammer args
     then ∃ signer, remote_secondary_signers !! relayer_index = Some signer ∧
            spammer = Some (spammer_config_for m (ed_public_key signer))
     else spammer = None)) as (spammer & Hsp & Hspec).
  { destruct (ga_spammer args) eqn:Eg; [|by eexists].
    pose proof (relayer_role_index (ao_spammer _ _ _ Hargs Eg)) as Hrole. apply lookup_lt_Some in Hrole.
    destruct (lookup_lt_is_Some_2 remote_secondary_signers relayer_index) as [signer Hsig].
    { unfold s, zlen in Hls. lia. }
    exists (Some (spammer_config_for m (ed_public_key signer))). split; [|by exists signer].
    unfold remote_spammer_config, relayer_url. fold relayer_index.
    by rewrite (mo_secondary_keys _ _ _ Hok), list_lookup_fmap, Hsig. }
  exists m, vs, ss, spammer. split_and!; [done| |done..].
  unfold generate_remote, validate_generate_args.
  replace (negb (negb (ga_spammer args) || ga_relayer args)) with false
    by (destruct (ga_spammer args) eqn:Eg; [by rewrite (ao_spammer _ _ _ Hargs Eg)|done]).
  cbn [mbind run_bind]. rewrite (proj2 (Z.ltb_ge _ _)) by (fold n; lia).
  rewrite bool_decide_eq_false_2 by done. rewrite (proj2 (Z.ltb_ge _ _)) by (fold n; lia). fold dir.
  assert (total_secondaries args = s) as ->.
  { pose proof (secondary_roles_short args).
    pose proof (zlen_nonneg (secondary_roles args)). apply Z.mod_small. unfold s. lia. }
  change (generate_remote_cluster_material key_leb os_rng random (ga_validators args) s)
    with (build_cluster_material remote_signers remote_secondary_signers os_rng).
  rewrite Hm. cbn [mbind run_bind]. rewrite Hv. cbn [mbind run_bind]. rewrite Hw. cbn [mbind run_bind].
  rewrite Hsp. done.
Qed.

(** Each file is written once. *)
Lemma remote_writes_NoDup log_level_ok blocking m vs ss spammer deployer :
  args_ok log_level_ok blocking args →
  NoDup (fwrite <$> (ed_public_key <$> (random <$> seqZ 0 (n + s)))) →
  rv_config_file <$> vs = path_join dir <$> (key_file <$> (ed_public_key <$> remote_signers)) →
  rv_config_file <$> ss = path_join dir <$> (key_file <$> (ed_public_key <$> remote_secondary_signers)) →
  NoDup (remote_writes m vs ss spammer deployer).*1.
Proof.
  intros Hargs Hnd Hv Hw. pose proof (ao_validators _ _ _ Hargs) as Hn. fold n in Hn.
  pose proof (remote_keys_distinct ltac:(lia) Hnd) as Hd.
  assert ((remote_writes m vs ss spammer deployer).*1
    = path_join dir <$> (key_file <$> (ed_public_key <$> remote_signers ++ remote_secondary_signers))
        ++ other_files (ga_indexer args) (ga_indexer args) (ga_indexer args)
             (match spammer with Some _ => true | None => false end)) as ->.
  { unfold remote_writes, chain_indexer_config, metadata_indexer_config, qmdb_indexer_config.
    rewrite !fmap_app, <- !list_fmap_compose in *.
    change (fst ∘ remote_write <$> vs) with (rv_config_file <$> vs).
    change (fst ∘ remote_write <$> ss) with (rv_config_file <$> ss). rewrite Hv, Hw, <- app_assoc.
    do 2 f_equal. unfold other_files. destruct (ga_indexer args), spammer; done. }
  by apply remote_files_NoDup.
Qed.

End remote_property.

(** ** Running a remote bundle *)

(** The spammer's settings that [main] and the file's types accept. *)
Record spammer_ok (args : GenerateArgs) : Prop := {
  so_accounts : 2 ≤ ga_spammer_accounts args ≤ u32_max;
  so_value : 0 < ga_spammer_value args ≤ DEFAULT_ACCOUNT_BALANCE;
  so_seed_offset : is_u64 (ga_spammer_seed_offset args);
  so_rayon : 0 < ga_spammer_rayon_threads args ≤ u64_max;
  so_presigned : 0 < ga_spammer_presigned_batches args ≤ u64_max;
  so_jitter : jitter_in_range (ga_spammer_accounts_jitter args) = true }.

Definition printed {A B} (f : A → B) (l : list (string * A)) : list (string * B) := prod_map id f <$> l.

Lemma hosts_by_name_fmap {A B} (f : A → B) l : hosts_by_name (printed f l) = f <$> hosts_by_name l.
Proof.
  induction l as [|[k v] l IH] using rev_ind; [done|].
  unfold printed in *. rewrite fmap_app. cbn [fmap list_fmap prod_map id fst snd].
  by rewrite (hosts_by_name_app (prod_map id f <$> l)), hosts_by_name_app, fmap_insert, <- IH.
Qed.

Section remote_run.
Context `{DkgLib} `{YamlLib} `{Ipv6Text}.

(** The spammer's readers of its own file and of the hosts file, whose
    addresses it prints into URLs. *)
Definition spammer_yaml (t : string) : option SpammerConfig := y ← yaml_from_str t; de_spammer y.
Definition spammer_hosts (yaml_hosts : string → option (list (string * IpAddr))) (t : string)
    : option (list (string * string)) :=
  hosts ← yaml_hosts t; Some (printed ip_display hosts).

Lemma de_ser_spammer c :
  0 ≤ sc_accounts c ≤ u32_max → is_u64 (sc_value c) → is_u64 (sc_seed_offset c) →
  is_u64 (sc_rayon_threads c) → is_u16 (sc_http_port c) → is_u64 (sc_relayer_submitters c) →
  is_u64 (sc_presigned_batches c) → de_spammer (ser_spammer c) = Some c.
Proof.
  unfold is_u64, is_u16. destruct c as [acc val seed ray http url subm pre prim jit]. cbn. intros.
  unfold ser_spammer, usize_is_zero. cbn -[de_spammer app Z.eqb]. unfold de_spammer.
  cbn [struct_fields mbind option_bind]. destruct (Z.eqb_spec subm 0) as [->|]; fields;
    rewrite ?de_string_law, ?de_uint_law, ?de_ser_strings, ?de_f64_law by done; reflexivity.
Qed.

Variables (args : GenerateArgs) (remote : RemoteArgs) (METRICS_PORT : Z) (m : ClusterMaterial) (leader : ed_pk)
  (hosts : gmap string IpAddr).

Lemma remote_plan log_level_ok blocking path signer share prefix indexer relayer :
  is_Some (path_parent path) → args_ok log_level_ok blocking args → NoDup (fwrite <$> cm_public_keys m) →
  NoDup (fwrite <$> cm_secondary_public_keys m) → zlen (cm_public_keys m) = ga_validators args →
  let c := remote_node args remote METRICS_PORT m leader hosts signer share prefix indexer relayer in
  ∃ plan, run_with_config log_level_ok blocking c path = Ret plan ∧
    np_server plan = node_server c (ga_validators args * 2) ∧
    np_indexer plan = (match share with Some _ => None | None => indexer end) ∧
    np_reports_to_mempool plan = bool_decide (is_Some share).
Proof.
  intros Hpath [Hn _ Hw Hb Ht Hr Hlog] Hn1 Hn2 Hlen c.
  destruct (run_with_config_ok log_level_ok blocking c path) as (plan & Hp & Hs & Hi & _ & Hrep); try done.
  - cbn. lia.
  - change (zlen (cm_public_keys m) * 2 ≤ u64_max). rewrite Hlen. unfold u64_max. lia.
  - exists plan. split_and!; [done| |done..].
    rewrite Hs. change (dc_primary_participants (lc_decoded c)) with (cm_public_keys m). by rewrite Hlen.
Qed.

(** The relayer of the bundle finds every validator's mempool. *)
Lemma remote_leaders_found :
  0 ≤ ra_http_port remote → NoDup (fwrite <$> cm_public_keys m) →
  ∃ r ls, loaded_relayer_of remote m hosts (Some RelayerRole) = Some r ∧
    normalize_leaders from_hex ((λ l, (rl_public_key l, rl_url l)) <$> rc_leaders r) = Ret ls ∧
    ∀ k, k ∈ cm_public_keys m →
      leader_by_id ls (pk_hex k) = Some (mkLeader (pk_hex k) (fwrite k) (ip_url hosts (pk_hex k) (ra_http_port remote))).
Proof.
  intros Hp Hnd.
  destruct (normalized_leader_found (λ _ k, "http://" +:+ ip_display (host_ip hosts (pk_hex k)) +:+ ":")
    (λ _, ra_http_port remote) (cm_public_keys m)) as (ls & Hn & Hf); [done..|].
  eexists _, ls. split; [reflexivity|]. split.
  - rewrite <- Hn. f_equal. cbn [rc_leaders]. unfold leader_config. apply list_eq. intros i.
    rewrite !list_lookup_fmap, list_lookup_imap. destruct (cm_public_keys m !! i); [|done]. cbn.
    unfold ip_url. by rewrite !string_app_assoc.
  - intros k [i Hi]%list_elem_of_lookup. rewrite (Hf i k Hi). unfold ip_url. by rewrite !string_app_assoc.
Qed.

(** [main] of the spammer on the written file. *)
Lemma spammer_reads fs yaml_hosts config_path hosts_path raw_hosts host_list cli k :
  fs config_path = Some (yaml_to_string (ser_spammer (spammer_config_for args remote m k))) →
  fs hosts_path = Some raw_hosts → yaml_hosts raw_hosts = Some host_list →
  hosts_by_name host_list = hosts → is_Some (hosts !! pk_hex k) →
  cli_config cli = Some config_path → cli_hosts cli = Some hosts_path →
  spammer_ok args → is_u16 (ra_http_port remote) → 1 ≤ ga_validators args < 2 ^ 16 → cm_public_keys m ≠ [] →
  spammer_main fs spammer_yaml (spammer_hosts yaml_hosts) cli
  = Ret (mkMode (ip_url hosts (pk_hex k) (ra_http_port remote)) (ga_spammer_accounts args) (ga_spammer_value args)
           (ga_spammer_seed_offset args) (ga_spammer_accounts_jitter args) (ga_validators args)
           (ga_spammer_presigned_batches args) (primary_hex m)).
Proof.
  intros Hfc Hfh Hyh Hhosts Hk Hc Hh [Ha Hv Hs Hr Hp Hj] Hport Hn Hne.
  unfold spammer_main, spammer_settings, load_config, spammer_yaml, spammer_hosts. rewrite Hc, Hfc. cbn [mbind run_bind expect].
  rewrite yaml_law. cbn [mbind option_bind].
  rewrite de_ser_spammer by (unfold is_u64, u64_max, u32_max, DEFAULT_ACCOUNT_BALANCE in *; cbn; lia || done).
  cbn [mbind run_bind expect]. unfold Spammer.resolve_named_http_url. rewrite Hh, Hfh. cbn [mbind run_bind expect].
  rewrite Hyh. cbn [mbind option_bind run_bind expect sc_relayer_url spammer_config_for].
  rewrite hosts_by_name_fmap, Hhosts. unfold host_url.
  change (resolve_in_hosts (ip_display <$> hosts)) with (λ url, Settings.resolve_named_http_url url hosts).
  cbv beta. rewrite resolve_bundle_url; [|done|apply pk_hex_no_slash|apply Hport].
  cbn [sc_relayer_submitters sc_primary_validators sc_accounts sc_value sc_seed_offset sc_accounts_jitter
       sc_presigned_batches sc_rayon_threads spammer_config_for].
  rewrite (proj2 (Z.eqb_neq (ga_validators args) 0)) by lia.
  assert (primary_hex m ≠ []) as Hne' by (unfold primary_hex; by destruct (cm_public_keys m)).
  destruct (primary_hex m) as [|h hs]; [done|].
  cbn [rm_accounts_jitter rm_presigned_batches rm_accounts_count rm_value]. rewrite Hj. cbn [negb].
  rewrite (proj2 (Z.leb_gt (ga_spammer_presigned_batches args) 0)), (proj2 (Z.ltb_ge (ga_spammer_accounts args) 2)),
    (proj2 (Z.leb_gt (ga_spammer_value args) 0)), (proj2 (Z.ltb_ge DEFAULT_ACCOUNT_BALANCE _)),
    (proj2 (Z.eqb_neq (ga_spammer_rayon_threads args) 0)) by lia. done.
Qed.
End remote_run.

(** ** A deployed remote bundle *)

Section deployed.
Context `{DkgLib} `{YamlLib} `{Ipv6Text}.

(** What the instances see: the files written, and a hosts file naming every
    instance. *)
Record deployed (writes : list (string * string)) (deployer : DeployerConfig) (fs : string → option string)
    (yaml_hosts : string → option (list (string * IpAddr))) (hosts_path : string)
    (host_list : list (string * IpAddr)) : Prop := {
  dp_files p t : (p, t) ∈ writes → fs p = Some t;
  dp_hosts : ∃ raw_hosts, fs hosts_path = Some raw_hosts ∧ yaml_hosts raw_hosts = Some host_list;
  dp_names inst : inst ∈ de_instances deployer → is_Some (hosts_by_name host_list !! in_name inst) }.

Lemma generated_fields {C} (f : RemoteValidator → C) (g : ed_pk → C) gs signers :
  length gs = length signers →
  (∀ i signer, signers !! i = Some signer → ∃ x, gs !! i = Some x ∧ f x = g (ed_public_key signer)) →
  f <$> gs = g <$> (ed_public_key <$> signers).
Proof.
  intros Hl Hg. apply list_eq. intros i. rewrite !list_lookup_fmap.
  destruct (signers !! i) as [signer|] eqn:E.
  - destruct (Hg i signer E) as (x & -> & Hx). cbn. by rewrite Hx.
  - apply lookup_ge_None in E. by rewrite (lookup_ge_None_2 gs) by lia.
Qed.

Variables (args : GenerateArgs) (remote : RemoteArgs) (dir : string) (METRICS_PORT : Z) (m : ClusterMaterial)
  (signers secondary_signers : list ed_sk) (vs ss : list RemoteValidator) (tag : string).
Hypothesis Hnd : NoDup (fwrite <$> (ed_public_key <$> signers ++ secondary_signers)).
Hypothesis Hregions : ra_regions remote ≠ [].
Notation generated := (remote_generated args remote dir METRICS_PORT m).

(** The nodes generated for the signers. *)
Record nodes_generated : Prop := {
  ng_validators : length vs = length signers;
  ng_validator i signer : signers !! i = Some signer →
    ∃ share, cm_shares m !! fwrite (ed_public_key signer) = Some share ∧
      vs !! i = Some (generated signer (Some share) ("validator-" +:+ pretty (Z.of_nat i)) None);
  ng_secondaries : length ss = length secondary_signers;
  ng_roles : length secondary_signers = length (secondary_roles args);
  ng_secondary j signer role : secondary_signers !! j = Some signer → secondary_roles args !! j = Some role →
    ss !! j = Some (generated signer None ("secondary-" +:+ pretty (Z.of_nat j)) (Some role)) }.
Hypothesis Hng : nodes_generated.

Lemma nodes_fields {C} (f : RemoteValidator → C) (g : ed_pk → C) :
  (∀ signer share prefix role, f (generated signer share prefix role) = g (ed_public_key signer)) →
  f <$> vs = g <$> (ed_public_key <$> signers) ∧ f <$> ss = g <$> (ed_public_key <$> secondary_signers).
Proof.
  intros Hfg. destruct Hng as [Hl Hv Hl' Hr Hs]. split; apply generated_fields; try done.
  - intros i signer (share & _ & Hg)%Hv. eexists. by split; [exact Hg|].
  - intros j signer Hj. destruct (lookup_lt_is_Some_2 (secondary_roles args) j) as [role Hrole].
    { apply lookup_lt_Some in Hj. lia. }
    eexists. by split; [by apply (Hs j signer role)|].
Qed.

(** The hosts besides the nodes. *)
Definition other_hosts : list string :=
  (if ga_indexer args then [CHAIN_INDEXER_HOST; METADATA_INDEXER_HOST; QMDB_INDEXER_HOST] else [])
  ++ (if ga_spammer args then ["spammer"%string] else []).

Lemma instance_names :
  in_name <$> de_instances (build_deployer_config tag args remote vs ss)
  = (pk_hex <$> (ed_public_key <$> signers ++ secondary_signers)) ++ other_hosts.
Proof.
  destruct (nodes_fields rv_public_key_hex pk_hex) as [Hv Hs]; [done|].
  unfold build_deployer_config, other_hosts. cbn [de_instances]. rewrite !fmap_app, <- Hv, <- Hs, <- app_assoc.
  f_equal; [|f_equal; [|by destruct (ga_indexer args), (ga_spammer args)]];
    apply list_eq; intros i; rewrite !list_lookup_fmap, list_lookup_imap; by destruct (_ !! i).
Qed.

Lemma instance_names_NoDup : NoDup (in_name <$> de_instances (build_deployer_config tag args remote vs ss)).
Proof.
  rewrite instance_names. apply NoDup_app. split; [|split].
  - change (pk_hex <$> ?l) with (hex ∘ fwrite <$> l). rewrite list_fmap_compose. apply NoDup_fmap_2; [|done]. intros a b. apply hex_inj.
  - intros name (k & -> & _)%list_elem_of_fmap Hin. pose proof (hex_digits (fwrite k)) as Hd. unfold pk_hex in Hin.
    apply (Forall_forall (λ name, ¬ Forall (.∈ HEX) (bytes_of_string name)) other_hosts) in Hin; [done|]. clear Hin.
    unfold other_hosts.
    destruct (ga_indexer args), (ga_spammer args); cbn [app];
      repeat (constructor; [apply (bool_decide_unpack _); vm_compute; exact I|]); constructor.
  - unfold other_hosts. apply (bool_decide_unpack _). destruct (ga_indexer args), (ga_spammer args); vm_compute; exact I.
Qed.

Lemma region_of_elem i : region_of remote i ∈ ra_regions remote.
Proof.
  unfold region_of.
  destruct (lookup_lt_is_Some_2 (ra_regions remote) (i mod length (ra_regions remote))%nat) as [r Hr].
  - apply Nat.mod_upper_bound. by destruct (ra_regions remote).
  - rewrite Hr. by eapply list_elem_of_lookup_2.
Qed.

Lemma instance_regions inst :
  inst ∈ de_instances (build_deployer_config tag args remote vs ss) → in_region inst ∈ ra_regions remote.
Proof.
  unfold build_deployer_config. cbn [de_instances]. rewrite !elem_of_app. intros [Hi|[Hi|[Hi|Hi]]].
  - apply elem_of_lookup_imap in Hi as (i & g & -> & _). apply region_of_elem.
  - apply elem_of_lookup_imap in Hi as (i & g & -> & _). unfold secondary_instance, shared_indexer_region. cbn.
    destruct (ga_indexer args); apply region_of_elem.
  - destruct (ga_indexer args); [|by apply not_elem_of_nil in Hi].
    revert inst Hi. apply Forall_forall. repeat (constructor; [apply region_of_elem|]). constructor.
  - destruct (ga_spammer args); [|by apply not_elem_of_nil in Hi].
    apply list_elem_of_singleton in Hi as ->. apply region_of_elem.
Qed.

(** Every instance's configuration file is written. *)
Lemma instance_configs current_dir dashboard deployer_yaml spammer deployer inst :
  dir = absolute_path current_dir (ga_output_dir args) → (ga_spammer args = true → is_Some spammer) →
  inst ∈ de_instances (build_deployer_config tag args remote vs ss) →
  path_join dir (in_config inst)
    ∈ (remote_writes current_dir dashboard deployer_yaml args remote m vs ss spammer deployer).*1.
Proof.
  intros Hdir Hsp. unfold remote_writes, build_deployer_config. cbn [de_instances]. rewrite <- Hdir, !fmap_app, !elem_of_app.
  assert (∀ gs g, g ∈ gs → (∃ signer share prefix role, g = generated signer share prefix role) →
            path_join dir (rv_config_name g) ∈ (remote_write <$> gs).*1) as Hg.
  { intros gs g Hin (signer & share & prefix & role & ->). rewrite <- list_fmap_compose. by apply (list_elem_of_fmap_2 (fst ∘ remote_write)) in Hin. }
  destruct Hng as [Hl Hv Hl' Hr Hs]. intros [Hi|[Hi|[Hi|Hi]]].
  - apply elem_of_lookup_imap in Hi as (i & g & -> & Hi). left. cbn.
    destruct (lookup_lt_is_Some_2 signers i) as [signer Hsig]; [apply lookup_lt_Some in Hi; lia|].
    destruct (Hv i signer Hsig) as (share & _ & Hg'). rewrite Hi in Hg'. injection Hg' as ->.
    apply Hg; [by eapply list_elem_of_lookup_2|by eexists _, _, _, _].
  - apply elem_of_lookup_imap in Hi as (j & g & -> & Hj). right. left. cbn.
    destruct (lookup_lt_is_Some_2 secondary_signers j) as [signer Hsig]; [apply lookup_lt_Some in Hj; lia|].
    destruct (lookup_lt_is_Some_2 (secondary_roles args) j) as [role Hrole]; [apply lookup_lt_Some in Hj; lia|].
    pose proof (Hs j signer role Hsig Hrole) as Hg'. rewrite Hj in Hg'. injection Hg' as ->.
    apply Hg; [by eapply list_elem_of_lookup_2|by eexists _, _, _, _].
  - unfold chain_indexer_config, metadata_indexer_config, qmdb_indexer_config.
    destruct (ga_indexer args); [|by apply not_elem_of_nil in Hi].
    do 2 right. unfold service_instances in Hi. rewrite !elem_of_cons, elem_of_nil in Hi.
    destruct Hi as [-> |[-> |[-> |[]]]]; cbn; rewrite !list_elem_of_singleton; auto.
  - destruct (ga_spammer args); [|by apply not_elem_of_nil in Hi]. destruct Hsp as [c ->]; [done|].
    apply list_elem_of_singleton in Hi as ->. do 5 right. left. cbn. by rewrite list_elem_of_singleton.
Qed.

End deployed.

Section remote_theorems.
Context `{DkgLib} `{YamlLib} `{Ipv6Text}.
Variables (key_leb : ed_pk → ed_pk → bool) (os_rng : Z) (random : Z → ed_sk) (METRICS_PORT : Z)
  (current_dir dashboard tag : string) (deployer_yaml : DeployerConfig → string)
  (args : GenerateArgs) (remote : RemoteArgs) (log_level_ok : string → bool) (blocking : Z).
Let n : Z := ga_validators args.
Let s : Z := zlen (secondary_roles args).
Let dir : string := absolute_path current_dir (ga_output_dir args).
Let signers : list ed_sk := remote_signers key_leb random args.
Let secondary_signers : list ed_sk := remote_secondary_signers key_leb random args.
Notation generate := (generate_remote key_leb os_rng random METRICS_PORT current_dir false dashboard tag
  deployer_yaml args remote).

(** What the tool is given: accepted settings, enough regions, distinct keys. *)
Record remote_inputs_ok : Prop := {
  ri_args : args_ok log_level_ok blocking args;
  ri_ports : remote_ports_ok remote METRICS_PORT;
  ri_regions : ra_regions remote ≠ [];
  ri_enough : zlen (ra_regions remote) ≤ ga_validators args;
  ri_keys : NoDup (fwrite <$> (ed_public_key <$> (random <$> seqZ 0 (ga_validators args + zlen (secondary_roles args))))) }.
Hypothesis Hin : remote_inputs_ok.

Lemma remote_bundle_generated :
  ∃ m vs ss spammer,
    let deployer := build_deployer_config tag args remote vs ss in
    let writes := remote_writes current_dir dashboard deployer_yaml args remote m vs ss spammer deployer in
    material_ok m signers secondary_signers ∧ generate = Ret (writes, deployer) ∧
    nodes_generated args remote dir METRICS_PORT m signers secondary_signers vs ss ∧ NoDup writes.*1 ∧
    (if ga_spammer args
     then ∃ signer, secondary_signers !! relayer_index args = Some signer ∧
            spammer = Some (spammer_config_for args remote m (ed_public_key signer))
     else spammer = None).
Proof.
  destruct Hin as [Hargs Hports Hr Hrn Hnd]. pose proof (ao_validators _ _ _ Hargs) as Hn.
  destruct (generate_remote_ok key_leb os_rng random METRICS_PORT current_dir dashboard tag deployer_yaml args remote
    log_level_ok blocking Hargs Hr Hrn Hnd) as (m & vs & ss & spammer & Hok & Hgen & Hv & Hs & Hsp).
  pose proof (remote_signers_length key_leb random args ltac:(lia)) as Hl.
  pose proof (remote_secondary_signers_length key_leb random args) as Hls. fold signers in Hl, Hok. fold secondary_signers in Hls, Hok, Hsp.
  destruct (remote_validators_ok args remote dir METRICS_PORT m _ _ Hok Hl) as (vs' & Hv' & Hvl & Hvs).
  destruct (remote_secondaries_ok args remote dir METRICS_PORT m _ _ Hok Hls) as (ss' & Hs' & Hsl & Hss).
  fold dir in Hv, Hs. rewrite Hv in Hv'. injection Hv' as <-. rewrite Hs in Hs'. injection Hs' as <-.
  assert (nodes_generated args remote dir METRICS_PORT m signers secondary_signers vs ss) as Hng.
  { constructor; try done. unfold zlen in Hls. lia. }
  exists m, vs, ss, spammer. split_and!; try done.
  destruct (nodes_fields args remote dir METRICS_PORT m signers secondary_signers vs ss Hng
    rv_config_file (λ k, path_join dir (key_file k))) as [Hfv Hfs]; [done|].
  apply (remote_writes_NoDup key_leb random current_dir dashboard deployer_yaml args remote log_level_ok blocking);
    try done; fold dir signers secondary_signers; [rewrite Hfv|rewrite Hfs]; apply (list_fmap_compose key_file (path_join dir)).
Qed.

Lemma remote_signing_keys : NoDup (fwrite <$> (ed_public_key <$> signers ++ secondary_signers)).
Proof.
  destruct Hin as [Hargs _ _ _ Hnd]. pose proof (ao_validators _ _ _ Hargs) as Hn.
  apply remote_keys_distinct; [lia|done].
Qed.

Lemma node_instance_named m vs ss k :
  nodes_generated args remote dir METRICS_PORT m signers secondary_signers vs ss →
  k ∈ ed_public_key <$> signers ++ secondary_signers →
  ∃ inst, inst ∈ de_instances (build_deployer_config tag args remote vs ss) ∧ in_name inst = pk_hex k.
Proof.
  intros Hng Hk. pose proof (instance_names args remote dir METRICS_PORT m signers secondary_signers vs ss tag Hng) as Hnames.
  assert (pk_hex k ∈ in_name <$> de_instances (build_deployer_config tag args remote vs ss)) as Hi.
  { rewrite Hnames. apply elem_of_app. left. by apply list_elem_of_fmap_2. }
  apply list_elem_of_fmap in Hi as (inst & -> & Hi). by exists inst.
Qed.

(** A node of the deployed bundle loads its own file. *)
Lemma remote_bundle_node_loads m vs ss spammer deployer fs yaml_hosts hosts_path host_list leader signer share prefix role :
  deployer = build_deployer_config tag args remote vs ss →
  material_ok m signers secondary_signers →
  nodes_generated args remote dir METRICS_PORT m signers secondary_signers vs ss →
  deployed (remote_writes current_dir dashboard deployer_yaml args remote m vs ss spammer deployer) deployer
    fs yaml_hosts hosts_path host_list →
  head (cm_public_keys m) = Some leader →
  remote_generated args remote dir METRICS_PORT m signer share prefix role ∈ vs ++ ss →
  ed_public_key signer ∈ ed_public_key <$> signers ++ secondary_signers →
  (is_Some share → role = None) → (role = Some IndexerRole → ga_indexer args = true) →
  load_deployer_config fs yaml_hosts hosts_path (path_join dir (key_file (ed_public_key signer)))
  = Ret (remote_node args remote METRICS_PORT m leader (hosts_by_name host_list) signer share prefix
           (loaded_indexer_of remote (hosts_by_name host_list) role)
           (loaded_relayer_of remote m (hosts_by_name host_list) role)).
Proof.
  intros -> Hok Hng [Hfiles (raw & Hfh & Hyh) Hnames] Hhead Hg Hself Hrole Hix.
  destruct Hin as [Hargs Hports _ _ _]. pose proof Hargs as [Hn _ Hw Hb Ht Hr _]. fold n in Hn.
  destruct (mo_leader _ _ _ Hok) as (leader' & Hhead' & Hlead). rewrite Hhead in Hhead'. injection Hhead' as <-.
  pose proof (remote_signers_length key_leb random args ltac:(fold n; lia)) as Hl. fold signers n in Hl.
  assert (zlen (cm_public_keys m) = n) as Hlen by (rewrite (mo_keys _ _ _ Hok); unfold zlen in *; by rewrite length_fmap).
  assert (cm_public_keys m ++ cm_secondary_public_keys m = ed_public_key <$> signers ++ secondary_signers) as Hkeys
    by (by rewrite (mo_keys _ _ _ Hok), (mo_secondary_keys _ _ _ Hok), fmap_app).
  unfold u64_max in *.
  apply (load_remote_node args remote METRICS_PORT m leader _ fs yaml_hosts _ _ raw host_list); try done; fold n.
  - apply Hfiles. unfold remote_writes. rewrite app_assoc, <- fmap_app. apply elem_of_app. left.
    apply list_elem_of_fmap. eexists. split; [|exact Hg]. done.
  - unfold u32_max. lia.
  - unfold is_u64, u64_max. lia.
  - unfold is_u64, u64_max. lia.
  - rewrite <- Hl. apply (mo_output _ _ _ Hok).
  - by rewrite Hkeys.
  - intros k Hk. rewrite Hkeys in Hk. destruct (node_instance_named m vs ss k Hng Hk) as (inst & Hi & <-). by apply Hnames.
  - intros E. specialize (Hix E).
    assert (CHAIN_INDEXER_HOST ∈ in_name <$> de_instances (build_deployer_config tag args remote vs ss)) as Hi.
    { rewrite (instance_names args remote dir METRICS_PORT m signers secondary_signers vs ss tag Hng).
      apply elem_of_app. right. unfold other_hosts. rewrite Hix. left. }
    apply list_elem_of_fmap in Hi as (inst & -> & Hi). by apply Hnames.
Qed.

(** A validator and a secondary of the bundle, loaded and started. *)
Definition remote_validator_runs (m : ClusterMaterial) (leader : ed_pk) (hosts : gmap string IpAddr)
    (load : ed_pk → run LoadedConfig) (i : nat) (signer : ed_sk) : Prop :=
  ∃ share plan,
    let c := remote_node args remote METRICS_PORT m leader hosts signer (Some share)
               ("validator-" +:+ pretty (Z.of_nat i)) None None in
    cm_shares m !! fwrite (ed_public_key signer) = Some share ∧
    load (ed_public_key signer) = Ret c ∧
    run_with_config log_level_ok blocking c (path_join dir (key_file (ed_public_key signer))) = Ret plan ∧
    np_server plan = MempoolServer (any_ip (ra_http_port remote)) default_max_pool_bytes
                       default_max_propose_bytes (ga_validators args * 2) ∧
    np_reports_to_mempool plan = true.
Definition remote_secondary_runs (m : ClusterMaterial) (leader : ed_pk) (hosts : gmap string IpAddr)
    (load : ed_pk → run LoadedConfig) (j : nat) (role : SecondaryRole) (signer : ed_sk) : Prop :=
  ∃ indexer relayer plan,
    let c := remote_node args remote METRICS_PORT m leader hosts signer None
               ("secondary-" +:+ pretty (Z.of_nat j)) indexer relayer in
    load (ed_public_key signer) = Ret c ∧
    run_with_config log_level_ok blocking c (path_join dir (key_file (ed_public_key signer))) = Ret plan ∧
    np_reports_to_mempool plan = false ∧
    match role with
    | IndexerRole =>
        np_server plan = NoServer ∧
        np_indexer plan = Some (mkIndexerConfig (ip_url hosts CHAIN_INDEXER_HOST (ra_chain_indexer_port remote))
                                  INDEXER_UPLOAD_BUFFER)
    | RelayerRole =>
        ∃ r ls, np_server plan = RelayerServer (any_ip (ra_http_port remote)) r ∧
          normalize_leaders from_hex ((λ l, (rl_public_key l, rl_url l)) <$> rc_leaders r) = Ret ls ∧
          ∀ k, k ∈ cm_public_keys m →
            leader_by_id ls (pk_hex k)
            = Some (mkLeader (pk_hex k) (fwrite k) (ip_url hosts (pk_hex k) (ra_http_port remote)))
    end.

Section running.
Variables (m : ClusterMaterial) (vs ss : list RemoteValidator) (spammer : option SpammerConfig)
  (fs : string → option string) (yaml_hosts : string → option (list (string * IpAddr))) (hosts_path : string)
  (host_list : list (string * IpAddr)) (leader : ed_pk).
Let deployer : DeployerConfig := build_deployer_config tag args remote vs ss.
Hypothesis Hok : material_ok m signers secondary_signers.
Hypothesis Hng : nodes_generated args remote dir METRICS_PORT m signers secondary_signers vs ss.
Hypothesis Hd : deployed (remote_writes current_dir dashboard deployer_yaml args remote m vs ss spammer deployer)
  deployer fs yaml_hosts hosts_path host_list.
Hypothesis Hhead : head (cm_public_keys m) = Some leader.
Let hosts : gmap string IpAddr := hosts_by_name host_list.
Let load (k : ed_pk) : run LoadedConfig :=
  load_deployer_config fs yaml_hosts hosts_path (path_join dir (key_file k)).

Lemma material_keys :
  NoDup (fwrite <$> cm_public_keys m) ∧ NoDup (fwrite <$> cm_secondary_public_keys m) ∧
  zlen (cm_public_keys m) = ga_validators args.
Proof.
  pose proof remote_signing_keys as Hnd. pose proof (ao_validators _ _ _ (ri_args Hin)) as Hn.
  rewrite (mo_keys _ _ _ Hok), (mo_secondary_keys _ _ _ Hok). rewrite !fmap_app, NoDup_app in Hnd.
  split_and!; [tauto..|]. pose proof (remote_signers_length key_leb random args ltac:(lia)) as Hl.
  unfold zlen. rewrite length_fmap. exact Hl.
Qed.

Lemma remote_validators_run i signer :
  signers !! i = Some signer → remote_validator_runs m leader hosts load i signer.
Proof.
  intros Hi. destruct material_keys as (Hn1 & Hn2 & Hlen).
  destruct (ng_validator _ _ _ _ _ _ _ _ _ Hng i signer Hi) as (share & Hsh & Hg).
  pose proof (yaml_file_parent dir (pk_hex (ed_public_key signer))) as Hpath.
  destruct (remote_plan args remote METRICS_PORT m leader hosts log_level_ok blocking (path_join dir (key_file (ed_public_key signer))) signer (Some share)
    ("validator-" +:+ pretty (Z.of_nat i)) None None) as (plan & Hp & Hs & _ & Hr); try done; [apply Hin|].
  exists share, plan. split_and!; [done| |done|by rewrite Hs|done].
  apply (remote_bundle_node_loads m vs ss spammer deployer fs yaml_hosts hosts_path host_list leader signer
    (Some share) _ None); try done.
  - apply elem_of_app. left. by eapply list_elem_of_lookup_2.
  - rewrite fmap_app. apply elem_of_app. left. by eapply list_elem_of_fmap_2, list_elem_of_lookup_2.
Qed.

Lemma remote_secondaries_run j role signer :
  secondary_roles args !! j = Some role → secondary_signers !! j = Some signer →
  remote_secondary_runs m leader hosts load j role signer.
Proof.
  intros Hj Hi. destruct material_keys as (Hn1 & Hn2 & Hlen).
  pose proof (ng_secondary _ _ _ _ _ _ _ _ _ Hng j signer role Hi Hj) as Hg.
  pose proof (yaml_file_parent dir (pk_hex (ed_public_key signer))) as Hpath.
  destruct (remote_plan args remote METRICS_PORT m leader hosts log_level_ok blocking (path_join dir (key_file (ed_public_key signer))) signer None
    ("secondary-" +:+ pretty (Z.of_nat j)) (loaded_indexer_of remote hosts (Some role))
    (loaded_relayer_of remote m hosts (Some role))) as (plan & Hp & Hs & Hx & Hr); try done; [apply Hin|].
  eexists _, _, plan. split; [|split; [exact Hp|split; [done|]]].
  - apply (remote_bundle_node_loads m vs ss spammer deployer fs yaml_hosts hosts_path host_list leader signer
      None _ (Some role)); try done.
    + apply elem_of_app. right. by eapply list_elem_of_lookup_2.
    + rewrite fmap_app. apply elem_of_app. right. by eapply list_elem_of_fmap_2, list_elem_of_lookup_2.
    + intros [= ->]. unfold secondary_roles in Hj. destruct (ga_indexer args); [done|].
      by destruct (ga_relayer args), j as [|[]].
  - destruct role; [by rewrite Hs, Hx|].
    destruct (remote_leaders_found remote m hosts) as (r & ls & E & Hn' & Hf);
      [apply (rp_http _ _ (ri_ports Hin))|done|]. exists r, ls. split; [|by split].
    rewrite Hs. unfold node_server. cbn. cbn in E. by injection E as <-.
Qed.
End running.
End remote_theorems.

(** C12. A remote bundle starts.  With accepted settings, a region for no more
    than each validator and distinct keys, the tool writes every file once and
    an instance list with distinct names in which every instance lies in one of
    the regions and finds its configuration among the files.  On any machine
    that sees the files and a hosts file naming the instances, every node then
    loads its own file and starts without panicking: a validator holds its
    share and serves its mempool at the shared port, the indexer secondary
    uploads to the store's host, and the relayer secondary finds, under the key
    of each validator, the URL of that validator's host. *)
Theorem remote_bundle_starts `{DkgLib} `{YamlLib} `{Ipv6Text} key_leb os_rng random METRICS_PORT current_dir
    dashboard tag deployer_yaml args remote log_level_ok blocking :
  let dir := absolute_path current_dir (ga_output_dir args) in
  let signers := remote_signers key_leb random args in
  let secondary_signers := remote_secondary_signers key_leb random args in
  remote_inputs_ok random METRICS_PORT args remote log_level_ok blocking →
  ∃ writes deployer m leader,
    generate_remote key_leb os_rng random METRICS_PORT current_dir false dashboard tag deployer_yaml args remote
    = Ret (writes, deployer) ∧
    material_ok m signers secondary_signers ∧ head (cm_public_keys m) = Some leader ∧
    NoDup writes.*1 ∧ NoDup (in_name <$> de_instances deployer) ∧
    (∀ inst, inst ∈ de_instances deployer →
       path_join dir (in_config inst) ∈ writes.*1 ∧ in_region inst ∈ ra_regions remote) ∧
    ∀ fs yaml_hosts hosts_path host_list,
      deployed writes deployer fs yaml_hosts hosts_path host_list →
      let hosts := hosts_by_name host_list in
      let load k := load_deployer_config fs yaml_hosts hosts_path (path_join dir (key_file k)) in
      (∀ i signer, signers !! i = Some signer →
         remote_validator_runs METRICS_PORT current_dir args remote log_level_ok blocking m leader hosts load i signer) ∧
      (∀ j role signer, secondary_roles args !! j = Some role → secondary_signers !! j = Some signer →
         remote_secondary_runs METRICS_PORT current_dir args remote log_level_ok blocking m leader hosts load j role signer).
Proof.
  intros dir signers secondary_signers Hin.
  destruct (remote_bundle_generated key_leb os_rng random METRICS_PORT current_dir dashboard tag deployer_yaml
    args remote log_level_ok blocking Hin) as (m & vs & ss & spammer & Hok & Hgen & Hng & Hw & Hsp).
  pose proof (remote_signing_keys key_leb random METRICS_PORT args remote log_level_ok blocking Hin) as Hnd.
  fold signers secondary_signers dir in Hok, Hng, Hsp, Hnd.
  destruct (mo_leader _ _ _ Hok) as (leader & Hhead & _).
  eexists _, _, m, leader. split_and!; [exact Hgen|done..| | |].
  - by eapply instance_names_NoDup.
  - intros inst Hi. split; [|eapply instance_regions; [apply Hin|exact Hi]].
    eapply instance_configs; [exact Hng|done| |exact Hi]. intros E. rewrite E in Hsp.
    destruct Hsp as (? & _ & ->). by eexists.
  - intros fs yaml_hosts hosts_path host_list Hd hosts load. split; intros.
    + by eapply remote_validators_run.
    + by eapply remote_secondaries_run.
Qed.

Lemma relayer_target_for_lookup targets i t :
  targets !! i = Some t → relayer_target_for targets (Z.of_nat i) = Some t.
Proof.
  intros Hi. apply lookup_lt_Some in Hi as Hl. unfold relayer_target_for. destruct targets as [|x l]; [done|].
  rewrite Z.mod_small by (unfold zlen; lia). by rewrite Nat2Z.id.
Qed.

(** C26. The spammer is aimed at the bundle's relayer.  [main] accepts the file
    the tool wrote for it, resolves the relayer's URL to the host of the relayer
    secondary and the port its server listens on, and starts one submitter per
    validator, each targeting the key under which the relayer knows that
    validator. *)
Theorem remote_spammer_aimed `{DkgLib} `{YamlLib} `{Ipv6Text} key_leb os_rng random METRICS_PORT current_dir
    dashboard tag deployer_yaml args remote log_level_ok blocking :
  let dir := absolute_path current_dir (ga_output_dir args) in
  let signers := remote_signers key_leb random args in
  let secondary_signers := remote_secondary_signers key_leb random args in
  remote_inputs_ok random METRICS_PORT args remote log_level_ok blocking →
  ga_spammer args = true → spammer_ok args →
  ∃ writes deployer m k,
    generate_remote key_leb os_rng random METRICS_PORT current_dir false dashboard tag deployer_yaml args remote
    = Ret (writes, deployer) ∧
    material_ok m signers secondary_signers ∧
    secondary_roles args !! relayer_index args = Some RelayerRole ∧
    ed_public_key <$> secondary_signers !! relayer_index args = Some k ∧
    ∀ fs yaml_hosts hosts_path host_list cli,
      deployed writes deployer fs yaml_hosts hosts_path host_list →
      cli_config cli = Some (path_join dir SPAMMER_CONFIG_FILE) → cli_hosts cli = Some hosts_path →
      ∃ mode, spammer_main fs spammer_yaml (spammer_hosts yaml_hosts) cli = Ret mode ∧
        rm_relayer_url mode = ip_url (hosts_by_name host_list) (pk_hex k) (ra_http_port remote) ∧
        rm_relayer_submitters mode = ga_validators args ∧
        ∀ i key, cm_public_keys m !! i = Some key →
          relayer_target_for (rm_relayer_targets mode) (Z.of_nat i) = Some (pk_hex key).
Proof.
  intros dir signers secondary_signers Hin Hspam Hso.
  destruct (remote_bundle_generated key_leb os_rng random METRICS_PORT current_dir dashboard tag deployer_yaml
    args remote log_level_ok blocking Hin) as (m & vs & ss & spammer & Hok & Hgen & Hng & Hw & Hsp).
  fold signers secondary_signers dir in Hok, Hng, Hsp.
  destruct (mo_leader _ _ _ Hok) as (leader & Hhead & _).
  pose proof (ri_args _ _ _ _ _ _ Hin) as Hargs.
  rewrite Hspam in Hsp. destruct Hsp as (signer & Hsig & ->).
  eexists _, _, m, (ed_public_key signer). split_and!; [exact Hgen|done| |by rewrite Hsig|].
  { apply relayer_role_index. by apply (ao_spammer _ _ _ Hargs). }
  intros fs yaml_hosts hosts_path host_list cli [Hfiles (raw & Hfh & Hyh) Hnames] Hc Hh.
  assert (is_Some (hosts_by_name host_list !! pk_hex (ed_public_key signer))) as Hk.
  { destruct (node_instance_named key_leb random METRICS_PORT current_dir tag args remote m vs ss
      (ed_public_key signer) Hng) as (inst & Hi & <-); [|by apply Hnames].
    rewrite fmap_app. apply elem_of_app. right. by eapply list_elem_of_fmap_2, list_elem_of_lookup_2. }
  eexists. split.
  { apply (spammer_reads args remote m (hosts_by_name host_list) fs yaml_hosts (path_join dir SPAMMER_CONFIG_FILE)
      hosts_path raw host_list cli (ed_public_key signer)); try done.
    - apply Hfiles. unfold remote_writes. rewrite !elem_of_app. do 5 right. left. apply list_elem_of_singleton. done.
    - apply (ri_ports _ _ _ _ _ _ Hin).
    - apply Hargs.
    - intros E. by rewrite E in Hhead. }
  split_and!; [done|done|]. intros i key Hi. cbn [rm_relayer_targets].
  apply relayer_target_for_lookup. unfold primary_hex. by rewrite list_lookup_fmap, Hi.
Qed.

(** ** Witnesses *)

(** A remote bundle over two regions, and a hosts file that names its instances. *)
Definition sample_remote : RemoteArgs :=
  mkRemote ["us-east-1"; "eu-west-1"] "c8g.2xlarge" 75 "c8g.4xlarge" 100 10000 "c8g.large" 50 "dashboard.json"
    9000 8080 ["0.0.0.0/0"] 8090 8091 8092 false None 10.
Definition sample_random (i : Z) : ed_sk := ed_from_seed (i + 40).
Definition sample_key_leb (a b : ed_pk) : bool := bool_decide (bytes_le (fwrite a) (fwrite b)).
Definition sample_deployer_yaml (d : DeployerConfig) : string := de_tag d.

Lemma sample_inputs_ok : remote_inputs_ok sample_random 9090 sample_args sample_remote any_level 512.
Proof.
  constructor; [apply sample_args_ok| |done|vm_compute; discriminate|].
  - constructor; vm_compute; split; discriminate.
  - apply (bool_decide_unpack _). vm_compute. exact I.
Qed.

Lemma sample_spammer_ok : spammer_ok sample_args.
Proof. constructor; vm_compute; try split; try discriminate; reflexivity. Qed.

Definition sample_generated : run (list (string * string) * DeployerConfig) :=
  generate_remote sample_key_leb 1 sample_random 9090 "/srv" false "{}" "constantinople" sample_deployer_yaml
    sample_args sample_remote.

(** Every instance gets an address, by its place in the list. *)
Definition sample_hosts (deployer : DeployerConfig) : list (string * IpAddr) :=
  imap (λ i inst, (in_name inst, IpV4 10 0 0 (Z.of_nat i))) (de_instances deployer).

(** The machine of an instance: the bundle and the hosts file. *)
Definition sample_machine (writes : list (string * string)) (path : string) : option string :=
  if bool_decide (path = "/hosts.yaml"%string) then Some "hosts"%string else files writes !! path.

Definition sample_checks : bool :=
  match sample_generated with
  | Ret (writes, deployer) =>
      bool_decide (NoDup writes.*1) && bool_decide ("/hosts.yaml"%string ∉ writes.*1)
      && forallb (λ inst, bool_decide (is_Some (hosts_by_name (sample_hosts deployer) !! in_name inst)))
           (de_instances deployer)
  | Panic _ => false
  end.

Lemma sample_deployed writes deployer :
  sample_generated = Ret (writes, deployer) →
  deployed writes deployer (sample_machine writes) (λ _, Some (sample_hosts deployer)) "/hosts.yaml" (sample_hosts deployer).
Proof.
  intros E. assert (sample_checks = true) as Hc by (vm_compute; reflexivity). unfold sample_checks in Hc.
  rewrite E, !andb_true_iff, !bool_decide_eq_true, forallb_forall in Hc. clear E. destruct Hc as [[Hn Hh] Hi]. constructor.
  - intros p t Hin. unfold sample_machine. rewrite bool_decide_eq_false_2; [by apply files_lookup|].
    intros ->. apply Hh. apply list_elem_of_fmap. by exists ("/hosts.yaml"%string, t).
  - by exists "hosts"%string.
  - intros inst Hin. apply list_elem_of_In, Hi in Hin. by apply bool_decide_eq_true in Hin.
Qed.

Lemma remote_bundle_starts_witness :
  ∃ writes deployer m leader, sample_generated = Ret (writes, deployer) ∧
    NoDup (in_name <$> de_instances deployer) ∧
    remote_validator_runs 9090 "/srv" sample_args sample_remote any_level 512 m leader (hosts_by_name (sample_hosts deployer))
      (λ k, load_deployer_config (sample_machine writes) (λ _, Some (sample_hosts deployer)) "/hosts.yaml"
              (path_join "/srv/out" (key_file k))) 2 (sample_random 2).
Proof.
  destruct (remote_bundle_starts sample_key_leb 1 sample_random 9090 "/srv" "{}" "constantinople" sample_deployer_yaml
    sample_args sample_remote any_level 512 sample_inputs_ok)
    as (writes & deployer & m & leader & Hgen & _ & _ & _ & Hn & _ & Hrun).
  exists writes, deployer, m, leader. split; [exact Hgen|]. split; [exact Hn|].
  apply (Hrun _ _ _ _ (sample_deployed _ _ Hgen)). vm_compute. reflexivity.
Defined.

Lemma remote_spammer_aimed_witness :
  ∃ writes deployer mode, sample_generated = Ret (writes, deployer) ∧
    spammer_main (sample_machine writes) spammer_yaml (spammer_hosts (λ _, Some (sample_hosts deployer)))
      (mkSpammerCli (Some "/srv/out/spammer.yaml"%string) (Some "/hosts.yaml"%string) None 0 16 [] 2 1 0 1 sample_half)
    = Ret mode ∧ rm_relayer_submitters mode = 3.
Proof.
  destruct (remote_spammer_aimed sample_key_leb 1 sample_random 9090 "/srv" "{}" "constantinople" sample_deployer_yaml
    sample_args sample_remote any_level 512 sample_inputs_ok eq_refl sample_spammer_ok)
    as (writes & deployer & m & k & Hgen & _ & _ & _ & Hrun).
  destruct (Hrun _ _ _ _ (mkSpammerCli (Some "/srv/out/spammer.yaml"%string) (Some "/hosts.yaml"%string) None 0 16 []
    2 1 0 1 sample_half) (sample_deployed _ _ Hgen) eq_refl eq_refl) as (mode & Hmode & _ & Hs & _).
  exists writes, deployer, mode. split; [exact Hgen|]. split; [exact Hmode|]. exact Hs.
Defined.
