(* ===== verification/IndexServers.v ===== *)
(** * The servers of the index (crates/indexer/src/main.rs, bin/qmdb.rs, bin/sql.rs)

    The store (chain-indexer) and the two services that answer queries from it
    (metadata-indexer, qmdb-indexer): their options, the files they read in a
    remote bundle, and the routes they serve.  The theorem composes them with
    the deployment tool and the publisher: every part of the index meets at one
    store, under one pair of namespaces. *)

From stdpp Require Import prelude gmap list strings pretty.
From S2P Require Import Prelude Hex Interfaces Concrete Indexer Lookup Connect Relayer Spammer Settings Deploy RemoteBundle.

(** ** The store *)

Definition CHAIN_INDEXER_DEFAULT_PORT : Z := 8090.
Definition METADATA_INDEXER_DEFAULT_PORT : Z := 8091.
Definition QMDB_INDEXER_DEFAULT_PORT : Z := 8092.

(** The options of the store, and the combinations its parser accepts: one of a
    data directory and a hosts file, a hosts file and a configuration file only
    together. *)
Record ChainCli := mkChainCli {
  cc_port : Z; cc_data_dir : option string; cc_hosts : option string; cc_config : option string }.
Definition given {A} (o : option A) : bool := bool_decide (is_Some o).
Definition mode_accepted (local hosts config : bool) : bool :=
  xorb local hosts && Bool.eqb hosts config && negb (local && config).
Definition chain_cli_accepted (cli : ChainCli) : bool :=
  mode_accepted (given (cc_data_dir cli)) (given (cc_hosts cli)) (given (cc_config cli)).

Section settings.
Context `{YamlLib} `{Ipv6Text}.
Variable read_to_string : string → option string.
Variable yaml_hosts : string → option (list (string * IpAddr)).

Definition de_chain_indexer (y : Yaml) : option ChainIndexerConfig :=
  l ← struct_fields y;
  port ← required (de_uint u16_max) "port" l;
  data_dir ← required de_string "data_dir" l;
  Some (mkChainIndexer port data_dir).
Definition chain_load_deployer_config (path : string) : run ChainIndexerConfig :=
  raw ← expect (read_to_string path) "failed to read chain-indexer config";
  expect (y ← yaml_from_str raw; de_chain_indexer y) "failed to parse chain-indexer config".
Definition resolve_data_dir (config_path data_dir : string) : run string :=
  if is_absolute data_dir then Ret data_dir
  else
    parent ← expect (path_parent config_path) "config file has no parent directory";
    Ret (path_join parent data_dir).
Definition chain_load_settings (cli : ChainCli) : run (string * Z) :=
  match cc_config cli with
  | Some config_path =>
      config ← chain_load_deployer_config config_path;
      data_dir ← resolve_data_dir config_path (ci_data_dir config);
      Ret (data_dir, ci_port config)
  | None =>
      data_dir ← expect (cc_data_dir cli) "clap should require --data-dir or --hosts";
      Ret (data_dir, cc_port cli)
  end.

(** ** The query services *)

Record ServiceCli := mkServiceCli {
  sc_store_url : option string; sc_host : IpAddr; sc_port : Z; sc_hosts : option string;
  sc_config : option string }.
Definition service_cli_accepted (cli : ServiceCli) : bool :=
  mode_accepted (given (sc_store_url cli)) (given (sc_hosts cli)) (given (sc_config cli)).

Definition de_service (y : Yaml) : option ServiceConfig :=
  l ← struct_fields y;
  port ← required (de_uint u16_max) "port" l;
  chain_indexer_url ← required de_string "chain_indexer_url" l;
  Some (mkService port chain_indexer_url).
Definition service_load_deployer_config (name path : string) : run ServiceConfig :=
  raw ← expect (read_to_string path) ("failed to read " +:+ name +:+ " config");
  expect (y ← yaml_from_str raw; de_service y) ("failed to parse " +:+ name +:+ " config").

(** [load_settings] of both services, which differ in the name in their
    messages. *)
Definition service_load_settings (name : string) (cli : ServiceCli) : run (string * IpAddr * Z) :=
  match sc_config cli with
  | Some config_path =>
      config ← service_load_deployer_config name config_path;
      hosts_path ← expect (sc_hosts cli) "clap should require --hosts with --config";
      raw_hosts ← expect (read_to_string hosts_path) "failed to read hosts file";
      hosts ← expect (yaml_hosts raw_hosts) "failed to parse hosts file";
      let store_url := Settings.resolve_named_http_url (sv_chain_indexer_url config) (hosts_by_name hosts) in
      Ret (store_url, sc_host cli, sv_port config)
  | None =>
      store_url ← expect (sc_store_url cli) "clap should require --store-url or --hosts";
      Ret (store_url, sc_host cli, sc_port cli)
  end.
Definition metadata_load_settings : ServiceCli → run (string * IpAddr * Z) := service_load_settings "metadata-indexer".
Definition qmdb_load_settings : ServiceCli → run (string * IpAddr * Z) := service_load_settings "qmdb-indexer".
End settings.

(** ** Routes *)

(** What a server does with a path: its health answer, the service it hands the
    rest of the path to, or none. *)
Inductive Service : Type := StoreService | SqlService | StateLogService | TransactionLogService.
Inductive Handler : Type := Health | Serve (service : Service) (path : string).
Definition HEALTH_BODY : string := "ok".

(** [nest_service]: the paths at or below a prefix, without it. *)
Definition nested (prefix path : string) : option string :=
  if decide (path = prefix) then Some "/"%string
  else String.append "/" <$> strip_prefix (prefix +:+ "/") path.

Definition chain_route (path : string) : Handler :=
  if decide (path = "/health"%string) then Health else Serve StoreService path.
Definition sql_route (path : string) : Handler :=
  if decide (path = "/health"%string) then Health else Serve SqlService path.
Definition qmdb_route (path : string) : option Handler :=
  if decide (path = "/health"%string) then Some Health
  else match nested "/state" path with
       | Some rest => Some (Serve StateLogService rest)
       | None => Serve TransactionLogService <$> nested "/transactions" path
       end.

(** [build_app] of the QMDB service: the clients behind its two routes. *)
Definition build_app `{StoreLib} (store_url : string) : result PublishError (StoreClient * StoreClient) :=
  let base := client_new store_url in
  state ← state_qmdb_client base;
  transactions ← transactions_qmdb_client base;
  Ok (state, transactions).

(** [build_server] of the metadata service, over [build_meta_schema]. *)
Definition build_server `{StoreLib} {Schema Server} (schema_new : StoreClient → Schema)
    (add : Schema → TableConfig → result string Schema) (server_new : Schema → result string Server)
    (store_url : string) : result string Server :=
  let client := client_new store_url in
  schema ← map_err (String.append "configure schema: ") (build_meta_schema (schema_new client) add);
  server_new schema.

(** ** Lemmas *)

Lemma split_slashes_app cur a b :
  split_slashes cur (a ++ x2f :: b) = split_slashes cur a ++ split_slashes [] b.
Proof.
  revert cur. induction a as [|x a IH]; intros cur; [by cbn; rewrite decide_True|].
  cbn [app split_slashes]. case_decide; [|apply IH]. cbn. f_equal. apply IH.
Qed.

Lemma split_slashes_plain cur b : x2f ∉ b → split_slashes cur b = [cur ++ b].
Proof.
  revert cur. induction b as [|x b IH]; intros cur Hn; [by rewrite app_nil_r|].
  apply not_elem_of_cons in Hn as [Hx Hb]. cbn [split_slashes]. rewrite decide_False by congruence.
  rewrite IH by done. by rewrite <- app_assoc.
Qed.

Lemma split_slashes_cons cur a : ∃ x xs, split_slashes cur a = x :: xs.
Proof. revert cur. induction a as [|b a IH]; intros cur; cbn; [by eexists _, _|]. case_decide; [by eexists _, _|apply IH]. Qed.

(** A plain file name is a component of the path it ends. *)
Lemma path_parent_join dir file :
  is_absolute dir = true → x2f ∉ bytes_of_string file → file ≠ ""%string → file ≠ "."%string →
  is_Some (path_parent (path_join dir file)).
Proof.
  intros Hdir Hfile Hne Hdot.
  assert (is_absolute file = false) as Hrel.
  { apply bool_decide_eq_false. intros Hh. destruct (bytes_of_string file) as [|b l]; [done|].
    injection Hh as ->. apply Hfile. by left. }
  assert (bytes_of_string file ≠ []) as Hb.
  { intros E. apply Hne. rewrite <- (string_of_bytes_of file). by rewrite E. }
  assert (∃ a, bytes_of_string (path_join dir file) = a ++ x2f :: bytes_of_string file) as [a Ha].
  { unfold path_join. rewrite Hrel. destruct (decide (last (bytes_of_string dir) = Some x2f)) as [Hl|Hl].
    - rewrite (bool_decide_eq_true_2 (last _ = _)) by done. rewrite orb_true_r. cbv iota. apply last_Some in Hl as [a Ha].
      exists a. by rewrite bytes_of_string_app, Ha, <- app_assoc.
    - rewrite (bool_decide_eq_false_2 (last _ = _)) by done.
      assert (dir ≠ ""%string) as Hd by (by intros ->). rewrite bool_decide_eq_false_2 by done. cbn [orb].
      exists (bytes_of_string dir). by rewrite !bytes_of_string_app. }
  assert (bytes_of_string file ∈ path_components (path_join dir file)) as Hin.
  { unfold path_components. rewrite Ha, split_slashes_app, (split_slashes_plain [] _ Hfile).
    destruct (split_slashes_cons [] a) as (x & xs & ->). cbn [app]. apply elem_of_app. right.
    apply list_elem_of_filter. split; [|apply elem_of_app; right; by left]. split; [done|].
    intros E. apply Hdot. by rewrite <- (string_of_bytes_of file), E. }
  unfold path_parent. destruct (path_components _); [by apply not_elem_of_nil in Hin|by eexists].
Qed.

(** An accepted command line never reaches the panics its parser excludes. *)
Lemma chain_accepted_modes cli :
  chain_cli_accepted cli = true →
  (∃ d, cc_data_dir cli = Some d ∧ cc_config cli = None) ∨
  (∃ c h, cc_config cli = Some c ∧ cc_hosts cli = Some h ∧ cc_data_dir cli = None).
Proof. destruct cli as [p [d|] [h|] [c|]]; vm_compute; try discriminate; intros _; [left; by exists d|right; by exists c, h]. Qed.

Lemma service_accepted_modes cli :
  service_cli_accepted cli = true →
  (∃ u, sc_store_url cli = Some u ∧ sc_config cli = None) ∨
  (∃ c h, sc_config cli = Some c ∧ sc_hosts cli = Some h ∧ sc_store_url cli = None).
Proof. destruct cli as [[u|] ip p [h|] [c|]]; vm_compute; try discriminate; intros _; [left; by exists u|right; by exists c, h]. Qed.

(** The two logs are served under different paths. *)
Lemma qmdb_routes rest :
  qmdb_route ("/state/" +:+ rest) = Some (Serve StateLogService ("/" +:+ rest)) ∧
  qmdb_route ("/transactions/" +:+ rest) = Some (Serve TransactionLogService ("/" +:+ rest)).
Proof.
  unfold qmdb_route, nested. split.
  - rewrite !decide_False by done.
    change (strip_prefix ("/state" +:+ "/") ("/state/" +:+ rest)) with (strip_prefix "/state/" ("/state/" +:+ rest)).
    by rewrite strip_prefix_app.
  - rewrite !decide_False by done.
    change (strip_prefix ("/transactions" +:+ "/") ("/transactions/" +:+ rest))
      with (strip_prefix "/transactions/" ("/transactions/" +:+ rest)).
    rewrite strip_prefix_app. reflexivity.
Qed.

Section files.
Context `{YamlLib} `{Ipv6Text}.

Lemma de_ser_chain_indexer c : is_u16 (ci_port c) → de_chain_indexer (ser_chain_indexer c) = Some c.
Proof.
  intros Hp. unfold de_chain_indexer, ser_chain_indexer, required, field_values. cbn.
  rewrite de_uint_law by done. cbn. rewrite de_string_law. cbn. by destruct c.
Qed.

Lemma de_ser_service c : is_u16 (sv_port c) → de_service (ser_service c) = Some c.
Proof.
  intros Hp. unfold de_service, ser_service, required, field_values. cbn.
  rewrite de_uint_law by done. cbn. rewrite de_string_law. cbn. by destruct c.
Qed.

(** A service reads its file and the hosts file. *)
Lemma service_reads fs yaml_hosts name cli config_path hosts_path raw hosts port chain_port :
  sc_config cli = Some config_path → sc_hosts cli = Some hosts_path →
  fs config_path = Some (yaml_to_string (ser_service (mkService port
    ("http://" +:+ CHAIN_INDEXER_HOST +:+ ":" +:+ pretty chain_port)))) →
  fs hosts_path = Some raw → yaml_hosts raw = Some hosts →
  is_Some (hosts_by_name hosts !! CHAIN_INDEXER_HOST) → is_u16 port → 0 ≤ chain_port →
  service_load_settings fs yaml_hosts name cli
  = Ret (ip_url (hosts_by_name hosts) CHAIN_INDEXER_HOST chain_port, sc_host cli, port).
Proof.
  intros Hc Hh Hf Hr Hy Hhost Hp Hcp. unfold service_load_settings, service_load_deployer_config. rewrite Hc, Hf.
  cbn [mbind run_bind expect]. rewrite yaml_law. cbn [mbind option_bind]. rewrite de_ser_service by done.
  cbn [mbind run_bind expect]. rewrite Hh. cbn [mbind run_bind expect]. rewrite Hr. cbn [mbind run_bind expect].
  rewrite Hy. cbn [mbind run_bind expect sv_chain_indexer_url sv_port].
  rewrite resolve_bundle_url; [done|done|apply chain_host_no_slash|done].
Qed.

Lemma chain_reads fs cli config_path port parent :
  cc_config cli = Some config_path →
  fs config_path = Some (yaml_to_string (ser_chain_indexer (mkChainIndexer port CHAIN_INDEXER_DATA_DIR))) →
  path_parent config_path = Some parent → is_u16 port →
  chain_load_settings fs cli = Ret (path_join parent CHAIN_INDEXER_DATA_DIR, port).
Proof.
  intros Hc Hf Hparent Hp. unfold chain_load_settings, chain_load_deployer_config, resolve_data_dir. rewrite Hc, Hf.
  cbn [mbind run_bind expect]. rewrite yaml_law. cbn [mbind option_bind]. rewrite de_ser_chain_indexer by done.
  cbn [mbind run_bind expect ci_data_dir ci_port]. rewrite Hparent. reflexivity.
Qed.
End files.

(** The files of the three services. *)
Definition service_writes `{YamlLib} (dir : string) (args : GenerateArgs) (remote : RemoteArgs) : list (string * string) :=
  if ga_indexer args then
    [(path_join dir CHAIN_INDEXER_CONFIG_FILE,
      yaml_to_string (ser_chain_indexer (mkChainIndexer (ra_chain_indexer_port remote) CHAIN_INDEXER_DATA_DIR)));
     (path_join dir METADATA_INDEXER_CONFIG_FILE,
      yaml_to_string (ser_service (mkService (ra_metadata_indexer_port remote) (chain_indexer_url remote))));
     (path_join dir QMDB_INDEXER_CONFIG_FILE,
      yaml_to_string (ser_service (mkService (ra_qmdb_indexer_port remote) (chain_indexer_url remote))))]
  else [].

Lemma service_writes_elem `{DkgLib} `{YamlLib} `{Ipv6Text} current_dir dashboard deployer_yaml args remote m vs ss spammer deployer w :
  w ∈ service_writes (absolute_path current_dir (ga_output_dir args)) args remote →
  w ∈ remote_writes current_dir dashboard deployer_yaml args remote m vs ss spammer deployer.
Proof.
  unfold service_writes, remote_writes, chain_indexer_config, metadata_indexer_config, qmdb_indexer_config.
  destruct (ga_indexer args); [|by intros ?%not_elem_of_nil]. cbn [optional_write]. set_solver.
Qed.

Lemma join_absolute dir file : is_absolute dir = true → is_absolute (path_join dir file) = true.
Proof.
  unfold path_join. intros Hd. destruct (is_absolute file) eqn:E; [done|].
  assert (∃ l, bytes_of_string dir = x2f :: l) as [l Hl].
  { apply bool_decide_eq_true in Hd. destruct (bytes_of_string dir); [done|]. injection Hd as ->. by eexists. }
  destruct (_ || _); apply bool_decide_eq_true; by rewrite ?bytes_of_string_app, Hl.
Qed.

(** ** Properties *)

(** C19. The index meets at one store.  In a remote bundle with an indexer, on
    machines that see its files and a hosts file naming its instances, the store
    loads its settings and opens its data directory beside its file; the
    metadata and the QMDB service load theirs and query the store at the address
    of its host and the port it listens on, which is where the indexer secondary
    uploads; the three ports are open.  The QMDB service reads each log under the
    prefix the publisher writes it with, the two prefixes differ, and it serves
    them under different paths. *)
Theorem index_meets_at_one_store `{DkgLib} `{YamlLib} `{Ipv6Text} `{StoreLib} key_leb os_rng random METRICS_PORT
    current_dir dashboard tag deployer_yaml args remote log_level_ok blocking host :
  let dir := absolute_path current_dir (ga_output_dir args) in
  let cli file hosts_path := mkServiceCli None host METADATA_INDEXER_DEFAULT_PORT (Some hosts_path) (Some (path_join dir file)) in
  remote_inputs_ok random METRICS_PORT args remote log_level_ok blocking → ga_indexer args = true →
  is_u16 (ra_metadata_indexer_port remote) → is_u16 (ra_qmdb_indexer_port remote) → is_absolute current_dir = true →
  ∃ writes deployer data_dir,
    generate_remote key_leb os_rng random METRICS_PORT current_dir false dashboard tag deployer_yaml args remote
    = Ret (writes, deployer) ∧
    (∀ port, port ∈ [ra_chain_indexer_port remote; ra_metadata_indexer_port remote; ra_qmdb_indexer_port remote] →
       mkPort "tcp" port "0.0.0.0/0" ∈ de_ports deployer) ∧
    ∀ fs yaml_hosts hosts_path host_list,
      deployed writes deployer fs yaml_hosts hosts_path host_list →
      let hosts := hosts_by_name host_list in
      let url := ip_url hosts CHAIN_INDEXER_HOST (ra_chain_indexer_port remote) in
      chain_load_settings fs (mkChainCli CHAIN_INDEXER_DEFAULT_PORT None (Some hosts_path)
        (Some (path_join dir CHAIN_INDEXER_CONFIG_FILE))) = Ret (data_dir, ra_chain_indexer_port remote) ∧
      metadata_load_settings fs yaml_hosts (cli METADATA_INDEXER_CONFIG_FILE hosts_path)
      = Ret (url, host, ra_metadata_indexer_port remote) ∧
      qmdb_load_settings fs yaml_hosts (cli QMDB_INDEXER_CONFIG_FILE hosts_path)
      = Ret (url, host, ra_qmdb_indexer_port remote) ∧
      (∀ j signer, secondary_roles args !! j = Some IndexerRole →
         remote_secondary_signers key_leb random args !! j = Some signer →
         ∃ c plan,
           load_deployer_config fs yaml_hosts hosts_path (path_join dir (key_file (ed_public_key signer))) = Ret c ∧
           run_with_config log_level_ok blocking c (path_join dir (key_file (ed_public_key signer))) = Ret plan ∧
           ix_chain_indexer_url <$> np_indexer plan = Some url) ∧
      ∃ s t, build_app url = Ok (s, t) ∧ state_qmdb_client (client_new url) = Ok s ∧
        transactions_qmdb_client (client_new url) = Ok t ∧
        client_url s = url ∧ client_url t = url ∧ client_prefix s ≠ client_prefix t ∧
        ∀ rest, qmdb_route ("/state/" +:+ rest) = Some (Serve StateLogService ("/" +:+ rest)) ∧
                qmdb_route ("/transactions/" +:+ rest) = Some (Serve TransactionLogService ("/" +:+ rest)).
Proof.
  intros dir cli Hin Hix Hmeta Hqmdb Habs.
  destruct (remote_bundle_generated key_leb os_rng random METRICS_PORT current_dir dashboard tag deployer_yaml
    args remote log_level_ok blocking Hin) as (m & vs & ss & spammer & Hok & Hgen & Hng & Hw & Hsp).
  destruct (mo_leader _ _ _ Hok) as (leader & Hhead & _). fold dir in Hng.
  assert (is_absolute dir = true) as Hdir.
  { unfold dir, absolute_path. destruct (is_absolute (ga_output_dir args)) eqn:E; [done|]. by apply join_absolute. }
  destruct (path_parent_join dir CHAIN_INDEXER_CONFIG_FILE Hdir) as [parent Hparent];
    [apply (bool_decide_unpack _); vm_compute; exact I|done..|].
  eexists _, _, (path_join parent CHAIN_INDEXER_DATA_DIR). split; [exact Hgen|]. split.
  { intros port Hport. cbn [de_ports build_deployer_config]. unfold port_configs. rewrite Hix. set_solver. }
  intros fs yaml_hosts hosts_path host_list Hd hosts url. pose proof Hd as [Hfiles (raw & Hraw & Hyh) Hnames].
  assert (is_Some (hosts !! CHAIN_INDEXER_HOST)) as Hhost.
  { assert (CHAIN_INDEXER_HOST ∈ in_name <$> de_instances (build_deployer_config tag args remote vs ss)) as Hi.
    { rewrite (instance_names args remote dir METRICS_PORT m _ _ vs ss tag Hng).
      apply elem_of_app. right. unfold other_hosts. rewrite Hix. left. }
    apply list_elem_of_fmap in Hi as (inst & Hi & Hinst). unfold hosts. rewrite Hi. by apply Hnames. }
  pose proof Hin as [_ [_ _ _ Hchain] _ _ _].
  assert (∀ p y, (p, yaml_to_string y) ∈ service_writes dir args remote → fs p = Some (yaml_to_string y)) as Hserv.
  { intros p y Hp. apply Hfiles. by apply service_writes_elem. }
  unfold service_writes in Hserv. rewrite Hix in Hserv.
  split_and!.
  - eapply chain_reads; [done|apply Hserv; left|done|done].
  - eapply service_reads; [done|done|apply Hserv; do 2 constructor|done..|apply Hchain].
  - eapply service_reads; [done|done|apply Hserv; do 3 constructor|done..|apply Hchain].
  - intros j signer Hj Hs.
    destruct (remote_secondaries_run key_leb random METRICS_PORT current_dir dashboard tag deployer_yaml args remote
      log_level_ok blocking Hin m vs ss spammer fs yaml_hosts hosts_path host_list leader Hok Hng Hd Hhead j IndexerRole signer Hj Hs)
      as (indexer & relayer & plan & Hload & Hrun & _ & _ & Hp). eexists _, plan. split_and!; [exact Hload|exact Hrun|].
    by rewrite Hp.
  - destruct (log_clients url) as (s & t & Hs & Ht & Hu1 & Hu2 & Hp1 & Hp2). exists s, t.
    split_and!; [unfold build_app; by rewrite Hs, Ht|done..|by rewrite Hp1, Hp2|apply qmdb_routes].
Qed.

(** ** Witnesses *)

Lemma index_meets_at_one_store_witness :
  ∃ writes deployer data_dir url, sample_generated = Ret (writes, deployer) ∧
    chain_load_settings (sample_machine writes) (mkChainCli 8090 None (Some "/hosts.yaml"%string)
      (Some "/srv/out/chain-indexer.yaml"%string)) = Ret (data_dir, 8090) ∧
    qmdb_load_settings (sample_machine writes) (λ _, Some (sample_hosts deployer))
      (mkServiceCli None (IpV4 0 0 0 0) 8091 (Some "/hosts.yaml"%string) (Some "/srv/out/qmdb-indexer.yaml"%string))
    = Ret (url, IpV4 0 0 0 0, 8092).
Proof.
  destruct (index_meets_at_one_store sample_key_leb 1 sample_random 9090 "/srv" "{}" "constantinople" sample_deployer_yaml
    sample_args sample_remote any_level 512 (IpV4 0 0 0 0) sample_inputs_ok eq_refl)
    as (writes & deployer & data_dir & Hgen & _ & Hrun); [vm_compute; split; discriminate|vm_compute; split; discriminate|reflexivity|].
  destruct (Hrun _ _ _ _ (sample_deployed _ _ Hgen)) as (Hc & _ & Hq & _).
  eexists writes, deployer, data_dir, _. split; [exact Hgen|]. split; [exact Hc|exact Hq].
Defined.
