(* ===== verification/Routes.v ===== *)
(** * HTTP routing (crates/mempool/src/webserver/http.rs, bin/validator/src/relayer.rs)

    The routers of the mempool and of the relayer: which handler a request
    reaches, the limit on request bodies, and the handlers the other files do
    not have.  The theorem connects the HTTP client of Client.v to the mempool's
    router over whole URLs. *)

From stdpp Require Import prelude list strings.
From S2P Require Import Prelude Hex Interfaces Concrete Account Auth Transaction Block Mempool Webserver Client Relayer Spammer Settings IndexServers.

(** ** Requests *)

Inductive Method : Type := GET | HEAD | POST | OPTIONS | OtherMethod.
#[export] Instance Method_eq_dec : EqDecision Method.
Proof. solve_decision. Defined.

(** What a router finds for a request. *)
Inductive Routed (H : Type) : Type :=
| Handle (handler : H)
| MethodNotAllowed
| NoRoute.
Arguments Handle {H} handler.
Arguments MethodNotAllowed {H}.
Arguments NoRoute {H}.

(** The segments of a path that starts with a slash. *)
Definition segments (path : string) : option (list bytes) :=
  match split_slashes [] (bytes_of_string path) with
  | [] :: rest => Some rest
  | _ => None
  end.

(** [axum::routing::get], which takes HEAD as well, and [post]. *)
Definition get {H} (m : Method) (h : H) : Routed H :=
  match m with GET | HEAD => Handle h | _ => MethodNotAllowed end.
Definition post {H} (m : Method) (h : H) : Routed H :=
  match m with POST => Handle h | _ => MethodNotAllowed end.

(** A parameter of a path is one segment that is not empty. *)
Definition parameter {H} (segment : bytes) (r : Routed H) : Routed H :=
  if decide (segment = []) then NoRoute else r.
#[local] Notation "s =s t" := (bool_decide (s = bytes_of_string t)) (at level 70).

(** ** The mempool's router *)

Inductive MempoolHandler : Type :=
| SubmitBatch | IngestBatch | FetchStatus (batch_id : bytes) | FetchAccount (public_key : bytes)
| FetchConsensusRound.
Definition mempool_router (m : Method) (path : string) : Routed MempoolHandler :=
  match segments path with
  | Some [a] => if a =s "transactions" then post m SubmitBatch else NoRoute
  | Some [a; b] =>
      if (a =s "transactions") && (b =s "ingest") then post m IngestBatch
      else if a =s "transactions" then parameter b (get m (FetchStatus b))
      else if a =s "account" then parameter b (get m (FetchAccount b))
      else if (a =s "consensus") && (b =s "round") then get m FetchConsensusRound
      else NoRoute
  | _ => NoRoute
  end.

(** ** The relayer's router *)

Inductive RelayerHandler : Type :=
| SubmitTransactions | TransactionStatus (batch_id : bytes) | RelayerAccount (public_key : bytes)
| RelayerHealth | RelayerReady.
Definition relayer_router (m : Method) (path : string) : Routed RelayerHandler :=
  match segments path with
  | Some [a] =>
      if a =s "transactions" then post m SubmitTransactions
      else if a =s "health" then get m RelayerHealth
      else if a =s "ready" then get m RelayerReady
      else NoRoute
  | Some [a; b] =>
      if a =s "transactions" then parameter b (get m (TransactionStatus b))
      else if a =s "account" then parameter b (get m (RelayerAccount b))
      else NoRoute
  | _ => NoRoute
  end.

(** ** Handlers *)

(** [Observer::report] on the view of an activity. *)
Inductive Activity : Type :=
| Notarize (view : Z) | Notarization (view : Z) | Certification (view : Z) | Nullify (view : Z)
| Nullification (view : Z) | Finalize (view : Z) | ActivityFinalization (view : Z)
| ConflictingNotarize (view : Z) | ConflictingFinalize (view : Z) | NullifyFinalize (view : Z).
Definition activity_view (a : Activity) : Z :=
  match a with
  | Notarize v => v
  | Notarization v | Certification v => v
  | Nullify v => v
  | Nullification v => v
  | Finalize v => v
  | ActivityFinalization v => v
  | ConflictingNotarize v => v
  | ConflictingFinalize v => v
  | NullifyFinalize v => v
  end.
Definition observer_report (current : Z) (a : Activity) : Z := (observe current (activity_view a)).1.

(** [serve] of the relayer: the state it answers from. *)
Definition relayer_serve (from_hex : string → option bytes) (relayer : RelayerConfig) : run RelayerState :=
  leaders ← normalize_leaders from_hex ((λ l, (rl_public_key l, rl_url l)) <$> rc_leaders relayer);
  Ret (mkRelayer leaders (rc_max_retry_views relayer) DEFAULT_MAX_BATCH_BYTES).

Definition transaction_status : Z * bytes := (code NOT_FOUND, []).
Definition health : Z := code OK.

Section handlers.
Context `{LazyKey} `{Json} `{ConsensusLib} `{ClientJson}.

(** [account] of the relayer. *)
Definition relayer_account (reader : option (TransactionPublicKey → option Account)) (public_key : string)
    : StatusCode * option Account :=
  match from_hex public_key with
  | None => (BAD_REQUEST, None)
  | Some b =>
      if negb (zlen b =? Z.of_nat TransactionPublicKey_SIZE) then (BAD_REQUEST, None)
      else
        match decode read_tpk b with
        | Err _ => (BAD_REQUEST, None)
        | Ok public_key =>
            match reader with
            | None => (SERVICE_UNAVAILABLE, None)
            | Some get =>
                match get public_key with
                | None => (NOT_FOUND, None)
                | Some account => (OK, Some account)
                end
            end
        end
  end.

(** A mempool server: its router, the limit on bodies, its handlers.  [h_decode]
    decodes the escapes of a path segment, [h_refusal] is the text of the HTTP
    library's refusals, the last two fields write the documents of the two
    queries; [h_status] and [h_round] are the answers of the actor. *)
Record Host := mkHost {
  h_state : AppState; h_alive : bool; h_rng : Z; h_capacity : nat; h_open : bool; h_queue : list Message;
  h_waiter : waiter; h_submit : option TxStatus; h_ingest : option bool;
  h_status : string → option BatchStatus; h_round : option Z;
  h_reader : option (TransactionPublicKey → option Account);
  h_decode : bytes → option string; h_refusal : Z → bytes;
  h_status_json : BatchStatus → bytes; h_round_json : Z → bytes }.
Definition refused (h : Host) (status : Z) : Response := Responded status (Some (h_refusal h status)).
Definition limited (h : Host) (body : bytes) (serve : bytes → Response) : Response :=
  if Webserver.max_request_bytes (max_batch_bytes (h_state h)) <? zlen body
  then refused h (code PAYLOAD_TOO_LARGE)
  else serve body.
Definition answered {A} (json : A → bytes) (r : StatusCode * option A) : Response :=
  Responded (code r.1) (Some (match r.2 with Some a => json a | None => [] end)).
Definition with_parameter (h : Host) (segment : bytes) (serve : string → Response) : Response :=
  match h_decode h segment with Some p => serve p | None => refused h (code BAD_REQUEST) end.
Definition mempool_handle (h : Host) (m : Method) (path : string) (body : bytes) : Response :=
  match mempool_router m path with
  | NoRoute => refused h 404
  | MethodNotAllowed => refused h 405
  | Handle SubmitBatch =>
      limited h body (serve_submit (h_state h) (h_alive h) (h_rng h) (h_capacity h) (h_open h) (h_queue h)
                        (h_waiter h) (h_submit h))
  | Handle IngestBatch =>
      limited h body (serve_ingest (h_state h) (h_alive h) (h_rng h) (h_capacity h) (h_open h) (h_queue h)
                        (h_waiter h) (h_ingest h))
  | Handle (FetchStatus segment) =>
      with_parameter h segment (λ id, answered (h_status_json h) (fetch_status (h_status h id)))
  | Handle (FetchAccount segment) => with_parameter h segment (serve_account (h_reader h))
  | Handle FetchConsensusRound => answered (h_round_json h) (fetch_consensus_round (h_round h))
  end.

(** The answer to a HEAD request has no body; the CORS layer answers OPTIONS. *)
Definition without_body (r : Response) : Response :=
  match r with NoResponse => NoResponse | Responded s _ => Responded s (Some []) end.
Definition mempool_serve (h : Host) (m : Method) (path : string) (body : bytes) : Response :=
  match m with
  | OPTIONS => Responded (code OK) (Some [])
  | HEAD => without_body (mempool_handle h m path body)
  | _ => mempool_handle h m path body
  end.

(** Requests to URLs below the address of a host. *)
Definition http_request (base : string) (h : Host) (m : Method) (url : string) (body : bytes) : Response :=
  match strip_prefix base url with Some path => mempool_serve h m path body | None => NoResponse end.
End handlers.

(** ** Lemmas *)

Lemma relayer_account_agrees `{LazyKey} `{Json} `{ConsensusLib} `{ClientJson} reader key :
  relayer_account reader key = fetch_account from_hex reader key.
Proof. done. Qed.

(** The relayer's clock shows the highest view it was told of. *)
Lemma observer_report_max current activities :
  foldl observer_report current activities = foldr Z.max current (activity_view <$> activities).
Proof.
  revert current. induction activities as [|a l IH]; intros current; [done|]. cbn [foldl foldr fmap list_fmap].
  rewrite IH. unfold observer_report, observe.
  assert ((if activity_view a <=? current then (current, false) else (activity_view a, true)).1
    = Z.max (activity_view a) current) as ->.
  { destruct (Z.leb_spec (activity_view a) current); cbn; lia. }
  clear IH. induction (activity_view <$> l) as [|v vs IH]; [done|]. cbn. rewrite IH. lia.
Qed.

Lemma segments_one (s : string) : x2f ∉ bytes_of_string s → segments ("/" +:+ s) = Some [bytes_of_string s].
Proof.
  intros Hs. unfold segments. rewrite bytes_of_string_app. cbn. by rewrite split_slashes_plain.
Qed.

Lemma segments_two (a b : string) :
  x2f ∉ bytes_of_string a → x2f ∉ bytes_of_string b →
  segments ("/" +:+ a +:+ "/" +:+ b) = Some [bytes_of_string a; bytes_of_string b].
Proof.
  intros Ha Hb. unfold segments. rewrite !bytes_of_string_app.
  change (bytes_of_string "/") with [x2f]. cbn [app split_slashes].
  destruct (decide (x2f = x2f)) as [_|]; [|done].
  rewrite split_slashes_app, (split_slashes_plain [] _ Ha), (split_slashes_plain [] _ Hb). done.
Qed.

Lemma split_slashes_join cur l x xs : split_slashes cur l = x :: xs → cur ++ l = join_slash (x :: xs).
Proof.
  revert cur x xs. induction l as [|b l IH]; intros cur x xs; cbn [split_slashes].
  - intros [= <- <-]. by rewrite app_nil_r.
  - case_decide as Hb.
    + intros [= <- <-]. subst b. destruct (split_slashes_cons [] l) as (y & ys & E).
      specialize (IH [] y ys E). cbn [app] in IH. rewrite E. cbn [join_slash]. by rewrite IH.
    + intros E. apply IH in E. by rewrite <- E, <- app_assoc.
Qed.

(** A path is determined by its segments. *)
Lemma segments_path path cs : segments path = Some cs → path = string_of_bytes (join_slash ([] :: cs)).
Proof.
  unfold segments. destruct (split_slashes _ _) as [|[|] rest] eqn:E; try done. intros [= ->].
  apply split_slashes_join in E. cbn [app] in E. by rewrite <- E, string_of_bytes_of.
Qed.

Lemma hex_lower_plain c l : c ∉ x00 :: HEX → c ∉ bytes_of_string (hex_lower l).
Proof.
  intros Hc. rewrite hex_lower_bytes.
  assert (∀ x, hex_digit x ∈ x00 :: HEX) as Hd.
  { intros x. unfold hex_digit. destruct (nth_in_or_default (Z.to_nat x) HEX x00) as [Hin| ->]; [|left].
    right. by apply list_elem_of_In. }
  induction l as [|x l IH]; [apply not_elem_of_nil|]. cbn [map concat app].
  rewrite !not_elem_of_cons. split_and!; [..|done]; intros ->; by apply Hc.
Qed.

(** What reaches the two handlers that change state. *)
Lemma routed_submit m path : mempool_router m path = Handle SubmitBatch ↔ m = POST ∧ path = "/transactions"%string.
Proof.
  split; [|by intros [-> ->]]. unfold mempool_router, parameter.
  destruct (segments path) as [[|a [|b [|? ?]]]|] eqn:E; try done.
  - case_bool_decide as Ha; [|done]. subst a. destruct m; try done. intros _.
    split; [done|]. apply segments_path in E. by subst path.
  - intros Hr. repeat case_match; by destruct m.
Qed.

Lemma routed_ingest m path : mempool_router m path = Handle IngestBatch ↔ m = POST ∧ path = "/transactions/ingest"%string.
Proof.
  split; [|by intros [-> ->]]. unfold mempool_router, parameter.
  destruct (segments path) as [[|a [|b [|? ?]]]|] eqn:E; try done.
  - case_bool_decide; [|done]. by destruct m.
  - destruct (bool_decide _ && bool_decide _) eqn:Hab.
    + apply andb_true_iff in Hab as [Ha%bool_decide_eq_true Hb%bool_decide_eq_true]. subst a b.
      destruct m; try done. intros _. split; [done|]. apply segments_path in E. by subst path.
    + intros Hr. repeat case_match; by destruct m.
Qed.

Lemma routed_account s : x2f ∉ bytes_of_string s → s ≠ ""%string →
  mempool_router GET ("/account/" +:+ s) = Handle (FetchAccount (bytes_of_string s)).
Proof.
  intros Hs Hne. change ("/account/" +:+ s) with ("/" +:+ "account" +:+ "/" +:+ s).
  unfold mempool_router. rewrite segments_two; [|by apply (bool_decide_unpack _); vm_compute|done].
  change (bool_decide (bytes_of_string "account" = bytes_of_string "transactions")) with false.
  change (bool_decide (bytes_of_string "account" = bytes_of_string "account")) with true.
  cbn [andb]. unfold parameter. rewrite decide_False; [done|]. intros E. apply Hne. by apply (bytes_of_string_inj s "").
Qed.

(** A relayer takes batches at the same path, but not ingests. *)
Lemma relayer_has_no_ingest : relayer_router POST "/transactions/ingest" = MethodNotAllowed.
Proof. reflexivity. Qed.

Section clients.
Context `{!LazyKey} `{!Json} `{!ConsensusLib} `{!ClientJson}.
Variables (h : Host) (base : string).
Notation "'self'" := (mkClient base).

Lemma http_request_at m path body : http_request base h m (base +:+ path) body = mempool_serve h m path body.
Proof. unfold http_request. by rewrite strip_prefix_app. Qed.

Lemma served_submit body :
  zlen body ≤ Webserver.max_request_bytes (max_batch_bytes (h_state h)) →
  http_request base h POST (base +:+ "/transactions") body
  = serve_submit (h_state h) (h_alive h) (h_rng h) (h_capacity h) (h_open h) (h_queue h) (h_waiter h) (h_submit h) body.
Proof.
  intros Hb. rewrite http_request_at. unfold mempool_serve, mempool_handle.
  rewrite (proj2 (routed_submit POST "/transactions")) by done. unfold limited. by rewrite (proj2 (Z.ltb_ge _ _)).
Qed.
Lemma served_ingest body :
  zlen body ≤ Webserver.max_request_bytes (max_batch_bytes (h_state h)) →
  http_request base h POST (base +:+ "/transactions/ingest") body
  = serve_ingest (h_state h) (h_alive h) (h_rng h) (h_capacity h) (h_open h) (h_queue h) (h_waiter h) (h_ingest h) body.
Proof.
  intros Hb. rewrite http_request_at. unfold mempool_serve, mempool_handle.
  rewrite (proj2 (routed_ingest POST "/transactions/ingest")) by done. unfold limited. by rewrite (proj2 (Z.ltb_ge _ _)).
Qed.

(** The escapes of a segment: text without [%] is itself. *)
Definition decodes_plain : Prop := ∀ s : string, "%"%byte ∉ bytes_of_string s → h_decode h (bytes_of_string s) = Some s.

Lemma served_account pk : tpk_wf pk → decodes_plain →
  http_request base h GET (base +:+ "/account/" +:+ tpk_display pk) [] = serve_account (h_reader h) (tpk_display pk).
Proof.
  intros Hwf Hdec. rewrite http_request_at. unfold mempool_serve, mempool_handle, tpk_display.
  rewrite routed_account.
  - unfold with_parameter. rewrite Hdec; [done|]. by apply hex_lower_plain, (bool_decide_unpack _); vm_compute.
  - by apply hex_lower_plain, (bool_decide_unpack _); vm_compute.
  - intros E. apply (f_equal (zlen ∘ bytes_of_string)) in E. cbn in E. rewrite hex_lower_length in E.
    unfold zlen in E. rewrite tpk_as_ref_length in E by done. cbn in E. lia.
Qed.

Lemma verified_body_fits st alive rng body vb :
  verify_body st alive rng body = Ok vb → zlen body ≤ Webserver.max_request_bytes (max_batch_bytes st).
Proof. unfold verify_body. intros E. case_match; [done|]. by apply Z.ltb_ge. Qed.

(** C23. The client over whole URLs.  Whatever the base address, the client's
    submission, ingest and account query reach their handlers through the
    mempool's router and the limit on bodies: the batch of a valid client is
    never refused by the server, the answers are those of the actor and of the
    state database, and only a full or closed mailbox gives unavailability.  No
    other method or path reaches the two handlers that put work in the mailbox. *)
Theorem client_over_http txs :
  txs ≠ [] → Forall signed_wf txs → zlen txs < 2 ^ 32 →
  forallb (lst_signature_ok (namespace (h_state h))) (lst_new <$> txs) = true →
  batch_bytes txs ≤ max_batch_bytes (h_state h) → max_batch_bytes (h_state h) + 5 ≤ u64_max →
  h_alive h = true → decodes_plain →
  let room := h_open h && bool_decide (length (h_queue h) < h_capacity h)%nat in
  client_submit self (http_request base h POST) txs
    = (if room then ok_or (h_submit h) InternalServerError else Err ServiceUnavailable) ∧
  client_ingest self (http_request base h POST) txs
    = (if room then match h_ingest h with
         | Some true => Ok (mkIngestView (digest_to_string ∘ message_digest <$> txs))
         | Some false => Err ServiceUnavailable
         | None => Err InternalServerError
         end
       else Err ServiceUnavailable) ∧
  (∀ pk db_get,
    tpk_wf pk →
    h_reader h = Some (λ k, match state_reader_get db_get k with Ret o => o | Panic _ => None end) →
    ∃ key, from_public_key pk = Ret key ∧
      client_fetch_account self (λ url, http_request base h GET url []) pk
      = Ok (account_view <$> default None (db_get key))) ∧
  (∀ m path, (mempool_router m path = Handle SubmitBatch ↔ m = POST ∧ path = "/transactions"%string) ∧
             (mempool_router m path = Handle IngestBatch ↔ m = POST ∧ path = "/transactions/ingest"%string)).
Proof.
  intros Hne Hwf Hn Hsig Hmax Hcap Halive Hdec room.
  destruct (verify_body_valid (h_state h) (h_rng h) txs) as (txs' & _ & Hv); [done..|].
  pose proof (verified_body_fits _ _ _ _ _ Hv) as Hfit.
  pose proof (client_server_agree (h_state h) (h_rng h) (h_capacity h) (h_open h) (h_queue h) (h_waiter h) txs self
    (http_request base h POST) (λ url, http_request base h GET url []) Hne Hwf Hn Hsig Hmax Hcap) as agree.
  split_and!.
  - apply agree. cbn [client_url]. rewrite served_submit by done. by rewrite Halive.
  - apply agree. cbn [client_url]. rewrite served_ingest by done. by rewrite Halive.
  - intros pk db_get Hpk Hr. apply agree; [done|]. cbn [client_url]. by rewrite served_account, Hr.
  - intros m path. split; [apply routed_submit|apply routed_ingest].
Qed.
End clients.

(** ** Witness *)

Definition sample_host : Host :=
  mkHost sample_app_state true 1 4 true [] 0 (Some (TxFinalized 7)) (Some true) (λ _, None) None
    (Some (λ k, match state_reader_get (λ _, None) k with Ret o => o | Panic _ => None end))
    (λ b, Some (string_of_bytes b)) (λ _, []) (λ _, []) (λ _, []).

Lemma client_over_http_witness :
  client_submit (mkClient "http://v:80") (http_request "http://v:80" sample_host POST) sample_batch = Ok (TxFinalized 7).
Proof.
  apply (client_over_http sample_host "http://v:80" sample_batch ltac:(done) sample_batch_wf ltac:(done)
    ltac:(vm_compute; reflexivity) ltac:(vm_compute; discriminate) ltac:(vm_compute; discriminate) eq_refl).
  intros s _. cbn. by rewrite string_of_bytes_of.
Defined.
