(* ===== verification/Engine.v ===== *)
(** * Engine assembly (crates/engine/src/engine.rs, the start of an engine in bin/validator/src/run.rs)

    How [Engine::new] configures its parts from the settings of a node and from
    what it finds on disk, which channel each part is started on, and when the
    node's tasks end it.  The theorems compose this with the deployment tool,
    the settings loader and the application: the nodes of a generated network
    agree on their genesis block, and a restarted node resumes at the block it
    had finalized. *)

From stdpp Require Import prelude gmap list strings pretty.
From S2P Require Import Prelude Interfaces Concrete Spammer Settings Deploy LocalBundle Transaction Database Block Execution Application.

(** ** The libraries *)

(** Threshold schemes of commonware-consensus: a scheme verifies for the
    players and the public polynomial of an output, and signs with a share that
    belongs to it.  The shares of a deal belong to its output. *)
Class ThresholdLib `{DkgLib} := {
  Sharing : Type;
  output_players : DkgOutput → list ed_pk;
  output_public : DkgOutput → Sharing;
  Scheme : Type;
  scheme_signer : bytes → list ed_pk → Sharing → Share → option Scheme;
  scheme_verifier : bytes → list ed_pk → Sharing → Scheme;
  deal_players rng ps o shares : dkg_deal rng ps = Some (o, shares) → output_players o ≡ₚ ps;
  deal_signer rng ps o shares ns s :
    dkg_deal rng ps = Some (o, shares) → s ∈ shares.*2 →
    is_Some (scheme_signer ns (output_players o) (output_public o) s)
}.

(** Erasure-coded blocks and finalizations: the commitment to a coded block
    carries the digest of the block, which is its seal.  [SyncPlan] decides how
    a node without finalizations starts. *)
Class CodingLib `{LazyKey} `{ConsensusLib} := {
  CodingConfig : Type;
  coding_config_for_participants : Z → CodingConfig;
  commitment_from : digest → digest → digest → CodingConfig → commitment;
  CodedBlock : Type;
  coded_new : SealedBlock → CodingConfig → CodedBlock;
  coded_commitment : CodedBlock → commitment;
  StoredBlock : Type;
  into_inner : StoredBlock → SealedBlock;
  commitment_to_inner : commitment → digest;
  peer_of : ed_pk → peer;
  Finalization : Type;
  finalization_payload : Finalization → commitment;
  MarshalStart : Type;
  start_floor : Finalization → MarshalStart;
  SyncPlan : Type;
  may_state_sync : SyncPlan → bool;
  with_floor : SyncPlan → Finalization → SyncPlan;
  marshal_start : SyncPlan → CodedBlock → MarshalStart;
  coded_commitment_inner b c : commitment_to_inner (coded_commitment (coded_new b c)) = seal b
}.

(** ** Constants *)

Definition FIXED_EPOCH_LENGTH : Z := u64_max.
Definition MAILBOX_SIZE : Z := 1024.
Definition ACTIVITY_TIMEOUT : Z := 256.
Definition PRUNABLE_ITEMS_PER_SECTION : Z := 4096.
Definition FREEZER_VALUE_COMPRESSION : option Z := None.
Definition REPLAY_BUFFER : Z := 8 * 1024 * 1024.
Definition WRITE_BUFFER : Z := 1024 * 1024.
Definition ITEMS_PER_BLOB : Z := 1048576 * 25.
Definition MAX_REPAIR : Z := 200.
Definition MAX_PENDING_ACKS : Z := 1.
Definition SHARD_BACKGROUND_CHANNEL_CAPACITY : Z := 1024.
Definition SHARD_PEER_BUFFER_SIZE : Z := 64.
Definition DB_WRITE_BUFFER : Z := 8 * 1024 * 1024.
(** Durations in milliseconds. *)
Definition STATE_SYNC_INITIAL : Z := 1000.
Definition STATE_SYNC_TIMEOUT : Z := 2000.
Definition STATE_SYNC_RETRY : Z := 100.

Definition VOTE_CHANNEL : Z := 0.
Definition CERTIFICATE_CHANNEL : Z := 1.
Definition RESOLVER_CHANNEL : Z := 2.
Definition MARSHAL_CHANNEL : Z := 3.
Definition MARSHAL_RESOLVER_CHANNEL : Z := 4.
Definition STATE_RESOLVER_CHANNEL : Z := 5.
Definition TRANSACTION_RESOLVER_CHANNEL : Z := 6.
Definition PROBE_CHANNEL : Z := 7.
Definition CHANNELS : list Z :=
  [VOTE_CHANNEL; CERTIFICATE_CHANNEL; RESOLVER_CHANNEL; MARSHAL_CHANNEL; MARSHAL_RESOLVER_CHANNEL;
   STATE_RESOLVER_CHANNEL; TRANSACTION_RESOLVER_CHANNEL; PROBE_CHANNEL].

(** ** Storage *)

(** The configurations of the two archives, of the account database and of the
    transaction history, as functions of the partition prefix. *)
Record ArchiveConfig := mkArchiveConfig {
  ar_key_partition : string; ar_value_partition : string; ar_compression : option Z;
  ar_items_per_section : Z; ar_replay_buffer : Z; ar_key_write_buffer : Z; ar_value_write_buffer : Z }.
Definition init_finalizations_archive (prefix : string) : ArchiveConfig :=
  mkArchiveConfig (prefix +:+ "-finalizations-by-height-key") (prefix +:+ "-finalizations-by-height-value")
    FREEZER_VALUE_COMPRESSION PRUNABLE_ITEMS_PER_SECTION REPLAY_BUFFER WRITE_BUFFER WRITE_BUFFER.
Definition init_finalized_blocks_archive (prefix : string) : ArchiveConfig :=
  mkArchiveConfig (prefix +:+ "-finalized-blocks-key") (prefix +:+ "-finalized-blocks-value")
    FREEZER_VALUE_COMPRESSION PRUNABLE_ITEMS_PER_SECTION REPLAY_BUFFER WRITE_BUFFER WRITE_BUFFER.

Record StateDbConfig := mkStateDbConfig {
  sd_merkle_journal : string; sd_merkle_metadata : string; sd_merkle_items_per_blob : Z;
  sd_merkle_write_buffer : Z; sd_log : string; sd_log_items_per_blob : Z; sd_log_write_buffer : Z }.
Definition state_db_config (prefix : string) : StateDbConfig :=
  mkStateDbConfig (prefix +:+ "-state-journal") (prefix +:+ "-state-metadata") ITEMS_PER_BLOB DB_WRITE_BUFFER
    (prefix +:+ "-state-log") ITEMS_PER_BLOB DB_WRITE_BUFFER.
Record TransactionDbConfig := mkTransactionDbConfig { td_merkle : string }.
Definition transaction_db_config (prefix : string) : TransactionDbConfig :=
  mkTransactionDbConfig (prefix +:+ "-transactions-merkle").

(** The queue and the cursor of the indexer (run.rs), with the bound on active
    uploads. *)
Definition queue_partition (prefix : string) : string := prefix +:+ "-finalized-index-queue".
Definition cursor_partition (prefix : string) : string := prefix +:+ "-finalized-index-cursor".
Definition MAX_FINALIZED_QUEUE_UPLOADS : Z := 64.
Definition max_active_uploads (cfg : IndexerConfig) : Z :=
  Z.max 1 (Z.min (ix_upload_buffer cfg) MAX_FINALIZED_QUEUE_UPLOADS).

(** ** The engine *)

Section engine.
Context `{LazyKey} `{ConsensusLib} `{!DkgLib} `{!ThresholdLib} `{!CodingLib}.

(** What the storage library answers when the engine opens its partitions. *)
Record FinalizationsArchive := mkFinalizations {
  fa_last_index : option Z; fa_get : Z → option (option Finalization) }.
Definition BlocksArchive : Type := digest → option (option StoredBlock).
Record Disk := mkDisk {
  open_finalizations : ArchiveConfig → option FinalizationsArchive;
  open_blocks : ArchiveConfig → option BlocksArchive;
  open_plan : string → SyncPlan;
  open_state_target : StateDbConfig → option StateSyncTarget;
  open_transactions_target : TransactionDbConfig → option TransactionHistoryTarget }.

Inductive StartupMode : Type :=
| StartMarshalSync
| StartStateSync (finalization : Finalization).

Record SyncEngineConfig := mkSyncEngineConfig {
  se_fetch_batch_size : Z; se_apply_batch_size : Z; se_max_outstanding_requests : Z;
  se_update_channel_size : Z; se_max_retained_roots : Z }.

(** [struct Config], less the handles of the network and the mempool. *)
Record EngineConfig := mkEngineConfig {
  ec_signer : ed_sk; ec_namespace : bytes; ec_output : DkgOutput; ec_share : option Share;
  ec_partition_prefix : string; ec_signature_strategy : Strategy; ec_hash_strategy : Strategy;
  ec_startup : StartupMode; ec_sync_config : SyncEngineConfig; ec_prune_cadence_blocks : Z;
  ec_genesis_leader : ed_pk; ec_transaction_namespace : bytes;
  ec_simplex_observer : option SimplexObserver; ec_finalized_hook : bool }.

Inductive SimplexFloor : Type :=
| FloorGenesis (c : commitment)
| FloorFinalized (f : Finalization).

(** The configurations handed to the parts: the two sync resolvers, marshal,
    the shard engine, the stateful application and simplex. *)
Record ResolverConfig := mkResolverConfig {
  rs_me : ed_pk; rs_mailbox_size : Z; rs_initial : Z; rs_timeout : Z; rs_fetch_retry_timeout : Z;
  rs_max_serve_ops : option Z }.
Record MarshalConfig := mkMarshalConfig {
  ms_scheme : Scheme; ms_epoch_length : Z; ms_start : MarshalStart; ms_partition_prefix : string;
  ms_mailbox_size : Z; ms_view_retention_timeout : Z; ms_items_per_section : Z; ms_replay_buffer : Z;
  ms_key_write_buffer : Z; ms_value_write_buffer : Z; ms_max_repair : Z; ms_max_pending_acks : Z }.
Record ShardsConfig := mkShardsConfig {
  sh_scheme : Scheme; sh_maximum_shard_size : Z; sh_mailbox_size : Z; sh_peer_buffer_size : Z;
  sh_background_channel_capacity : Z }.
Record StatefulConfig := mkStatefulConfig {
  sf_application : Application; sf_state_db : StateDbConfig; sf_transaction_db : TransactionDbConfig;
  sf_max_pending_acks : Z; sf_mailbox_size : Z; sf_plan : SyncPlan; sf_sync_config : SyncEngineConfig }.
Record SimplexConfig := mkSimplexConfig {
  sx_scheme : Scheme; sx_observer : option SimplexObserver; sx_partition : string; sx_mailbox_size : Z;
  sx_epoch : Z; sx_floor : SimplexFloor; sx_replay_buffer : Z; sx_write_buffer : Z;
  sx_leader_timeout : Z; sx_certification_timeout : Z; sx_timeout_retry : Z; sx_fetch_timeout : Z;
  sx_activity_timeout : Z; sx_skip_timeout : Z; sx_fetch_concurrent : Z }.
Record Engine := mkEngine {
  en_signer : ed_sk; en_state_resolver : ResolverConfig; en_transaction_resolver : ResolverConfig;
  en_marshal : MarshalConfig; en_shards : ShardsConfig; en_stateful : StatefulConfig;
  en_simplex : SimplexConfig }.

Definition threshold_scheme (namespace : bytes) (output : DkgOutput) (share : option Share) : run Scheme :=
  let participants := output_players output in
  match share with
  | Some share =>
      expect (scheme_signer namespace participants (output_public output) share)
        "share must belong to the configured threshold output"
  | None => Ret (scheme_verifier namespace participants (output_public output))
  end.

Definition block_targets (blk : SealedBlock) : StateSyncTarget * TransactionHistoryTarget :=
  let h := header (inner blk) in
  (mkStateTarget (state_root h) (range_start (state_range h)) (range_end (state_range h)),
   mkHistoryTarget (transactions_root h) (range_end (transactions_range h))).

(** [union]. *)
Definition consensus_namespace (namespace : bytes) : bytes := namespace ++ bytes_of_string "_CONSENSUS".

(** The targets, the start of marshal, the floor of simplex and the plan: those
    of a recovered floor, else those of the genesis block of the databases. *)
Definition recovered_floor (fa : FinalizationsArchive) : run (option Finalization) :=
  match fa_last_index fa with
  | Some height => expect (fa_get fa height) "failed to read recovered finalization floor"
  | None => Ret None
  end.
Definition start_at_floor (blocks : BlocksArchive) (plan : SyncPlan) (finalization : Finalization)
    : run (StateSyncTarget * TransactionHistoryTarget * MarshalStart * SimplexFloor * SyncPlan) :=
  let block_digest := commitment_to_inner (finalization_payload finalization) in
  stored ← expect (blocks block_digest) "failed to read recovered finalization floor block";
  stored ← expect stored "recovered finalization floor block must exist";
  let '(state_target, transaction_target) := block_targets (into_inner stored) in
  Ret (state_target, transaction_target, start_floor finalization, FloorFinalized finalization, plan).
Definition start_at_genesis (config : EngineConfig) (disk : Disk) (coding_config : CodingConfig)
    (genesis_parent : commitment) (plan : SyncPlan)
    : run (StateSyncTarget * TransactionHistoryTarget * MarshalStart * SimplexFloor * SyncPlan) :=
  state_target ← expect (open_state_target disk (state_db_config (ec_partition_prefix config)))
    "state db must initialize for genesis target";
  transactions_target ←
    expect (open_transactions_target disk (transaction_db_config (ec_partition_prefix config)))
      "transaction history db must initialize for genesis target";
  genesis_block ← genesis_block_with_parent (peer_of (ec_genesis_leader config)) (view_zero, genesis_parent) 0
                    state_target transactions_target;
  let coded_block := coded_new genesis_block coding_config in
  let commitment := coded_commitment coded_block in
  let '(floor, plan) :=
    match ec_startup config with
    | StartStateSync finalization =>
        if may_state_sync plan then (FloorFinalized finalization, with_floor plan finalization)
        else (FloorGenesis commitment, plan)
    | StartMarshalSync => (FloorGenesis commitment, plan)
    end in
  Ret (state_target, transactions_target, marshal_start plan coded_block, floor, plan).

(** The configuration of each part. *)
Definition resolver_config (config : EngineConfig) (max_serve_ops : option Z) : ResolverConfig :=
  mkResolverConfig (ed_public_key (ec_signer config)) MAILBOX_SIZE STATE_SYNC_INITIAL STATE_SYNC_TIMEOUT
    STATE_SYNC_RETRY max_serve_ops.
Definition marshal_config (config : EngineConfig) (scheme : Scheme) (start : MarshalStart) : MarshalConfig :=
  mkMarshalConfig scheme FIXED_EPOCH_LENGTH start (ec_partition_prefix config +:+ "_marshal") MAILBOX_SIZE
    ACTIVITY_TIMEOUT PRUNABLE_ITEMS_PER_SECTION REPLAY_BUFFER WRITE_BUFFER WRITE_BUFFER MAX_REPAIR MAX_PENDING_ACKS.
Definition shards_config (scheme : Scheme) : ShardsConfig :=
  mkShardsConfig scheme (1024 * 1024) MAILBOX_SIZE SHARD_PEER_BUFFER_SIZE SHARD_BACKGROUND_CHANNEL_CAPACITY.
Definition engine_application (config : EngineConfig) (genesis_parent : commitment) (state_target : StateSyncTarget)
    (transactions_target : TransactionHistoryTarget) : Application :=
  application_new (ec_signature_strategy config) (ec_hash_strategy config) (peer_of (ec_genesis_leader config))
    genesis_parent (ec_transaction_namespace config) state_target transactions_target (ec_prune_cadence_blocks config)
    (ec_finalized_hook config).
Definition stateful_config (config : EngineConfig) (application : Application) (plan : SyncPlan) : StatefulConfig :=
  mkStatefulConfig application (state_db_config (ec_partition_prefix config))
    (transaction_db_config (ec_partition_prefix config)) MAX_PENDING_ACKS MAILBOX_SIZE plan (ec_sync_config config).
Definition simplex_config (config : EngineConfig) (scheme : Scheme) (floor : SimplexFloor) : SimplexConfig :=
  mkSimplexConfig scheme (ec_simplex_observer config) (ec_partition_prefix config +:+ "_simplex") MAILBOX_SIZE 0 floor
    (1024 * 1024) (1024 * 1024) 4000 8000 10000 4000 ACTIVITY_TIMEOUT 10 32.

(** [Engine::new]. *)
Definition engine_new (config : EngineConfig) (disk : Disk) : run Engine :=
  let prefix := ec_partition_prefix config in
  scheme ← threshold_scheme (consensus_namespace (ec_namespace config)) (ec_output config) (ec_share config);
  let players := zlen (output_players (ec_output config)) in
  n_participants ← expect (if decide (players ≤ u16_max) then Some players else None)
    "participant count must fit in u16";
  let coding_config := coding_config_for_participants n_participants in
  let genesis_parent := commitment_from EMPTY EMPTY EMPTY coding_config in
  finalizations ← expect (open_finalizations disk (init_finalizations_archive prefix))
    "failed to initialize finalizations archive";
  blocks ← expect (open_blocks disk (init_finalized_blocks_archive prefix))
    "failed to initialize finalized blocks archive";
  floor ← recovered_floor finalizations;
  let plan := open_plan disk (prefix +:+ "_stateful") in
  '(state_target, transactions_target, start, floor, plan) ←
    match floor with
    | Some finalization => start_at_floor blocks plan finalization
    | None => start_at_genesis config disk coding_config genesis_parent plan
    end;
  let application := engine_application config genesis_parent state_target transactions_target in
  Ret (mkEngine (ec_signer config) (resolver_config config (Some 4096)) (resolver_config config None)
         (marshal_config config scheme start) (shards_config scheme) (stateful_config config application plan)
         (simplex_config config scheme floor)).

(** Which channels each part is started on ([Engine::run]). *)
Inductive EngineTask : Type :=
| StateResolverTask | TransactionResolverTask | ShardsTask | StatefulTask | MarshalTask | SimplexTask.
#[export] Instance EngineTask_eq_dec : EqDecision EngineTask.
Proof. solve_decision. Defined.
Record Channels := mkChannels {
  ch_votes : Z; ch_certificates : Z; ch_resolver : Z; ch_marshal : Z; ch_marshal_resolver : Z;
  ch_state_resolver : Z; ch_transaction_resolver : Z }.
Definition engine_run (channels : Channels) : list (EngineTask * list Z) :=
  [(StateResolverTask, [ch_state_resolver channels]);
   (TransactionResolverTask, [ch_transaction_resolver channels]);
   (ShardsTask, [ch_marshal channels]);
   (StatefulTask, []);
   (MarshalTask, [ch_marshal_resolver channels]);
   (SimplexTask, [ch_votes channels; ch_certificates channels; ch_resolver channels])].

(** [try_join_all] over the tasks, as they end in order with or without an
    error: it returns at the first error, or when all have ended. *)
Fixpoint try_join_all (waiting : list EngineTask) (ended : list (EngineTask * bool)) : bool :=
  match waiting, ended with
  | [], _ => true
  | _, [] => false
  | _, (_, false) :: _ => true
  | _, (task, true) :: ended' => try_join_all (filter (.≠ task) waiting) ended'
  end.

(** ** run.rs *)

Definition STATE_SYNC_APPLY_BATCH_SIZE : Z := 1024.
Definition production_sync_config : SyncEngineConfig :=
  mkSyncEngineConfig 1024 STATE_SYNC_APPLY_BATCH_SIZE 8 256 32.

Definition NETWORK_NAMESPACE : bytes := bytes_of_string "constantinople".

(** The network of a node. *)
Record P2pConfig := mkP2pConfig {
  p2_recommended : bool; p2_signer : ed_sk; p2_namespace : bytes; p2_listen : SocketAddr;
  p2_advertise : SocketAddr; p2_bootstrappers : list (ed_pk * SocketAddr); p2_max_message_size : Z }.
Definition p2p_config (config : LoadedConfig) : P2pConfig :=
  let decoded := lc_decoded config in
  mkP2pConfig (lc_deployer_managed config) (dc_signer decoded) NETWORK_NAMESPACE (dc_listen_bind decoded)
    (dc_listen_advertise decoded) (dc_bootstrappers decoded) (32 * 1024 * 1024).

(** The channels a node registers, in order: those of the engine, then the
    probe's. *)
Definition engine_channels : Channels :=
  mkChannels VOTE_CHANNEL CERTIFICATE_CHANNEL RESOLVER_CHANNEL MARSHAL_CHANNEL MARSHAL_RESOLVER_CHANNEL
    STATE_RESOLVER_CHANNEL TRANSACTION_RESOLVER_CHANNEL.

(** The scheme of the probe that looks for a state-sync floor. *)
Definition probe_scheme (output : DkgOutput) : Scheme :=
  scheme_verifier (NETWORK_NAMESPACE ++ bytes_of_string "_CONSENSUS") (output_players output) (output_public output).

(** The start-up mode; [probe] is the floor the probe selects, none when it
    exits before. *)
Definition select_startup (mode : StartupModeConfig) (probe : option Finalization) : run StartupMode :=
  match mode with
  | MarshalSync => Ret StartMarshalSync
  | StateSync =>
      finalization ← expect probe "probe actor exited before selecting a state-sync floor";
      Ret (StartStateSync finalization)
  end.

Definition engine_config (config : LoadedConfig) (plan : NodePlan) (signature_strategy hash_strategy : Strategy)
    (startup : StartupMode) : EngineConfig :=
  let decoded := lc_decoded config in
  mkEngineConfig (dc_signer decoded) NETWORK_NAMESPACE (dc_dkg_output decoded) (dc_share decoded)
    (dc_partition_prefix decoded) signature_strategy hash_strategy startup production_sync_config
    (lc_prune_cadence_blocks config) (dc_genesis_leader decoded) TRANSACTION_NAMESPACE (np_observer plan)
    (bool_decide (is_Some (np_indexer plan))).

(** The node up to the start of its engine; [disk] is what a storage directory
    holds. *)
Definition start_engine (log_level_ok : string → bool) (max_blocking_threads : Z)
    (signature_strategy hash_strategy : Strategy) (probe : option Finalization) (disk : string → Disk)
    (config : LoadedConfig) (config_path : string) : run (NodePlan * Engine) :=
  plan ← run_with_config log_level_ok max_blocking_threads config config_path;
  startup ← select_startup (lc_startup config) probe;
  engine ← engine_new (engine_config config plan signature_strategy hash_strategy startup) (disk (np_storage plan));
  Ret (plan, engine).

(** What ends in a running node, in order, and the first critical task to end
    ([wait_for_critical_task_exit]): the account reader's setup is not one, and
    a node without a server waits for none. *)
Inductive NodeEvent : Type :=
| EngineTaskEnded (task : EngineTask) (clean : bool)
| ProbeEnded | ServerEnded | NetworkEnded | SetupEnded.
Inductive CriticalTask : Type := ProbeExited | EngineExited | MempoolExited | NetworkExited.
Definition engine_events (events : list NodeEvent) : list (EngineTask * bool) :=
  omap (λ e, match e with EngineTaskEnded t c => Some (t, c) | _ => None end) events.
Fixpoint wait_for_critical_task_exit (has_server : bool) (before events : list NodeEvent) : option CriticalTask :=
  match events with
  | [] => None
  | e :: events' =>
      let seen := before ++ [e] in
      let ended :=
        match e with
        | ProbeEnded => Some ProbeExited
        | EngineTaskEnded _ _ =>
            if try_join_all (engine_run engine_channels).*1 (engine_events seen) then Some EngineExited else None
        | ServerEnded => if has_server then Some MempoolExited else None
        | NetworkEnded => Some NetworkExited
        | SetupEnded => None
        end in
      match ended with Some t => Some t | None => wait_for_critical_task_exit has_server seen events' end
  end.
End engine.

(** ** The binary *)

(** [struct Cli] and what its parser accepts: one of the two network sources. *)
Record Cli := mkCli { cli_config : string; cli_peers : option string; cli_hosts : option string }.
Definition cli_accepted (cli : Cli) : bool :=
  xorb (bool_decide (is_Some (cli_peers cli))) (bool_decide (is_Some (cli_hosts cli))).

Section binary.
Context `{LazyKey} `{ConsensusLib} `{!DkgLib} `{!ThresholdLib} `{!CodingLib} `{YamlLib} `{Ipv6Text}.
Variables (read_to_string : string → option string) (yaml_hosts : string → option (list (string * IpAddr))).
Variables (log_level_ok : string → bool) (max_blocking_threads : Z) (signature_strategy hash_strategy : Strategy).
Variables (probe : option Finalization) (disk : string → Disk).

Abbreviation start :=
  (start_engine log_level_ok max_blocking_threads signature_strategy hash_strategy probe disk).
Definition run_local (peers_path config_path : string) : run (NodePlan * Engine) :=
  loaded ← load_local_config read_to_string peers_path config_path; start loaded config_path.
Definition run_deployer (hosts_path config_path : string) : run (NodePlan * Engine) :=
  loaded ← load_deployer_config read_to_string yaml_hosts hosts_path config_path; start loaded config_path.
Definition validator_main (cli : Cli) : run (NodePlan * Engine) :=
  match cli_hosts cli with
  | Some hosts => run_deployer hosts (cli_config cli)
  | None =>
      peers ← expect (cli_peers cli) "clap should require --peers or --hosts";
      run_local peers (cli_config cli)
  end.

(** A command line the parser accepts never reaches that panic. *)
Lemma validator_main_accepted cli : cli_accepted cli = true →
  (∃ hosts, cli_hosts cli = Some hosts ∧ cli_peers cli = None ∧
     validator_main cli = run_deployer hosts (cli_config cli)) ∨
  (∃ peers, cli_peers cli = Some peers ∧ cli_hosts cli = None ∧
     validator_main cli = run_local peers (cli_config cli)).
Proof.
  destruct cli as [config [peers|] [hosts|]]; cbn; try discriminate; intros _; [right; by exists peers|left; by exists hosts].
Qed.
End binary.

(** ** Lemmas *)

Section lemmas.
Context `{LazyKey} `{ConsensusLib} `{!DkgLib} `{!ThresholdLib} `{!CodingLib}.

(** The parent of the genesis block and the block, which depend only on what
    the nodes share. *)
Definition network_coding (output : DkgOutput) : CodingConfig :=
  coding_config_for_participants (zlen (output_players output)).
Definition network_genesis (output : DkgOutput) (leader : ed_pk) (st : StateSyncTarget)
    (tt : TransactionHistoryTarget) : run SealedBlock :=
  genesis_block_with_parent (peer_of leader) (view_zero, commitment_from EMPTY EMPTY EMPTY (network_coding output)) 0 st tt.

(** A disk on which the node has finalized nothing and its databases are as
    they are created. *)
Record fresh_disk (disk : Disk) (prefix : string) (st : StateSyncTarget) (tt : TransactionHistoryTarget) : Prop := {
  fd_finalizations : ∃ fa, open_finalizations disk (init_finalizations_archive prefix) = Some fa ∧ fa_last_index fa = None;
  fd_blocks : is_Some (open_blocks disk (init_finalized_blocks_archive prefix));
  fd_state : open_state_target disk (state_db_config prefix) = Some st;
  fd_transactions : open_transactions_target disk (transaction_db_config prefix) = Some tt }.

(** Targets of databases that hold at least their first commit. *)
Definition targets_ok (st : StateSyncTarget) (tt : TransactionHistoryTarget) : Prop :=
  0 ≤ target_start st < target_end st ∧ target_end st ≤ u64_max ∧ 1 ≤ leaf_count tt ≤ u64_max.

(** Where simplex starts on a fresh disk and the plan the node follows: the
    genesis block, unless the node syncs the state and its plan still may; then
    the finalization the probe selected. *)
Definition fresh_floor (startup : StartupMode) (plan : SyncPlan) (c : commitment) : SimplexFloor * SyncPlan :=
  match startup with
  | StartStateSync f => if may_state_sync plan then (FloorFinalized f, with_floor plan f) else (FloorGenesis c, plan)
  | StartMarshalSync => (FloorGenesis c, plan)
  end.

(** What an engine that starts from the genesis block [g] runs with. *)
Record at_genesis (config : EngineConfig) (disk : Disk) (g : SealedBlock) (e : Engine) : Prop := {
  ag_floor : (sx_floor (en_simplex e), sf_plan (en_stateful e))
    = fresh_floor (ec_startup config) (open_plan disk (ec_partition_prefix config +:+ "_stateful"))
        (coded_commitment (coded_new g (network_coding (ec_output config))));
  ag_start : ms_start (en_marshal e)
    = marshal_start (sf_plan (en_stateful e)) (coded_new g (network_coding (ec_output config)));
  ag_genesis : genesis (sf_application (en_stateful e)) = Ret g;
  ag_namespace : transaction_namespace (sf_application (en_stateful e)) = ec_transaction_namespace config;
  ag_scheme : threshold_scheme (consensus_namespace (ec_namespace config)) (ec_output config) (ec_share config)
    = Ret (sx_scheme (en_simplex e)) ∧
    ms_scheme (en_marshal e) = sx_scheme (en_simplex e) ∧ sh_scheme (en_shards e) = sx_scheme (en_simplex e) }.

Lemma engine_starts_fresh config disk st tt scheme g :
  threshold_scheme (consensus_namespace (ec_namespace config)) (ec_output config) (ec_share config) = Ret scheme →
  zlen (output_players (ec_output config)) ≤ u16_max → fresh_disk disk (ec_partition_prefix config) st tt →
  network_genesis (ec_output config) (ec_genesis_leader config) st tt = Ret g →
  ∃ e, engine_new config disk = Ret e ∧ at_genesis config disk g e.
Proof.
  intros Hs Hp [(fa & Hfa & Hnone) [bl Hbl] Hst Htt] Hg. unfold engine_new. rewrite Hs. cbn [mbind run_bind].
  rewrite decide_True by done. cbn [mbind run_bind expect]. rewrite Hfa. cbn [mbind run_bind expect].
  rewrite Hbl. cbn [mbind run_bind expect]. unfold recovered_floor. rewrite Hnone. cbn [mbind run_bind].
  unfold start_at_genesis. rewrite Hst. cbn [mbind run_bind expect]. rewrite Htt. cbn [mbind run_bind expect].
  unfold network_genesis, network_coding in Hg. rewrite Hg. cbn [mbind run_bind].
  destruct (match ec_startup config with StartMarshalSync => _ | StartStateSync _ => _ end) as [floor plan] eqn:Hfl.
  cbn [mbind run_bind]. eexists. split; [reflexivity|]. by constructor.
Qed.

Lemma network_genesis_ok output leader st tt :
  targets_ok st tt →
  ∃ g, network_genesis output leader st tt = Ret g ∧ sync_targets g = (st, tt) ∧
    height (header (inner g)) = 0 ∧ body (inner g) = [].
Proof.
  intros (Hs & He & Ht). unfold network_genesis, genesis_block_with_parent, non_empty_range.
  destruct (range_new_ok (target_start st) (target_end st)) as (sr & Hsr); [unfold is_u64; lia..|].
  destruct (range_new_ok 0 (leaf_count tt)) as (tr & Htr); [done|unfold is_u64; lia|lia|].
  rewrite Hsr, Htr. cbn [expect mbind run_bind].
  apply range_new_Some in Hsr as (_ & _ & _ & Hs1 & Hs2). apply range_new_Some in Htr as (_ & _ & _ & _ & Ht2).
  eexists. split_and!; [reflexivity| |done..]. unfold sync_targets, header_range_to_target. cbn.
  rewrite Hs1, Hs2, Ht2. by destruct st, tt.
Qed.

(** The shares of a bundle's deal belong to its output. *)
Lemma material_scheme m signers secondary_signers ns share :
  material_ok m signers secondary_signers → (∀ s, share = Some s → ∃ k, cm_shares m !! k = Some s) →
  zlen (output_players (cm_dkg_output m)) = zlen signers ∧ ∃ scheme, threshold_scheme ns (cm_dkg_output m) share = Ret scheme.
Proof.
  intros Hok Hsh. destruct (mo_deal _ _ _ Hok) as (rng & shares & Hd & Hin). split.
  - apply deal_players in Hd. rewrite (mo_keys _ _ _ Hok) in Hd. apply Permutation_length in Hd. unfold zlen. by rewrite Hd, length_fmap.
  - destruct share as [s|]; [|by eexists]. destruct (Hsh s eq_refl) as [k Hk].
    destruct (deal_signer _ _ _ _ ns s Hd (Hin _ _ Hk)) as [scheme Hscheme]. exists scheme. cbn. by rewrite Hscheme.
Qed.

(** A recovered floor: the engine reads the last finalization and its block. *)
Lemma engine_starts_at_floor config disk scheme fa bl last finalization stored :
  threshold_scheme (consensus_namespace (ec_namespace config)) (ec_output config) (ec_share config) = Ret scheme →
  zlen (output_players (ec_output config)) ≤ u16_max →
  open_finalizations disk (init_finalizations_archive (ec_partition_prefix config)) = Some fa →
  open_blocks disk (init_finalized_blocks_archive (ec_partition_prefix config)) = Some bl →
  fa_last_index fa = Some last → fa_get fa last = Some (Some finalization) →
  bl (commitment_to_inner (finalization_payload finalization)) = Some (Some stored) →
  ∃ e, engine_new config disk = Ret e ∧
    sx_floor (en_simplex e) = FloorFinalized finalization ∧ ms_start (en_marshal e) = start_floor finalization ∧
    sf_application (en_stateful e)
    = application_new (ec_signature_strategy config) (ec_hash_strategy config) (peer_of (ec_genesis_leader config))
        (commitment_from EMPTY EMPTY EMPTY (network_coding (ec_output config))) (ec_transaction_namespace config)
        (block_targets (into_inner stored)).1 (block_targets (into_inner stored)).2 (ec_prune_cadence_blocks config)
        (ec_finalized_hook config).
Proof.
  intros Hs Hp Hfa Hbl Hlast Hget Hblock. unfold engine_new. rewrite Hs. cbn [mbind run_bind].
  rewrite decide_True by done. cbn [mbind run_bind expect]. rewrite Hfa. cbn [mbind run_bind expect].
  rewrite Hbl. cbn [mbind run_bind expect]. unfold recovered_floor. rewrite Hlast, Hget. cbn [mbind run_bind expect].
  unfold start_at_floor. rewrite Hblock. cbn [mbind run_bind expect]. by eexists.
Qed.

(** The targets the engine reads from a block are those the application
    announces for it. *)
Lemma block_targets_sync blk : block_targets blk = sync_targets blk.
Proof. done. Qed.

(** Ends of tasks. *)
Lemma try_join_all_spec waiting ended :
  try_join_all waiting ended = true ↔
  (∃ task, (task, false) ∈ ended) ∨ ∀ task, task ∈ waiting → (task, true) ∈ ended.
Proof.
  revert waiting. induction ended as [|[t c] ended IH]; intros waiting; destruct waiting as [|w ws]; cbn [try_join_all].
  1,3: split; [intros _; right; by intros t' ?%not_elem_of_nil|done].
  - split; [done|]. intros [[t ?%not_elem_of_nil]|Hall]; [done|]. specialize (Hall w ltac:(left)). by apply not_elem_of_nil in Hall.
  - destruct c; [|split; [intros _; left; exists t; left|done]]. rewrite IH. split; (intros [[u Hu]|Hall]; [left; exists u|right; intros u Hu]).
    + by right.
    + destruct (decide (u = t)) as [->|]; [left|right]. apply Hall. by apply list_elem_of_filter.
    + by apply elem_of_cons in Hu as [[=]|].
    + apply list_elem_of_filter in Hu as [Hne Hu]. specialize (Hall u Hu). apply elem_of_cons in Hall as [[=]|]; done.
Qed.

Lemma try_join_all_app waiting ended more :
  try_join_all waiting (ended ++ more) = false → try_join_all waiting ended = false.
Proof.
  rewrite <- !not_true_iff_false, !try_join_all_spec. intros Hn [[t Ht]|Hall]; apply Hn; [left; exists t|right; intros t Ht];
    apply elem_of_app; left; auto.
Qed.

Lemma engine_events_app a b : engine_events (a ++ b) = engine_events a ++ engine_events b.
Proof. apply omap_app. Qed.

(** A node keeps running exactly as long as its probe, its network and its
    server do, no task of its engine failed and one of them runs. *)
Lemma node_stays_up has_server events before :
  try_join_all (engine_run engine_channels).*1 (engine_events before) = false →
  wait_for_critical_task_exit has_server before events = None ↔
  ProbeEnded ∉ events ∧ NetworkEnded ∉ events ∧ (has_server = true → ServerEnded ∉ events) ∧
  try_join_all (engine_run engine_channels).*1 (engine_events (before ++ events)) = false.
Proof.
  revert before. induction events as [|e events IH]; intros before Hb; cbn [wait_for_critical_task_exit].
  { rewrite app_nil_r. set_solver. }
  assert (before ++ e :: events = (before ++ [e]) ++ events) as Hsplit by by rewrite <- app_assoc.
  rewrite Hsplit, !not_elem_of_cons. destruct e; cbn [engine_events] in *.
  - destruct (try_join_all _ (engine_events (before ++ [EngineTaskEnded task clean]))) eqn:E.
    + split; [done|]. intros (_ & _ & _ & Hall). rewrite engine_events_app in Hall. apply try_join_all_app in Hall. congruence.
    + rewrite IH by done. naive_solver.
  - naive_solver.
  - destruct has_server; [naive_solver|]. rewrite IH; [naive_solver|].
    by rewrite engine_events_app, app_nil_r.
  - naive_solver.
  - rewrite IH; [naive_solver|]. by rewrite engine_events_app, app_nil_r.
Qed.
End lemmas.

(** ** Partitions *)

(** The partitions of a node: archives, databases, marshal, simplex, the
    stateful actor, and the indexer's queue and cursor. *)
Definition node_partitions (prefix : string) : list string :=
  let f := init_finalizations_archive prefix in
  let b := init_finalized_blocks_archive prefix in
  let s := state_db_config prefix in
  [ar_key_partition f; ar_value_partition f; ar_key_partition b; ar_value_partition b;
   sd_merkle_journal s; sd_merkle_metadata s; sd_log s; td_merkle (transaction_db_config prefix);
   prefix +:+ "_marshal"; prefix +:+ "_simplex"; prefix +:+ "_stateful";
   queue_partition prefix; cursor_partition prefix].

Lemma prefix_app (a rest : string) : String.prefix a (a +:+ rest) = true.
Proof.
  induction a as [|c a IH]; [by destruct rest|].
  change ((if Ascii.ascii_dec c c then String.prefix a (a +:+ rest) else false) = true).
  by destruct (Ascii.ascii_dec c c).
Qed.

Lemma prefix_free_app (prefix : string) (names : list string) :
  forallb (λ i, forallb (λ j, (i =? j)%nat || negb (String.prefix (nth i names "") (nth j names "")))
    (seq 0 (length names))) (seq 0 (length names)) = true →
  ∀ i j a b rest, (String.append prefix <$> names) !! i = Some a → (String.append prefix <$> names) !! j = Some b →
    i ≠ j → a +:+ rest ≠ b.
Proof.
  intros Hall i j a b rest Ha Hb Hij E. rewrite list_lookup_fmap in Ha, Hb.
  destruct (names !! i) as [x|] eqn:Hx; [|done]. destruct (names !! j) as [y|] eqn:Hy; [|done].
  cbn in Ha, Hb. injection Ha as <-. injection Hb as <-. rewrite string_app_assoc in E. apply (inj (String.append prefix)) in E.
  rewrite forallb_forall in Hall. specialize (Hall i). rewrite in_seq, forallb_forall in Hall.
  apply lookup_lt_Some in Hx as Hi. apply lookup_lt_Some in Hy as Hj.
  specialize (Hall ltac:(lia) j ltac:(apply in_seq; lia)).
  rewrite (nth_lookup_Some _ _ _ _ Hx), (nth_lookup_Some _ _ _ _ Hy), <- E, prefix_app in Hall.
  apply Nat.eqb_neq in Hij. by rewrite Hij in Hall.
Qed.

(** No partition of a node extends the name of another, so what a library
    appends to one never names another. *)
Lemma node_partitions_disjoint prefix i j a b rest :
  node_partitions prefix !! i = Some a → node_partitions prefix !! j = Some b → i ≠ j → a +:+ rest ≠ b.
Proof.
  revert i j a b rest. change (node_partitions prefix) with (String.append prefix <$>
    ["-finalizations-by-height-key"; "-finalizations-by-height-value"; "-finalized-blocks-key"; "-finalized-blocks-value";
     "-state-journal"; "-state-metadata"; "-state-log"; "-transactions-merkle"; "_marshal"; "_simplex"; "_stateful";
     "-finalized-index-queue"; "-finalized-index-cursor"]%string). by apply prefix_free_app.
Qed.

Lemma engine_channels_registered :
  concat (engine_run engine_channels).*2 ++ [PROBE_CHANNEL] ≡ₚ CHANNELS ∧ NoDup CHANNELS.
Proof.
  split; [|apply (bool_decide_unpack _); vm_compute; exact I].
  apply NoDup_Permutation; [apply (bool_decide_unpack _); vm_compute; exact I..|]. intros x. cbn. set_solver.
Qed.

(** A verified block commits to the targets of the databases it gives. *)
Lemma verified_targets `{LazyKey} `{Json} `{ConsensusLib} `{!StateDb} `{!HistoryDb}
    app clock_max alive sf rng blk parent sb tb m :
  zlen (body (inner blk)) * 2 ≤ u64_max →
  verify_child app clock_max alive sf rng blk parent (sb, tb) = Ret (Some m) →
  (sync_targets blk).1 = mkStateTarget (sm_root m.1) (sm_bounds m.1).1 (sm_bounds m.1).2 ∧
  (sync_targets blk).2 = mkHistoryTarget (tm_root m.2) (tm_bounds m.2).2.
Proof.
  intros Hlen Hv. apply verify_child_Some in Hv as (_ & _ & ts & cs & e & _ & _ & Hf & Hm & ->); [|done].
  apply finalize_child_Ret in Hf as (floor & [_ _ Ht [Hs1 Hs2] [_ Ht2] _ _] & _).
  apply commitments_match_true in Hm as (Hr1 & Hr2 & Hr3 & Hr4).
  rewrite Hr2 in Hs1, Hs2. rewrite Hr4 in Ht2. apply tm_bounds_commit in Ht. rewrite tb_size_floor in Ht.
  unfold sync_targets, header_range_to_target, into_merkleized. cbn. rewrite Ht. cbn.
  by rewrite Hs1, Hs2, Ht2, Hr1, Hr3.
Qed.

(** ** Properties *)

Section agreement.
Context `{LazyKey} `{ConsensusLib} `{!DkgLib} `{!ThresholdLib} `{!CodingLib} `{YamlLib} `{Ipv6Text}.

(** C13. A network agrees on its genesis.  The tool writes a local bundle; every
    node of it, validator or secondary, loads its file and, unless it syncs the
    state and its probe exits without a floor, starts its engine on a fresh disk
    without panicking.  All of them start from one genesis block, which has
    height zero, no transactions and the targets of the empty databases: marshal
    with the coded block, and the application answers the same block when asked
    for genesis.  Simplex starts at the commitment to it, except on a node that
    syncs the state and whose plan still may: that one starts at the
    finalization its probe selected.  A validator signs with its share and a
    secondary verifies as the probe does, in one namespace and for the output
    all share; transactions are verified in the chain's namespace. *)
Theorem network_agrees_on_genesis current_dir rng args local log_level_ok blocking yaml_hosts sig_st hash_st st tt
    (disk : string → Disk) :
  let n := ga_validators args in
  let dir := absolute_path current_dir (ga_output_dir args) in
  args_ok log_level_ok blocking args → ports_fit local (n + zlen (secondary_roles args)) →
  NoDup (fwrite <$> (ed_public_key <$>
    local_signers n ++ local_secondary_signers (zlen (secondary_roles args)))) →
  targets_ok st tt → (∀ storage prefix, fresh_disk (disk storage) prefix st tt) →
  ∃ writes output coding g,
    generate_local current_dir false rng args local = Ret writes ∧
    height (header (inner g)) = 0 ∧ body (inner g) = [] ∧ sync_targets g = (st, tt) ∧
    commitment_to_inner (coded_commitment (coded_new g coding)) = seal g ∧
    ∀ file probe, file ∈ node_files args →
      let main := validator_main (files writes !!.) yaml_hosts log_level_ok blocking sig_st hash_st probe disk
        (mkCli (path_join dir file) (Some (path_join dir PEERS_CONFIG_FILE)) None) in
      ∃ c, load_local_config (files writes !!.) (path_join dir PEERS_CONFIG_FILE) (path_join dir file) = Ret c ∧
      match select_startup (ga_startup args) probe with
      | Panic why => main = Panic why
      | Ret startup =>
          ∃ plan e, main = Ret (plan, e) ∧
            (sx_floor (en_simplex e), sf_plan (en_stateful e))
            = fresh_floor startup (open_plan (disk (np_storage plan)) (dc_partition_prefix (lc_decoded c) +:+ "_stateful"))
                (coded_commitment (coded_new g coding)) ∧
            ms_start (en_marshal e) = marshal_start (sf_plan (en_stateful e)) (coded_new g coding) ∧
            genesis (sf_application (en_stateful e)) = Ret g ∧
            transaction_namespace (sf_application (en_stateful e)) = TRANSACTION_NAMESPACE ∧
            match dc_share (lc_decoded c) with
            | Some share =>
                scheme_signer (consensus_namespace NETWORK_NAMESPACE) (output_players output) (output_public output) share
                = Some (sx_scheme (en_simplex e))
            | None => sx_scheme (en_simplex e) = probe_scheme output
            end
      end.
Proof.
  intros n dir Hargs Hports Hnd Htargets Hdisk.
  destruct (local_bundle_nodes current_dir rng args local log_level_ok blocking Hargs Hports Hnd)
    as (writes & m & leader & Hgen & Hok & Hnodes).
  destruct (network_genesis_ok (cm_dkg_output m) leader st tt Htargets) as (g & Hg & Hsync & Hh & Hb).
  exists writes, (cm_dkg_output m), (network_coding (cm_dkg_output m)), g.
  split_and!; [done..|apply coded_commitment_inner|].
  intros file probe (offset & signer & share & prefix & indexer & relayer & plan & Hshare & Hload & Hrun)%Hnodes main.
  destruct (material_scheme m _ _ (consensus_namespace NETWORK_NAMESPACE) share Hok Hshare) as [Hlen [scheme Hscheme]].
  set (c := local_node args local m leader offset signer share prefix indexer relayer) in *.
  exists c. split; [exact Hload|].
  assert (main = startup ← select_startup (ga_startup args) probe;
    e ← engine_new (engine_config c plan sig_st hash_st startup) (disk (np_storage plan)); Ret (plan, e)) as ->.
  { unfold main, validator_main, run_local. cbn [cli_hosts cli_peers cli_config expect mbind run_bind].
    assert (load_local_config (files writes !!.) (path_join dir PEERS_CONFIG_FILE) (path_join dir file) = Ret c) as ->
      by exact Hload. cbn [mbind run_bind]. unfold start_engine.
    assert (run_with_config log_level_ok blocking c (path_join dir file) = Ret plan) as -> by exact Hrun. done. }
  destruct (select_startup (ga_startup args) probe) as [startup|why]; [|done]. cbn [mbind run_bind].
  destruct (engine_starts_fresh (engine_config c plan sig_st hash_st startup) (disk (np_storage plan)) st tt scheme g)
    as (e & He & [Hfloor Hstart Hgenesis Hns [Hs _]]); [exact Hscheme| |apply Hdisk|exact Hg|].
  { cbn. rewrite Hlen. unfold zlen, local_signers, u16_max. rewrite length_fmap, length_seqZ.
    pose proof (ao_validators _ _ _ Hargs). lia. }
  exists plan, e. rewrite He. split_and!; [done..|].
  change (threshold_scheme (consensus_namespace NETWORK_NAMESPACE) (cm_dkg_output m) share
          = Ret (sx_scheme (en_simplex e))) in Hs.
  change (dc_share (lc_decoded c)) with share. clear -Hs. destruct share as [s|]; cbn in Hs |- *; [|by injection Hs as <-].
  destruct (scheme_signer _ _ _ s); cbn in Hs; [by injection Hs as <-|done].
Qed.
End agreement.

Section restart.
Context `{LazyKey} `{Json} `{ConsensusLib} `{!StateDb} `{!HistoryDb} `{!DkgLib} `{!ThresholdLib} `{!CodingLib}.

(** C14. A restart resumes at the floor.  When the archives hold a last
    finalization and the block it commits to, the engine starts without
    panicking, whatever its start-up mode: simplex and marshal start at that
    finalization.  If the block had passed verification, the application starts
    from the roots and ranges of exactly the databases its execution gave, and
    the first pruning after the restart drops the account operations before the
    end of that block, never past the sync boundary. *)
Theorem restart_resumes_at_floor config disk fa bl last finalization stored app clock_max alive sf rng parent sb tb m :
  (∀ share, ec_share config = Some share →
     is_Some (scheme_signer (consensus_namespace (ec_namespace config)) (output_players (ec_output config))
                (output_public (ec_output config)) share)) →
  zlen (output_players (ec_output config)) ≤ u16_max →
  open_finalizations disk (init_finalizations_archive (ec_partition_prefix config)) = Some fa →
  open_blocks disk (init_finalized_blocks_archive (ec_partition_prefix config)) = Some bl →
  fa_last_index fa = Some last → fa_get fa last = Some (Some finalization) →
  bl (commitment_to_inner (finalization_payload finalization)) = Some (Some stored) →
  zlen (body (inner (into_inner stored))) * 2 ≤ u64_max →
  verify_child app clock_max alive sf rng (into_inner stored) parent (sb, tb) = Ret (Some m) →
  ∃ e, engine_new config disk = Ret e ∧
    sx_floor (en_simplex e) = FloorFinalized finalization ∧
    ms_start (en_marshal e) = start_floor finalization ∧
    let app' := sf_application (en_stateful e) in
    genesis_state_target app' = mkStateTarget (sm_root m.1) (sm_bounds m.1).1 (sm_bounds m.1).2 ∧
    genesis_transactions_target app' = mkHistoryTarget (tm_root m.2) (tm_bounds m.2).2 ∧
    ∀ blk boundary, let h := height (header (inner blk)) in
      0 < h → h mod ec_prune_cadence_blocks config = 0 →
      ∃ app'', finalized app' blk boundary (λ _, true)
        = Ret (app'', (if ec_finalized_hook config then [CallHook blk] else []) ++
                      [PruneBlocks (saturating_sub h (ec_prune_cadence_blocks config));
                       PruneState (Z.min (sm_bounds m.1).2 boundary)]).
Proof.
  intros Hshare Hp Hfa Hbl Hlast Hget Hblock Hlen Hv.
  assert (∃ scheme, threshold_scheme (consensus_namespace (ec_namespace config)) (ec_output config) (ec_share config)
    = Ret scheme) as [scheme Hs].
  { destruct (ec_share config) as [share|]; [|by eexists]. destruct (Hshare share eq_refl) as [scheme Hs].
    exists scheme. cbn. by rewrite Hs. }
  destruct (engine_starts_at_floor config disk scheme fa bl last finalization stored Hs Hp Hfa Hbl Hlast Hget Hblock)
    as (e & He & Hfloor & Hstart & Happ).
  destruct (verified_targets _ _ _ _ _ _ _ _ _ _ Hlen Hv) as [Hst Htt].
  exists e. rewrite Happ. cbn. unfold block_targets. cbn. split_and!; [done..|exact Hst|exact Htt|].
  intros blk boundary Hh Hmod. unfold finalized, should_prune_after_finalize. cbn.
  rewrite (proj2 (Z.eqb_neq _ 0)) by lia. rewrite (proj2 (Z.eqb_eq _ 0) Hmod). cbn. injection Hst as _ _ ->. by eexists.
Qed.
End restart.

(** ** Concrete instances and witnesses *)

(** A scheme is what it was made from; a share belongs to the player it was
    derived from. *)
Definition conc_share (p : fb 32) : fb 32 := fb_of 32 (x01 :: fwrite p).
#[export] Program Instance conc_threshold : ThresholdLib := {|
  Sharing := list (fb 32); output_players o := o; output_public o := o;
  Scheme := bytes * list (fb 32) * option (fb 32);
  scheme_signer ns ps _ s := if decide (s ∈ conc_share <$> ps) then Some (ns, ps, Some s) else None;
  scheme_verifier ns ps _ := (ns, ps, None) |}.
Next Obligation. intros rng ps o shares [= <- <-]. done. Qed.
Next Obligation.
  intros rng ps o shares ns s [= <- <-] Hs. cbv beta. rewrite decide_True; [done|].
  by rewrite <- list_fmap_compose in Hs.
Qed.

(** A coded block is the block with its configuration, a commitment its seal. *)
#[export] Program Instance conc_coding : CodingLib := {|
  CodingConfig := Z; coding_config_for_participants n := n;
  commitment_from a b c n := fb_of 32 (to_be 8 n);
  CodedBlock := SealedBlock * Z; coded_new b n := (b, n); coded_commitment c := seal c.1;
  StoredBlock := SealedBlock; into_inner b := b; commitment_to_inner c := c; peer_of k := k;
  Finalization := fb 32; finalization_payload f := f;
  MarshalStart := fb 32 + SealedBlock; start_floor := inl;
  SyncPlan := option (fb 32); may_state_sync p := bool_decide (p = None); with_floor _ f := Some f;
  marshal_start p c := match p with Some f => inl f | None => inr c.1 end |}.
Next Obligation. done. Qed.

Definition sample_disk (floor : option SealedBlock) : Disk :=
  mkDisk (λ _, Some (mkFinalizations ((λ _, 1) <$> floor) (λ _, Some (seal <$> floor))))
    (λ _, Some (λ _, Some floor)) (λ _, None) (λ _, Some sample_gst) (λ _, Some sample_gtt).

(** A bundle whose nodes sync the state; the probe of one selects a floor. *)
Definition syncing_args : GenerateArgs :=
  mkArgs 3 true true "out" "info" 2 2 StateSync true 10 1 1000 2 sample_half 16.
Lemma syncing_args_ok : args_ok any_level 512 syncing_args.
Proof. constructor; try done; vm_compute; try split; discriminate. Qed.

Lemma network_agrees_on_genesis_witness :
  ∃ writes c plan e g, generate_local "/srv" false 7 syncing_args default_local = Ret writes ∧
    load_local_config (files writes !!.) "/srv/out/peers.yaml" "/srv/out/validator-2.yaml" = Ret c ∧
    validator_main (files writes !!.) (λ _, None) any_level 512 halves halves (Some (seal sample_child)) (λ _, sample_disk None)
      (mkCli "/srv/out/validator-2.yaml" (Some "/srv/out/peers.yaml"%string) None) = Ret (plan, e) ∧
    genesis (sf_application (en_stateful e)) = Ret g ∧ sx_floor (en_simplex e) = FloorFinalized (seal sample_child).
Proof.
  assert (NoDup (fwrite <$> (ed_public_key <$> local_signers 3 ++ local_secondary_signers 2))) as Hnd
    by (apply (bool_decide_unpack _); vm_compute; exact I).
  assert (targets_ok sample_gst sample_gtt) as Ht by (vm_compute; repeat split; discriminate).
  assert (∀ storage prefix : string, fresh_disk (sample_disk None) prefix sample_gst sample_gtt) as Hd
    by (intros; constructor; by repeat eexists).
  destruct (network_agrees_on_genesis "/srv" 7 syncing_args default_local any_level 512 (λ _, None) halves halves
    sample_gst sample_gtt (λ _, sample_disk None) syncing_args_ok sample_ports_fit Hnd Ht Hd)
    as (writes & output & coding & g & Hgen & _ & _ & _ & _ & Hnodes).
  destruct (Hnodes "validator-2.yaml"%string (Some (seal sample_child))) as (c & Hload & plan & e & Hrun & Hfloor & _ & Hg & _).
  { apply (bool_decide_unpack _). vm_compute. exact I. }
  exists writes, c, plan, e, g. split; [exact Hgen|]. split; [exact Hload|]. split; [exact Hrun|].
  split; [exact Hg|]. by injection Hfloor.
Defined.

Definition sample_engine_config : EngineConfig :=
  mkEngineConfig (ed_from_seed 1) NETWORK_NAMESPACE [ed_public_key (ed_from_seed 1)] None "node" halves halves
    StartMarshalSync production_sync_config 2 (ed_public_key (ed_from_seed 1)) TRANSACTION_NAMESPACE None false.

Definition sample_finalization : Finalization := seal sample_child.
Definition sample_archive : FinalizationsArchive :=
  mkFinalizations (Some 1) (λ _, Some (Some sample_finalization)).
Definition sample_blocks : BlocksArchive := λ _, Some (Some sample_child).

Lemma restart_resumes_at_floor_witness :
  ∃ m e, sample_verify = Ret (Some m) ∧
    engine_new sample_engine_config (sample_disk (Some sample_child)) = Ret e ∧
    sx_floor (en_simplex e) = FloorFinalized sample_finalization ∧
    genesis_state_target (sf_application (en_stateful e))
    = mkStateTarget (sm_root m.1) (sm_bounds m.1).1 (sm_bounds m.1).2.
Proof.
  destruct sample_verify_accepts as [m Hv].
  destruct (restart_resumes_at_floor sample_engine_config (sample_disk (Some sample_child))
    sample_archive sample_blocks 1 sample_finalization sample_child sample_app (2 ^ 63) true false 1 sample_parent sample_sb sample_tb m)
    as (e & He & Hfloor & _ & Htarget & _); try reflexivity.
  - intros share [=].
  - apply Z.leb_le. reflexivity.
  - exact sample_child_length.
  - exact Hv.
  - exists m, e. split; [exact Hv|]. split; [exact He|]. split; [exact Hfloor|exact Htarget].
Defined.
